(* ===== verification/_CoqProject ===== *)
-Q . S2P
Prelude.v
GoStrings.v
GoNet.v
HostPort.v
GoTime.v
GoFlag.v
Config.v
Message.v
WireNames.v
MessageCodec.v
Names.v
RData.v
RDataCorrect.v
Store.v
StoreCorrect.v
StoreQueries.v
Cache.v
CacheConcurrency.v
Resolver.v
CachedResolver.v
CachedResolverCorrect.v
Handler.v
HandlerCorrect.v
HandlerAnswers.v
HandlerResponses.v
HandlerRuns.v
Server.v
ServerCorrect.v
Lifecycle.v
LifecycleCorrect.v
Api.v
ApiCorrect.v
ApiRuns.v
Events.v
Cluster.v
ClusterCorrect.v
ClusterLiveness.v
ClusterRuns.v
Migrate.v
Daemon.v
DaemonCorrect.v
Connect.v
Cli.v
CliCorrect.v
CliRuns.v
