(* ===== verification/Prelude.v ===== *)
(** * A verification of ShardDNS

    ShardDNS is an authoritative DNS server whose zones and records live in PostgreSQL and are
    managed over an RPC interface.  This library models the program in Rocq, function by
    function, and proves that the parts do what they are for and that they fit together.

    ** The program and the files that model it

    A query comes in over UDP or TCP (server.go), is parsed (message.go), answered by the handler
    (handler.go) from a resolver, which is the store (store.go, zone.go, record.go) or a cache in
    front of it (cached.go, cache.go), and packed again.  A management call (service.go) is
    validated (names.go, rdata.go), changes the tables, and announces the change: the instance
    invalidates its own caches and publishes an event (bus.go), on which the other instances
    invalidate theirs.  The daemon (cmd/sharddnsd) reads its configuration (config.go) and starts
    and stops all this; the client (cmd/sharddns) makes management calls over HTTP.

    - [Prelude]: bytes, the outcome type [go] ([Ok], [Err], [Panic], [NoFuel]), the state monad
      [st], bounds-checked indexing and slicing, 16-, 32- and 64-bit integers, and shared lemmas.
    - [GoStrings], [GoNet], [HostPort], [GoTime], [GoFlag]: what the program uses of strings,
      strconv, unicode, hex, base64, netip, net, time.ParseDuration and flag.
    - [Message] (dns/message.go), with [WireNames] and [MessageCodec] on names and messages.
    - [Names] (dns/names.go); [RData] (dns/rdata.go), with [RDataCorrect].
    - [Store] (store/store.go, zone.go, record.go, db/schema.sql), with [StoreCorrect] and
      [StoreQueries]; [Migrate] (store.go, Migrate).
    - [Cache] (cache/cache.go), and [CacheConcurrency] on interleaved loads and invalidations.
    - [Resolver] (the interface Resolver of store.go as a type class, with the store as an
      instance), [CachedResolver] (store/cached.go), with [CachedResolverCorrect].
    - [Handler] (dns/handler.go), with [HandlerCorrect], [HandlerAnswers], [HandlerResponses], and
      [HandlerRuns] for concrete queries.
    - [Server] (dns/server.go: datagrams, connections, buffers), with [ServerCorrect];
      [Lifecycle] (dns/server.go: Listen, Serve and its goroutines), with [LifecycleCorrect].
    - [Api] (api/service.go), with [ApiCorrect], and [ApiRuns] for concrete calls.
    - [Events] (events/bus.go and the closures of main.go that use it).
    - [Cluster]: any number of instances over one database and one bus, with [ClusterCorrect],
      [ClusterLiveness] and [ClusterRuns].
    - [Config] (config/config.go); [Daemon] (cmd/sharddnsd/main.go, store.go Open and Close),
      with [DaemonCorrect].
    - [Connect] (the generated sharddns.connect.go, and the routes of newAPIServer);
      [Cli] (cmd/sharddns/main.go), with [CliCorrect] and [CliRuns].

    ** How the code is represented

    A Go string or byte slice is a list of bytes.  A function that can fail returns a [go]; an
    index or a slice out of range gives [Panic], so a theorem that a function returns also says
    that it does not panic.  Code that changes an object or the tables is a state transformer
    [st].  The tables are lists of rows; a transaction works on a copy; an [Env] says which
    statement fails, whether a lost COMMIT took effect, and what the clock shows.  Goroutines are
    step relations ([pool_step], [inner], [internal], [cstep], [migrate_step], [dinner], [dstep],
    [step] of CacheConcurrency) whose steps are what one goroutine does without giving way.

    Parameters stand for what is not part of the sources: the case tables of Unicode
    ([GoUnicode], a law: upper case is idempotent), PostgreSQL's md5, collation and
    row order ([Postgres]: a strict total order, every order a permutation), the hash and the
    iteration order of Go maps ([GoMaps]: a permutation), and the protobuf encodings ([Proto],
    [Codec]: decoding inverts encoding).  Each has an instance that satisfies its laws ([unicode_id], [pg_ref], [maps_ref], [proto_ref],
    [codec_ref]), with which the concrete runs are computed.

    ** What the theorems show

    - Codec: a packed message parses back to itself; the name parser accepts exactly the grammar
      of compressed names; parsers and encoders return on every input; UDP responses keep to
      their size and are complete or truncated with TC.
    - Store: the tables keep their invariant (keys, zone membership, CNAME exclusivity, one TTL
      per set) under every sequence of operations and failures; failed operations change
      nothing; serials rise; FindZone, LookupName and the page tokens give what they promise.
    - Cache: it is bounded, and keeps no value that was read before an invalidation covering it,
      under every interleaving; in front of a resolver it changes no answer.
    - Handler: lookup is the search algorithm of RFC 1034; every response is the one prescribed
      for what the search finds, holds only stored data, and NXDOMAIN is given only for names
      that do not exist; the handler returns for every query.
    - Server: every datagram is handled without panic, only queries are answered; pipelined TCP
      queries are answered in order; no buffer is shared; shutdown loses no queued job and ends.
    - API: only what can be served is stored; a failed call changes and announces nothing; after
      a successful one and its invalidation every query sees the change.
    - Instances: an instance to which nothing is on its way answers from the current tables, and
      the instances come to rest by themselves; migration happens once.
    - Daemon and client: the configuration is valid or refused; run releases what it opened on
      every path, ends after a signal, and returns without error exactly if all went well; the
      health check tells readiness; without the token a client learns and changes nothing; its
      lists are complete; what was added is found.

    Theorems whose names appear as claims carry their number (C1, C2, ...) in their comment.
    Where the code does not do what it means to, a theorem in a file of concrete runs shows it
    (for instance [serveUDP_amplifies], [delete_announces_other_zone], [lost_event_stale]).

    ** Fuel and bounds

    Loops that are not structural take fuel, which the calling function computes from its
    input: the length of the remaining text or name plus one for [parseQuotedStrings_loop],
    [txtChunks], [candidates_loop], [Invalidate_loop], [encloser_loop] and [duration_loop] (each
    turn removes a byte at least); the bytes and the pointer hops that the code itself allows a
    name, for [ParseName_loop]; maxChain turns for [resolve_loop], as in the code; twenty digits for
    [format_digits], enough for 64 bits.  The theorems of totality show that [NoFuel] does not
    occur.  [tcpConnLoop] and the page loops of [Cli] take the fuel as an argument, and
    their theorems say how much is enough (what has been received, and the number of rows).
    The epochs of the cache are 64-bit counters; the concurrency theorems assume that none
    wraps.

    ** Not modelled

    The generated message code (sharddns.pb.go): messages are records, and their encoding is a
    parameter.  The embed directive of db.go.  Texts of errors and of log lines, socket options,
    deadlines and HTTP timeouts (a deadline shows as a failing call).  The table layout that the
    client prints, for which its output is the list of zones or records.  The reflection service,
    which is third-party code, and redirects of the HTTP router for paths that are not clean.
    NATS and PostgreSQL themselves: the model says what they may do. *)

From Stdlib Require Import ZArith Lia Ascii String.
From stdpp Require Import base list strings gmap.

#[export] Set Default Goal Selector "!".

(** ** Bytes and Go strings

    A Go [string] and a Go [[]byte] are both modelled as [list ascii]: an
    [ascii] is exactly one byte.  [lit] turns a literal into such a list. *)

Abbreviation gostring := (list ascii) (only parsing).
Abbreviation bytes := (list ascii) (only parsing).

Definition lit (s : string) : gostring := list_ascii_of_string s.

(** The value of a byte, and Go's conversion [byte(z)], which wraps. *)
Definition bz (c : ascii) : Z := Z.of_N (N_of_ascii c).
Definition zb (z : Z) : ascii := ascii_of_N (Z.to_N (z mod 256)).

(** Machine-width conversions of Go: [uint16(z)], [uint32(z)], [uint64(z)], [int64(z)], [int32(z)]. *)
Definition u16 (z : Z) : Z := z mod 2 ^ 16.
Definition u32 (z : Z) : Z := z mod 2 ^ 32.
Definition u64 (z : Z) : Z := z mod 2 ^ 64.
Definition i64 (z : Z) : Z := (z + 2 ^ 63) mod 2 ^ 64 - 2 ^ 63.
Definition i32 (z : Z) : Z := (z + 2 ^ 31) mod 2 ^ 32 - 2 ^ 31.

(** A map literal. *)
Fixpoint assoc {K V} `{EqDecision K} (k : K) (l : list (K * V)) : option V :=
  match l with
  | [] => None
  | (k', v) :: l' => if bool_decide (k = k') then Some v else assoc k l'
  end.

(** ** The outcome of a Go call

    [Ok] is a normal return with a nil error, [Err] a return with an error,
    [Panic] a run-time panic (index or slice out of range), and [NoFuel] an
    unfinished loop of the model: a theorem that a function returns shows
    that neither of the last two happens. *)
Inductive go (E A : Type) : Type :=
| Ok (a : A)
| Err (e : E)
| Panic
| NoFuel.
Arguments Ok {E A} a.
Arguments Err {E A} e.
Arguments Panic {E A}.
Arguments NoFuel {E A}.

Definition go_bind {E A B} (c : go E A) (k : A -> go E B) : go E B :=
  match c with
  | Ok a => k a
  | Err e => Err e
  | Panic => Panic
  | NoFuel => NoFuel
  end.

(** Wrapping an error, as [fmt.Errorf("...: %w", err)] does. *)
Definition go_wrap {E F A} (f : E -> F) (c : go E A) : go F A :=
  match c with
  | Ok a => Ok a
  | Err e => Err (f e)
  | Panic => Panic
  | NoFuel => NoFuel
  end.

Declare Scope go_scope.
Delimit Scope go_scope with go.
Notation "'let!' x ':=' c 'in' k" := (go_bind c (fun x => k))
  (at level 10, x pattern, c at level 200, k at level 200) : go_scope.
Open Scope go_scope.

(** [returns c]: the call comes back, with a value or with an error. *)
Definition returns {E A} (c : go E A) : Prop :=
  match c with Ok _ | Err _ => True | Panic | NoFuel => False end.

(** State passing: a call on a state of type [S] gives an outcome and the state it leaves
    behind, also when the outcome is an error. *)
Definition st (S E A : Type) : Type := S -> go E A * S.

Definition st_ret {S E A} (c : go E A) : st S E A := fun s => (c, s).

Definition st_bind {S E A B} (c : st S E A) (k : A -> st S E B) : st S E B :=
  fun s =>
    match c s with
    | (Ok a, s') => k a s'
    | (Err e, s') => (Err e, s')
    | (Panic, s') => (Panic, s')
    | (NoFuel, s') => (NoFuel, s')
    end.

Notation "'do!' x ':=' c 'in' k" := (st_bind c (fun x => k))
  (at level 10, x pattern, c at level 200, k at level 200) : go_scope.

(** Indexing [s[i]] and slicing [s[i:j]] with Go's bounds checks.  (Go bounds a
    slice expression on a slice by its capacity; the check here, against the
    length, is the stricter one.) *)
Definition index {E A} (s : list A) (i : nat) : go E A :=
  match s !! i with Some c => Ok c | None => Panic end.

Definition slice {E A} (s : list A) (i j : nat) : go E (list A) :=
  if bool_decide (i <= j <= length s) then Ok (take (j - i) (drop i s)) else Panic.

(** ** [encoding/binary]'s big-endian integers *)
Definition put16 (v : Z) : bytes := [zb (Z.shiftr v 8); zb v].
Definition put32 (v : Z) : bytes :=
  [zb (Z.shiftr v 24); zb (Z.shiftr v 16); zb (Z.shiftr v 8); zb v].

Definition get16 {E} (b : bytes) : go E Z :=
  let! b1 := index b 1 in
  let! b0 := index b 0 in
  Ok (Z.lor (bz b1) (Z.shiftl (bz b0) 8)).

Definition get32 {E} (b : bytes) : go E Z :=
  let! b3 := index b 3 in
  let! b2 := index b 2 in
  let! b1 := index b 1 in
  let! b0 := index b 0 in
  Ok (Z.lor (bz b3) (Z.lor (Z.shiftl (bz b2) 8) (Z.lor (Z.shiftl (bz b1) 16) (Z.shiftl (bz b0) 24)))).

(** ** Automation *)
Create HintDb go.
Create HintDb bytes.
Create Rewrite HintDb bytes.

(** Case analysis on the guards of the code, in the order the code tests them. *)
Ltac go_step :=
  match goal with
  | H : context [if bool_decide ?P then _ else _] |- _ => destruct (bool_decide_reflect P)
  | |- context [if bool_decide ?P then _ else _] => destruct (bool_decide_reflect P)
  | H : context [if ?b then _ else _] |- _ => destruct b eqn:?
  | |- context [if ?b then _ else _] => destruct b eqn:?
  | H : context [match ?x with _ => _ end] |- _ => destruct x eqn:?
  | |- context [match ?x with _ => _ end] => destruct x eqn:?
  end.

Ltac go_simpl := cbn [go_bind go_wrap returns] in *.
Ltac go_cases := repeat (go_step; go_simpl; simplify_eq; try done).

(** Linear arithmetic with division and remainder by constants. *)
Ltac dlia := Z.div_mod_to_equations; lia.

(** Boolean comparisons of the code as propositions. *)
Ltac bool_prop :=
  repeat match goal with
  | H : (_ =? _)%Z = true |- _ => apply Z.eqb_eq in H
  | H : (_ =? _)%Z = false |- _ => apply Z.eqb_neq in H
  | H : (_ <? _)%Z = true |- _ => apply Z.ltb_lt in H
  | H : (_ <? _)%Z = false |- _ => apply Z.ltb_ge in H
  | H : (_ <=? _)%Z = true |- _ => apply Z.leb_le in H
  | H : (_ <=? _)%Z = false |- _ => apply Z.leb_gt in H
  | H : (_ =? _)%nat = true |- _ => apply Nat.eqb_eq in H
  | H : (_ =? _)%nat = false |- _ => apply Nat.eqb_neq in H
  | H : (_ <? _)%nat = true |- _ => apply Nat.ltb_lt in H
  | H : (_ <? _)%nat = false |- _ => apply Nat.ltb_ge in H
  | H : (_ <=? _)%nat = true |- _ => apply Nat.leb_le in H
  | H : (_ <=? _)%nat = false |- _ => apply Nat.leb_gt in H
  | H : (_ && _) = true |- _ => apply andb_true_iff in H as [? ?]
  | H : (_ || _) = false |- _ => apply orb_false_iff in H as [? ?]
  | H : negb _ = true |- _ => apply negb_true_iff in H
  | H : negb _ = false |- _ => apply negb_false_iff in H
  end.

(** ** Facts about bytes *)
Lemma bz_range c : (0 <= bz c < 256)%Z.
Proof. unfold bz. pose proof (N_ascii_bounded c). lia. Qed.

Lemma zb_bz c : zb (bz c) = c.
Proof.
  unfold zb. rewrite Z.mod_small by apply bz_range.
  unfold bz. rewrite N2Z.id. apply ascii_N_embedding.
Qed.

Lemma bz_zb z : bz (zb z) = (z mod 256)%Z.
Proof.
  unfold bz, zb. pose proof (Z.mod_pos_bound z 256 ltac:(lia)).
  rewrite N_ascii_embedding; lia.
Qed.

Lemma bz_inj c d : bz c = bz d -> c = d.
Proof. intros H. rewrite <- (zb_bz c), <- (zb_bz d). by rewrite H. Qed.

Lemma bz_zb_small z : (0 <= z < 256)%Z -> bz (zb z) = z.
Proof. intros. rewrite bz_zb. by apply Z.mod_small. Qed.

Lemma lor_shiftl_add a b k :
  (0 <= k)%Z -> (0 <= a < 2 ^ k)%Z -> (Z.lor a (Z.shiftl b k) = a + b * 2 ^ k)%Z.
Proof.
  intros Hk Ha. rewrite Z.shiftl_mul_pow2 by done.
  rewrite <- Z.lxor_lor.
  - rewrite Z.add_nocarry_lxor; [done|].
    apply Z.bits_inj'. intros n Hn. rewrite Z.land_spec, Z.bits_0.
    destruct (Z.ltb_spec n k).
    + rewrite Z.mul_pow2_bits_low by lia. apply andb_false_r.
    + rewrite <- (Z.mod_small a (2 ^ k)) by done.
      by rewrite Z.mod_pow2_bits_high by lia.
  - apply Z.bits_inj'. intros n Hn. rewrite Z.land_spec, Z.bits_0.
    destruct (Z.ltb_spec n k).
    + rewrite Z.mul_pow2_bits_low by lia. apply andb_false_r.
    + rewrite <- (Z.mod_small a (2 ^ k)) by done.
      by rewrite Z.mod_pow2_bits_high by lia.
Qed.

Lemma length_put16 v : length (put16 v) = 2.
Proof. done. Qed.
Lemma length_put32 v : length (put32 v) = 4.
Proof. done. Qed.

Lemma get16_cons {E} a b l : @get16 E (a :: b :: l) = Ok (bz b + bz a * 256)%Z.
Proof.
  unfold get16; cbn. f_equal. rewrite lor_shiftl_add; [done|lia|apply bz_range].
Qed.

Lemma get32_cons {E} a b c d l :
  @get32 E (a :: b :: c :: d :: l) =
  Ok (bz d + (bz c + (bz b + bz a * 256) * 256) * 256)%Z.
Proof.
  unfold get32; cbn. f_equal.
  pose proof (bz_range a); pose proof (bz_range b).
  pose proof (bz_range c); pose proof (bz_range d).
  rewrite (Z.shiftl_mul_pow2 (bz c)), (Z.shiftl_mul_pow2 (bz b)) by lia.
  rewrite (lor_shiftl_add (bz b * 2 ^ 16)) by lia.
  rewrite <- (Z.shiftl_mul_pow2 (bz c)) by lia.
  replace (bz b * 2 ^ 16 + bz a * 2 ^ 24)%Z with ((bz b + bz a * 256) * 2 ^ 16)%Z by lia.
  rewrite <- (Z.shiftl_mul_pow2 (bz b + bz a * 256)) by lia.
  rewrite (Z.lor_comm (Z.shiftl (bz c) 8)).
  rewrite Z.lor_assoc, (Z.lor_comm (bz d)), <- Z.lor_assoc.
  rewrite (lor_shiftl_add (bz d)) by lia.
  rewrite Z.lor_comm, lor_shiftl_add by lia. lia.
Qed.

Lemma get16_put16 {E} v l : @get16 E (put16 v ++ l) = Ok (u16 v).
Proof.
  cbn [put16 app]. rewrite get16_cons, !bz_zb, Z.shiftr_div_pow2 by lia.
  unfold u16. f_equal. dlia.
Qed.

Lemma get32_put32 {E} v l : @get32 E (put32 v ++ l) = Ok (u32 v).
Proof.
  cbn [put32 app]. rewrite get32_cons, !bz_zb, !Z.shiftr_div_pow2 by lia.
  unfold u32. f_equal. dlia.
Qed.

Lemma get16_range {E} b v : @get16 E b = Ok v -> (0 <= v < 2 ^ 16)%Z.
Proof.
  destruct b as [|a [|b l]]; [done..|]. rewrite get16_cons. intros [= <-].
  pose proof (bz_range a); pose proof (bz_range b). lia.
Qed.

Lemma get32_range {E} b v : @get32 E b = Ok v -> (0 <= v < 2 ^ 32)%Z.
Proof.
  destruct b as [|a [|b [|c [|d l]]]]; [done..|]. rewrite get32_cons. intros [= <-].
  pose proof (bz_range a); pose proof (bz_range b).
  pose proof (bz_range c); pose proof (bz_range d). lia.
Qed.

Lemma put16_get16 {E} b v : length b = 2 -> @get16 E b = Ok v -> put16 v = b.
Proof.
  destruct b as [|a [|b [|]]]; [done..| |done]. rewrite get16_cons. intros _ [= <-].
  unfold put16. rewrite Z.shiftr_div_pow2 by lia.
  pose proof (bz_range a); pose proof (bz_range b).
  f_equal; [|f_equal]; apply bz_inj; rewrite bz_zb; dlia.
Qed.

(** ** Facts about outcomes *)
Lemma go_bind_Ok {E A B} (c : go E A) (k : A -> go E B) b :
  go_bind c k = Ok b <-> exists a, c = Ok a /\ k a = Ok b.
Proof.
  split; [|by intros (a & -> & ?)].
  destruct c as [a| | |]; cbn; intros; [by exists a|done..].
Qed.

Lemma go_wrap_Ok {E F A} (f : E -> F) (c : go E A) a :
  go_wrap f c = Ok a <-> c = Ok a.
Proof. destruct c; naive_solver. Qed.

Lemma go_bind_returns {E A B} (c : go E A) (k : A -> go E B) :
  returns c -> (forall a, c = Ok a -> returns (k a)) -> returns (go_bind c k).
Proof. destruct c; naive_solver. Qed.

Lemma go_wrap_returns {E F A} (f : E -> F) (c : go E A) :
  returns c -> returns (go_wrap f c).
Proof. by destruct c. Qed.

Lemma st_bind_Ok {S E A B} (c : st S E A) (k : A -> st S E B) s b s' :
  st_bind c k s = (Ok b, s') <-> exists a s1, c s = (Ok a, s1) /\ k a s1 = (Ok b, s').
Proof.
  unfold st_bind. split; [|by intros (a & s1 & -> & ?)].
  destruct (c s) as [[a| | |] s1]; intros; [by exists a, s1|done..].
Qed.

Lemma index_Ok {E A} (s : list A) i c : @index E A s i = Ok c <-> s !! i = Some c.
Proof. unfold index. destruct (s !! i); naive_solver. Qed.

Lemma index_lt {E A} (s : list A) i : i < length s -> exists c, s !! i = Some c /\ @index E A s i = Ok c.
Proof.
  intros [c Hc]%lookup_lt_is_Some. exists c. by rewrite index_Ok.
Qed.

Lemma slice_Ok {E A} (s : list A) i j :
  i <= j <= length s -> @slice E A s i j = Ok (take (j - i) (drop i s)).
Proof. intros H. unfold slice. by rewrite bool_decide_eq_true_2. Qed.

Lemma slice_Ok_inv {E A} (s : list A) i j l :
  @slice E A s i j = Ok l -> i <= j <= length s /\ l = take (j - i) (drop i s) /\ length l = j - i.
Proof.
  unfold slice. case_bool_decide; [|done]. intros [= <-].
  repeat split; [lia..|]. rewrite length_take, length_drop. lia.
Qed.

Lemma get16_returns {E} (b : bytes) : 2 <= length b -> @returns E Z (get16 b).
Proof. destruct b as [|a [|b l]]; cbn [length]; [lia..|]. by rewrite get16_cons. Qed.

Lemma get32_returns {E} (b : bytes) : 4 <= length b -> @returns E Z (get32 b).
Proof.
  destruct b as [|a [|b [|c [|d l]]]]; cbn [length]; [lia..|]. by rewrite get32_cons.
Qed.

#[export] Hint Resolve bz_range : bytes.
#[export] Hint Rewrite @length_put16 @length_put32 @length_app @length_take @length_drop : bytes.

(** ** Facts about lists *)
Lemma take_drop_middle_app {A} (p m s : list A) :
  take (length m) (drop (length p) (p ++ m ++ s)) = m.
Proof. by rewrite drop_app_length, take_app_length. Qed.

Lemma drop_lookup_cons {A} (l : list A) i x : l !! i = Some x -> drop i l = x :: drop (S i) l.
Proof. intros H. by rewrite (drop_S _ x). Qed.

Lemma forallb_Forall {A} (f : A -> bool) l : forallb f l = true <-> Forall (fun x => f x = true) l.
Proof. rewrite forallb_forall, Forall_forall. by setoid_rewrite list_elem_of_In. Qed.

Lemma mjoin_cons {A} (l : list A) ls : mjoin (l :: ls) = l ++ mjoin ls.
Proof. done. Qed.

(** ** Bit operations stay within their width *)
Lemma below_pow2_bits a n :
  (0 <= n)%Z -> (0 <= a)%Z -> (forall i, n <= i -> Z.testbit a i = false)%Z -> (a < 2 ^ n)%Z.
Proof.
  intros Hn Ha H. destruct (decide (a < 2 ^ n)%Z) as [|Hge]; [done|].
  assert (0 < a)%Z by (pose proof (Z.pow_pos_nonneg 2 n); lia).
  assert (n <= Z.log2 a)%Z by (apply Z.log2_le_pow2; lia).
  specialize (H (Z.log2 a) ltac:(lia)). rewrite Z.bit_log2 in H by lia. done.
Qed.

Lemma pow2_bits_above a n i : (0 <= a < 2 ^ n)%Z -> (n <= i)%Z -> Z.testbit a i = false.
Proof.
  intros Ha Hi. destruct (decide (0 <= n)%Z).
  - rewrite <- (Z.mod_small a (2 ^ n)) by lia. apply Z.mod_pow2_bits_high. lia.
  - rewrite Z.pow_neg_r in Ha; lia.
Qed.

Lemma lor_range n a b :
  (0 <= n)%Z -> (0 <= a < 2 ^ n)%Z -> (0 <= b < 2 ^ n)%Z -> (0 <= Z.lor a b < 2 ^ n)%Z.
Proof.
  intros Hn Ha Hb. assert (0 <= Z.lor a b)%Z by (apply Z.lor_nonneg; lia). split; [done|].
  apply below_pow2_bits; [done..|]. intros i Hi. rewrite Z.lor_spec.
  by rewrite (pow2_bits_above a n), (pow2_bits_above b n).
Qed.

Lemma land_range n a b : (0 <= n)%Z -> (0 <= a < 2 ^ n)%Z -> (0 <= Z.land a b < 2 ^ n)%Z.
Proof.
  intros Hn Ha. assert (0 <= Z.land a b)%Z by (apply Z.land_nonneg; lia). split; [done|].
  apply below_pow2_bits; [done..|]. intros i Hi. rewrite Z.land_spec.
  by rewrite (pow2_bits_above a n).
Qed.

Lemma ldiff_range n a b : (0 <= n)%Z -> (0 <= a < 2 ^ n)%Z -> (0 <= Z.ldiff a b < 2 ^ n)%Z.
Proof.
  intros Hn Ha. assert (0 <= Z.ldiff a b)%Z by (apply Z.ldiff_nonneg; lia). split; [done|].
  apply below_pow2_bits; [done..|]. intros i Hi. rewrite Z.ldiff_spec.
  by rewrite (pow2_bits_above a n).
Qed.
