(* ===== verification/GoStrings.v ===== *)
(** * Go's standard library, as far as ShardDNS uses it

    The functions of packages [strings], [strconv], [encoding/hex] and
    [encoding/base64] that the program calls.  Strings are byte lists.

    - Case mapping is exact on ASCII strings, the path [strings.ToLower] and
      [strings.ToUpper] take when every byte is below 0x80; on other strings
      Go maps each rune through the Unicode tables, which is the parameter
      [GoUnicode].
    - Trimming and field splitting recognise exactly the 25 runes of Unicode's
      White_Space property by their UTF-8 encodings.  No lead byte of these
      encodings is a continuation byte, so matching bytes at a position is the
      same as decoding runes up to it. *)

From Stdlib Require Import ZArith Lia Ascii String.
From stdpp Require Import base list strings.
From S2P Require Import Prelude.

(** ** Package strings *)

Definition HasPrefix (s p : gostring) : bool := bool_decide (take (length p) s = p).
Definition HasSuffix (s p : gostring) : bool :=
  bool_decide (length p <= length s /\ drop (length s - length p) s = p).
Definition TrimSuffix (s p : gostring) : gostring :=
  if HasSuffix s p then take (length s - length p) s else s.

(** [IndexByte] returns the first position of a byte; [None] stands for -1. *)
Fixpoint IndexFunc (f : ascii -> bool) (s : gostring) : option nat :=
  match s with
  | [] => None
  | c :: s' => if f c then Some 0 else S <$> IndexFunc f s'
  end.
Definition IndexByte (s : gostring) (c : ascii) : option nat :=
  IndexFunc (fun x => bool_decide (x = c)) s.
Definition IndexAny (s chars : gostring) : option nat :=
  IndexFunc (fun x => bool_decide (x ∈ chars)) s.
Definition ContainsAny (s chars : gostring) : bool :=
  existsb (fun x => bool_decide (x ∈ chars)) s.

(** [Split] with a one-byte separator. *)
Fixpoint Split (s : gostring) (sep : ascii) : list gostring :=
  match s with
  | [] => [[]]
  | c :: s' =>
    if bool_decide (c = sep) then [] :: Split s' sep
    else match Split s' sep with
         | [] => [[c]]
         | l :: ls => (c :: l) :: ls
         end
  end.

(** [SplitN] with a one-byte separator: at most [n] pieces, the last one unsplit. *)
Fixpoint SplitN (s : gostring) (sep : ascii) (n : nat) : list gostring :=
  match n with
  | 0 => []
  | 1 => [s]
  | S n' =>
    match IndexByte s sep with
    | None => [s]
    | Some i => take i s :: SplitN (drop (S i) s) sep n'
    end
  end.

Fixpoint Join (ls : list gostring) (sep : gostring) : gostring :=
  match ls with
  | [] => []
  | [l] => l
  | l :: ls' => l ++ sep ++ Join ls' sep
  end.

(** [Replace(s, old, new, 1)] for one-byte [old] and [new]. *)
Definition Replace1 (s : gostring) (old new : ascii) : gostring :=
  match IndexByte s old with
  | None => s
  | Some i => take i s ++ new :: drop (S i) s
  end.

(** *** White space *)
Definition rune2 (a b : Z) : gostring := [zb a; zb b].
Definition rune3 (a b c : Z) : gostring := [zb a; zb b; zb c].

Definition space_runes : list gostring :=
  ((fun z => [zb z]) <$> [9; 10; 11; 12; 13; 32]%Z) ++
  [rune2 0xC2 0x85; rune2 0xC2 0xA0; rune3 0xE1 0x9A 0x80] ++
  ((fun z => rune3 0xE2 0x80 z) <$>
     [0x80; 0x81; 0x82; 0x83; 0x84; 0x85; 0x86; 0x87; 0x88; 0x89; 0x8A; 0xA8; 0xA9; 0xAF]%Z) ++
  [rune3 0xE2 0x81 0x9F; rune3 0xE3 0x80 0x80].

(** The length of the rune of [runes] that [s] starts with, 0 when there is none. *)
Definition match_rune (runes : list gostring) (s : gostring) : nat :=
  match List.find (fun r => HasPrefix s r) runes with
  | Some r => length r
  | None => 0
  end.

(** Drops the runes of [runes] at the head; [skip] counts the bytes of a matched
    rune that are still to be passed over. *)
Fixpoint trim_head (runes : list gostring) (skip : nat) (s : gostring) : gostring :=
  match s with
  | [] => []
  | c :: s' =>
    match skip with
    | S k => trim_head runes k s'
    | 0 =>
      match match_rune runes s with
      | 0 => s
      | S k => trim_head runes k s'
      end
    end
  end.

Definition TrimSpace (s : gostring) : gostring :=
  let s1 := trim_head space_runes 0 s in
  reverse (trim_head (reverse <$> space_runes) 0 (reverse s1)).

Definition flush (cur : gostring) : list gostring :=
  match cur with [] => [] | _ => [cur] end.

Fixpoint Fields_loop (skip : nat) (cur s : gostring) : list gostring :=
  match s with
  | [] => flush cur
  | c :: s' =>
    match skip with
    | S k => Fields_loop k cur s'
    | 0 =>
      match match_rune space_runes s with
      | 0 => Fields_loop 0 (cur ++ [c]) s'
      | S k => flush cur ++ Fields_loop k [] s'
      end
    end
  end.
Definition Fields (s : gostring) : list gostring := Fields_loop 0 [] s.

(** *** Letter case *)
Definition is_ascii (c : ascii) : bool := (bz c <? 128)%Z.
Definition lower_byte (c : ascii) : ascii :=
  if ((65 <=? bz c) && (bz c <=? 90))%Z then zb (bz c + 32) else c.
Definition upper_byte (c : ascii) : ascii :=
  if ((97 <=? bz c) && (bz c <=? 122))%Z then zb (bz c - 32) else c.

(** [strings.Map(unicode.ToLower, s)] and [strings.Map(unicode.ToUpper, s)], used
    only on strings with a byte of 0x80 or above. *)
Class GoUnicode := {
  unicode_lower : gostring -> gostring;
  unicode_upper : gostring -> gostring;
}.

Definition ToLower `{GoUnicode} (s : gostring) : gostring :=
  if forallb is_ascii s then lower_byte <$> s else unicode_lower s.
Definition ToUpper `{GoUnicode} (s : gostring) : gostring :=
  if forallb is_ascii s then upper_byte <$> s else unicode_upper s.

(** ** Package strconv *)
Definition digit_val (c : ascii) : option Z :=
  if ((48 <=? bz c) && (bz c <=? 57))%Z then Some (bz c - 48)%Z else None.

Fixpoint digits_val (acc : Z) (s : gostring) : option Z :=
  match s with
  | [] => Some acc
  | c :: s' => match digit_val c with Some d => digits_val (acc * 10 + d) s' | None => None end
  end.

(** [ParseUint(s, 10, bits)]; [None] is the error. *)
Definition ParseUint (s : gostring) (bits : Z) : option Z :=
  match s with
  | [] => None
  | _ =>
    match digits_val 0 s with
    | Some v => if (v <? 2 ^ bits)%Z then Some v else None
    | None => None
    end
  end.

(** [ParseInt(s, 10, 64)], which [Atoi] equals on 64-bit platforms. *)
Definition ParseInt64 (s : gostring) : option Z :=
  let parse (neg : bool) (ds : gostring) :=
    match ParseUint ds 64 with
    | Some v =>
      if neg then (if (v <=? 2 ^ 63)%Z then Some (- v)%Z else None)
      else (if (v <? 2 ^ 63)%Z then Some v else None)
    | None => None
    end in
  match s with
  | [] => None
  | c :: s' =>
    if bool_decide (c = "+"%char) then parse false s'
    else if bool_decide (c = "-"%char) then parse true s'
    else parse false s
  end.
Definition Atoi (s : gostring) : option Z := ParseInt64 s.

(** [FormatInt(n, 10)] of an int64; twenty digits are enough for its range. *)
Fixpoint format_digits (fuel : nat) (n : Z) (acc : gostring) : gostring :=
  match fuel with
  | 0 => acc
  | S f =>
    let acc' := zb (48 + n mod 10) :: acc in
    if (n <? 10)%Z then acc' else format_digits f (n / 10) acc'
  end.
Definition FormatInt (n : Z) : gostring :=
  if (n <? 0)%Z then "-"%char :: format_digits 20 (- n) [] else format_digits 20 n [].
Definition Itoa (n : Z) : gostring := FormatInt n.

(** ** Lemmas *)

Lemma HasPrefix_true s p : HasPrefix s p = true <-> exists r, s = p ++ r.
Proof.
  unfold HasPrefix. rewrite bool_decide_eq_true. split.
  - intros H. exists (drop (length p) s). rewrite <- H at 1. by rewrite take_drop.
  - intros [r ->]. by rewrite take_app_length.
Qed.

Lemma HasSuffix_true s p : HasSuffix s p = true <-> exists r, s = r ++ p.
Proof.
  unfold HasSuffix. rewrite bool_decide_eq_true. split.
  - intros [Hl H]. exists (take (length s - length p) s). rewrite <- H at 2. by rewrite take_drop.
  - intros [r ->]. rewrite length_app. split; [lia|].
    replace (length r + length p - length p) with (length r) by lia.
    by rewrite drop_app_length.
Qed.

Lemma TrimSuffix_app r p : TrimSuffix (r ++ p) p = r.
Proof.
  unfold TrimSuffix. rewrite (proj2 (HasSuffix_true _ _)) by eauto.
  rewrite length_app. replace (length r + length p - length p) with (length r) by lia.
  by rewrite take_app_length.
Qed.

Lemma TrimSuffix_no s p : HasSuffix s p = false -> TrimSuffix s p = s.
Proof. unfold TrimSuffix. by intros ->. Qed.

Lemma TrimSuffix_cases s p : (exists r, s = r ++ p /\ TrimSuffix s p = r) \/ TrimSuffix s p = s.
Proof.
  destruct (HasSuffix s p) eqn:H; [|right; by apply TrimSuffix_no].
  apply HasSuffix_true in H as [r ->]. left. exists r. split; [done|apply TrimSuffix_app].
Qed.

Lemma TrimSuffix_length s p : length (TrimSuffix s p) <= length s.
Proof.
  destruct (TrimSuffix_cases s p) as [(r & -> & ->)| ->]; [|done].
  rewrite length_app. lia.
Qed.

Lemma IndexFunc_Some f s i :
  IndexFunc f s = Some i ->
  exists l c r, s = l ++ c :: r /\ length l = i /\ f c = true /\ Forall (fun x => f x = false) l.
Proof.
  revert i. induction s as [|c s IH]; intros i; [done|]. cbn. destruct (f c) eqn:Hc.
  - intros [= <-]. by exists [], c, s.
  - destruct (IndexFunc f s) as [j|] eqn:Hj; [|done]. intros [= <-].
    destruct (IH j eq_refl) as (l & d & r & -> & <- & Hd & Hl).
    exists (c :: l), d, r. repeat split; [done..|]. by constructor.
Qed.

Lemma IndexFunc_None f s : IndexFunc f s = None <-> Forall (fun x => f x = false) s.
Proof.
  induction s as [|c s IH]; cbn; [by split|].
  rewrite Forall_cons, <- IH. destruct (f c); [by split; [|intros []]|].
  destruct (IndexFunc f s); cbn; by (split; [|intros []]).
Qed.

Lemma IndexByte_Some s c i :
  IndexByte s c = Some i -> exists l r, s = l ++ c :: r /\ length l = i /\ c ∉ l.
Proof.
  intros (l & d & r & -> & <- & Hd & Hl)%IndexFunc_Some.
  apply bool_decide_eq_true in Hd as ->. exists l, r. repeat split; [done..|].
  intros Hin. rewrite Forall_forall in Hl. specialize (Hl c Hin).
  by apply bool_decide_eq_false in Hl.
Qed.

Lemma IndexByte_None s c : IndexByte s c = None <-> c ∉ s.
Proof.
  unfold IndexByte. rewrite IndexFunc_None, Forall_forall. split.
  - intros H Hin. specialize (H c Hin). by apply bool_decide_eq_false in H.
  - intros H x Hx. apply bool_decide_eq_false. by intros ->.
Qed.

Lemma IndexByte_app s c r : c ∉ s -> IndexByte (s ++ c :: r) c = Some (length s).
Proof.
  unfold IndexByte. induction s as [|d s IH]; cbn; intros H.
  - by rewrite bool_decide_eq_true_2.
  - rewrite not_elem_of_cons in H. destruct H as [Hd H].
    rewrite bool_decide_eq_false_2 by done. by rewrite IH.
Qed.

Lemma Split_not_nil s sep : Split s sep <> [].
Proof. destruct s as [|c s]; cbn; [done|]. case_bool_decide; [done|]. by destruct (Split s sep). Qed.

Lemma Split_no_sep s sep : sep ∉ s -> Split s sep = [s].
Proof.
  induction s as [|c s IH]; [done|]. rewrite not_elem_of_cons. intros [Hc H]. cbn.
  rewrite bool_decide_eq_false_2 by done. by rewrite IH.
Qed.

Lemma Split_app_sep s r sep : sep ∉ s -> Split (s ++ sep :: r) sep = s :: Split r sep.
Proof.
  induction s as [|c s IH]; cbn.
  - intros _. by rewrite bool_decide_eq_true_2.
  - rewrite not_elem_of_cons. intros [Hc H].
    rewrite bool_decide_eq_false_2 by done. by rewrite IH.
Qed.

(** A string is empty of separators or splits at its first one. *)
Lemma split_first s (sep : ascii) :
  sep ∉ s \/ exists l r, s = l ++ sep :: r /\ sep ∉ l.
Proof.
  destruct (IndexByte s sep) as [i|] eqn:H.
  - right. apply IndexByte_Some in H as (l & r & -> & _ & Hl). eauto.
  - left. by apply IndexByte_None.
Qed.

(** Induction on a string by its first separator. *)
Lemma sep_ind (sep : ascii) (P : gostring -> Prop) :
  (forall s, sep ∉ s -> P s) ->
  (forall l r, sep ∉ l -> P r -> P (l ++ sep :: r)) ->
  forall s, P s.
Proof.
  intros H0 H1 s. induction s as [s IH] using (induction_ltof1 _ (@length ascii)).
  unfold ltof in IH. destruct (split_first s sep) as [H|(l & r & -> & Hl)]; [by apply H0|].
  apply H1; [done|]. apply IH. rewrite length_app. cbn. lia.
Qed.

Lemma Split_labels_no_sep s sep : Forall (fun l => sep ∉ l) (Split s sep).
Proof.
  induction s as [s H|l r Hl IH] using (sep_ind sep).
  - rewrite Split_no_sep by done. by repeat constructor.
  - rewrite Split_app_sep by done. by constructor.
Qed.

Lemma Join_cons l ls sep : ls <> [] -> Join (l :: ls) sep = l ++ sep ++ Join ls sep.
Proof. by destruct ls. Qed.

Lemma Join_Split s sep : Join (Split s sep) [sep] = s.
Proof.
  induction s as [s H|l r Hl IH] using (sep_ind sep).
  - by rewrite Split_no_sep.
  - rewrite Split_app_sep, Join_cons, IH by (done || apply Split_not_nil). done.
Qed.

Lemma Split_Join ls sep :
  ls <> [] -> Forall (fun l => sep ∉ l) ls -> Split (Join ls [sep]) sep = ls.
Proof.
  intros Hne H. induction H as [|l ls Hl H IH]; [done|].
  destruct ls as [|l' ls].
  - cbn. by apply Split_no_sep.
  - rewrite Join_cons by done. cbn [app]. rewrite Split_app_sep by done. by rewrite IH.
Qed.

Lemma Join_app ls1 ls2 sep :
  ls1 <> [] -> ls2 <> [] -> Join (ls1 ++ ls2) sep = Join ls1 sep ++ sep ++ Join ls2 sep.
Proof.
  intros H1 H2. induction ls1 as [|l ls1 IH]; [done|]. destruct ls1 as [|l' ls1].
  - cbn [app]. by rewrite Join_cons.
  - cbn [app] in *. rewrite !(Join_cons l) by done. rewrite IH by done. by rewrite <- !app_assoc.
Qed.

Lemma Split_app_gen s r sep :
  Split (s ++ sep :: r) sep = Split s sep ++ Split r sep.
Proof.
  induction s as [s H|l t Hl IH] using (sep_ind sep).
  - by rewrite Split_app_sep, (Split_no_sep s) by done.
  - rewrite <- app_assoc. cbn [app]. rewrite (Split_app_sep l (t ++ sep :: r)), (Split_app_sep l t) by done. by rewrite IH.
Qed.

Lemma length_Join ls sep :
  ls <> [] -> length (Join ls [sep]) + 1 = sum_list_with (fun l => S (length l)) ls.
Proof.
  induction ls as [|l ls IH]; [done|]. intros _. destruct ls as [|l' ls].
  - cbn. lia.
  - specialize (IH ltac:(discriminate)). rewrite Join_cons by done.
    rewrite !length_app. cbn [sum_list_with length] in *. lia.
Qed.

(** ** Trimming *)

Lemma trim_head_length runes skip s : length (trim_head runes skip s) <= length s.
Proof.
  revert skip. induction s as [|c s IH]; intros [|k]; cbn [trim_head]; try done.
  - destruct (match_rune runes (c :: s)) as [|k]; [done|]. specialize (IH k). cbn [length]. lia.
  - specialize (IH k). cbn [length]. lia.
Qed.

Lemma TrimSpace_length s : length (TrimSpace s) <= length s.
Proof.
  unfold TrimSpace. rewrite length_reverse.
  etransitivity; [apply trim_head_length|]. rewrite length_reverse. apply trim_head_length.
Qed.

Lemma match_rune_0 runes c s :
  Forall (fun r => match r with [] => False | x :: _ => c <> x end) runes ->
  match_rune runes (c :: s) = 0.
Proof.
  unfold match_rune. induction 1 as [|r runes Hr H IH]; [done|]. cbn [List.find].
  destruct r as [|x r]; [done|]. unfold HasPrefix at 1.
  rewrite bool_decide_eq_false_2 by (cbn; congruence). done.
Qed.

(** A byte that no white-space rune starts or ends with. *)
Definition graphic (c : ascii) : bool := ((33 <=? bz c) && (bz c <=? 126))%Z.

Definition starts_nongraphic (r : gostring) : bool :=
  match r with [] => false | x :: _ => negb (graphic x) end.

Lemma graphic_not_rune c runes :
  graphic c = true -> forallb starts_nongraphic runes = true ->
  Forall (fun r => match r with [] => False | x :: _ => c <> x end) runes.
Proof.
  intros Hc H%forallb_Forall. eapply Forall_impl; [exact H|].
  intros [|x r]; cbn [starts_nongraphic]; [done|]. intros Hx ->. by rewrite Hc in Hx.
Qed.

Lemma trim_head_graphic c s :
  graphic c = true ->
  trim_head space_runes 0 (c :: s) = c :: s /\ trim_head (reverse <$> space_runes) 0 (c :: s) = c :: s.
Proof.
  intros H. cbn [trim_head].
  rewrite !match_rune_0 by (apply graphic_not_rune; [done|vm_compute; reflexivity]). done.
Qed.

(** Text that starts and ends with a graphic byte is not trimmed. *)
Lemma TrimSpace_id s c1 c2 r1 r2 :
  s = c1 :: r1 -> s = r2 ++ [c2] -> graphic c1 = true -> graphic c2 = true -> TrimSpace s = s.
Proof.
  intros H1 H2 Hc1 Hc2. unfold TrimSpace.
  assert (trim_head space_runes 0 s = s) as ->.
  { rewrite H1. exact (proj1 (trim_head_graphic c1 r1 Hc1)). }
  assert (Hr : reverse s = c2 :: reverse r2) by (rewrite H2; apply reverse_snoc).
  rewrite Hr, (proj2 (trim_head_graphic c2 (reverse r2) Hc2)), <- Hr. apply reverse_involutive.
Qed.

(** ** Decimal numbers *)

Lemma digit_val_zb d : (0 <= d < 10)%Z -> digit_val (zb (48 + d)) = Some d.
Proof.
  intros H. unfold digit_val. rewrite bz_zb_small by lia.
  rewrite (proj2 (Z.leb_le _ _)), (proj2 (Z.leb_le _ _)) by lia. cbn. f_equal. lia.
Qed.

Lemma format_digits_val fuel n acc v :
  (0 <= n < 10 ^ Z.of_nat fuel)%Z -> (0 < fuel) ->
  digits_val v (format_digits fuel n acc) = digits_val (v * 10 ^ (Z.of_nat (length (format_digits fuel n [])))  + n) acc.
Proof.
  revert n acc v. induction fuel as [|fuel IH]; intros n acc v Hn Hf; [lia|]. cbn [format_digits].
  assert (Hm : (0 <= n mod 10 < 10)%Z) by (apply Z.mod_pos_bound; lia).
  destruct (Z.ltb_spec n 10).
  - cbn [digits_val length]. rewrite digit_val_zb by done. f_equal. rewrite Z.mod_small by lia. lia.
  - destruct fuel as [|fuel]; [cbn in Hn; lia|].
    assert (Hn' : (0 <= n / 10 < 10 ^ Z.of_nat (S fuel))%Z).
    { rewrite Nat2Z.inj_succ, Z.pow_succ_r in Hn by lia. split; [dlia|].
      apply Z.div_lt_upper_bound; lia. }
    rewrite IH by (done || lia).
    assert (HL : forall a, length (format_digits (S fuel) (n / 10) a) =
      length (format_digits (S fuel) (n / 10) []) + length a).
    { clear. intros a. generalize (n / 10)%Z as k. generalize (S fuel) as f. intros f. revert a.
      induction f as [|f IHf]; intros a k; [done|]. cbn [format_digits].
      destruct (k <? 10)%Z; [cbn [length]; lia|]. rewrite IHf, (IHf [_]). cbn [length]. lia. }
    rewrite (HL [_]). cbn [digits_val length]. rewrite digit_val_zb by done. f_equal.
    rewrite Nat2Z.inj_add, Z.pow_add_r by lia. change (10 ^ Z.of_nat 1)%Z with 10%Z.
    pose proof (Z.div_mod n 10 ltac:(lia)). nia.
Qed.

Lemma format_digits_not_nil fuel n acc : 0 < fuel -> format_digits fuel n acc <> [].
Proof.
  revert n acc. induction fuel as [|fuel IH]; intros n acc Hf; [lia|]. cbn [format_digits].
  destruct (n <? 10)%Z; [done|]. destruct fuel as [|fuel]; [done|]. apply IH. lia.
Qed.

Lemma ParseUint_FormatInt n bits :
  (0 <= n < 2 ^ bits)%Z -> (n < 10 ^ 20)%Z -> ParseUint (FormatInt n) bits = Some n.
Proof.
  intros Hn Hn'. unfold FormatInt. rewrite (proj2 (Z.ltb_ge _ _)) by lia.
  pose proof (format_digits_val 20 n [] 0 ltac:(lia) ltac:(lia)) as Hv. cbn [digits_val] in Hv.
  pose proof (format_digits_not_nil 20 n [] ltac:(lia)) as Hne.
  unfold ParseUint. destruct (format_digits 20 n []) as [|c s] eqn:E; [done|].
  rewrite Hv. replace (0 * 10 ^ Z.of_nat (length (c :: s)) + n)%Z with n by lia.
  by rewrite (proj2 (Z.ltb_lt _ _)) by lia.
Qed.

Lemma ParseInt64_FormatInt n : (0 <= n < 2 ^ 63)%Z -> ParseInt64 (FormatInt n) = Some n.
Proof.
  intros Hn. pose proof (ParseUint_FormatInt n 64 ltac:(lia) ltac:(lia)) as Hu.
  destruct (FormatInt n) as [|c s]; [done|]. unfold ParseInt64.
  assert (Hd : digit_val c <> None).
  { intros Hc. unfold ParseUint in Hu. cbn [digits_val] in Hu. by rewrite Hc in Hu. }
  rewrite !bool_decide_eq_false_2 by (by intros ->). rewrite Hu.
  by rewrite (proj2 (Z.ltb_lt _ _)) by lia.
Qed.

Lemma FormatInt_not_nil n : FormatInt n <> [].
Proof. unfold FormatInt. destruct (n <? 0)%Z; [done|]. apply format_digits_not_nil. lia. Qed.
