(* ===== verification/GoNet.v ===== *)
(** * Go's [encoding/hex], [encoding/base64] and [net/netip], as far as ShardDNS uses them *)

From Stdlib Require Import ZArith Lia Ascii String.
From stdpp Require Import base list strings.
From S2P Require Import Prelude GoStrings.

(** ** encoding/hex *)
Definition hex_val (c : ascii) : option Z :=
  if ((48 <=? bz c) && (bz c <=? 57))%Z then Some (bz c - 48)%Z
  else if ((97 <=? bz c) && (bz c <=? 102))%Z then Some (bz c - 97 + 10)%Z
  else if ((65 <=? bz c) && (bz c <=? 70))%Z then Some (bz c - 65 + 10)%Z
  else None.

(** [hex.DecodeString]; [None] is an error (bad digit or odd length). *)
Fixpoint hex_DecodeString (s : gostring) : option bytes :=
  match s with
  | [] => Some []
  | [_] => None
  | a :: b :: s' =>
    match hex_val a, hex_val b, hex_DecodeString s' with
    | Some x, Some y, Some r => Some (zb (Z.lor (Z.shiftl x 4) y) :: r)
    | _, _, _ => None
    end
  end.

(** ** encoding/base64: [StdEncoding.DecodeString] *)
Definition b64_val (c : ascii) : option Z :=
  if ((65 <=? bz c) && (bz c <=? 90))%Z then Some (bz c - 65)%Z
  else if ((97 <=? bz c) && (bz c <=? 122))%Z then Some (bz c - 97 + 26)%Z
  else if ((48 <=? bz c) && (bz c <=? 57))%Z then Some (bz c - 48 + 52)%Z
  else if bool_decide (c = "+"%char) then Some 62%Z
  else if bool_decide (c = "/"%char) then Some 63%Z
  else None.

(** The 24 bits of a quantum. *)
Definition b64_bits (a b c d : Z) : Z :=
  Z.lor (Z.shiftl a 18) (Z.lor (Z.shiftl b 12) (Z.lor (Z.shiftl c 6) d)).

(** Quanta of four characters; padding only in the last one.  The decoder skips line
    ends wherever they stand, which is done first. *)
Fixpoint b64_quanta (s : gostring) : option bytes :=
  match s with
  | [] => Some []
  | a :: b :: c :: d :: s' =>
    match b64_val a, b64_val b with
    | Some x, Some y =>
      if bool_decide (c = "="%char) then
        if bool_decide (d = "="%char /\ s' = [])
        then Some [zb (Z.shiftr (b64_bits x y 0 0) 16)] else None
      else
        match b64_val c with
        | Some z =>
          if bool_decide (d = "="%char) then
            if bool_decide (s' = [])
            then let v := b64_bits x y z 0 in Some [zb (Z.shiftr v 16); zb (Z.shiftr v 8)] else None
          else
            match b64_val d, b64_quanta s' with
            | Some w, Some r =>
              let v := b64_bits x y z w in
              Some (zb (Z.shiftr v 16) :: zb (Z.shiftr v 8) :: zb v :: r)
            | _, _ => None
            end
        | None => None
        end
    | _, _ => None
    end
  | _ => None
  end.

Definition base64_DecodeString (s : gostring) : option bytes :=
  b64_quanta (List.filter (fun c => negb (bool_decide (c = zb 10 \/ c = zb 13))) s).

(** ** net/netip *)
Inductive Addr :=
| Addr4 (b : bytes)
| Addr6 (b : bytes) (zone : gostring).

Definition Is4 (a : Addr) : bool := match a with Addr4 _ => true | Addr6 _ _ => false end.
Definition Is6 (a : Addr) : bool := match a with Addr4 _ => false | Addr6 _ _ => true end.
Definition Is4In6 (a : Addr) : bool :=
  match a with
  | Addr4 _ => false
  | Addr6 b _ => bool_decide (take 12 b = replicate 10 (zb 0) ++ [zb 255; zb 255])
  end.
Definition AsSlice (a : Addr) : bytes := match a with Addr4 b => b | Addr6 b _ => b end.

(** The loop of [parseIPv4Fields]; [prev] is the previous character, [fields] the
    octets read so far. *)
Fixpoint parseIPv4Fields (s : gostring) (prev : option ascii) (val : Z) (digLen : nat)
    (fields : bytes) : option bytes :=
  match s with
  | [] => if bool_decide (length fields < 3) then None else Some (fields ++ [zb val])
  | c :: s' =>
    match digit_val c with
    | Some d =>
      if bool_decide (digLen = 1 /\ val = 0%Z) then None
      else
        let val := (val * 10 + d)%Z in
        if (255 <? val)%Z then None else parseIPv4Fields s' (Some c) val (S digLen) fields
    | None =>
      if bool_decide (c = "."%char) then
        if bool_decide (prev = None \/ s' = [] \/ prev = Some "."%char) then None
        else if bool_decide (length fields = 3) then None
        else parseIPv4Fields s' (Some c) 0 0 (fields ++ [zb val])
      else None
    end
  end.

(** The hexadecimal digits at the head of [s]: how many, their value, the rest;
    [None] when there are more than four. *)
Fixpoint scan_hex (s : gostring) (off : nat) (acc : Z) : option (nat * Z * gostring) :=
  match s with
  | [] => Some (off, acc, [])
  | c :: s' =>
    match hex_val c with
    | Some d => if bool_decide (3 < off) then None else scan_hex s' (S off) (acc * 16 + d)
    | None => Some (off, acc, s)
    end
  end.

(** The loop of [parseIPv6]: [k] groups still fit, [ip] holds the bytes read,
    [ellipsis] the position of "::". *)
Fixpoint parseIPv6_loop (k : nat) (ip : bytes) (ellipsis : option nat) (s : gostring)
    : option (bytes * option nat * gostring) :=
  match k with
  | 0 => Some (ip, ellipsis, s)
  | S k' =>
    match scan_hex s 0 0 with
    | None => None
    | Some (0, _, _) => None
    | Some (_, acc, rest) =>
      match rest with
      | [] => Some (ip ++ [zb (Z.shiftr acc 8); zb acc], ellipsis, [])
      | c :: rest' =>
        if bool_decide (c = "."%char) then
          if bool_decide (ellipsis = None /\ length ip <> 12) then None
          else if bool_decide (16 < length ip + 4) then None
          else
            match parseIPv4Fields s None 0 0 [] with
            | None => None
            | Some b => Some (ip ++ b, ellipsis, [])
            end
        else
          let ip := ip ++ [zb (Z.shiftr acc 8); zb acc] in
          if bool_decide (c <> ":"%char) then None
          else
            match rest' with
            | [] => None
            | d :: rest2 =>
              if bool_decide (d = ":"%char) then
                match ellipsis with
                | Some _ => None
                | None =>
                  match rest2 with
                  | [] => Some (ip, Some (length ip), [])
                  | _ => parseIPv6_loop k' ip (Some (length ip)) rest2
                  end
                end
              else parseIPv6_loop k' ip ellipsis rest'
            end
      end
    end
  end.

Definition parseIPv6 (s : gostring) : option Addr :=
  let zoned :=
    match IndexByte s "%"%char with
    | None => Some (s, [])
    | Some i => match drop (S i) s with [] => None | z => Some (take i s, z) end
    end in
  match zoned with
  | None => None
  | Some (s, zone) =>
    let '(ellipsis, s, leading) :=
      if HasPrefix s (lit "::") then (Some 0, drop 2 s, true) else (None, s, false) in
    if bool_decide (leading = true /\ s = []) then Some (Addr6 (replicate 16 (zb 0)) zone)
    else
      match parseIPv6_loop 8 [] ellipsis s with
      | None => None
      | Some (ip, ellipsis, s) =>
        if bool_decide (s <> []) then None
        else if bool_decide (length ip < 16) then
          match ellipsis with
          | None => None
          | Some e => Some (Addr6 (take e ip ++ replicate (16 - length ip) (zb 0) ++ drop e ip) zone)
          end
        else
          match ellipsis with
          | Some _ => None
          | None => Some (Addr6 ip zone)
          end
      end
  end.

(** [netip.ParseAddr]: the first '.', ':' or '%' decides the family. *)
Definition ParseAddr (s : gostring) : option Addr :=
  match IndexAny s (lit ".:%") with
  | None => None
  | Some i =>
    match s !! i with
    | Some c =>
      if bool_decide (c = "."%char) then Addr4 <$> parseIPv4Fields s None 0 0 []
      else if bool_decide (c = ":"%char) then parseIPv6 s
      else None
    | None => None
    end
  end.
