(* ===== verification/HostPort.v ===== *)
(** * Package net: host and port

    [SplitHostPort] and [JoinHostPort] of the Go standard library, which the health check
    uses, and that they invert each other. *)

From Stdlib Require Import ZArith Lia Ascii String.
From stdpp Require Import base list strings.
From S2P Require Import Prelude GoStrings.

Inductive addrError := MissingPort | TooManyColons | MissingBracket | UnexpectedBracket.

(** The position of the last occurrence. *)
Fixpoint LastIndexByte (s : gostring) (c : ascii) : option nat :=
  match s with
  | [] => None
  | x :: s' =>
    match LastIndexByte s' c with
    | Some i => Some (S i)
    | None => if bool_decide (x = c) then Some 0 else None
    end
  end.

Definition has_byte (s : gostring) (c : ascii) : bool :=
  match IndexByte s c with Some _ => true | None => false end.

Definition SplitHostPort (hostport : gostring) : go addrError (gostring * gostring) :=
  match LastIndexByte hostport ":"%char with
  | None => Err MissingPort
  | Some i =>
    let! r :=
      (if bool_decide (hostport !! 0 = Some "["%char) then
         match IndexByte hostport "]"%char with
         | None => Err MissingBracket
         | Some e =>
           if bool_decide (e + 1 = length hostport) then Err MissingPort
           else if bool_decide (e + 1 = i) then Ok (take (e - 1) (drop 1 hostport), 1, e + 1)
           else if bool_decide (hostport !! (e + 1) = Some ":"%char) then Err TooManyColons
           else Err MissingPort
         end
       else
         let host := take i hostport in
         if has_byte host ":"%char then Err TooManyColons else Ok (host, 0, 0)) in
    let '(host, j, k) := r in
    if has_byte (drop j hostport) "["%char then Err UnexpectedBracket
    else if has_byte (drop k hostport) "]"%char then Err UnexpectedBracket
    else Ok (host, drop (i + 1) hostport)
  end.

Definition JoinHostPort (host port : gostring) : gostring :=
  if has_byte host ":"%char then lit "[" ++ host ++ lit "]:" ++ port else host ++ lit ":" ++ port.

(** ** Round trip *)
Lemma LastIndexByte_app s c r : c ∉ r -> LastIndexByte (s ++ c :: r) c = Some (length s).
Proof.
  intros Hr. induction s as [|x s IH]; cbn [app LastIndexByte].
  - assert (LastIndexByte r c = None) as ->; [|by rewrite bool_decide_eq_true_2].
    induction r as [|y r IH]; [done|]. rewrite not_elem_of_cons in Hr. destruct Hr as [Hy Hr]. cbn. rewrite IH by done.
    by rewrite bool_decide_eq_false_2.
  - by rewrite IH.
Qed.

Lemma has_byte_false s c : has_byte s c = false <-> c ∉ s.
Proof.
  unfold has_byte. rewrite <- (IndexByte_None s c). by destruct (IndexByte s c).
Qed.

(** Text without brackets, as hosts and ports are. *)
Definition unbracketed (s : gostring) : Prop := "["%char ∉ s /\ "]"%char ∉ s.

Lemma SplitHostPort_bracketed host port :
  unbracketed host -> unbracketed port -> ":"%char ∉ port ->
  SplitHostPort (lit "[" ++ host ++ lit "]:" ++ port) = Ok (host, port).
Proof.
  intros [Hh1 Hh2] [Hp1 Hp2] Hp.
  set (hp := lit "[" ++ host ++ lit "]:" ++ port).
  assert (Hhp : hp = ("["%char :: host ++ lit "]") ++ ":"%char :: port) by (unfold hp; cbn; by rewrite <- app_assoc).
  unfold SplitHostPort. assert (LastIndexByte hp ":"%char = Some (length host + 2)) as ->.
  { rewrite Hhp, LastIndexByte_app by done. cbn. rewrite length_app. cbn. f_equal. lia. }
  rewrite bool_decide_eq_true_2 by done.
  assert (IndexByte hp "]"%char = Some (length host + 1)) as ->.
  { assert (Hhp' : hp = ("["%char :: host) ++ "]"%char :: ":"%char :: port) by done.
    rewrite Hhp', IndexByte_app; [cbn; f_equal; lia|]. by rewrite not_elem_of_cons. }
  assert (Hlen : length hp = length host + 3 + length port) by (rewrite Hhp; cbn; rewrite !length_app; cbn; lia).
  rewrite bool_decide_eq_false_2 by lia. rewrite bool_decide_eq_true_2 by lia. cbn [go_bind].
  assert (drop 1 hp = host ++ "]"%char :: ":"%char :: port) as -> by done.
  assert (drop (length host + 1 + 1) hp = ":"%char :: port) as ->.
  { rewrite Hhp. replace (length host + 1 + 1) with (length ("["%char :: host ++ lit "]")); [by rewrite drop_app_length|].
    cbn. rewrite length_app. cbn. lia. }
  assert (drop (length host + 2 + 1) hp = port) as ->.
  { rewrite Hhp. replace (length host + 2 + 1) with (S (length ("["%char :: host ++ lit "]"))) by (cbn; rewrite length_app; cbn; lia).
    rewrite drop_app_ge by lia. by replace (S (length ("["%char :: host ++ lit "]")) - length ("["%char :: host ++ lit "]")) with 1 by lia. }
  assert (has_byte (host ++ "]"%char :: ":"%char :: port) "["%char = false) as ->.
  { apply has_byte_false. rewrite elem_of_app, !elem_of_cons. naive_solver. }
  assert (has_byte (":"%char :: port) "]"%char = false) as ->.
  { apply has_byte_false. rewrite elem_of_cons. naive_solver. }
  replace (length host + 1 - 1) with (length host) by lia. by rewrite take_app_length.
Qed.

Lemma SplitHostPort_plain host port :
  unbracketed host -> unbracketed port -> ":"%char ∉ host -> ":"%char ∉ port ->
  SplitHostPort (host ++ lit ":" ++ port) = Ok (host, port).
Proof.
  intros [Hh1 Hh2] [Hp1 Hp2] Hc Hp.
  assert (Hhp : host ++ lit ":" ++ port = host ++ ":"%char :: port) by done. rewrite Hhp.
  unfold SplitHostPort. rewrite LastIndexByte_app by done. rewrite bool_decide_eq_false_2.
  2: { destruct host as [|c host]; [done|]. cbn. intros [= ->]. apply Hh1. left. }
  rewrite take_app_length, (proj2 (has_byte_false host _)) by done. cbn [go_bind]. rewrite !drop_0.
  rewrite (proj2 (has_byte_false _ "["%char)) by (rewrite elem_of_app, elem_of_cons; naive_solver).
  rewrite (proj2 (has_byte_false _ "]"%char)) by (rewrite elem_of_app, elem_of_cons; naive_solver).
  rewrite drop_app_ge by lia. by replace (length host + 1 - length host) with 1 by lia.
Qed.

Lemma SplitHostPort_JoinHostPort host port :
  unbracketed host -> unbracketed port -> ":"%char ∉ port ->
  SplitHostPort (JoinHostPort host port) = Ok (host, port).
Proof.
  intros Hh Hp Hc. unfold JoinHostPort. destruct (has_byte host ":"%char) eqn:Hb.
  - by apply SplitHostPort_bracketed.
  - apply SplitHostPort_plain; [done..|by apply has_byte_false|done].
Qed.
