(* ===== verification/GoTime.v ===== *)
(** * Package time: durations

    [ParseDuration] of the Go standard library, which the configuration uses.  A duration is
    an int64 of nanoseconds; the fraction of a component goes through float64, given here by
    the specification of IEEE 754 binary64. *)

From Stdlib Require Import ZArith Lia Ascii String.
From Corelib Require Import SpecFloat.
From stdpp Require Import base list strings.
From S2P Require Import Prelude GoStrings.

Definition Nanosecond : Z := 1.
Definition Microsecond : Z := 1000.
Definition Millisecond : Z := 1000000.
Definition Second : Z := 1000000000.
Definition Minute : Z := 60 * Second.
Definition Hour : Z := 60 * Minute.

Definition unitMap : list (gostring * Z) :=
  [ (lit "ns", Nanosecond); (lit "us", Microsecond);
    (rune2 0xC2 0xB5 ++ lit "s", Microsecond); (rune2 0xCE 0xBC ++ lit "s", Microsecond);
    (lit "ms", Millisecond); (lit "s", Second); (lit "m", Minute); (lit "h", Hour) ].

Inductive durationError := InvalidDuration | MissingUnit | UnknownUnit.

(** ** float64 *)
Definition float64 (n : Z) : spec_float := binary_normalize 53 1024 n 0 false.
Definition fmul : spec_float -> spec_float -> spec_float := SFmul 53 1024.
Definition fdiv : spec_float -> spec_float -> spec_float := SFdiv 53 1024.

(** [uint64(f)], towards zero; only values of the range occur. *)
Definition uint64_of (f : spec_float) : Z :=
  match f with
  | S754_finite false m e => u64 (Z.shiftl (Z.pos m) e)
  | _ => 0
  end.

(** ** Parsing *)

(** The number at the front and the rest; [None] when it overflows. *)
Fixpoint leadingInt (x : Z) (s : gostring) : option (Z * gostring) :=
  match s with
  | [] => Some (x, [])
  | c :: s' =>
    match digit_val c with
    | None => Some (x, s)
    | Some d =>
      if (2 ^ 63 / 10 <? x)%Z then None
      else
        let x := (x * 10 + d)%Z in
        if (2 ^ 63 <? x)%Z then None else leadingInt x s'
    end
  end.

(** Digits after the point: those that fit, their scale, and the rest. *)
Fixpoint leadingFraction (x : Z) (scale : spec_float) (overflow : bool) (s : gostring) : Z * spec_float * gostring :=
  match s with
  | [] => (x, scale, [])
  | c :: s' =>
    match digit_val c with
    | None => (x, scale, s)
    | Some d =>
      if overflow then leadingFraction x scale overflow s'
      else if ((2 ^ 63 - 1) / 10 <? x)%Z then leadingFraction x scale true s'
      else
        let y := (x * 10 + d)%Z in
        if (2 ^ 63 <? y)%Z then leadingFraction x scale true s'
        else leadingFraction y (fmul scale (float64 10)) overflow s'
    end
  end.

Definition unit_byte (c : ascii) : bool :=
  match digit_val c with Some _ => false | None => negb (bool_decide (c = "."%char)) end.

Fixpoint unit_span (s : gostring) : gostring * gostring :=
  match s with
  | c :: s' => if unit_byte c then let (u, r) := unit_span s' in (c :: u, r) else ([], s)
  | [] => ([], [])
  end.

(** The value of one component. *)
Definition component (v f unit : Z) (scale : spec_float) : go durationError Z :=
  if (2 ^ 63 / unit <? v)%Z then Err InvalidDuration
  else
    let v := (v * unit)%Z in
    if (0 <? f)%Z then
      let v := u64 (v + uint64_of (fmul (float64 f) (fdiv (float64 unit) scale))) in
      if (2 ^ 63 <? v)%Z then Err InvalidDuration else Ok v
    else Ok v.

(** One turn of the loop: the value of the component at the front, and the rest. *)
Definition next_component (s : gostring) : go durationError (Z * gostring) :=
  match s with
  | [] => Err InvalidDuration
  | c :: _ =>
    if negb (bool_decide (c = "."%char)) && negb (bool_decide (digit_val c <> None)) then Err InvalidDuration
    else
      match leadingInt 0 s with
      | None => Err InvalidDuration
      | Some (v, s1) =>
        let pre := negb (bool_decide (length s = length s1)) in
        let '(f, scale, s2, post) :=
          match s1 with
          | c :: s1' =>
            if bool_decide (c = "."%char) then
              let '(f, scale, s2) := leadingFraction 0 (float64 1) false s1' in
              (f, scale, s2, negb (bool_decide (length s1' = length s2)))
            else (0%Z, float64 1, s1, false)
          | [] => (0%Z, float64 1, s1, false)
          end in
        if negb pre && negb post then Err InvalidDuration
        else
          let (u, s3) := unit_span s2 in
          if bool_decide (u = []) then Err MissingUnit
          else
            match assoc u unitMap with
            | None => Err UnknownUnit
            | Some unit => let! v := component v f unit scale in Ok (v, s3)
            end
      end
  end.

(** Every turn takes at least the unit off the text. *)
Fixpoint duration_loop (fuel : nat) (d : Z) (s : gostring) : go durationError Z :=
  match s with
  | [] => Ok d
  | _ =>
    match fuel with
    | 0 => NoFuel
    | S fuel' =>
      let! (v, s) := next_component s in
      let d := u64 (d + v) in
      if (2 ^ 63 <? d)%Z then Err InvalidDuration else duration_loop fuel' d s
    end
  end.

Definition ParseDuration (s : gostring) : go durationError Z :=
  let '(neg, s) :=
    match s with
    | c :: s' =>
      if bool_decide (c = "-"%char) then (true, s')
      else if bool_decide (c = "+"%char) then (false, s') else (false, s)
    | [] => (false, s)
    end in
  if bool_decide (s = lit "0") then Ok 0%Z
  else if bool_decide (s = []) then Err InvalidDuration
  else
    let! d := duration_loop (length s) 0 s in
    if neg then Ok (i64 (- i64 d))
    else if (2 ^ 63 - 1 <? d)%Z then Err InvalidDuration else Ok d.

(** ** Termination and range *)
Lemma digit_val_range c d : digit_val c = Some d -> (0 <= d < 10)%Z.
Proof. unfold digit_val. destruct (_ && _)%Z eqn:E; [|done]. intros [= <-]. apply andb_true_iff in E as [?%Z.leb_le ?%Z.leb_le]. lia. Qed.

Lemma leadingInt_spec s x v r :
  (0 <= x <= 2 ^ 63)%Z -> leadingInt x s = Some (v, r) -> (0 <= v <= 2 ^ 63)%Z /\ length r <= length s.
Proof.
  revert x. induction s as [|c s IH]; intros x Hx; cbn [leadingInt]; [by intros [= <- <-]|].
  destruct (digit_val c) as [d|] eqn:Hd; [|intros [= <- <-]; split; [done|lia]]. apply digit_val_range in Hd.
  destruct (Z.ltb_spec (2 ^ 63 / 10) x); [done|]. destruct (Z.ltb_spec (2 ^ 63) (x * 10 + d)); [done|].
  intros Hl. apply IH in Hl as [? ?]; [|lia]. cbn. split; [done|lia].
Qed.

Lemma leadingFraction_length s x scale o f scale' r :
  leadingFraction x scale o s = (f, scale', r) -> length r <= length s.
Proof.
  revert x scale o. induction s as [|c s IH]; intros x scale o; cbn [leadingFraction]; [by intros [= <- <- <-]|].
  destruct (digit_val c) as [d|]; [|intros [= <- <- <-]; done].
  intros Hl. cbn. destruct o; [apply IH in Hl; lia|]. destruct (_ <? _)%Z; [apply IH in Hl; lia|].
  destruct (_ <? _)%Z; apply IH in Hl; lia.
Qed.

Lemma unit_span_app s u r : unit_span s = (u, r) -> s = u ++ r.
Proof.
  revert u r. induction s as [|c s IH]; intros u r; cbn; [by intros [= <- <-]|].
  destruct (unit_byte c); [|by intros [= <- <-]]. destruct (unit_span s) as [u' r']. intros [= <- <-].
  cbn. f_equal. by apply IH.
Qed.

Lemma u64_range z : (0 <= u64 z < 2 ^ 64)%Z.
Proof. apply Z.mod_pos_bound. done. Qed.

Lemma unit_positive u unit : assoc u unitMap = Some unit -> (1 <= unit <= Hour)%Z.
Proof.
  unfold unitMap. cbn [assoc]. repeat (case_bool_decide; [intros [= <-]; vm_compute; split; discriminate|]). done.
Qed.

Lemma component_range v f unit scale r :
  (0 <= v)%Z -> (1 <= unit)%Z -> component v f unit scale = Ok r -> (0 <= r <= 2 ^ 63)%Z.
Proof.
  intros Hv Hu. unfold component. destruct (Z.ltb_spec (2 ^ 63 / unit) v) as [|Hle]; [done|].
  destruct (0 <? f)%Z.
  - destruct (Z.ltb_spec (2 ^ 63) (u64 (v * unit + uint64_of (fmul (float64 f) (fdiv (float64 unit) scale))))); [done|].
    intros [= <-]. pose proof (u64_range (v * unit + uint64_of (fmul (float64 f) (fdiv (float64 unit) scale)))). lia.
  - intros [= <-]. split; [lia|]. pose proof (Z.mul_div_le (2 ^ 63) unit ltac:(lia)). nia.
Qed.

Lemma next_component_spec s v r :
  next_component s = Ok (v, r) -> (0 <= v <= 2 ^ 63)%Z /\ length r < length s.
Proof.
  unfold next_component. destruct s as [|c s']; [done|]. set (s := c :: s'). destruct (_ && _); [done|].
  destruct (leadingInt 0 s) as [[v1 s1]|] eqn:Hi; [|done]. apply leadingInt_spec in Hi as [Hv Hl1]; [|lia].
  set (q := match s1 with [] => _ | _ :: _ => _ end). destruct q as [[[f scale] s2] post] eqn:Hq.
  assert (Hl2 : length s2 <= length s1).
  { subst q. destruct s1 as [|c1 s1']; [by injection Hq as <- <- <- <-|]. destruct (bool_decide (c1 = "."%char)).
    - destruct (leadingFraction _ _ _ s1') as [[f' sc'] s2'] eqn:Hf. apply leadingFraction_length in Hf.
      injection Hq as <- <- <- <-. cbn. lia.
    - by injection Hq as <- <- <- <-. }
  destruct (_ && _); [done|]. destruct (unit_span s2) as [u s3] eqn:Hu. apply unit_span_app in Hu.
  case_bool_decide as Hne; [done|]. destruct (assoc u unitMap) as [unit|] eqn:Hun; [|done].
  rewrite go_bind_Ok. intros (v2 & Hc & [= <- <-]). apply unit_positive in Hun.
  split; [by apply (component_range v1 f unit scale); [lia..|]|].
  rewrite Hu, length_app in Hl2. destruct u; [done|]. cbn [length] in Hl2. lia.
Qed.

Lemma next_component_returns s : returns (next_component s).
Proof.
  unfold next_component. destruct s as [|c s']; [done|]. destruct (_ && _); [done|].
  destruct (leadingInt _ _) as [[v1 s1]|]; [|done].
  destruct (match s1 with [] => _ | _ :: _ => _ end) as [[[f scale] s2] post].
  destruct (_ && _); [done|]. destruct (unit_span s2) as [u s3]. case_bool_decide; [done|].
  destruct (assoc u unitMap) as [unit|]; [|done]. unfold component.
  destruct (_ <? _)%Z; [done|]. destruct (_ <? _)%Z; [|done]. by destruct (_ <? _)%Z.
Qed.

Lemma duration_loop_spec fuel d s :
  (0 <= d <= 2 ^ 63)%Z -> length s <= fuel ->
  (exists r, duration_loop fuel d s = Ok r /\ (0 <= r <= 2 ^ 63)%Z) \/ exists e, duration_loop fuel d s = Err e.
Proof.
  revert d s. induction fuel as [|fuel IH]; intros d s Hd Hf; (destruct s as [|c s]; [left; by exists d|]); [cbn in Hf; lia|].
  cbn [duration_loop]. pose proof (next_component_returns (c :: s)) as Hr.
  destruct (next_component (c :: s)) as [[v r]|e| |] eqn:Hn; [|right; by exists e|done..]. cbn [go_bind].
  apply next_component_spec in Hn as [Hv Hl]. destruct (Z.ltb_spec (2 ^ 63) (u64 (d + v))); [right; by eexists|].
  pose proof (u64_range (d + v)). apply IH; [lia|]. cbn in *. lia.
Qed.

(** [ParseDuration] comes back on every text, and what it accepts is an int64. *)
Lemma ParseDuration_spec s :
  (exists d, ParseDuration s = Ok d /\ (- 2 ^ 63 <= d < 2 ^ 63)%Z) \/ exists e, ParseDuration s = Err e.
Proof.
  unfold ParseDuration. destruct (match s with [] => _ | _ :: _ => _ end) as [neg t].
  case_bool_decide; [left; by exists 0%Z|]. case_bool_decide; [right; by eexists|].
  destruct (duration_loop_spec (length t) 0 t ltac:(lia) ltac:(lia)) as [(d & -> & Hd)|(e & ->)]; [|right; by exists e].
  cbn [go_bind]. destruct neg.
  - left. eexists. split; [done|]. unfold i64 at 1 3. pose proof (Z.mod_pos_bound (- i64 d + 2 ^ 63) (2 ^ 64) ltac:(done)). lia.
  - destruct (Z.ltb_spec (2 ^ 63 - 1) d); [right; by eexists|]. left. exists d. split; [done|lia].
Qed.

(** ** The value of a duration *)

(** A duration as it is written, one number and unit after the other, and its nanoseconds. *)
Definition render (l : list (Z * (gostring * Z))) : gostring := flat_map (fun p => FormatInt (fst p) ++ fst (snd p)) l.
Definition total (l : list (Z * (gostring * Z))) : Z := foldr (fun p acc => fst p * snd (snd p) + acc)%Z 0%Z l.

Lemma digits_val_mono s x v : (0 <= x)%Z -> digits_val x s = Some v -> (x <= v)%Z.
Proof.
  revert x. induction s as [|c s IH]; intros x Hx; cbn; [intros [= ->]; lia|].
  destruct (digit_val c) as [d|] eqn:Hd; [|done]. apply digit_val_range in Hd. intros Hv%IH; lia.
Qed.

Lemma leadingInt_digits ds x v r :
  (0 <= x)%Z -> digits_val x ds = Some v -> (v <= 2 ^ 63)%Z -> leadingInt x (ds ++ r) = leadingInt v r.
Proof.
  revert x. induction ds as [|c ds IH]; intros x Hx; cbn [digits_val app leadingInt]; [by intros [= ->]|].
  destruct (digit_val c) as [d|] eqn:Hd; [|done]. apply digit_val_range in Hd. intros Hv Hle.
  pose proof (digits_val_mono ds (x * 10 + d) v ltac:(lia) Hv) as Hm.
  destruct (Z.ltb_spec (2 ^ 63 / 10) x) as [Hlt|]; [change (2 ^ 63 / 10)%Z with 922337203685477580%Z in Hlt; lia|].
  destruct (Z.ltb_spec (2 ^ 63) (x * 10 + d)); [lia|]. by apply IH; [lia|..].
Qed.

Lemma FormatInt_digits n : (0 <= n < 2 ^ 63)%Z -> digits_val 0 (FormatInt n) = Some n.
Proof.
  intros Hn. pose proof (ParseUint_FormatInt n 64) as Hp. specialize (Hp ltac:(lia) ltac:(lia)).
  unfold ParseUint in Hp. pose proof (FormatInt_not_nil n). destruct (FormatInt n) as [|c s]; [done|].
  destruct (digits_val 0 (c :: s)) as [v|]; [|done]. by destruct (v <? 2 ^ 64)%Z; [injection Hp as ->|].
Qed.

(** What follows a unit does not belong to it. *)
Definition stops (r : gostring) : Prop := match r with [] => True | c :: _ => digit_val c <> None end.

Lemma unit_span_stops u r :
  forallb unit_byte u = true -> stops r -> unit_span (u ++ r) = (u, r).
Proof.
  intros Hu Hr. induction u as [|c u IH]; cbn in *.
  - destruct r as [|c r]; [done|]. cbn in *. unfold unit_byte. by destruct (digit_val c).
  - apply andb_true_iff in Hu as [-> Hu]. by rewrite IH.
Qed.

Lemma unitMap_bytes p :
  p ∈ unitMap -> forallb unit_byte (fst p) = true /\ fst p <> [] /\ (0 < snd p)%Z /\ assoc (fst p) unitMap = Some (snd p).
Proof.
  assert (Hall : forallb (fun p => forallb unit_byte (fst p) && negb (bool_decide (fst p = [])) && (0 <? snd p)%Z &&
    bool_decide (assoc (fst p) unitMap = Some (snd p))) unitMap = true) by (vm_compute; reflexivity).
  apply forallb_Forall in Hall. rewrite Forall_forall in Hall. intros Hp. specialize (Hall p Hp).
  rewrite !andb_true_iff, negb_true_iff in Hall. destruct Hall as [[[Hb Hn%bool_decide_eq_false] Hz%Z.ltb_lt] Ha%bool_decide_eq_true]. done.
Qed.

Lemma next_component_render n p r :
  (0 <= n)%Z -> p ∈ unitMap -> (n * snd p < 2 ^ 63)%Z -> stops r ->
  next_component (FormatInt n ++ fst p ++ r) = Ok ((n * snd p)%Z, r).
Proof.
  intros Hn Hp Hlt Hr. destruct (unitMap_bytes p Hp) as (Hb & Hne & Hpos & Ha). destruct p as [u unit]. cbn [fst snd] in *.
  assert (Hn63 : (0 <= n < 2 ^ 63)%Z) by (assert (n <= n * unit)%Z by nia; lia). pose proof (FormatInt_digits n Hn63) as Hd.
  assert (Hli : leadingInt 0 (FormatInt n ++ u ++ r) = Some (n, u ++ r)).
  { rewrite (leadingInt_digits _ 0 n) by (lia || done). destruct u as [|c u]; [done|]. cbn in *.
    apply andb_true_iff in Hb as [Hb _]. unfold unit_byte in Hb. by destruct (digit_val c). }
  pose proof (FormatInt_not_nil n) as Hnil. destruct (FormatInt n) as [|c0 ds] eqn:Ef; [done|].
  cbn [app next_component]. change (c0 :: ds ++ u ++ r) with ((c0 :: ds) ++ u ++ r). rewrite Hli.
  assert (Hc0 : digit_val c0 <> None) by (cbn in Hd; by destruct (digit_val c0)).
  rewrite (bool_decide_eq_true_2 (digit_val c0 <> None)) by done. cbn [negb]. rewrite andb_false_r.
  rewrite (bool_decide_eq_false_2 (length _ = length _)) by (rewrite !length_app; cbn; lia).
  destruct u as [|c u]; [done|]. cbn [app]. assert (Hc : c <> "."%char) by (cbn in Hb; intros ->; by vm_compute in Hb).
  rewrite bool_decide_eq_false_2 by done. cbn [negb andb].
  change (c :: u ++ r) with ((c :: u) ++ r). rewrite unit_span_stops by done.
  rewrite bool_decide_eq_false_2 by done. rewrite Ha. unfold component.
  destruct (Z.ltb_spec (2 ^ 63 / unit) n) as [Hlt'|]; [|done].
  pose proof (Z.div_le_lower_bound (2 ^ 63) unit n ltac:(lia) ltac:(lia)). lia.
Qed.

Lemma FormatInt_stops n s : (0 <= n < 2 ^ 63)%Z -> stops (FormatInt n ++ s).
Proof.
  intros Hn. pose proof (FormatInt_digits n Hn) as Hd. pose proof (FormatInt_not_nil n).
  destruct (FormatInt n) as [|c ds]; [done|]. cbn in *. by destruct (digit_val c).
Qed.

Definition parts_ok (l : list (Z * (gostring * Z))) : Prop := Forall (fun p => (0 <= fst p)%Z /\ snd p ∈ unitMap) l.

Lemma total_nonneg l : parts_ok l -> (0 <= total l)%Z.
Proof.
  induction 1 as [|p l [Hn Hu] _ IH]; cbn [total foldr]; [lia|]. fold (total l).
  apply unitMap_bytes in Hu as (_ & _ & ? & _). assert (0 <= fst p * snd (snd p))%Z by nia. lia.
Qed.

Lemma render_stops l : parts_ok l -> (total l < 2 ^ 63)%Z -> stops (render l).
Proof.
  destruct 1 as [|p l [Hn Hu] Hl]; [done|]. intros Ht. cbn [render flat_map]. rewrite <- app_assoc.
  apply total_nonneg in Hl. cbn [total foldr] in Ht. fold (total l) in Ht.
  apply unitMap_bytes in Hu as (_ & _ & ? & _). apply FormatInt_stops.
  assert (fst p <= fst p * snd (snd p))%Z by nia. lia.
Qed.

Lemma duration_loop_render l d fuel :
  parts_ok l -> (0 <= d)%Z -> (d + total l < 2 ^ 63)%Z -> length (render l) <= fuel ->
  duration_loop fuel d (render l) = Ok (d + total l)%Z.
Proof.
  intros Hl. revert d fuel. induction Hl as [|p l [Hn Hu] Hl IH]; intros d fuel Hd Ht Hf.
  - cbn [total foldr]. rewrite Z.add_0_r. by destruct fuel.
  - pose proof (total_nonneg l Hl) as Hpos. destruct (unitMap_bytes _ Hu) as (_ & Hne & ? & _).
    cbn [total foldr] in Ht |- *. fold (total l) in Ht |- *. assert (0 <= fst p * snd (snd p))%Z by nia.
    assert (Hr : render (p :: l) = FormatInt (fst p) ++ fst (snd p) ++ render l) by (cbn [render flat_map]; by rewrite <- app_assoc).
    rewrite Hr in *. rewrite !length_app in Hf. pose proof (FormatInt_not_nil (fst p)) as Hnil.
    assert (Hl1 : 1 <= length (FormatInt (fst p))) by (destruct (FormatInt (fst p)); [done|cbn; lia]).
    destruct fuel as [|fuel]; [lia|]. assert (Hunf : forall t, t <> [] -> duration_loop (S fuel) d t =
      (let! (v, s) := next_component t in let d := u64 (d + v) in
       if (2 ^ 63 <? d)%Z then Err InvalidDuration else duration_loop fuel d s)) by (by intros [|]).
    rewrite Hunf by (destruct (FormatInt (fst p)); [done|by cbn]).
    rewrite next_component_render by (done || lia || (apply render_stops; [done|lia])). cbn [go_bind].
    unfold u64. rewrite Z.mod_small by lia. destruct (Z.ltb_spec (2 ^ 63) (d + fst p * snd (snd p))); [lia|].
    rewrite IH by lia. f_equal. lia.
Qed.

(** [ParseDuration] reads a duration written as numbers and units as the sum of its parts. *)
Lemma ParseDuration_render l :
  l <> [] -> parts_ok l -> (total l < 2 ^ 63)%Z -> ParseDuration (render l) = Ok (total l).
Proof.
  intros Hne Hl Ht. pose proof (duration_loop_render l 0 (length (render l)) Hl ltac:(lia) ltac:(lia) ltac:(lia)) as Hloop.
  pose proof (render_stops l Hl Ht) as Hs. pose proof (total_nonneg l Hl).
  assert (Hlen : 2 <= length (render l)).
  { destruct Hl as [|p l [_ Hu] _]; [done|]. destruct (unitMap_bytes _ Hu) as (_ & Hu' & _ & _). cbn [render flat_map].
    rewrite !length_app. pose proof (FormatInt_not_nil (fst p)). destruct (FormatInt (fst p)), (fst (snd p)); try done. cbn. lia. }
  unfold ParseDuration. destruct (render l) as [|c t]; [cbn in Hlen; lia|].
  assert (Hc : c <> "-"%char /\ c <> "+"%char) by (split; intros ->; by vm_compute in Hs).
  rewrite (bool_decide_eq_false_2 (c = "-"%char)), (bool_decide_eq_false_2 (c = "+"%char)) by tauto.
  rewrite bool_decide_eq_false_2 by (intros [= _ ->]; cbn in Hlen; lia). rewrite bool_decide_eq_false_2 by done.
  rewrite Hloop. cbn [go_bind]. rewrite Z.add_0_l. by destruct (Z.ltb_spec (2 ^ 63 - 1) (total l)); [lia|].
Qed.
