(* ===== verification/GoFlag.v ===== *)
(** * Command-line flags: strconv.ParseInt with base 0, and the parser of package flag *)

From Stdlib Require Import ZArith Lia Ascii String.
From stdpp Require Import base list strings.
From S2P Require Import Prelude GoStrings GoTime.

(** ** ParseInt(s, 0, 64) *)
Definition lower (c : ascii) : Z := Z.lor (bz c) 32.

Definition digit0 (base : Z) (c : ascii) : option Z :=
  let d :=
    if ((48 <=? bz c) && (bz c <=? 57))%Z then Some (bz c - 48)%Z
    else if ((97 <=? lower c) && (lower c <=? 122))%Z then Some (lower c - 97 + 10)%Z
    else None in
  match d with Some d => if (d <? base)%Z then Some d else None | None => None end.

Fixpoint digits0 (base acc : Z) (s : gostring) : option Z :=
  match s with
  | [] => Some acc
  | c :: s' =>
    if bool_decide (c = "_"%char) then digits0 base acc s'
    else
      match digit0 base c with
      | Some d => let n := (acc * base + d)%Z in if (n <? 2 ^ 64)%Z then digits0 base n s' else None
      | None => None
      end
  end.

(** The base that a prefix asks for. *)
Definition base_of (s : gostring) : Z * gostring :=
  match s with
  | c :: s' =>
    if bool_decide (c = "0"%char) then
      match s' with
      | x :: ((_ :: _) as rest) =>
        if (lower x =? bz "b"%char)%Z then (2%Z, rest)
        else if (lower x =? bz "o"%char)%Z then (8%Z, rest)
        else if (lower x =? bz "x"%char)%Z then (16%Z, rest)
        else (8%Z, s')
      | _ => (8%Z, s')
      end
    else (10%Z, s)
  | [] => (10%Z, s)
  end.

(** What [underscoreOK] has seen last: nothing, a digit, an underscore, something else. *)
Inductive seen := SeenNone | SeenDigit | SeenUnderscore | SeenOther.

Fixpoint underscore_loop (hex : bool) (i : seen) (s : gostring) : bool :=
  match s with
  | [] => match i with SeenUnderscore => false | _ => true end
  | c :: s' =>
    if ((48 <=? bz c) && (bz c <=? 57) || hex && ((97 <=? lower c) && (lower c <=? 102)))%Z
    then underscore_loop hex SeenDigit s'
    else if bool_decide (c = "_"%char) then
      match i with SeenDigit => underscore_loop hex SeenUnderscore s' | _ => false end
    else
      match i with SeenUnderscore => false | _ => underscore_loop hex SeenOther s' end
  end.

Definition underscoreOK (s : gostring) : bool :=
  let s := match s with
    | c :: s' => if bool_decide (c ∈ ["-"%char; "+"%char]) then s' else s
    | [] => s
    end in
  match s with
  | c :: x :: s' =>
    if bool_decide (c = "0"%char) && bool_decide (lower x ∈ [bz "b"%char; bz "o"%char; bz "x"%char])
    then underscore_loop (lower x =? bz "x"%char)%Z SeenDigit s'
    else underscore_loop false SeenNone s
  | _ => underscore_loop false SeenNone s
  end.

Definition ParseUint0 (s : gostring) : option Z :=
  match s with
  | [] => None
  | _ =>
    let (base, ds) := base_of s in
    match digits0 base 0 ds with
    | Some v => if bool_decide ("_"%char ∈ ds) && negb (underscoreOK s) then None else Some v
    | None => None
    end
  end.

Definition ParseInt0 (s : gostring) : option Z :=
  let parse (neg : bool) (ds : gostring) :=
    match ParseUint0 ds with
    | Some v =>
      if neg then (if (v <=? 2 ^ 63)%Z then Some (- v)%Z else None)
      else (if (v <? 2 ^ 63)%Z then Some v else None)
    | None => None
    end in
  match s with
  | [] => None
  | c :: s' =>
    if bool_decide (c = "+"%char) then parse false s'
    else if bool_decide (c = "-"%char) then parse true s'
    else parse false s
  end.

(** ** Package flag *)

(** How an argument reads: not a flag, the end of the flags, or a flag. *)
Inductive flag_arg := NotFlag | BadSyntax | Flag (name : gostring) (value : option gostring).

Definition read_flag (s : gostring) : flag_arg :=
  match s with
  | c :: c' :: r =>
    if bool_decide (c = "-"%char) then
      let name := if bool_decide (c' = "-"%char) then r else c' :: r in
      if bool_decide (c' = "-"%char) && bool_decide (r = []) then NotFlag (* the terminator *)
      else
        match name with
        | [] => BadSyntax
        | n :: _ =>
          if bool_decide (n ∈ ["-"%char; "="%char]) then BadSyntax
          else
            match IndexByte name "="%char with
            | Some i => Flag (take i name) (Some (drop (i + 1) name))
            | None => Flag name None
            end
        end
    else NotFlag
  | _ => NotFlag
  end.

Inductive flagError := ErrHelp | ErrFlag.

(** [FlagSet.Parse] over the values of type [F]: [set] gives a flag's setter, which may reject
    a value.  What follows the flags is ignored by the program. *)
Section FlagSet.
Context {F : Type} (set : gostring -> option (gostring -> F -> option F)).

Fixpoint Parse (args : list gostring) (f : F) : go flagError F :=
  match args with
  | [] => Ok f
  | s :: args =>
    match read_flag s with
    | NotFlag => Ok f
    | BadSyntax => Err ErrFlag
    | Flag name value =>
      match set name with
      | None => if bool_decide (name ∈ [lit "help"; lit "h"]) then Err ErrHelp else Err ErrFlag
      | Some put =>
        match value with
        | Some v => match put v f with Some f => Parse args f | None => Err ErrFlag end
        | None =>
          match args with
          | [] => Err ErrFlag
          | v :: args => match put v f with Some f => Parse args f | None => Err ErrFlag end
          end
        end
      end
    end
  end.
End FlagSet.

(** ** Correctness *)
Lemma digits0_decimal s acc v :
  (0 <= acc)%Z -> digits_val acc s = Some v -> (v < 2 ^ 64)%Z -> digits0 10 acc s = Some v /\ "_"%char ∉ s.
Proof.
  revert acc. induction s as [|c s IH]; intros acc Hacc; cbn [digits_val digits0].
  { intros [= ->] _. split; [done|]. by apply not_elem_of_nil. }
  unfold digit_val, digit0. destruct ((48 <=? bz c) && (bz c <=? 57))%Z eqn:Hd; [|done].
  apply andb_true_iff in Hd as [H1%Z.leb_le H2%Z.leb_le]. intros Hv Hlt.
  pose proof (digits_val_mono s (acc * 10 + (bz c - 48)) v ltac:(lia) Hv) as Hm. destruct (IH (acc * 10 + (bz c - 48))%Z ltac:(lia) Hv Hlt) as [IH1 IH2].
  assert (Hc : c <> "_"%char) by (intros ->; vm_compute in H2; by apply H2).
  rewrite bool_decide_eq_false_2, (proj2 (Z.ltb_lt _ 10)), (proj2 (Z.ltb_lt _ (2 ^ 64))) by (done || lia).
  split; [done|]. by rewrite not_elem_of_cons.
Qed.

(** A positive number does not start with a zero. *)
Lemma format_digits_head fuel n acc :
  (0 < n < 10 ^ Z.of_nat fuel)%Z -> exists c r, format_digits fuel n acc = c :: r /\ c <> "0"%char.
Proof.
  revert n acc. induction fuel as [|fuel IH]; intros n acc Hn; [cbn in Hn; lia|]. cbn [format_digits].
  destruct (Z.ltb_spec n 10).
  - eexists _, _. split; [done|]. rewrite Z.mod_small by lia. intros Hz%(f_equal bz). rewrite bz_zb_small in Hz by lia.
    change (bz "0"%char) with 48%Z in Hz. lia.
  - apply IH. rewrite Nat2Z.inj_succ, Z.pow_succ_r in Hn by lia. split; [apply Z.div_str_pos; lia|].
    apply Z.div_lt_upper_bound; lia.
Qed.

Lemma ParseUint0_FormatInt n : (0 <= n < 2 ^ 63)%Z -> ParseUint0 (FormatInt n) = Some n.
Proof.
  intros Hn. destruct (decide (n = 0%Z)) as [-> |Hz]; [done|].
  pose proof (FormatInt_digits n Hn) as Hd. destruct (digits0_decimal _ 0 n ltac:(lia) Hd ltac:(lia)) as [H1 H2].
  assert (exists c r, FormatInt n = c :: r /\ c <> "0"%char) as (c & r & Hf & Hc).
  { unfold FormatInt. rewrite (proj2 (Z.ltb_ge _ _)) by lia. apply format_digits_head. lia. }
  unfold ParseUint0, base_of. rewrite Hf, (bool_decide_eq_false_2 (c = "0"%char)) by done.
  rewrite <- Hf, H1. by rewrite bool_decide_eq_false_2.
Qed.

Lemma ParseInt0_FormatInt n : (0 <= n < 2 ^ 63)%Z -> ParseInt0 (FormatInt n) = Some n.
Proof.
  intros Hn. pose proof (ParseUint0_FormatInt n Hn) as Hu. pose proof (FormatInt_digits n Hn) as Hd.
  unfold ParseInt0. destruct (FormatInt n) as [|c s]; [done|].
  assert (Hc : c <> "+"%char /\ c <> "-"%char) by (split; intros ->; done).
  rewrite !bool_decide_eq_false_2 by apply Hc. by rewrite Hu, (proj2 (Z.ltb_lt _ _)) by lia.
Qed.

(** A flag in one of its two spellings. *)
Definition render_flag (a : bool * (gostring * gostring)) : list gostring :=
  let '(joined, (name, value)) := a in
  if joined : bool then [lit "--" ++ name ++ "="%char :: value] else [lit "--" ++ name; value].

Definition flag_name (name : gostring) : Prop :=
  match name with [] => False | c :: _ => c <> "-"%char end /\ "="%char ∉ name.

Lemma read_flag_name name value :
  flag_name name ->
  read_flag (lit "--" ++ name) = Flag name None /\
  read_flag (lit "--" ++ name ++ "="%char :: value) = Flag name (Some value).
Proof.
  intros [Hne Heq]. destruct name as [|c r]; [done|]. cbn [read_flag lit app list_ascii_of_string].
  rewrite !(bool_decide_eq_true_2 ("-"%char = "-"%char)) by done. cbn [andb].
  rewrite !bool_decide_eq_false_2 by done.
  assert (Hc : c ∉ ["-"%char; "="%char]).
  { rewrite !not_elem_of_cons. split; [done|]. split; [|by apply not_elem_of_nil]. intros ->. apply Heq. left. }
  rewrite !bool_decide_eq_false_2 by done. split.
  - by rewrite (proj2 (IndexByte_None _ _)).
  - change (c :: r ++ "="%char :: value) with ((c :: r) ++ "="%char :: value).
    rewrite IndexByte_app by done. rewrite take_app_length, <- drop_drop, drop_app_length. done.
Qed.

(** Flags in any order and either spelling set their values, the last one of a name counting. *)
Lemma Parse_render {F} (set : gostring -> option (gostring -> F -> option F)) l f f' :
  Forall (fun a => flag_name (fst (snd a))) l ->
  foldl (fun f a => f ≫= fun f => set (fst (snd a)) ≫= fun put => put (snd (snd a)) f) (Some f) l = Some f' ->
  Parse set (flat_map render_flag l) f = Ok f'.
Proof.
  intros Hl. revert f. induction Hl as [|[joined [name value]] l Hn _ IH]; intros f; cbn [foldl flat_map].
  { by intros [= <-]. }
  cbn [fst snd] in *. destruct (read_flag_name name value Hn) as [H1 H2]. intros Hf.
  destruct (set name) as [put|] eqn:Hs.
  2: { exfalso. revert Hf. cbn. clear. induction l; [done|]. by cbn. }
  destruct (put value f) as [f1|] eqn:Hp.
  2: { exfalso. revert Hf. cbn. rewrite Hp. clear. induction l; [done|]. by cbn. }
  cbn in Hf. rewrite Hp in Hf. unfold render_flag. destruct joined; cbn [app Parse].
  - rewrite H2, Hs, Hp. by apply IH.
  - rewrite H1, Hs, Hp. by apply IH.
Qed.

Lemma Parse_returns {F} (set : gostring -> option (gostring -> F -> option F)) args f : returns (Parse set args f).
Proof.
  revert f. induction args as [args IH] using (induction_ltof1 _ length). unfold ltof in IH. intros f.
  destruct args as [|a args]; [done|]. cbn [Parse]. destruct (read_flag a) as [| |name value]; [done..|].
  destruct (set name) as [put|]; [|by case_bool_decide]. destruct value as [v|].
  - destruct (put v f); [|done]. apply IH. cbn. lia.
  - destruct args as [|v args]; [done|]. destruct (put v f); [|done]. apply IH. cbn. lia.
Qed.
