(* ===== verification/Config.v ===== *)
(** * Configuration (src/internal/config/config.go)

    The environment is a function from names to values; the number of processors is a
    parameter. *)

From Stdlib Require Import ZArith Lia Ascii String.
From stdpp Require Import base list strings.
From S2P Require Import Prelude GoStrings GoTime.

Record Config := mkConfig {
  DNSAddr : gostring;
  APIAddr : gostring;
  APIToken : gostring;
  DatabaseURL : gostring;
  DBMaxConns : Z;
  Workers : Z;
  LogLevel : gostring;
  CacheEnabled : bool;
  CacheTTL : Z;
  CacheMaxEntries : Z;
  NATSURL : gostring;
  NATSSubject : gostring;
}.

Inductive configError := BadCacheTTL | NoDatabaseURL | BadCacheMaxEntries.

Section Load.
Context `{GoUnicode} (NumCPU : Z) (environ : gostring -> option gostring).

Definition Getenv (k : gostring) : gostring := default [] (environ k).

Definition getenv (k def : gostring) : gostring :=
  match environ k with
  | Some v => if bool_decide (v <> []) then v else def
  | None => def
  end.

Definition getenvInt (k : gostring) (def : Z) : Z :=
  match Atoi (Getenv k) with Some n => n | None => def end.

Definition getenvBool (k : gostring) (def : bool) : bool :=
  let v := ToLower (Getenv k) in
  if bool_decide (v ∈ [lit "1"; lit "true"; lit "yes"; lit "on"]) then true
  else if bool_decide (v ∈ [lit "0"; lit "false"; lit "no"; lit "off"]) then false
  else def.

Definition Load : go configError Config :=
  let cfg ttl db w :=
    mkConfig (getenv (lit "DNS_ADDR") (lit ":53")) (getenv (lit "API_ADDR") (lit ":9053")) (Getenv (lit "API_TOKEN"))
      (Getenv (lit "DATABASE_URL")) db w (getenv (lit "LOG_LEVEL") (lit "info"))
      (getenvBool (lit "CACHE_ENABLED") false) ttl (getenvInt (lit "CACHE_MAX_ENTRIES") 100000)
      (Getenv (lit "NATS_URL")) (getenv (lit "NATS_SUBJECT") (lit "sharddns.changes")) in
  match ParseDuration (getenv (lit "CACHE_TTL") (lit "0")) with
  | Err _ => Err BadCacheTTL
  | Panic => Panic
  | NoFuel => NoFuel
  | Ok ttl =>
    if (ttl <? 0)%Z then Err BadCacheTTL
    else if bool_decide (Getenv (lit "DATABASE_URL") = []) then Err NoDatabaseURL
    else
      let w := getenvInt (lit "WORKERS") 0 in
      let w := if (w <=? 0)%Z then i64 (4 * NumCPU) else w in
      let db := getenvInt (lit "DB_MAX_CONNS") 0 in
      let db := if (db <=? 0)%Z then Z.max 8 (i64 (2 * NumCPU)) else db in
      if (getenvInt (lit "CACHE_MAX_ENTRIES") 100000 <=? 0)%Z then Err BadCacheMaxEntries
      else Ok (cfg ttl db w)
  end.

(** ** What the rest of the program relies on *)
Definition config_valid (cfg : Config) : Prop :=
  DatabaseURL cfg <> [] /\ DNSAddr cfg <> [] /\ APIAddr cfg <> [] /\ NATSSubject cfg <> [] /\
  (1 <= Workers cfg < 2 ^ 63)%Z /\ (1 <= DBMaxConns cfg < 2 ^ 63)%Z /\
  (1 <= CacheMaxEntries cfg < 2 ^ 63)%Z /\ (0 <= CacheTTL cfg < 2 ^ 63)%Z.

Lemma getenv_not_nil k def : def <> [] -> getenv k def <> [].
Proof. intros Hd. unfold getenv. destruct (environ k); [|done]. by case_bool_decide. Qed.

Lemma Atoi_range s n : Atoi s = Some n -> (- 2 ^ 63 <= n < 2 ^ 63)%Z.
Proof.
  unfold Atoi, ParseInt64. destruct s as [|c s]; [done|].
  assert (Hp : forall (neg : bool) ds r, match ParseUint ds 64 with
    | Some v => if neg then (if (v <=? 2 ^ 63)%Z then Some (- v)%Z else None) else (if (v <? 2 ^ 63)%Z then Some v else None)
    | None => None end = Some r -> (- 2 ^ 63 <= r < 2 ^ 63)%Z).
  { intros neg ds r. destruct (ParseUint ds 64) as [v|] eqn:E; [|done].
    assert (Hv : (0 <= v)%Z).
    { unfold ParseUint in E. destruct ds; [done|]. destruct (digits_val 0 _) as [v'|] eqn:Ed; [|done].
      apply digits_val_mono in Ed; [|lia]. by destruct (_ <? _)%Z; [injection E as <-|]. }
    destruct neg; [destruct (Z.leb_spec v (2 ^ 63))|destruct (Z.ltb_spec v (2 ^ 63))]; try done; intros [= <-]; lia. }
  case_bool_decide; [apply (Hp false)|]. case_bool_decide; [apply (Hp true)|apply (Hp false)].
Qed.

Lemma getenvInt_range k def : (- 2 ^ 63 <= def < 2 ^ 63)%Z -> (- 2 ^ 63 <= getenvInt k def < 2 ^ 63)%Z.
Proof. intros Hd. unfold getenvInt. destruct (Atoi (Getenv k)) as [n|] eqn:E; [by apply Atoi_range in E|done]. Qed.

Lemma i64_small z : (- 2 ^ 63 <= z < 2 ^ 63)%Z -> i64 z = z.
Proof. intros Hz. unfold i64. rewrite Z.mod_small by lia. lia. Qed.

Lemma Load_returns : returns Load.
Proof.
  unfold Load. cbv zeta. destruct (ParseDuration_spec (getenv (lit "CACHE_TTL") (lit "0"))) as [(ttl & -> & _)|(e & ->)]; [|done].
  by repeat case_match.
Qed.

Lemma Load_APIAddr cfg : Load = Ok cfg -> APIAddr cfg = getenv (lit "API_ADDR") (lit ":9053").
Proof. unfold Load. cbv zeta. intros Hl. repeat case_match; simplify_eq; done. Qed.

Lemma getenv_Getenv k def : getenv k def = if bool_decide (Getenv k = []) then def else Getenv k.
Proof. unfold getenv, Getenv. destruct (environ k); cbn; [|done]. by repeat case_bool_decide. Qed.


(** The lifetime of cache entries is the duration that CACHE_TTL spells out. *)
Lemma Load_ttl l cfg :
  environ (lit "CACHE_TTL") = Some (render l) -> l <> [] -> parts_ok l -> (total l < 2 ^ 63)%Z ->
  Load = Ok cfg -> CacheTTL cfg = total l.
Proof.
  intros He Hne Hl Ht. unfold Load, getenv. rewrite He.
  assert (Hr : render l <> []).
  { destruct l as [|p l]; [done|]. cbn. pose proof (FormatInt_not_nil (fst p)). by destruct (FormatInt (fst p)). }
  rewrite (bool_decide_eq_true_2 (render l <> [])) by done. rewrite ParseDuration_render by done. cbv zeta.
  destruct (_ <? _)%Z; [done|]. case_bool_decide; [done|]. destruct (_ <=? 0)%Z; [|destruct (_ <=? 0)%Z]; try done;
    repeat (destruct (_ <=? _)%Z; try done); by intros [= <-].
Qed.
End Load.

(** ** Concrete environments *)
Definition env_of (l : list (gostring * gostring)) (k : gostring) : option gostring := assoc k l.

(** The defaults of the manual: nothing set but the database. *)
Lemma Load_defaults `{GoUnicode} :
  Load 4 (env_of [(lit "DATABASE_URL", lit "postgres://db")]) =
  Ok (mkConfig (lit ":53") (lit ":9053") [] (lit "postgres://db") 8 16 (lit "info") false 0 100000 []
        (lit "sharddns.changes")).
Proof. vm_compute. reflexivity. Qed.
