(* ===== verification/Message.v ===== *)
(** * The DNS wire format (src/internal/dns/message.go)

    Data types, constants, the parser of messages and names, and the packer.
    Header fields, types, classes and TTLs are integers of the width the code
    gives them (held as [Z]); offsets and lengths are [nat]. *)

From Stdlib Require Import ZArith Lia Ascii String.
From stdpp Require Import base list strings.
From S2P Require Import Prelude GoStrings.

(** ** Constants *)
Definition TypeA : Z := 1.
Definition TypeNS : Z := 2.
Definition TypeCNAME : Z := 5.
Definition TypeSOA : Z := 6.
Definition TypeHINFO : Z := 13.
Definition TypePTR : Z := 12.
Definition TypeMX : Z := 15.
Definition TypeTXT : Z := 16.
Definition TypeAAAA : Z := 28.
Definition TypeSRV : Z := 33.
Definition TypeNAPTR : Z := 35.
Definition TypeDNAME : Z := 39.
Definition TypeOPT : Z := 41.
Definition TypeDS : Z := 43.
Definition TypeSSHFP : Z := 44.
Definition TypeRRSIG : Z := 46.
Definition TypeNSEC : Z := 47.
Definition TypeDNSKEY : Z := 48.
Definition TypeNSEC3 : Z := 50.
Definition TypeNSEC3PARAM : Z := 51.
Definition TypeTLSA : Z := 52.
Definition TypeCAA : Z := 257.
Definition TypeAXFR : Z := 252.
Definition TypeANY : Z := 255.

Definition ClassIN : Z := 1.
Definition ClassANY : Z := 255.

Definition FlagQR : Z := 0x8000.
Definition FlagAA : Z := 0x0400.
Definition FlagTC : Z := 0x0200.
Definition FlagRD : Z := 0x0100.
Definition FlagRA : Z := 0x0080.

Definition RcodeNoError : Z := 0.
Definition RcodeFormatError : Z := 1.
Definition RcodeServerFailure : Z := 2.
Definition RcodeNXDomain : Z := 3.
Definition RcodeNotImplemented : Z := 4.
Definition RcodeRefused : Z := 5.

Definition MaxUDPMessageSize : Z := 512.
Definition MaxEDNSUDPSize : Z := 1232.
Definition maxNameLen : nat := 255.
Definition maxLabelLen : nat := 63.
Definition maxPointerHops : nat := 16.

Definition typeNames : list (Z * gostring) :=
  [ (TypeA, lit "A"); (TypeNS, lit "NS"); (TypeCNAME, lit "CNAME"); (TypeSOA, lit "SOA");
    (TypeHINFO, lit "HINFO"); (TypePTR, lit "PTR"); (TypeMX, lit "MX"); (TypeTXT, lit "TXT");
    (TypeAAAA, lit "AAAA"); (TypeSRV, lit "SRV"); (TypeNAPTR, lit "NAPTR");
    (TypeDNAME, lit "DNAME"); (TypeOPT, lit "OPT"); (TypeDS, lit "DS");
    (TypeSSHFP, lit "SSHFP"); (TypeRRSIG, lit "RRSIG"); (TypeNSEC, lit "NSEC");
    (TypeDNSKEY, lit "DNSKEY"); (TypeNSEC3, lit "NSEC3"); (TypeNSEC3PARAM, lit "NSEC3PARAM");
    (TypeTLSA, lit "TLSA"); (TypeCAA, lit "CAA"); (TypeAXFR, lit "AXFR"); (TypeANY, lit "ANY") ].

Definition typeCodes : list (gostring * Z) :=
  ((fun '(c, n) => (n, c)) <$> typeNames) ++ [(lit "*", TypeANY)].

Definition TypeName (t : Z) : gostring :=
  match assoc t typeNames with
  | Some n => n
  | None => lit "TYPE" ++ Itoa t
  end.

Definition TypeCode `{GoUnicode} (name : gostring) : Z :=
  default 0%Z (assoc (ToUpper name) typeCodes).

(** ** Data *)
Record Header := mkHeader {
  ID : Z; Flags : Z; QDCount : Z; ANCount : Z; NSCount : Z; ARCount : Z;
}.

Record Question := mkQuestion { qName : gostring; qType : Z; qClass : Z }.

Record RR := mkRR { rrName : gostring; rrType : Z; rrClass : Z; rrTTL : Z; rrData : bytes }.

Record Message := mkMessage {
  header : Header;
  Questions : list Question;
  Answers : list RR;
  Authority : list RR;
  Additional : list RR;
  EDNS0 : bool;
  EDNS0DO : bool;
  EDNS0Size : Z;
}.

#[export] Instance Header_eq_dec : EqDecision Header.
Proof. solve_decision. Defined.
#[export] Instance Question_eq_dec : EqDecision Question.
Proof. solve_decision. Defined.
#[export] Instance RR_eq_dec : EqDecision RR.
Proof. solve_decision. Defined.
#[export] Instance Message_eq_dec : EqDecision Message.
Proof. solve_decision. Defined.

Definition set_header (m : Message) (h : Header) : Message :=
  mkMessage h (Questions m) (Answers m) (Authority m) (Additional m) (EDNS0 m) (EDNS0DO m) (EDNS0Size m).
Definition set_Flags (m : Message) (f : Z) : Message :=
  let h := header m in
  set_header m (mkHeader (ID h) f (QDCount h) (ANCount h) (NSCount h) (ARCount h)).
Definition set_Answers (m : Message) (l : list RR) : Message :=
  mkMessage (header m) (Questions m) l (Authority m) (Additional m) (EDNS0 m) (EDNS0DO m) (EDNS0Size m).
Definition set_Authority (m : Message) (l : list RR) : Message :=
  mkMessage (header m) (Questions m) (Answers m) l (Additional m) (EDNS0 m) (EDNS0DO m) (EDNS0Size m).
Definition set_Additional (m : Message) (l : list RR) : Message :=
  mkMessage (header m) (Questions m) (Answers m) (Authority m) l (EDNS0 m) (EDNS0DO m) (EDNS0Size m).

Definition mFlags (m : Message) : Z := Flags (header m).

Definition SetEDNS0 (m : Message) (size : Z) (do : bool) : Message :=
  let size := if (size =? 0)%Z then MaxEDNSUDPSize else size in
  mkMessage (header m) (Questions m) (Answers m) (Authority m) (Additional m) true do size.

Definition UDPSize (m : Message) : Z :=
  if negb (EDNS0 m) then MaxUDPMessageSize
  else
    let size := EDNS0Size m in
    if (size <? MaxUDPMessageSize)%Z then MaxUDPMessageSize
    else if (MaxEDNSUDPSize <? size)%Z then MaxEDNSUDPSize
    else size.

Definition SetRcode (m : Message) (rcode : Z) : Message :=
  set_Flags m (Z.lor (Z.ldiff (mFlags m) 0x000F) (u16 (Z.land rcode 0x0F))).

Definition Rcode (m : Message) : Z := Z.land (mFlags m) 0x000F.

Definition Opcode (m : Message) : Z := Z.land (Z.shiftr (mFlags m) 11) 0x0F.

Definition NewResponse (req : Message) : Message :=
  let flags :=
    Z.lor (Z.lor FlagQR (Z.land (mFlags req) FlagRD))
          (Z.land (mFlags req) (Z.shiftl 0x0F 11)) in
  let resp :=
    mkMessage (mkHeader (ID (header req)) flags 0 0 0 0) (Questions req) [] [] [] false false 0 in
  if EDNS0 req then SetEDNS0 resp MaxEDNSUDPSize (EDNS0DO req) else resp.

(** ** Errors *)
Inductive nameError :=
| NameOverflowsBuffer | LabelTooLong | LabelOverflowsBuffer | NameTooLong
| TruncatedPointer | PointerLoop | ReservedLabelType.

Inductive rrError :=
| RecordCountExceedsSize | RRNameError (e : nameError) | TruncatedRRHeader | TruncatedRDATA.

Inductive messageError :=
| MessageTooShort | QuestionCountExceedsSize | QuestionNameError (e : nameError)
| TruncatedQuestion | AnswersError (e : rrError) | AuthorityError (e : rrError)
| AdditionalError (e : rrError).

Inductive packNameError := PackNameTooLong | PackEmptyLabel | PackLabelTooLong.

Inductive packError := RDataTooLong.

(** ** Parsing *)

(** The loop of [ParseName].  Every turn either adds a label, which grows
    [nameLen] by at least 2 and is bounded by [maxNameLen], or follows a pointer,
    bounded by [maxPointerHops]; [ParseName] gives it one turn more than both
    bounds allow together. *)
Fixpoint ParseName_loop (fuel : nat) (buf sb : bytes) (next : nat) (followed : bool)
    (endOff hops nameLen : nat) : go nameError (gostring * nat) :=
  match fuel with
  | 0 => NoFuel
  | S fuel' =>
    if bool_decide (length buf <= next) then Err NameOverflowsBuffer else
    let! b := index buf next in
    let kind := Z.land (bz b) 0xC0 in
    if (kind =? 0x00)%Z then
      if (bz b =? 0)%Z then
        let endOff := if followed then endOff else next + 1 in
        if bool_decide (length sb = 0) then Ok (lit ".", endOff) else Ok (sb, endOff)
      else if (Z.of_nat maxLabelLen <? bz b)%Z then Err LabelTooLong
      else
        let start := next + 1 in
        let end_ := start + Z.to_nat (bz b) in
        if bool_decide (length buf < end_) then Err LabelOverflowsBuffer else
        let nameLen := nameLen + (1 + Z.to_nat (bz b)) in
        if bool_decide (maxNameLen < nameLen) then Err NameTooLong else
        let sb := if bool_decide (0 < length sb) then sb ++ lit "." else sb in
        let! label := slice buf start end_ in
        ParseName_loop fuel' buf (sb ++ label) end_ followed endOff hops nameLen
    else if (kind =? 0xC0)%Z then
      if bool_decide (length buf <= next + 1) then Err TruncatedPointer else
      let! b1 := index buf (next + 1) in
      let ptr := Z.to_nat (Z.lor (Z.shiftl (Z.land (bz b) 0x3F) 8) (bz b1)) in
      let endOff := if followed then endOff else next + 2 in
      let hops := hops + 1 in
      if bool_decide (maxPointerHops < hops) then Err PointerLoop else
      ParseName_loop fuel' buf sb ptr true endOff hops nameLen
    else Err ReservedLabelType
  end.

Definition ParseName (buf : bytes) (offset : nat) : go nameError (gostring * nat) :=
  ParseName_loop (maxNameLen + maxPointerHops + 1) buf [] offset false 0 0 1.

Definition uint16_at {E} (buf : bytes) (i : nat) : go E Z :=
  let! s := slice buf i (i + 2) in get16 s.
Definition uint32_at {E} (buf : bytes) (i : nat) : go E Z :=
  let! s := slice buf i (i + 4) in get32 s.

(** The loop of [parseRRSection]; [n] is the number of records still to read. *)
Fixpoint parseRRs (n : nat) (buf : bytes) (off : nat) : go rrError (list RR * nat) :=
  match n with
  | 0 => Ok ([], off)
  | S n' =>
    let! (name, next) := go_wrap RRNameError (ParseName buf off) in
    if bool_decide (length buf < next + 10) then Err TruncatedRRHeader else
    let! typ := uint16_at buf next in
    let! class := uint16_at buf (next + 2) in
    let! ttl := uint32_at buf (next + 4) in
    let! rdlen := uint16_at buf (next + 8) in
    let rdlen := Z.to_nat rdlen in
    let next := next + 10 in
    if bool_decide (length buf < next + rdlen) then Err TruncatedRDATA else
    let! rdata := slice buf next (next + rdlen) in
    let! (rrs, off') := parseRRs n' buf (next + rdlen) in
    Ok (mkRR name typ class ttl rdata :: rrs, off')
  end.

Definition parseRRSection (buf : bytes) (off : nat) (count : Z) : go rrError (list RR * nat) :=
  if (count =? 0)%Z then Ok ([], off)
  else if (Z.of_nat (length buf) - Z.of_nat off <? count * 11)%Z then Err RecordCountExceedsSize
  else parseRRs (Z.to_nat count) buf off.

(** The question loop of [ParseMessage]. *)
Fixpoint parseQuestions (n : nat) (buf : bytes) (off : nat) : go messageError (list Question * nat) :=
  match n with
  | 0 => Ok ([], off)
  | S n' =>
    let! (name, next) := go_wrap QuestionNameError (ParseName buf off) in
    if bool_decide (length buf < next + 4) then Err TruncatedQuestion else
    let! typ := uint16_at buf next in
    let! class := uint16_at buf (next + 2) in
    let! (qs, off') := parseQuestions n' buf (next + 4) in
    Ok (mkQuestion name typ class :: qs, off')
  end.

(** The loop over the additional section: an OPT record sets the EDNS0 fields and
    is dropped, the others are kept in order. *)
Fixpoint filterOPT (rrs filtered : list RR) (m : Message) : Message :=
  match rrs with
  | [] => set_Additional m filtered
  | rr :: rrs' =>
    if (rrType rr =? TypeOPT)%Z then
      filterOPT rrs' filtered
        (mkMessage (header m) (Questions m) (Answers m) (Authority m) (Additional m)
           true (negb (Z.land (rrTTL rr) 0x00008000 =? 0)%Z) (rrClass rr))
    else filterOPT rrs' (filtered ++ [rr]) m
  end.

Definition ParseMessage (buf : bytes) : go messageError Message :=
  if bool_decide (length buf < 12) then Err MessageTooShort else
  let! id := uint16_at buf 0 in
  let! flags := uint16_at buf 2 in
  let! qd := uint16_at buf 4 in
  let! an := uint16_at buf 6 in
  let! ns := uint16_at buf 8 in
  let! ar := uint16_at buf 10 in
  let h := mkHeader id flags qd an ns ar in
  let off := 12 in
  if (Z.of_nat (length buf) - Z.of_nat off <? qd * 5)%Z then Err QuestionCountExceedsSize else
  let! (questions, off) := parseQuestions (Z.to_nat qd) buf off in
  let! (answers, off) := go_wrap AnswersError (parseRRSection buf off an) in
  let! (authority, off) := go_wrap AuthorityError (parseRRSection buf off ns) in
  let! (additional, _) := go_wrap AdditionalError (parseRRSection buf off ar) in
  Ok (filterOPT additional [] (mkMessage h questions answers authority additional false false 0)).

(** ** Packing *)

(** The loop of [PackName]: [k] turns remain, [i] runs to [len(name)].  As in the
    code, an error comes with the bytes appended so far. *)
Fixpoint PackName_loop (k : nat) (name buf : bytes) (start i : nat) : bytes * option packNameError :=
  match k with
  | 0 => (buf ++ [zb 0], None)
  | S k' =>
    if bool_decide (i < length name /\ name !! i <> Some "."%char)
    then PackName_loop k' name buf start (S i)
    else
      let n := i - start in
      if bool_decide (n = 0) then (buf, Some PackEmptyLabel)
      else if bool_decide (maxLabelLen < n) then (buf, Some PackLabelTooLong)
      else
        PackName_loop k' name ((buf ++ [zb (Z.of_nat n)]) ++ take n (drop start name)) (S i) (S i)
  end.

Definition PackName (buf : bytes) (name : gostring) : bytes * option packNameError :=
  let name := TrimSuffix name (lit ".") in
  if bool_decide (name = []) then (buf ++ [zb 0], None)
  else if bool_decide (maxNameLen < length name + 2) then (buf, Some PackNameTooLong)
  else PackName_loop (length name + 1) name buf 0 0.

Definition AppendName (buf : bytes) (name : gostring) : bytes :=
  match PackName buf name with
  | (out, None) => out
  | (_, Some _) => buf ++ [zb 0]
  end.

Definition AppendOPT (buf : bytes) (size : Z) (dobit : bool) : bytes :=
  let size := if (size =? 0)%Z then MaxEDNSUDPSize else size in
  let buf := buf ++ [zb 0] in
  let ttl := if dobit then Z.lor 0 0x00008000 else 0%Z in
  let hdr := put16 TypeOPT ++ put16 size ++ put32 ttl ++ [zb 0; zb 0] in
  buf ++ hdr.

Fixpoint appendRRs (buf : bytes) (rrs : list RR) : go packError bytes :=
  match rrs with
  | [] => Ok buf
  | rr :: rrs' =>
    let buf := AppendName buf (rrName rr) in
    if (0xFFFF <? Z.of_nat (length (rrData rr)))%Z then Err RDataTooLong else
    let hdr :=
      put16 (rrType rr) ++ put16 (rrClass rr) ++ put32 (rrTTL rr) ++
      put16 (u16 (Z.of_nat (length (rrData rr)))) in
    appendRRs ((buf ++ hdr) ++ rrData rr) rrs'
  end.

Fixpoint appendQuestions (buf : bytes) (qs : list Question) : bytes :=
  match qs with
  | [] => buf
  | q :: qs' =>
    let buf := AppendName buf (qName q) in
    appendQuestions (buf ++ (put16 (qType q) ++ put16 (qClass q))) qs'
  end.

(** [Pack] writes the section counts into the header before it serialises: the
    message after the call is returned next to the result.  The buffer argument of
    the Go method only supplies storage. *)
Definition count_sections (m : Message) : Message :=
  let h := header m in
  let arCount := u16 (Z.of_nat (length (Additional m))) in
  let arCount := if EDNS0 m then u16 (arCount + 1) else arCount in
  set_header m
    (mkHeader (ID h) (Flags h)
       (u16 (Z.of_nat (length (Questions m)))) (u16 (Z.of_nat (length (Answers m))))
       (u16 (Z.of_nat (length (Authority m)))) arCount).

Definition Pack (m : Message) : Message * go packError bytes :=
  let m := count_sections m in
  let h := header m in
  let hdr :=
    put16 (ID h) ++ put16 (Flags h) ++ put16 (QDCount h) ++
    put16 (ANCount h) ++ put16 (NSCount h) ++ put16 (ARCount h) in
  let buf := appendQuestions hdr (Questions m) in
  (m,
   let! buf := appendRRs buf (Answers m) in
   let! buf := appendRRs buf (Authority m) in
   let! buf := appendRRs buf (Additional m) in
   Ok (if EDNS0 m then AppendOPT buf (EDNS0Size m) (EDNS0DO m) else buf)).

Definition PackUDP (m : Message) : go packError bytes :=
  let limit := UDPSize m in
  let (m, r) := Pack m in
  let! out := r in
  if (Z.of_nat (length out) <=? limit)%Z then Ok out else
  let truncate :=
    let tc := mkMessage (header m) (Questions m) [] [] [] false false 0 in
    let tc := set_Flags tc (Z.lor (mFlags tc) FlagTC) in
    let tc := mkMessage (header tc) (Questions tc) [] [] [] (EDNS0 m) (EDNS0DO m) (EDNS0Size m) in
    snd (Pack tc) in
  if bool_decide (0 < length (Additional m)) then
    let trimmed := set_Additional m [] in
    let! out := snd (Pack trimmed) in
    if (Z.of_nat (length out) <=? limit)%Z then Ok out else truncate
  else truncate.
