(* ===== verification/WireNames.v ===== *)
(** * Domain names on the wire: specification and correctness of the name codec

    [wire_name] is the grammar of RFC 1035 names with compression pointers,
    independent of the parsing loop of [ParseName]; [pack_labels] is the
    length-prefix encoding of a list of labels, independent of the byte-index loop
    of [PackName].  The theorems relate the code (Message.v) to both, in both
    directions. *)

From Stdlib Require Import ZArith Lia Ascii String.
From stdpp Require Import base list strings.
From S2P Require Import Prelude GoStrings Message.

(** ** Specification *)

(** [wire_name buf off ls h e]: at offset [off] of [buf] stands the name with labels
    [ls], reached through [h] compression pointers; the bytes of the name at [off]
    end before [e]. *)
Inductive wire_name (buf : bytes) : nat -> list gostring -> nat -> nat -> Prop :=
| wn_root off :
    buf !! off = Some (zb 0) ->
    wire_name buf off [] 0 (off + 1)
| wn_label off l ls h e :
    0 < length l <= maxLabelLen ->
    buf !! off = Some (zb (Z.of_nat (length l))) ->
    off + 1 + length l <= length buf ->
    take (length l) (drop (off + 1) buf) = l ->
    wire_name buf (off + 1 + length l) ls h e ->
    wire_name buf off (l :: ls) h e
| wn_pointer off hi lo ls h e :
    (192 <= hi < 256)%Z -> (0 <= lo < 256)%Z ->
    buf !! off = Some (zb hi) ->
    buf !! (off + 1) = Some (zb lo) ->
    wire_name buf (Z.to_nat ((hi - 192) * 256 + lo)) ls h e ->
    wire_name buf off ls (S h) (off + 2).

(** The length of a name on the wire: a length byte per label and the root byte. *)
Definition wire_len (ls : list gostring) : nat := 1 + sum_list_with (fun l => S (length l)) ls.

(** The text of a name: its labels joined by dots, "." for the root. *)
Definition name_text (ls : list gostring) : gostring :=
  match ls with [] => lit "." | _ => Join ls (lit ".") end.

(** The encoding of a list of labels. *)
Definition encode_labels (ls : list gostring) : bytes :=
  mjoin ((fun l => zb (Z.of_nat (length l)) :: l) <$> ls).

Definition label_ok (l : gostring) : Prop := 0 < length l <= maxLabelLen.

(** The labels of a name in text form, one trailing dot aside. *)
Definition labels_of (name : gostring) : list gostring :=
  match TrimSuffix name (lit ".") with [] => [] | n => Split n "."%char end.

(** A name that has a wire form. *)
Definition packable (name : gostring) : Prop :=
  Forall label_ok (labels_of name) /\ wire_len (labels_of name) <= maxNameLen.

#[export] Instance packable_dec name : Decision (packable name).
Proof. unfold packable, label_ok. apply _. Defined.

(** ** The parser *)

(** What [sb] becomes when the labels [ls] are written to it. *)
Definition extend (sb : gostring) (ls : list gostring) : gostring :=
  foldl (fun sb l => (if bool_decide (0 < length sb) then sb ++ lit "." else sb) ++ l) sb ls.

Definition builder_text (sb : gostring) : gostring :=
  if bool_decide (length sb = 0) then lit "." else sb.

Lemma extend_join sb ls :
  0 < length sb -> extend sb ls = sb ++ mjoin ((fun l => lit "." ++ l) <$> ls).
Proof.
  revert sb. induction ls as [|l ls IH]; intros sb Hsb.
  - cbn. by rewrite app_nil_r.
  - change (extend sb (l :: ls)) with
      (extend ((if bool_decide (0 < length sb) then sb ++ lit "." else sb) ++ l) ls).
    rewrite bool_decide_eq_true_2 by done.
    rewrite IH by (rewrite !length_app; lia). rewrite fmap_cons, mjoin_cons.
    by rewrite <- !app_assoc.
Qed.

Lemma Join_mjoin l ls sep : Join (l :: ls) sep = l ++ mjoin ((fun x => sep ++ x) <$> ls).
Proof.
  revert l. induction ls as [|l' ls IH]; intros l.
  - cbn. by rewrite app_nil_r.
  - rewrite Join_cons, IH by done. rewrite fmap_cons, mjoin_cons.
    by rewrite <- !app_assoc.
Qed.

Lemma builder_text_extend ls : Forall label_ok ls -> builder_text (extend [] ls) = name_text ls.
Proof.
  intros H. destruct H as [|l ls [Hl _] H]; [done|].
  change (extend [] (l :: ls)) with (extend l ls).
  rewrite extend_join by done. unfold builder_text, name_text.
  rewrite bool_decide_eq_false_2 by (rewrite length_app; lia). by rewrite Join_mjoin.
Qed.

Lemma wire_name_labels_ok buf off ls h e : wire_name buf off ls h e -> Forall label_ok ls.
Proof. induction 1; [constructor|by constructor|done]. Qed.

Lemma land_C0_cases b :
  (Z.land (bz b) 0xC0 = 0 <-> bz b < 64)%Z /\ (Z.land (bz b) 0xC0 = 0xC0 <-> 192 <= bz b)%Z.
Proof. destruct b as [[] [] [] [] [] [] [] []]; vm_compute; intuition congruence. Qed.

Lemma pointer_value b b1 :
  (192 <= bz b)%Z ->
  Z.lor (Z.shiftl (Z.land (bz b) 0x3F) 8) (bz b1) = ((bz b - 192) * 256 + bz b1)%Z.
Proof.
  intros Hb. rewrite Z.lor_comm, lor_shiftl_add by (try lia; apply bz_range).
  change 0x3F%Z with (Z.ones 6). rewrite Z.land_ones by lia.
  pose proof (bz_range b). replace (bz b mod 2 ^ 6)%Z with (bz b - 192)%Z by dlia. lia.
Qed.

(** [lia] with the size limits of the format. *)
Ltac nlia := unfold label_ok in *; unfold maxNameLen, maxLabelLen, maxPointerHops in *; lia.

(** The loop finds a name of the grammar, within the bounds. *)
Lemma ParseName_loop_sound fuel buf sb next followed endOff hops nameLen name e :
  ParseName_loop fuel buf sb next followed endOff hops nameLen = Ok (name, e) ->
  hops <= maxPointerHops -> nameLen <= maxNameLen ->
  exists ls h e', wire_name buf next ls h e' /\ hops + h <= maxPointerHops /\
    nameLen + wire_len ls <= maxNameLen + 1 /\
    e = (if followed then endOff else e') /\ name = builder_text (extend sb ls).
Proof.
  revert sb next followed endOff hops nameLen.
  induction fuel as [|fuel IH]; intros sb next followed endOff hops nameLen; [done|].
  cbn [ParseName_loop]. case_bool_decide as Hnext; [done|].
  rewrite go_bind_Ok. intros (b & Hb & H) Hhops Hlen. apply index_Ok in Hb.
  pose proof (land_C0_cases b) as [H0 HC]. pose proof (bz_range b).
  destruct (Z.eqb_spec (Z.land (bz b) 0xC0) 0) as [Hk|Hk].
  - apply H0 in Hk. destruct (Z.eqb_spec (bz b) 0) as [Hz|Hz].
    + exists [], 0, (next + 1). split.
      { constructor. by rewrite Hb, <- Hz, zb_bz. }
      unfold wire_len, builder_text. cbn. destruct followed; case_bool_decide; simplify_eq; repeat split; try nlia; done.
    + destruct (Z.ltb_spec (Z.of_nat maxLabelLen) (bz b)) as [|Hl]; [done|].
      case_bool_decide as He; [done|]. case_bool_decide as Hn; [done|].
      apply go_bind_Ok in H as (l & Hs & H). apply slice_Ok_inv in Hs as (Hs1 & Hs & Hs2).
      apply IH in H as (ls & h & e' & Hw & Hh & Hlen' & -> & ->); [|done|nlia].
      unfold wire_len in *. exists (l :: ls), h, e'. cbn [sum_list_with].
      assert (Hll : length l = Z.to_nat (bz b)) by nlia.
      repeat split; [|nlia|nlia].
      apply wn_label; unfold maxLabelLen; [nlia| | |by rewrite Hll, Hs; f_equal; nlia|by rewrite Hll].
      { rewrite Hll, Z2Nat.id by nlia. by rewrite zb_bz. }
      { nlia. }
  - destruct (Z.eqb_spec (Z.land (bz b) 0xC0) 0xC0) as [Hc|Hc]; [|done]. apply HC in Hc.
    case_bool_decide as He; [done|]. apply go_bind_Ok in H as (b1 & Hb1 & H).
    apply index_Ok in Hb1. case_bool_decide as Hp; [done|].
    rewrite pointer_value in H by done.
    apply IH in H as (ls & h & e' & Hw & Hh & Hlen' & -> & ->); [|nlia|done].
    exists ls, (S h), (next + 2). repeat split; [|nlia|nlia].
    by apply (wn_pointer _ _ (bz b) (bz b1) _ _ e'); [nlia|apply bz_range|rewrite zb_bz..|].
Qed.

(** Conversely the loop finds every name of the grammar that is within the bounds. *)
Lemma ParseName_loop_complete fuel buf sb next followed endOff hops nameLen ls h e' :
  wire_name buf next ls h e' ->
  hops + h <= maxPointerHops -> nameLen + wire_len ls <= maxNameLen + 1 ->
  length ls + h < fuel ->
  ParseName_loop fuel buf sb next followed endOff hops nameLen =
  Ok (builder_text (extend sb ls), if followed then endOff else e').
Proof.
  intros Hw. revert fuel sb followed endOff hops nameLen. unfold wire_len.
  induction Hw as [off Hb|off l ls h e Hl Hb Hle Ht Hw IH|off hi lo ls h e Hhi Hlo Hb Hb1 Hw IH];
    intros [|fuel] sb followed endOff hops nameLen Hh Hlen Hf; [nlia| |nlia| |nlia|].
  - cbn [ParseName_loop]. rewrite bool_decide_eq_false_2 by (apply lookup_lt_Some in Hb; nlia).
    rewrite (proj2 (index_Ok _ _ _) Hb). cbn. unfold builder_text, extend. cbn.
    destruct followed; by case_bool_decide.
  - cbn [ParseName_loop]. rewrite bool_decide_eq_false_2 by (apply lookup_lt_Some in Hb; nlia).
    rewrite (proj2 (index_Ok _ _ _) Hb). cbn [go_bind sum_list_with] in *.
    rewrite !bz_zb_small by nlia.
    pose proof (land_C0_cases (zb (Z.of_nat (length l)))) as [H0 _]. rewrite bz_zb_small in H0 by nlia.
    rewrite (proj2 H0) by nlia. cbn [Z.eqb].
    rewrite (proj2 (Z.eqb_neq _ _)), (proj2 (Z.ltb_ge _ _)) by nlia. rewrite Nat2Z.id.
    rewrite !bool_decide_eq_false_2 by nlia. rewrite slice_Ok by nlia. cbn [go_bind].
    replace (off + 1 + length l - (off + 1)) with (length l) by nlia. rewrite Ht.
    cbn [length] in Hf. by rewrite IH by nlia.
  - cbn [ParseName_loop]. rewrite bool_decide_eq_false_2 by (apply lookup_lt_Some in Hb; nlia).
    rewrite (proj2 (index_Ok _ _ _) Hb). cbn [go_bind].
    pose proof (land_C0_cases (zb hi)) as [_ HC]. rewrite bz_zb_small in * by nlia.
    rewrite (proj2 HC) by nlia. cbn [Z.eqb Pos.eqb].
    rewrite bool_decide_eq_false_2 by (apply lookup_lt_Some in Hb1; nlia).
    rewrite (proj2 (index_Ok _ _ _) Hb1). cbn [go_bind].
    rewrite bool_decide_eq_false_2 by nlia.
    rewrite <- (bz_zb_small hi), pointer_value, !bz_zb_small by (rewrite ?bz_zb_small; nlia).
    rewrite IH by nlia. by destruct followed.
Qed.

Lemma ParseName_loop_returns fuel buf sb next followed endOff hops nameLen :
  (maxNameLen - nameLen) + (maxPointerHops - hops) < fuel ->
  hops <= maxPointerHops -> nameLen <= maxNameLen ->
  returns (ParseName_loop fuel buf sb next followed endOff hops nameLen).
Proof.
  revert sb next followed endOff hops nameLen.
  induction fuel as [|fuel IH]; intros sb next followed endOff hops nameLen Hf Hh Hn; [nlia|].
  cbn [ParseName_loop]. case_bool_decide; [done|].
  destruct (@index_lt nameError _ buf next) as (b & Hb & ->); [nlia|]. cbn [go_bind].
  pose proof (bz_range b).
  destruct (Z.land (bz b) 0xC0 =? 0)%Z.
  - destruct (Z.eqb_spec (bz b) 0); [by case_bool_decide|].
    destruct (Z.of_nat maxLabelLen <? bz b)%Z; [done|].
    case_bool_decide; [done|]. case_bool_decide; [done|].
    rewrite slice_Ok by nlia. cbn [go_bind]. apply IH; nlia.
  - destruct (Z.land (bz b) 0xC0 =? 0xC0)%Z; [|done].
    case_bool_decide; [done|].
    destruct (@index_lt nameError _ buf (next + 1)) as (b1 & Hb1 & ->); [nlia|]. cbn [go_bind].
    case_bool_decide; [done|]. apply IH; nlia.
Qed.

Lemma ParseName_returns buf off : returns (ParseName buf off).
Proof. unfold ParseName. apply ParseName_loop_returns; nlia. Qed.

Lemma wire_len_length ls : Forall label_ok ls -> 2 * length ls + 1 <= wire_len ls.
Proof.
  unfold wire_len. induction 1 as [|l ls Hl H IH]; cbn [length sum_list_with] in *; [nlia|].
  unfold label_ok in Hl. nlia.
Qed.

Lemma ParseName_complete buf off ls h e :
  wire_name buf off ls h e -> h <= maxPointerHops -> wire_len ls <= maxNameLen ->
  ParseName buf off = Ok (name_text ls, e).
Proof.
  intros Hw Hh Hl. pose proof (wire_name_labels_ok _ _ _ _ _ Hw) as Hok.
  pose proof (wire_len_length _ Hok). unfold ParseName.
  rewrite (ParseName_loop_complete _ _ _ _ _ _ _ _ _ _ _ Hw)
    by nlia.
  by rewrite builder_text_extend.
Qed.

Lemma ParseName_sound buf off name e :
  ParseName buf off = Ok (name, e) ->
  exists ls h, wire_name buf off ls h e /\ h <= maxPointerHops /\ wire_len ls <= maxNameLen /\
    name = name_text ls.
Proof.
  unfold ParseName. intros H. apply ParseName_loop_sound in H as (ls & h & e' & Hw & Hh & Hl & -> & ->);
    [|nlia..].
  exists ls, h. pose proof (wire_name_labels_ok _ _ _ _ _ Hw).
  repeat split; [done|nlia|nlia|by apply builder_text_extend].
Qed.

(** ** The packer *)

(** Appends the labels one by one, checking each; the reference for [PackName]. *)
Fixpoint pack_labels (buf : bytes) (ls : list gostring) : bytes * option packNameError :=
  match ls with
  | [] => (buf ++ [zb 0], None)
  | l :: ls' =>
    if bool_decide (length l = 0) then (buf, Some PackEmptyLabel)
    else if bool_decide (maxLabelLen < length l) then (buf, Some PackLabelTooLong)
    else pack_labels ((buf ++ [zb (Z.of_nat (length l))]) ++ l) ls'
  end.

Lemma take_no_dot_step (name : gostring) start i c :
  start <= i -> name !! i = Some c ->
  take (S i - start) (drop start name) = take (i - start) (drop start name) ++ [c].
Proof.
  intros Hi Hc. replace (S i - start) with (S (i - start)) by lia.
  apply take_S_r. rewrite lookup_drop. by replace (start + (i - start)) with i by lia.
Qed.

Lemma drop_split_at (name : gostring) start i c :
  start <= i -> name !! i = Some c ->
  drop start name = take (i - start) (drop start name) ++ c :: drop (S i) name.
Proof.
  intros Hi Hc. rewrite <- (take_drop (i - start) (drop start name)) at 1. f_equal.
  rewrite drop_drop. replace (start + (i - start)) with i by lia. by apply drop_S.
Qed.

(** The byte-index loop computes the reference on the labels not yet packed. *)
Lemma PackName_loop_labels k name buf start i :
  k + i = length name + 1 -> start <= i -> i <= length name ->
  "."%char ∉ take (i - start) (drop start name) ->
  PackName_loop k name buf start i = pack_labels buf (Split (drop start name) "."%char).
Proof.
  revert buf start i. induction k as [|k IH]; intros buf start i Hk Hs Hi Hdot; [lia|].
  cbn [PackName_loop].
  assert (Hlen : length (take (i - start) (drop start name)) = i - start)
    by (rewrite length_take, length_drop; lia).
  case_bool_decide as Hc.
  - destruct Hc as [Hlt Hne]. destruct (lookup_lt_is_Some_2 name i Hlt) as [c Hc].
    rewrite IH; [done|lia|lia|lia|].
    rewrite (take_no_dot_step _ _ _ c) by done. rewrite not_elem_of_app, list_elem_of_singleton.
    split; [done|]. intros <-. by apply Hne.
  - destruct (decide (i < length name)) as [Hlt|Hge].
    + assert (Hd : name !! i = Some "."%char).
      { destruct (decide (name !! i = Some "."%char)); [done|]. by destruct Hc. }
      rewrite (drop_split_at name start i _ Hs Hd), Split_app_sep by done.
      cbn [pack_labels]. rewrite Hlen.
      case_bool_decide; [done|]. case_bool_decide; [done|].
      rewrite take_app_le by lia. rewrite (take_ge (take _ _)) by lia.
      rewrite IH; [done|lia..|]. rewrite Nat.sub_diag. cbn. apply not_elem_of_nil.
    + assert (i = length name) as -> by lia. assert (k = 0) as -> by lia.
      rewrite take_ge in * by (rewrite length_drop; lia).
      rewrite Split_no_sep by done. cbn [pack_labels PackName_loop]. by rewrite Hlen.
Qed.

Lemma PackName_pack_labels buf name :
  PackName buf name =
  if bool_decide (maxNameLen < length (TrimSuffix name (lit ".")) + 2) then (buf, Some PackNameTooLong)
  else pack_labels buf (labels_of name).
Proof.
  unfold PackName, labels_of. destruct (TrimSuffix name (lit ".")) as [|c n] eqn:Hn; [done|].
  rewrite (bool_decide_eq_false_2 (c :: n = [])) by done.
  case_bool_decide; [done|]. rewrite PackName_loop_labels; [done|lia..|].
  cbn. apply not_elem_of_nil.
Qed.

Lemma encode_labels_cons l ls :
  encode_labels (l :: ls) = (zb (Z.of_nat (length l)) :: l) ++ encode_labels ls.
Proof. done. Qed.

Lemma length_encode_labels ls : length (encode_labels ls) + 1 = wire_len ls.
Proof.
  unfold wire_len. induction ls as [|l ls IH]; [done|].
  rewrite encode_labels_cons, length_app. cbn [length sum_list_with] in *. lia.
Qed.

Lemma pack_labels_ok buf ls :
  Forall label_ok ls -> pack_labels buf ls = (buf ++ encode_labels ls ++ [zb 0], None).
Proof.
  intros H. revert buf. induction H as [|l ls Hl H IH]; intros buf; [done|].
  cbn [pack_labels]. rewrite (bool_decide_eq_false_2 (length l = 0)) by nlia.
  rewrite (bool_decide_eq_false_2 (maxLabelLen < length l)) by nlia. rewrite IH, encode_labels_cons.
  f_equal. rewrite <- !app_assoc. done.
Qed.

Lemma pack_labels_err buf ls : ~ Forall label_ok ls -> exists b e, pack_labels buf ls = (b, Some e).
Proof.
  revert buf. induction ls as [|l ls IH]; intros buf H; [by destruct H|]. cbn [pack_labels].
  case_bool_decide; [eauto|]. case_bool_decide; [eauto|].
  apply IH. intros Hls. apply H. constructor; [nlia|done].
Qed.

Lemma wire_len_labels_of name :
  TrimSuffix name (lit ".") <> [] ->
  wire_len (labels_of name) = length (TrimSuffix name (lit ".")) + 2.
Proof.
  unfold labels_of. intros H. destruct (TrimSuffix name (lit ".")) as [|c n]; [done|].
  unfold wire_len.
  pose proof (length_Join (Split (c :: n) "."%char) "."%char (Split_not_nil _ _)) as HJ.
  rewrite Join_Split in HJ. lia.
Qed.

Lemma packable_iff name :
  packable name <->
  Forall label_ok (labels_of name) /\ length (TrimSuffix name (lit ".")) + 2 <= maxNameLen.
Proof.
  unfold packable. destruct (decide (TrimSuffix name (lit ".") = [])) as [He|He].
  - unfold labels_of. rewrite He. split; intros [? _]; split; (done || (cbn; nlia)).
  - by rewrite wire_len_labels_of by done.
Qed.

Lemma PackName_packable buf name :
  packable name -> PackName buf name = (buf ++ encode_labels (labels_of name) ++ [zb 0], None).
Proof.
  intros [Hok Hlen]%packable_iff. rewrite PackName_pack_labels.
  rewrite bool_decide_eq_false_2 by lia. by apply pack_labels_ok.
Qed.

Lemma PackName_not_packable buf name :
  ~ packable name -> exists b e, PackName buf name = (b, Some e).
Proof.
  intros H. rewrite PackName_pack_labels. case_bool_decide; [eauto|].
  apply pack_labels_err. intros Hok. apply H. apply packable_iff. split; [done|lia].
Qed.

(** What [AppendName] adds to the buffer. *)
Definition name_bytes (name : gostring) : bytes :=
  if decide (packable name) then encode_labels (labels_of name) ++ [zb 0] else [zb 0].

Lemma AppendName_bytes buf name : AppendName buf name = buf ++ name_bytes name.
Proof.
  unfold AppendName, name_bytes. case_decide as H.
  - by rewrite PackName_packable.
  - by destruct (PackName_not_packable buf name H) as (b & e & ->).
Qed.

Lemma length_name_bytes name : 1 <= length (name_bytes name) <= maxNameLen.
Proof.
  unfold name_bytes. case_decide as H; [|cbn; nlia].
  destruct H as [_ H]. rewrite length_app. cbn [length]. rewrite length_encode_labels.
  unfold wire_len in *. lia.
Qed.

(** ** Round trip *)
Lemma wire_name_encode pre ls suf :
  Forall label_ok ls ->
  wire_name (pre ++ (encode_labels ls ++ [zb 0]) ++ suf) (length pre) ls 0
    (length pre + wire_len ls).
Proof.
  intros H. revert pre. induction H as [|l ls Hl H IH]; intros pre.
  - cbn. rewrite Nat.add_1_r. rewrite <- Nat.add_1_r. apply wn_root.
    by rewrite lookup_app_r, Nat.sub_diag.
  - rewrite encode_labels_cons. rewrite <- !app_assoc. cbn [app].
    apply wn_label.
    + nlia.
    + by rewrite lookup_app_r, Nat.sub_diag.
    + rewrite length_app. cbn [length]. rewrite length_app. lia.
    + rewrite (cons_middle _ pre), app_assoc.
      replace (length pre + 1) with (length (pre ++ [zb (Z.of_nat (length l))]))
        by (rewrite length_app; done).
      by rewrite drop_app_length, take_app_length.
    + specialize (IH (pre ++ zb (Z.of_nat (length l)) :: l)).
      rewrite length_app in IH. cbn [length] in IH. rewrite <- !app_assoc in IH. cbn [app] in IH.
      replace (length pre + 1 + length l) with (length pre + S (length l)) by lia.
      replace (length pre + wire_len (l :: ls)) with (length pre + S (length l) + wire_len ls)
        by (unfold wire_len; cbn [sum_list_with]; lia).
      done.
Qed.

Lemma ParseName_name_bytes pre name suf :
  packable name ->
  ParseName (pre ++ name_bytes name ++ suf) (length pre) =
  Ok (name_text (labels_of name), length pre + length (name_bytes name)).
Proof.
  intros H. unfold name_bytes. rewrite decide_True by done. destruct H as [Hok Hlen].
  rewrite length_app, length_encode_labels.
  apply (ParseName_complete _ _ _ 0); [by apply wire_name_encode|nlia|done].
Qed.

(** The parsed text is the packed one without its trailing dot. *)
Lemma name_text_labels_of name :
  name_text (labels_of name) =
  match TrimSuffix name (lit ".") with [] => lit "." | n => n end.
Proof.
  unfold labels_of. destruct (TrimSuffix name (lit ".")) as [|c n]; [done|].
  unfold name_text. destruct (Split (c :: n) "."%char) eqn:HS.
  - by apply Split_not_nil in HS.
  - rewrite <- HS. apply Join_Split.
Qed.

(** ** Names whose labels hold no dot *)

Lemma Join_no_trailing_dot ls :
  ls <> [] -> Forall (fun l => l <> [] /\ "."%char ∉ l) ls -> HasSuffix (Join ls (lit ".")) (lit ".") = false.
Proof.
  intros Hne H. apply not_true_iff_false. intros [r Hr]%HasSuffix_true.
  destruct (exists_last Hne) as (ls' & l & ->).
  apply Forall_app in H as [_ H]. apply Forall_cons in H as [[Hl Hd] _].
  assert (exists p, Join (ls' ++ [l]) (lit ".") = p ++ l) as [p Hp].
  { destruct ls' as [|x ls']; [by exists []|]. eexists. rewrite Join_app by done. cbn [Join].
    by rewrite app_assoc. }
  destruct (exists_last Hl) as (l' & c & ->). rewrite Hp, app_assoc in Hr.
  apply app_inj_tail in Hr as [_ ->]. apply Hd. rewrite elem_of_app. right. by apply list_elem_of_singleton.
Qed.

Lemma labels_of_name_text ls :
  Forall label_ok ls -> Forall (fun l => "."%char ∉ l) ls -> labels_of (name_text ls) = ls.
Proof.
  intros Hok Hdot. destruct ls as [|l ls]; [done|]. unfold labels_of, name_text.
  rewrite TrimSuffix_no.
  - destruct (Join (l :: ls) (lit ".")) as [|c n] eqn:HJ.
    + pose proof (length_Join (l :: ls) "."%char ltac:(done)) as HL.
      change (lit ".") with ["."%char] in HJ. rewrite HJ in HL. cbn in HL.
      apply Forall_cons in Hok as [Hl _]. nlia.
    + rewrite <- HJ. by apply Split_Join.
  - apply Join_no_trailing_dot; [done|]. rewrite Forall_forall in *. intros x Hx.
    specialize (Hok x Hx). split; [|by apply Hdot]. intros ->. unfold label_ok in Hok. cbn in Hok. lia.
Qed.

(** ** Properties *)

(** C38. [ParseName] implements the grammar of compressed names: it succeeds with [name]
    and end offset [e] exactly when the labels at the offset, read through at most 16
    pointers, form a name of at most 255 bytes whose text is [name], ending at [e]. *)
Theorem ParseName_grammar buf off name e :
  ParseName buf off = Ok (name, e) <->
  exists ls h, wire_name buf off ls h e /\ h <= maxPointerHops /\ wire_len ls <= maxNameLen /\
    name = name_text ls.
Proof.
  split; [apply ParseName_sound|].
  intros (ls & h & Hw & Hh & Hl & ->). by eapply ParseName_complete.
Qed.

(** [PackName] writes the length-prefixed labels of a name, and refuses exactly the
    names that have no wire form: those with an empty label, a label over 63 bytes or
    more than 255 bytes in all.  (One trailing dot is ignored, the empty name is the
    root.) *)
Theorem PackName_correct buf name :
  (packable name /\ PackName buf name = (buf ++ encode_labels (labels_of name) ++ [zb 0], None)) \/
  (~ packable name /\ exists b e, PackName buf name = (b, Some e)).
Proof.
  destruct (decide (packable name)) as [H|H]; [left|right]; split; auto.
  - by apply PackName_packable.
  - by apply PackName_not_packable.
Qed.

(** Names round-trip: the bytes [PackName] appends, at any place of any message, are
    parsed back to the same name without its trailing dot, and the parser stops right
    behind them. *)
Theorem PackName_ParseName_roundtrip pre name suf wire :
  PackName pre name = (pre ++ wire, None) ->
  ParseName (pre ++ wire ++ suf) (length pre) =
  Ok (match TrimSuffix name (lit ".") with [] => lit "." | n => n end, length pre + length wire).
Proof.
  intros H. destruct (decide (packable name)) as [Hp|Hp].
  - rewrite PackName_packable in H by done. apply (f_equal fst) in H. cbn [fst] in H.
    apply app_inv_head in H as <-. rewrite <- name_text_labels_of.
    pose proof (ParseName_name_bytes pre name suf Hp) as HP. unfold name_bytes in HP.
    by rewrite decide_True in HP by done.
  - destruct (PackName_not_packable pre name Hp) as (b & e & Hb). by rewrite Hb in H.
Qed.

Lemma PackName_ParseName_roundtrip_witness :
  PackName (lit "xx") (lit "www.Example.") = (lit "xx" ++ name_bytes (lit "www.Example."), None) /\
  ParseName (lit "xx" ++ name_bytes (lit "www.Example.") ++ lit "yy") 2 = Ok (lit "www.Example", 15).
Proof.
  split; [vm_compute; reflexivity|].
  exact (PackName_ParseName_roundtrip (lit "xx") (lit "www.Example.") (lit "yy")
    (name_bytes (lit "www.Example.")) ltac:(vm_compute; reflexivity)).
Defined.

(** Packing undoes compression: a parsed name whose labels hold no dot is packed to
    its uncompressed encoding, byte for byte (letter case included). *)
Theorem ParseName_PackName_decompress buf off ls h e pre :
  wire_name buf off ls h e -> h <= maxPointerHops -> wire_len ls <= maxNameLen ->
  Forall (fun l => "."%char ∉ l) ls ->
  exists name, ParseName buf off = Ok (name, e) /\
    PackName pre name = (pre ++ encode_labels ls ++ [zb 0], None).
Proof.
  intros Hw Hh Hl Hd. exists (name_text ls). split; [by eapply ParseName_complete|].
  pose proof (wire_name_labels_ok _ _ _ _ _ Hw) as Hok.
  rewrite PackName_packable; rewrite ?labels_of_name_text by done; [done|].
  split; by rewrite labels_of_name_text.
Qed.

Lemma ParseName_PackName_decompress_witness :
  exists name,
    ParseName (lit "x" ++ [zb 2] ++ lit "Ab" ++ [zb 0; zb 1] ++ lit "c" ++ [zb 192; zb 1]) 5 = Ok (name, 9) /\
    PackName [] name = ([] ++ encode_labels [lit "c"; lit "Ab"] ++ [zb 0], None).
Proof.
  apply (ParseName_PackName_decompress _ 5 [lit "c"; lit "Ab"] 1 9 []).
  - apply wn_label; [vm_compute; lia|reflexivity|vm_compute; lia|reflexivity|].
    apply (wn_pointer _ 7 192 1 _ _ 5); [lia|lia|reflexivity|reflexivity|].
    apply wn_label; [vm_compute; lia|reflexivity|vm_compute; lia|reflexivity|].
    apply wn_root. reflexivity.
  - vm_compute. lia.
  - vm_compute. lia.
  - refine (bool_decide_unpack _ _). vm_compute. exact I.
Defined.

(** The text form of [ParseName] does not escape dots: the one-label name "a.b" and
    the two-label name a.b are different names on the wire and the same string to the
    rest of the program, which packs it as the two-label name. *)
Theorem ParseName_dot_in_label :
  let one := [zb 3] ++ lit "a.b" ++ [zb 0] in
  let two := [zb 1] ++ lit "a" ++ [zb 1] ++ lit "b" ++ [zb 0] in
  one <> two /\ ParseName one 0 = Ok (lit "a.b", 5) /\ ParseName two 0 = Ok (lit "a.b", 5) /\
  PackName [] (lit "a.b") = (two, None).
Proof. vm_compute. repeat split. discriminate. Qed.
