(* ===== verification/MessageCodec.v ===== *)
(** * Messages: totality of the parser, round trip, truncation

    The parser of Message.v comes back on every input, and it reads back what the
    packer wrote.  The last part is about [PackUDP] and the header helpers. *)

From Stdlib Require Import ZArith Lia Ascii String.
From stdpp Require Import base list strings.
From S2P Require Import Prelude GoStrings Message WireNames.

(** ** The parser comes back *)

Lemma uint16_at_returns {E} buf i : i + 2 <= length buf -> @returns E _ (uint16_at buf i).
Proof.
  intros H. unfold uint16_at. rewrite slice_Ok by lia. cbn [go_bind].
  apply get16_returns. rewrite length_take, length_drop. lia.
Qed.

Lemma uint32_at_returns {E} buf i : i + 4 <= length buf -> @returns E _ (uint32_at buf i).
Proof.
  intros H. unfold uint32_at. rewrite slice_Ok by lia. cbn [go_bind].
  apply get32_returns. rewrite length_take, length_drop. lia.
Qed.

#[export] Hint Resolve ParseName_returns go_wrap_returns : go.
#[export] Hint Extern 2 (returns (uint16_at _ _)) => apply uint16_at_returns; lia : go.
#[export] Hint Extern 2 (returns (uint32_at _ _)) => apply uint32_at_returns; lia : go.
#[export] Hint Extern 1 (returns (Ok _)) => exact I : go.
#[export] Hint Extern 1 (returns (Err _)) => exact I : go.

(** One step through the body of a function that must be shown to return. *)
Ltac ret_step :=
  match goal with
  | |- returns (if bool_decide _ then _ else _) => case_bool_decide
  | |- returns (if ?b then _ else _) => destruct b eqn:?
  | |- returns (go_bind _ _) => apply go_bind_returns; [auto with go|intros ? ?]
  | |- returns (let '(_, _) := ?p in _) => destruct p
  | |- returns (slice _ _ _) => rewrite slice_Ok by lia
  end.

Lemma parseRRs_returns n buf off : returns (parseRRs n buf off).
Proof.
  revert off. induction n as [|n IH]; intros off; cbn [parseRRs]; [done|].
  repeat ret_step; auto with go.
Qed.

Lemma parseRRSection_returns buf off count : returns (parseRRSection buf off count).
Proof. unfold parseRRSection. repeat ret_step; auto using parseRRs_returns with go. Qed.

Lemma parseQuestions_returns n buf off : returns (parseQuestions n buf off).
Proof.
  revert off. induction n as [|n IH]; intros off; cbn [parseQuestions]; [done|].
  repeat ret_step; auto with go.
Qed.

#[export] Hint Resolve parseRRSection_returns parseQuestions_returns : go.

Lemma ParseMessage_returns buf : returns (ParseMessage buf).
Proof. unfold ParseMessage. repeat ret_step; auto with go. Qed.

(** The parser is total: on every byte string, however malformed, [ParseMessage]
    comes back with a message or an error; no index or slice expression of it is out
    of range and none of its loops (the pointer-chasing loop of [ParseName] included)
    runs for ever. *)
Theorem ParseMessage_total buf : returns (ParseMessage buf).
Proof. apply ParseMessage_returns. Qed.

(** ** Round trip *)

Definition u16_ok (z : Z) : Prop := (0 <= z < 2 ^ 16)%Z.
Definition u32_ok (z : Z) : Prop := (0 <= z < 2 ^ 32)%Z.

(** A message whose fields fit their widths and whose names have a wire form. *)
Definition question_ok (q : Question) : Prop :=
  packable (qName q) /\ u16_ok (qType q) /\ u16_ok (qClass q).

Definition rr_ok (r : RR) : Prop :=
  packable (rrName r) /\ u16_ok (rrType r) /\ u16_ok (rrClass r) /\ u32_ok (rrTTL r) /\
  u16_ok (Z.of_nat (length (rrData r))).

Definition message_ok (m : Message) : Prop :=
  u16_ok (ID (header m)) /\ u16_ok (Flags (header m)) /\
  Forall question_ok (Questions m) /\ Forall rr_ok (Answers m) /\
  Forall rr_ok (Authority m) /\ Forall rr_ok (Additional m) /\
  u16_ok (Z.of_nat (length (Questions m))) /\ u16_ok (Z.of_nat (length (Answers m))) /\
  u16_ok (Z.of_nat (length (Authority m))) /\ u16_ok (Z.of_nat (length (Additional m)) + 1) /\
  Forall (fun r => rrType r <> TypeOPT) (Additional m) /\ u16_ok (EDNS0Size m).

(** What the wire keeps of a message: names lose a trailing dot, the header carries
    the section counts, and a zero EDNS0 size stands for the default. *)
Definition canon_name (n : gostring) : gostring := name_text (labels_of n).
Definition canon_question (q : Question) : Question :=
  mkQuestion (canon_name (qName q)) (qType q) (qClass q).
Definition canon_rr (r : RR) : RR :=
  mkRR (canon_name (rrName r)) (rrType r) (rrClass r) (rrTTL r) (rrData r).
Definition canon (m : Message) : Message :=
  mkMessage (header (count_sections m)) (canon_question <$> Questions m)
    (canon_rr <$> Answers m) (canon_rr <$> Authority m) (canon_rr <$> Additional m)
    (EDNS0 m) (EDNS0 m && EDNS0DO m)
    (if EDNS0 m then (if (EDNS0Size m =? 0)%Z then MaxEDNSUDPSize else EDNS0Size m) else 0%Z).

(** The bytes of a question and of a record. *)
Definition question_bytes (q : Question) : bytes :=
  name_bytes (qName q) ++ put16 (qType q) ++ put16 (qClass q).
Definition rr_bytes (r : RR) : bytes :=
  name_bytes (rrName r) ++ put16 (rrType r) ++ put16 (rrClass r) ++ put32 (rrTTL r) ++
  put16 (u16 (Z.of_nat (length (rrData r)))) ++ rrData r.

Definition questions_bytes (qs : list Question) : bytes := mjoin (question_bytes <$> qs).
Definition rrs_bytes (rrs : list RR) : bytes := mjoin (rr_bytes <$> rrs).

Lemma questions_bytes_cons q qs : questions_bytes (q :: qs) = question_bytes q ++ questions_bytes qs.
Proof. done. Qed.
Lemma rrs_bytes_cons r rrs : rrs_bytes (r :: rrs) = rr_bytes r ++ rrs_bytes rrs.
Proof. done. Qed.

Lemma appendQuestions_bytes buf qs : appendQuestions buf qs = buf ++ questions_bytes qs.
Proof.
  revert buf. induction qs as [|q qs IH]; intros buf; cbn [appendQuestions].
  - cbn. by rewrite app_nil_r.
  - rewrite IH, AppendName_bytes. rewrite questions_bytes_cons. unfold question_bytes. by rewrite <- !app_assoc.
Qed.

Lemma appendRRs_bytes buf rrs :
  appendRRs buf rrs =
  if forallb (fun r => Z.of_nat (length (rrData r)) <=? 0xFFFF)%Z rrs
  then Ok (buf ++ rrs_bytes rrs) else Err RDataTooLong.
Proof.
  revert buf. induction rrs as [|r rrs IH]; intros buf; cbn [appendRRs forallb].
  - unfold rrs_bytes. cbn. by rewrite app_nil_r.
  - rewrite Z.leb_antisym. destruct (0xFFFF <? _)%Z; [done|]. cbn [negb andb].
    rewrite IH, AppendName_bytes. rewrite rrs_bytes_cons. unfold rr_bytes. destruct (forallb _ _); [|done].
    by rewrite <- !app_assoc.
Qed.

Lemma rrs_data_ok rrs :
  Forall rr_ok rrs -> forallb (fun r => Z.of_nat (length (rrData r)) <=? 0xFFFF)%Z rrs = true.
Proof.
  intros H. apply forallb_Forall. eapply Forall_impl; [done|].
  intros r (_ & _ & _ & _ & Hr). unfold u16_ok in Hr. apply Z.leb_le. lia.
Qed.

Lemma length_question_bytes q : 5 <= length (question_bytes q) <= 259.
Proof.
  unfold question_bytes. rewrite !length_app, !length_put16.
  pose proof (length_name_bytes (qName q)). nlia.
Qed.

Lemma length_questions_bytes qs :
  5 * length qs <= length (questions_bytes qs) <= 259 * length qs.
Proof.
  induction qs as [|q qs IH]; [done|]. rewrite questions_bytes_cons, length_app.
  cbn [length].
  pose proof (length_question_bytes q). lia.
Qed.

Lemma length_rr_bytes r : 11 <= length (rr_bytes r).
Proof.
  unfold rr_bytes. rewrite !length_app, !length_put16, length_put32.
  pose proof (length_name_bytes (rrName r)). lia.
Qed.

Lemma length_rrs_bytes rrs : 11 * length rrs <= length (rrs_bytes rrs).
Proof.
  induction rrs as [|r rrs IH]; [done|]. rewrite rrs_bytes_cons, length_app.
  cbn [length].
  pose proof (length_rr_bytes r). lia.
Qed.

(** Reading an integer that stands in the middle of a buffer. *)
Lemma uint16_at_app {E} buf i pre v suf :
  buf = pre ++ put16 v ++ suf -> i = length pre -> @uint16_at E buf i = Ok (u16 v).
Proof.
  intros -> ->. unfold uint16_at. rewrite slice_Ok by (rewrite !length_app, length_put16; lia).
  cbn [go_bind]. replace (length pre + 2 - length pre) with (length (put16 v))
    by (rewrite length_put16; lia).
  rewrite take_drop_middle_app. rewrite <- (app_nil_r (put16 v)) at 1. apply get16_put16.
Qed.

Lemma uint32_at_app {E} buf i pre v suf :
  buf = pre ++ put32 v ++ suf -> i = length pre -> @uint32_at E buf i = Ok (u32 v).
Proof.
  intros -> ->. unfold uint32_at. rewrite slice_Ok by (rewrite !length_app, length_put32; lia).
  cbn [go_bind]. replace (length pre + 4 - length pre) with (length (put32 v))
    by (rewrite length_put32; lia).
  rewrite take_drop_middle_app. rewrite <- (app_nil_r (put32 v)) at 1. apply get32_put32.
Qed.

Lemma slice_app {E} (buf : bytes) i j pre m suf :
  buf = pre ++ m ++ suf -> i = length pre -> j = i + length m -> @slice E _ buf i j = Ok m.
Proof.
  intros -> -> ->. rewrite slice_Ok by (rewrite !length_app; lia).
  replace (length pre + length m - length pre) with (length m) by lia.
  by rewrite take_drop_middle_app.
Qed.

Lemma u16_id z : u16_ok z -> u16 z = z.
Proof. apply Z.mod_small. Qed.
Lemma u32_id z : u32_ok z -> u32 z = z.
Proof. apply Z.mod_small. Qed.

Lemma ParseName_at buf off pre name suf :
  buf = pre ++ name_bytes name ++ suf -> off = length pre -> packable name ->
  ParseName buf off = Ok (canon_name name, off + length (name_bytes name)).
Proof. intros -> ->. apply ParseName_name_bytes. Qed.

(** Goals [buf = pre ++ x ++ suf] up to associativity, and goals on lengths. *)
Ltac assoc_solve := subst; rewrite <- ?app_assoc; reflexivity.
Ltac len_solve := subst; rewrite ?length_app, ?length_put16, ?length_put32; lia.

Lemma parseQuestions_bytes qs buf off pre suf :
  Forall question_ok qs -> buf = pre ++ questions_bytes qs ++ suf -> off = length pre ->
  parseQuestions (length qs) buf off =
  Ok (canon_question <$> qs, off + length (questions_bytes qs)).
Proof.
  intros H. revert off pre. induction H as [|q qs (Hn & Ht & Hc) H IH]; intros off pre Hbuf Hoff.
  - cbn. by rewrite Nat.add_0_r.
  - rewrite questions_bytes_cons in *. set (rest := questions_bytes qs) in *.
    assert (Hb : buf = pre ++ name_bytes (qName q) ++ put16 (qType q) ++ put16 (qClass q) ++ rest ++ suf).
    { rewrite Hbuf. unfold question_bytes. assoc_solve. }
    clear Hbuf. cbn [length parseQuestions].
    rewrite (ParseName_at _ _ pre _ _ Hb) by done. cbn [go_wrap go_bind].
    set (next := off + length (name_bytes (qName q))).
    assert (Hnext : next = length (pre ++ name_bytes (qName q))) by len_solve.
    assert (length buf = next + 4 + length rest + length suf) by len_solve.
    rewrite bool_decide_eq_false_2 by lia.
    rewrite (uint16_at_app _ _ (pre ++ name_bytes (qName q)) (qType q) (put16 (qClass q) ++ rest ++ suf))
      by (assoc_solve || len_solve).
    rewrite (uint16_at_app _ _ (pre ++ name_bytes (qName q) ++ put16 (qType q)) (qClass q) (rest ++ suf))
      by (assoc_solve || len_solve).
    rewrite !u16_id by done. cbn [go_bind].
    rewrite (IH _ (pre ++ name_bytes (qName q) ++ put16 (qType q) ++ put16 (qClass q)))
      by (assoc_solve || len_solve).
    cbn [go_bind]. rewrite fmap_cons. f_equal. f_equal. unfold next, question_bytes. len_solve.
Qed.

(** The fixed part of a record, read back field by field. *)
Lemma parse_rr_header {E} buf next pre r suf :
  rr_ok r ->
  buf = pre ++ (put16 (rrType r) ++ put16 (rrClass r) ++ put32 (rrTTL r) ++
                put16 (u16 (Z.of_nat (length (rrData r)))) ++ rrData r) ++ suf ->
  next = length pre ->
  @uint16_at E buf next = Ok (rrType r) /\ @uint16_at E buf (next + 2) = Ok (rrClass r) /\
  @uint32_at E buf (next + 4) = Ok (rrTTL r) /\
  @uint16_at E buf (next + 8) = Ok (Z.of_nat (length (rrData r))) /\
  @slice E _ buf (next + 10) (next + 10 + length (rrData r)) = Ok (rrData r).
Proof.
  intros (_ & Ht & Hc & Httl & Hl) -> ->. rewrite (u16_id _ Hl). set (d := rrData r) in *.
  rewrite <- !app_assoc.
  rewrite (uint16_at_app _ _ pre (rrType r) _ eq_refl eq_refl), (u16_id _ Ht).
  erewrite (uint16_at_app _ _ (pre ++ put16 (rrType r)) (rrClass r)) by (assoc_solve || len_solve).
  erewrite (uint32_at_app _ _ (pre ++ put16 (rrType r) ++ put16 (rrClass r)) (rrTTL r))
    by (assoc_solve || len_solve).
  erewrite (uint16_at_app _ _ (pre ++ put16 (rrType r) ++ put16 (rrClass r) ++ put32 (rrTTL r))
    (Z.of_nat (length d))) by (assoc_solve || len_solve).
  rewrite (u16_id _ Hc), (u32_id _ Httl), (u16_id _ Hl). repeat split.
  apply (slice_app _ _ _ (pre ++ put16 (rrType r) ++ put16 (rrClass r) ++ put32 (rrTTL r) ++
    put16 (Z.of_nat (length d))) d suf); [assoc_solve|len_solve|len_solve].
Qed.

Lemma parseRRs_bytes rrs buf off pre suf :
  Forall rr_ok rrs -> buf = pre ++ rrs_bytes rrs ++ suf -> off = length pre ->
  parseRRs (length rrs) buf off = Ok (canon_rr <$> rrs, off + length (rrs_bytes rrs)).
Proof.
  intros H. revert off pre. induction H as [|r rrs Hr H IH]; intros off pre Hbuf Hoff.
  - cbn. by rewrite Nat.add_0_r.
  - rewrite rrs_bytes_cons in *. set (rest := rrs_bytes rrs) in *.
    set (fixed := put16 (rrType r) ++ put16 (rrClass r) ++ put32 (rrTTL r) ++
                  put16 (u16 (Z.of_nat (length (rrData r)))) ++ rrData r).
    assert (Hrr : rr_bytes r = name_bytes (rrName r) ++ fixed) by done.
    assert (Hfix : length fixed = 10 + length (rrData r)) by (unfold fixed; len_solve).
    assert (Hb : buf = pre ++ name_bytes (rrName r) ++ fixed ++ rest ++ suf).
    { rewrite Hbuf, Hrr. assoc_solve. }
    clear Hbuf. clearbody rest. cbn [length parseRRs].
    rewrite (ParseName_at _ _ pre _ _ Hb) by (done || apply Hr). cbn [go_wrap go_bind].
    set (next := off + length (name_bytes (rrName r))).
    assert (Hnext : next = length (pre ++ name_bytes (rrName r))) by len_solve.
    assert (Hlen : length buf = next + 10 + length (rrData r) + length rest + length suf) by len_solve.
    rewrite bool_decide_eq_false_2 by lia.
    destruct (@parse_rr_header rrError buf next (pre ++ name_bytes (rrName r)) r (rest ++ suf) Hr)
      as (-> & -> & -> & -> & Hs); [rewrite Hb; by rewrite <- !app_assoc|done|].
    cbn [go_bind]. rewrite Nat2Z.id. rewrite bool_decide_eq_false_2 by lia. rewrite Hs. cbn [go_bind].
    rewrite (IH _ (pre ++ name_bytes (rrName r) ++ fixed))
      by (first [by rewrite Hb, <- !app_assoc | unfold next; len_solve]).
    cbn [go_bind]. rewrite fmap_cons. f_equal. f_equal. unfold next. rewrite Hrr. len_solve.
Qed.

Lemma parseRRSection_bytes rrs buf off pre suf count :
  Forall rr_ok rrs -> buf = pre ++ rrs_bytes rrs ++ suf -> off = length pre ->
  count = Z.of_nat (length rrs) ->
  parseRRSection buf off count = Ok (canon_rr <$> rrs, off + length (rrs_bytes rrs)).
Proof.
  intros Hok Hbuf Hoff ->. unfold parseRRSection.
  destruct (Z.eqb_spec (Z.of_nat (length rrs)) 0) as [H0|H0].
  - destruct rrs; [|done]. cbn. by rewrite Nat.add_0_r.
  - pose proof (length_rrs_bytes rrs).
    assert (length buf = off + length (rrs_bytes rrs) + length suf) by len_solve.
    rewrite (proj2 (Z.ltb_ge _ _)) by lia. rewrite Nat2Z.id.
    by apply (parseRRs_bytes _ _ _ pre suf).
Qed.

(** The OPT record, as the packer writes it and as the parser sees it. *)
Definition opt_rr (size : Z) (dobit : bool) : RR :=
  mkRR [] TypeOPT (if (size =? 0)%Z then MaxEDNSUDPSize else size) (if dobit then 0x8000%Z else 0%Z) [].

Lemma AppendOPT_bytes buf size dobit : AppendOPT buf size dobit = buf ++ rr_bytes (opt_rr size dobit).
Proof.
  unfold AppendOPT. rewrite <- app_assoc. f_equal.
Qed.

Lemma opt_rr_ok size dobit : u16_ok size -> rr_ok (opt_rr size dobit).
Proof.
  intros H. unfold rr_ok, opt_rr, u16_ok, u32_ok in *. cbn [rrName rrType rrClass rrTTL rrData length].
  split; [split; [constructor|vm_compute; lia]|].
  repeat split; try done; destruct (size =? 0)%Z, dobit; unfold MaxEDNSUDPSize, TypeOPT; lia.
Qed.

Lemma filterOPT_keep rrs acc m :
  Forall (fun r => rrType r <> TypeOPT) rrs ->
  filterOPT rrs acc m = set_Additional m (acc ++ rrs).
Proof.
  intros H. revert acc. induction H as [|r rrs Hr H IH]; intros acc; cbn [filterOPT].
  - by rewrite app_nil_r.
  - rewrite (proj2 (Z.eqb_neq _ _)) by done. rewrite IH. by rewrite <- app_assoc.
Qed.

Lemma filterOPT_app rrs1 rrs2 acc m :
  Forall (fun r => rrType r <> TypeOPT) rrs1 ->
  filterOPT (rrs1 ++ rrs2) acc m = filterOPT rrs2 (acc ++ rrs1) m.
Proof.
  intros H. revert acc. induction H as [|r rrs Hr H IH]; intros acc; cbn [filterOPT app].
  - by rewrite app_nil_r.
  - rewrite (proj2 (Z.eqb_neq _ _)) by done. rewrite IH. by rewrite <- app_assoc.
Qed.

Definition header_bytes (h : Header) : bytes :=
  put16 (ID h) ++ put16 (Flags h) ++ put16 (QDCount h) ++
  put16 (ANCount h) ++ put16 (NSCount h) ++ put16 (ARCount h).

(** The additional section with the OPT record the packer adds. *)
Definition wire_additional (m : Message) : list RR :=
  Additional m ++ (if EDNS0 m then [opt_rr (EDNS0Size m) (EDNS0DO m)] else []).

Definition pack_bytes (m : Message) : bytes :=
  header_bytes (header (count_sections m)) ++ questions_bytes (Questions m) ++
  rrs_bytes (Answers m) ++ rrs_bytes (Authority m) ++ rrs_bytes (wire_additional m).

Definition data_fits (rrs : list RR) : bool :=
  forallb (fun r => Z.of_nat (length (rrData r)) <=? 0xFFFF)%Z rrs.

Lemma rrs_bytes_app l1 l2 : rrs_bytes (l1 ++ l2) = rrs_bytes l1 ++ rrs_bytes l2.
Proof.
  induction l1 as [|r l1 IH]; [done|]. cbn [app]. rewrite !rrs_bytes_cons, IH. by rewrite app_assoc.
Qed.

(** [Pack] in closed form. *)
Lemma Pack_bytes m :
  Pack m =
  (count_sections m,
   if data_fits (Answers m) && data_fits (Authority m) && data_fits (Additional m)
   then Ok (pack_bytes m) else Err RDataTooLong).
Proof.
  unfold Pack. f_equal. rewrite appendQuestions_bytes.
  change (Questions (count_sections m)) with (Questions m).
  change (Answers (count_sections m)) with (Answers m).
  change (Authority (count_sections m)) with (Authority m).
  change (Additional (count_sections m)) with (Additional m).
  change (EDNS0 (count_sections m)) with (EDNS0 m).
  rewrite appendRRs_bytes. fold (data_fits (Answers m)). destruct (data_fits (Answers m)); [|done].
  cbn [go_bind]. rewrite appendRRs_bytes. fold (data_fits (Authority m)).
  destruct (data_fits (Authority m)); [|done].
  cbn [go_bind]. rewrite appendRRs_bytes. fold (data_fits (Additional m)).
  destruct (data_fits (Additional m)); [|done]. cbn [go_bind andb].
  unfold pack_bytes, wire_additional, header_bytes. destruct (EDNS0 m).
  - rewrite AppendOPT_bytes, rrs_bytes_app, rrs_bytes_cons. cbn [rrs_bytes].
    change (rrs_bytes []) with (@nil ascii). rewrite app_nil_r. by rewrite <- !app_assoc.
  - rewrite app_nil_r. by rewrite <- !app_assoc.
Qed.

Lemma length_header_bytes h : length (header_bytes h) = 12.
Proof. done. Qed.

Lemma uint16_at_ok {E} buf i pre v suf :
  buf = pre ++ put16 v ++ suf -> i = length pre -> u16_ok v -> @uint16_at E buf i = Ok v.
Proof. intros Hb Hi Hv. rewrite (uint16_at_app _ _ _ _ _ Hb Hi). by rewrite u16_id. Qed.

(** The six header fields, read back. *)
Lemma parse_header {E} h rest :
  u16_ok (ID h) -> u16_ok (Flags h) -> u16_ok (QDCount h) -> u16_ok (ANCount h) ->
  u16_ok (NSCount h) -> u16_ok (ARCount h) ->
  @uint16_at E (header_bytes h ++ rest) 0 = Ok (ID h) /\
  @uint16_at E (header_bytes h ++ rest) 2 = Ok (Flags h) /\
  @uint16_at E (header_bytes h ++ rest) 4 = Ok (QDCount h) /\
  @uint16_at E (header_bytes h ++ rest) 6 = Ok (ANCount h) /\
  @uint16_at E (header_bytes h ++ rest) 8 = Ok (NSCount h) /\
  @uint16_at E (header_bytes h ++ rest) 10 = Ok (ARCount h).
Proof.
  destruct h as [a b c d e f]. unfold header_bytes. cbn [ID Flags QDCount ANCount NSCount ARCount].
  intros Ha Hb Hc Hd He Hf. rewrite <- !app_assoc.
  repeat split.
  - by eapply (uint16_at_ok _ _ []).
  - by eapply (uint16_at_ok _ _ (put16 a)).
  - by eapply (uint16_at_ok _ _ (put16 a ++ put16 b)).
  - by eapply (uint16_at_ok _ _ (put16 a ++ put16 b ++ put16 c)).
  - by eapply (uint16_at_ok _ _ (put16 a ++ put16 b ++ put16 c ++ put16 d)).
  - by eapply (uint16_at_ok _ _ (put16 a ++ put16 b ++ put16 c ++ put16 d ++ put16 e)).
Qed.

Lemma canon_rr_types rrs :
  Forall (fun r => rrType r <> TypeOPT) rrs -> Forall (fun r => rrType r <> TypeOPT) (canon_rr <$> rrs).
Proof. intros H. by apply Forall_fmap. Qed.

Lemma count_sections_ok m :
  message_ok m ->
  let h := header (count_sections m) in
  u16_ok (ID h) /\ u16_ok (Flags h) /\ u16_ok (QDCount h) /\ u16_ok (ANCount h) /\
  u16_ok (NSCount h) /\ u16_ok (ARCount h) /\
  QDCount h = Z.of_nat (length (Questions m)) /\ ANCount h = Z.of_nat (length (Answers m)) /\
  NSCount h = Z.of_nat (length (Authority m)) /\ ARCount h = Z.of_nat (length (wire_additional m)).
Proof.
  intros (Hid & Hfl & _ & _ & _ & _ & Hq & Ha & Hn & Hr & _ & _).
  unfold wire_additional. rewrite length_app. cbn [count_sections header set_header ID Flags QDCount ANCount NSCount ARCount].
  assert (Hr' : u16_ok (Z.of_nat (length (Additional m)))) by (unfold u16_ok in *; lia).
  rewrite !(u16_id _ Hq), !(u16_id _ Ha), !(u16_id _ Hn), !(u16_id _ Hr').
  destruct (EDNS0 m); cbn [length]; rewrite ?(u16_id _ Hr); repeat split; try done;
    unfold u16_ok in *; lia.
Qed.

Lemma wire_additional_ok m : message_ok m -> Forall rr_ok (wire_additional m).
Proof.
  intros (_ & _ & _ & _ & _ & Har & _ & _ & _ & _ & _ & Hs). unfold wire_additional.
  apply Forall_app. split; [done|]. destruct (EDNS0 m); [|constructor].
  constructor; [by apply opt_rr_ok|constructor].
Qed.

(** What the loop over the additional section makes of the packed one. *)
Lemma filterOPT_wire m h qs an ns ad :
  message_ok m ->
  filterOPT (canon_rr <$> wire_additional m) [] (mkMessage h qs an ns ad false false 0) =
  mkMessage h qs an ns (canon_rr <$> Additional m) (EDNS0 m) (EDNS0 m && EDNS0DO m)
    (if EDNS0 m then (if (EDNS0Size m =? 0)%Z then MaxEDNSUDPSize else EDNS0Size m) else 0%Z).
Proof.
  intros (_ & _ & _ & _ & _ & _ & _ & _ & _ & _ & Hopt & _). unfold wire_additional.
  rewrite fmap_app, filterOPT_app by by apply canon_rr_types. cbn [app].
  destruct (EDNS0 m); [|done]. cbn. by destruct (EDNS0DO m).
Qed.

Lemma ParseMessage_pack_bytes m : message_ok m -> ParseMessage (pack_bytes m) = Ok (canon m).
Proof.
  intros Hok. pose proof (count_sections_ok m Hok) as (H1 & H2 & H3 & H4 & H5 & H6 & Eq & Ea & En & Er).
  pose proof (wire_additional_ok m Hok) as Hwa.
  pose proof Hok as (_ & _ & Hqs & Han & Hns & _).
  set (h := header (count_sections m)) in *.
  set (Q := questions_bytes (Questions m)). set (A := rrs_bytes (Answers m)).
  set (N := rrs_bytes (Authority m)). set (R := rrs_bytes (wire_additional m)).
  assert (Hb : pack_bytes m = header_bytes h ++ Q ++ A ++ N ++ R) by done.
  assert (Hlen : length (pack_bytes m) = 12 + length Q + length A + length N + length R).
  { rewrite Hb, !length_app, length_header_bytes. lia. }
  destruct (@parse_header messageError h (Q ++ A ++ N ++ R) H1 H2 H3 H4 H5 H6)
    as (P1 & P2 & P3 & P4 & P5 & P6). rewrite <- Hb in P1, P2, P3, P4, P5, P6.
  unfold ParseMessage. rewrite bool_decide_eq_false_2 by lia.
  rewrite P1, P2, P3, P4, P5, P6. cbn [go_bind].
  pose proof (length_questions_bytes (Questions m)) as HQ. fold Q in HQ.
  rewrite (proj2 (Z.ltb_ge _ _)) by lia. rewrite Eq, Nat2Z.id.
  rewrite (parseQuestions_bytes _ _ 12 (header_bytes h) (A ++ N ++ R) Hqs Hb eq_refl). cbn [go_bind].
  rewrite (parseRRSection_bytes _ _ _ (header_bytes h ++ Q) (N ++ R) _ Han)
    by (first [exact Ea | rewrite Hb; assoc_solve | rewrite length_app, length_header_bytes; reflexivity]).
  cbn [go_wrap go_bind].
  rewrite (parseRRSection_bytes _ _ _ (header_bytes h ++ Q ++ A) R _ Hns)
    by (first [exact En | rewrite Hb; assoc_solve | rewrite !length_app, length_header_bytes; unfold Q, A; lia]).
  cbn [go_wrap go_bind].
  rewrite (parseRRSection_bytes _ _ _ (header_bytes h ++ Q ++ A ++ N) [] _ Hwa)
    by (first [exact Er | rewrite Hb, app_nil_r; assoc_solve
              | rewrite !length_app, length_header_bytes; unfold Q, A, N; lia]).
  cbn [go_wrap go_bind]. rewrite filterOPT_wire by done. f_equal. unfold canon. f_equal.
  by rewrite <- Eq.
Qed.

(** C20. Packing and parsing are inverse: a message whose fields fit their widths and
    whose names have a wire form is packed without error, and parsing the bytes gives
    the message back: the same header with the section counts, the same questions and
    records in the same order (names without a trailing dot), the same EDNS0 fields. *)
Theorem Pack_ParseMessage_roundtrip m :
  message_ok m -> exists out, snd (Pack m) = Ok out /\ ParseMessage out = Ok (canon m).
Proof.
  intros Hok. exists (pack_bytes m). split; [|by apply ParseMessage_pack_bytes].
  rewrite Pack_bytes. destruct Hok as (_ & _ & _ & Ha & Hn & Hr & _).
  unfold data_fits. by rewrite !rrs_data_ok by done.
Qed.

(** ** Truncation *)

Lemma UDPSize_range m : (MaxUDPMessageSize <= UDPSize m <= MaxEDNSUDPSize)%Z.
Proof.
  unfold UDPSize, MaxUDPMessageSize, MaxEDNSUDPSize. destruct (EDNS0 m); cbn [negb]; [|lia].
  destruct (Z.ltb_spec (EDNS0Size m) 512); [lia|]. destruct (Z.ltb_spec 1232 (EDNS0Size m)); lia.
Qed.

(** The message [PackUDP] falls back to: header with TC set, questions, EDNS0. *)
Definition truncated (m : Message) : Message :=
  let h := header m in
  mkMessage (mkHeader (ID h) (Z.lor (Flags h) FlagTC) (QDCount h) (ANCount h) (NSCount h) (ARCount h))
    (Questions m) [] [] [] (EDNS0 m) (EDNS0DO m) (EDNS0Size m).

Definition fits (m : Message) : bool := (Z.of_nat (length (pack_bytes m)) <=? UDPSize m)%Z.

(** [PackUDP] in closed form: the whole message, else the message without its
    additional section, else the truncated one. *)
Lemma PackUDP_bytes m :
  PackUDP m =
  if data_fits (Answers m) && data_fits (Authority m) && data_fits (Additional m) then
    if fits m then Ok (pack_bytes m)
    else if fits (set_Additional m []) then Ok (pack_bytes (set_Additional m []))
    else Ok (pack_bytes (truncated m))
  else Err RDataTooLong.
Proof.
  unfold PackUDP. rewrite !Pack_bytes. cbn [snd].
  destruct (data_fits (Answers m)) eqn:Ha; [|done].
  destruct (data_fits (Authority m)) eqn:Hn; [|done].
  destruct (data_fits (Additional m)) eqn:Hr; [|done]. cbn [andb go_bind].
  fold (fits m). destruct (fits m) eqn:Hf; [done|].
  change (Additional (count_sections m)) with (Additional m).
  case_bool_decide as Hlen.
  - change (Answers (set_Additional (count_sections m) [])) with (Answers m).
    change (Authority (set_Additional (count_sections m) [])) with (Authority m).
    rewrite Ha, Hn. cbn [data_fits forallb andb go_bind set_Additional Additional].
    change (pack_bytes (set_Additional (count_sections m) [])) with (pack_bytes (set_Additional m [])).
    change (Z.of_nat (length (pack_bytes (set_Additional m []))) <=? UDPSize m)%Z
      with (fits (set_Additional m [])).
    by destruct (fits (set_Additional m [])).
  - assert (HA : set_Additional m [] = m).
    { destruct m as [? ? ? ? [|]]; [done|]. cbn in Hlen. lia. }
    by rewrite HA, Hf.
Qed.

Lemma length_pack_bytes_truncated m :
  length (Questions m) <= 1 -> length (pack_bytes (truncated m)) <= 282.
Proof.
  intros Hq. unfold pack_bytes. cbn [truncated Questions Answers Authority].
  rewrite !length_app, length_header_bytes. pose proof (length_questions_bytes (Questions m)).
  unfold wire_additional. cbn [truncated Additional EDNS0 app].
  change (length (rrs_bytes [])) with 0.
  destruct (EDNS0 m); [|change (length (rrs_bytes [])) with 0; lia].
  rewrite rrs_bytes_cons, length_app. change (length (rrs_bytes [])) with 0.
  change (length (rr_bytes (opt_rr (EDNS0Size (truncated m)) (EDNS0DO (truncated m))))) with 11. lia.
Qed.

(** C36. A UDP response to a query with one question (or none) never exceeds the size
    [UDPSize] allows, which is between 512 and 1232 bytes, and it is always produced
    when the record data fit 16-bit lengths: what does not fit is cut, never sent. *)
Theorem PackUDP_within_limit m :
  length (Questions m) <= 1 ->
  data_fits (Answers m) = true -> data_fits (Authority m) = true -> data_fits (Additional m) = true ->
  exists out, PackUDP m = Ok out /\ (Z.of_nat (length out) <= UDPSize m <= MaxEDNSUDPSize)%Z.
Proof.
  intros Hq Ha Hn Hr. rewrite PackUDP_bytes, Ha, Hn, Hr. cbn [andb].
  pose proof (UDPSize_range m) as Hs. unfold MaxUDPMessageSize in Hs.
  destruct (fits m) eqn:Hf; [|destruct (fits (set_Additional m [])) eqn:Hf'].
  - eexists. split; [done|]. apply Z.leb_le in Hf. lia.
  - eexists. split; [done|]. apply Z.leb_le in Hf'. cbn in Hf'. split; [exact Hf'|lia].
  - eexists. split; [done|]. pose proof (length_pack_bytes_truncated m Hq). lia.
Qed.

Lemma truncated_ok m : message_ok m -> message_ok (truncated m).
Proof.
  intros (Hid & Hfl & Hqs & _ & _ & _ & Hq & _ & _ & _ & _ & Hs).
  unfold message_ok. cbn [truncated header ID Flags Questions Answers Authority Additional EDNS0Size length].
  repeat split; try done; try constructor; try (unfold u16_ok in *; lia);
    apply (lor_range 16); unfold FlagTC, u16_ok in *; lia.
Qed.

Lemma no_additional_ok m : message_ok m -> message_ok (set_Additional m []).
Proof.
  intros (Hid & Hfl & Hqs & Ha & Hn & _ & Hq & Hal & Hnl & _ & _ & Hs).
  unfold message_ok, u16_ok in *. cbn [set_Additional header ID Flags Questions Answers Authority Additional EDNS0Size length].
  repeat split; try done; try constructor; lia.
Qed.

Lemma TC_set f : Z.testbit (Z.lor f FlagTC) 9 = true.
Proof. rewrite Z.lor_spec. apply orb_true_r. Qed.

(** C37. A UDP response is never cut in the middle of its answer: what the client parses
    has the question and the header ID of the response, and either all of its answer
    and authority records with the flags unchanged, or none of them with TC set. *)
Theorem PackUDP_all_or_truncated m :
  message_ok m ->
  exists out m', PackUDP m = Ok out /\ ParseMessage out = Ok m' /\
    ID (header m') = ID (header m) /\ Questions m' = canon_question <$> Questions m /\
    ((Answers m' = canon_rr <$> Answers m /\ Authority m' = canon_rr <$> Authority m /\
      Flags (header m') = Flags (header m)) \/
     (Answers m' = [] /\ Authority m' = [] /\ Additional m' = [] /\
      Z.testbit (Flags (header m')) 9 = true)).
Proof.
  intros Hok. pose proof Hok as (_ & _ & _ & Ha & Hn & Hr & _).
  rewrite PackUDP_bytes. unfold data_fits. rewrite !rrs_data_ok by done. cbn [andb].
  destruct (fits m); [|destruct (fits (set_Additional m []))].
  - exists (pack_bytes m), (canon m). split; [done|].
    rewrite ParseMessage_pack_bytes by done. by repeat split; left.
  - exists (pack_bytes (set_Additional m [])), (canon (set_Additional m [])). split; [done|].
    rewrite ParseMessage_pack_bytes by by apply no_additional_ok. by repeat split; left.
  - exists (pack_bytes (truncated m)), (canon (truncated m)). split; [done|].
    rewrite ParseMessage_pack_bytes by by apply truncated_ok. repeat split. right.
    repeat split. apply TC_set.
Qed.

(** ** Flags *)

Lemma Rcode_SetRcode m r : Rcode (SetRcode m r) = Z.land r 15.
Proof.
  unfold Rcode, SetRcode, mFlags, set_Flags. cbn [set_header header Flags].
  pose proof (land_range 4 15 r ltac:(lia) ltac:(lia)) as Hr. rewrite (Z.land_comm 15) in Hr.
  unfold u16. rewrite Z.mod_small by lia.
  apply Z.bits_inj'. intros i Hi. rewrite !Z.land_spec, Z.lor_spec, Z.ldiff_spec, !Z.land_spec.
  destruct (Z.testbit 15 i), (Z.testbit r i), (Z.testbit (Flags (header m)) i); done.
Qed.

(** [SetRcode] stores the code in the low four bits of the flags and leaves every
    other flag bit as it was; [Rcode] reads it back. *)
Theorem SetRcode_correct m r i :
  (0 <= r < 16)%Z -> (4 <= i)%Z ->
  Rcode (SetRcode m r) = r /\ Z.testbit (mFlags (SetRcode m r)) i = Z.testbit (mFlags m) i.
Proof.
  intros Hr Hi. split.
  - rewrite Rcode_SetRcode. change 15%Z with (Z.ones 4). rewrite Z.land_ones by lia.
    by apply Z.mod_small.
  - unfold SetRcode, mFlags, set_Flags. cbn [set_header header Flags].
    rewrite Z.lor_spec, Z.ldiff_spec. change 15%Z with (Z.ones 4).
    rewrite Z.land_ones, (Z.mod_small r) by lia. unfold u16. rewrite (Z.mod_small r) by lia.
    rewrite Z.ones_spec_high by lia. rewrite (pow2_bits_above r 4) by lia.
    by rewrite andb_true_r, orb_false_r.
Qed.

(** Case analysis on the one flag bit of a query a goal mentions. *)
Ltac flag_case :=
  match goal with
  | |- context [Z.testbit (mFlags ?m) ?k] => destruct (Z.testbit (mFlags m) k); reflexivity
  end.

Lemma NewResponse_flags req :
  mFlags (NewResponse req) =
  Z.lor (Z.lor FlagQR (Z.land (mFlags req) FlagRD)) (Z.land (mFlags req) (Z.shiftl 0x0F 11)).
Proof. unfold NewResponse. by destruct (EDNS0 req). Qed.

Lemma NewResponse_Opcode req : Opcode (NewResponse req) = Opcode req.
Proof.
  unfold Opcode. rewrite NewResponse_flags. apply Z.bits_inj'. intros i Hi.
  rewrite !Z.land_spec, !Z.shiftr_spec, !Z.lor_spec, !Z.land_spec by done.
  destruct (decide (i < 4)%Z) as [Hlt|Hge].
  - assert (i = 0 \/ i = 1 \/ i = 2 \/ i = 3)%Z as [-> |[-> |[-> | ->]]] by lia; flag_case.
  - change 15%Z with (Z.ones 4). rewrite (Z.ones_spec_high 4 i) by lia. by rewrite !andb_false_r.
Qed.

Lemma NewResponse_Rcode req : Rcode (NewResponse req) = RcodeNoError.
Proof.
  unfold Rcode. rewrite NewResponse_flags. apply Z.bits_inj'. intros i Hi.
  rewrite !Z.land_spec, !Z.lor_spec, !Z.land_spec, Z.bits_0.
  destruct (decide (i < 4)%Z) as [Hlt|Hge].
  - assert (i = 0 \/ i = 1 \/ i = 2 \/ i = 3)%Z as [-> |[-> |[-> | ->]]] by lia; flag_case.
  - change 15%Z with (Z.ones 4). rewrite (Z.ones_spec_high 4 i) by lia. by rewrite !andb_false_r.
Qed.

(** The response to a query carries the query's ID, questions and opcode, has QR set,
    copies RD, and starts with every other flag clear and response code 0. *)
Theorem NewResponse_header req :
  let resp := NewResponse req in
  ID (header resp) = ID (header req) /\ Questions resp = Questions req /\
  Opcode resp = Opcode req /\ Rcode resp = RcodeNoError /\
  Z.testbit (mFlags resp) 15 = true /\
  Z.testbit (mFlags resp) 8 = Z.testbit (mFlags req) 8 /\
  (forall i, In i [4; 5; 6; 7; 9; 10]%Z -> Z.testbit (mFlags resp) i = false) /\
  Answers resp = [] /\ Authority resp = [] /\ Additional resp = [].
Proof.
  cbn zeta. rewrite NewResponse_Opcode, NewResponse_Rcode, NewResponse_flags.
  assert (Hbits : forall i, Z.testbit (Z.lor (Z.lor FlagQR (Z.land (mFlags req) FlagRD))
      (Z.land (mFlags req) (Z.shiftl 15 11))) i =
      (Z.testbit FlagQR i || Z.testbit (mFlags req) i && Z.testbit FlagRD i)
      || Z.testbit (mFlags req) i && Z.testbit 30720 i).
  { intros i. by rewrite !Z.lor_spec, !Z.land_spec. }
  repeat split; try (unfold NewResponse; by destruct (EDNS0 req)).
  - rewrite Hbits. flag_case.
  - intros i Hi. rewrite Hbits. cbn in Hi.
    repeat destruct Hi as [<-|Hi]; first [done|flag_case].
Qed.

(** ** EDNS0 payload size *)

(** The size limit of a UDP response does not depend on what the client announced:
    [NewResponse] puts the server's own maximum into the response, so that a client
    whose OPT record announces 512 bytes is sent responses of up to 1232. *)
Theorem NewResponse_ignores_client_size req :
  EDNS0 req = true -> UDPSize (NewResponse req) = MaxEDNSUDPSize.
Proof. intros H. unfold NewResponse. by rewrite H. Qed.

(** ** Type mnemonics *)

Lemma assoc_typeCodes_prefix s : assoc (lit "TYPE" ++ s) typeCodes = None.
Proof. done. Qed.

Lemma format_digits_ascii fuel n acc :
  forallb is_ascii acc = true -> forallb is_ascii (format_digits fuel n acc) = true.
Proof.
  revert n acc. induction fuel as [|fuel IH]; intros n acc H; [done|]. cbn [format_digits].
  assert (Hd : forallb is_ascii (zb (48 + n mod 10) :: acc) = true).
  { cbn [forallb]. rewrite H, andb_true_r. unfold is_ascii.
    pose proof (Z.mod_pos_bound n 10 ltac:(lia)). rewrite bz_zb_small by lia. apply Z.ltb_lt. lia. }
  destruct (n <? 10)%Z; [done|by apply IH].
Qed.

Lemma FormatInt_ascii n : forallb is_ascii (FormatInt n) = true.
Proof.
  unfold FormatInt. destruct (n <? 0)%Z; [cbn [forallb]; apply andb_true_iff; split; [done|]|];
    by apply format_digits_ascii.
Qed.

Lemma TypeName_unknown t : assoc t typeNames = None -> TypeName t = lit "TYPE" ++ Itoa t.
Proof. unfold TypeName. by intros ->. Qed.

Lemma ToUpper_TYPE `{GoUnicode} t :
  ToUpper (lit "TYPE" ++ Itoa t) = lit "TYPE" ++ (upper_byte <$> Itoa t).
Proof.
  unfold ToUpper, Itoa. rewrite forallb_app, FormatInt_ascii.
  change (forallb is_ascii (lit "TYPE")) with true. cbn [andb]. by rewrite fmap_app.
Qed.

Lemma assoc_None_or_in t : assoc t typeNames = None \/ In t (fst <$> typeNames).
Proof.
  generalize typeNames as l. induction l as [|[k v] l IH]; [by left|]. cbn.
  case_bool_decide; [right; by left|]. destruct IH; [by left|right; by right].
Qed.

(** [TypeCode] inverts [TypeName] on the 24 types the program knows, and is 0 (no
    type) on the name TYPEnnn of any other type. *)
Theorem TypeCode_TypeName `{GoUnicode} t :
  TypeCode (TypeName t) = if bool_decide (is_Some (assoc t typeNames)) then t else 0%Z.
Proof.
  destruct (assoc_None_or_in t) as [Hn|Hin].
  - rewrite bool_decide_eq_false_2 by (rewrite Hn; apply is_Some_None).
    rewrite TypeName_unknown by done. unfold TypeCode.
    by rewrite ToUpper_TYPE, assoc_typeCodes_prefix.
  - cbn in Hin. repeat destruct Hin as [<-|Hin]; [reflexivity..|done].
Qed.

(** ** Witnesses *)

#[export] Instance message_ok_dec m : Decision (message_ok m).
Proof. unfold message_ok, question_ok, rr_ok, u16_ok, u32_ok. apply _. Defined.

Definition sample_message : Message :=
  mkMessage (mkHeader 4660 0x8580 0 0 0 0)
    [mkQuestion (lit "WWW.example.com.") TypeA ClassIN]
    [mkRR (lit "WWW.example.com") TypeA ClassIN 300 [zb 192; zb 0; zb 2; zb 1]]
    [mkRR (lit "example.com") TypeNS ClassIN 3600 (name_bytes (lit "ns1.example.com"))]
    [mkRR (lit "ns1.example.com") TypeA ClassIN 3600 [zb 192; zb 0; zb 2; zb 53]]
    true true 0.

Lemma sample_message_ok : message_ok sample_message.
Proof. refine (bool_decide_unpack _ _). vm_compute. exact I. Qed.

Lemma Pack_ParseMessage_roundtrip_witness :
  exists out, snd (Pack sample_message) = Ok out /\ ParseMessage out = Ok (canon sample_message).
Proof. exact (Pack_ParseMessage_roundtrip sample_message sample_message_ok). Defined.

Lemma PackUDP_within_limit_witness :
  exists out, PackUDP sample_message = Ok out /\
    (Z.of_nat (length out) <= UDPSize sample_message <= MaxEDNSUDPSize)%Z.
Proof.
  apply (PackUDP_within_limit sample_message); [cbn; lia|reflexivity|reflexivity|reflexivity].
Defined.

Lemma PackUDP_all_or_truncated_witness :
  exists out m', PackUDP sample_message = Ok out /\ ParseMessage out = Ok m' /\
    ID (header m') = 4660%Z /\ Questions m' = [mkQuestion (lit "WWW.example.com") TypeA ClassIN] /\
    ((Answers m' = canon_rr <$> Answers sample_message /\
      Authority m' = canon_rr <$> Authority sample_message /\ Flags (header m') = 0x8580%Z) \/
     (Answers m' = [] /\ Authority m' = [] /\ Additional m' = [] /\
      Z.testbit (Flags (header m')) 9 = true)).
Proof. exact (PackUDP_all_or_truncated sample_message sample_message_ok). Defined.

Lemma SetRcode_correct_witness :
  Rcode (SetRcode sample_message 3) = 3%Z /\
  Z.testbit (mFlags (SetRcode sample_message 3)) 10 = Z.testbit (mFlags sample_message) 10.
Proof. apply (SetRcode_correct sample_message 3 10); lia. Defined.

Lemma NewResponse_ignores_client_size_witness :
  UDPSize (NewResponse (SetEDNS0 sample_message 512 false)) = 1232%Z /\
  UDPSize (SetEDNS0 sample_message 512 false) = 512%Z.
Proof.
  split; [|reflexivity].
  exact (NewResponse_ignores_client_size (SetEDNS0 sample_message 512 false) eq_refl).
Defined.
