(* ===== verification/Names.v ===== *)
(** * Validation of record and zone names (src/internal/dns/names.go) *)

From Stdlib Require Import ZArith Lia Ascii String.
From stdpp Require Import base list strings.
From S2P Require Import Prelude GoStrings Message WireNames.

Inductive validateError :=
| NameIsEmpty | NameOver253 | EmptyLabel | LabelOver63 | WildcardNotLeftmost
| InvalidCharacter (c : ascii) | HyphenAtEdge.

(** [c >= 'a' && c <= 'z' || c >= '0' && c <= '9' || c == '-' || c == '_'] *)
Definition name_char (c : ascii) : bool :=
  ((97 <=? bz c) && (bz c <=? 122) || (48 <=? bz c) && (bz c <=? 57) || (bz c =? 45) || (bz c =? 95))%Z.

(** The loop over the bytes of a label. *)
Fixpoint validateChars (l : gostring) : option validateError :=
  match l with
  | [] => None
  | c :: l' => if name_char c then validateChars l' else Some (InvalidCharacter c)
  end.

(** The loop over the labels; [i] is the index of the first one of [ls]. *)
Fixpoint validateLabels (i : nat) (ls : list gostring) : option validateError :=
  match ls with
  | [] => None
  | l :: ls' =>
    if bool_decide (l = []) then Some EmptyLabel
    else if bool_decide (maxLabelLen < length l) then Some LabelOver63
    else if bool_decide (l = lit "*") then
      if bool_decide (i <> 0) then Some WildcardNotLeftmost else validateLabels (S i) ls'
    else
      match validateChars l with
      | Some e => Some e
      | None =>
        if bool_decide (l !! 0 = Some "-"%char \/ l !! (length l - 1) = Some "-"%char)
        then Some HyphenAtEdge
        else validateLabels (S i) ls'
      end
  end.

(** [None] is the nil error. *)
Definition ValidateName (name : gostring) : option validateError :=
  if bool_decide (name = []) then Some NameIsEmpty
  else if bool_decide (253 < length name) then Some NameOver253
  else validateLabels 0 (Split name "."%char).

(** ** Specification: the names the program accepts *)

Definition hostname_label (l : gostring) : Prop :=
  0 < length l <= maxLabelLen /\ Forall (fun c => name_char c = true) l /\
  l !! 0 <> Some "-"%char /\ l !! (length l - 1) <> Some "-"%char.

(** Host-name labels, the first of which may be the wildcard. *)
Definition valid_labels (ls : list gostring) : Prop :=
  match ls with
  | [] => False
  | l :: ls' => (l = lit "*" \/ hostname_label l) /\ Forall hostname_label ls'
  end.

Lemma validateChars_None l : validateChars l = None <-> Forall (fun c => name_char c = true) l.
Proof.
  induction l as [|c l IH]; cbn; [by split; constructor|].
  rewrite Forall_cons. destruct (name_char c); [rewrite IH|]; by (split; [|intros []]).
Qed.

Lemma star_not_hostname : ~ hostname_label (lit "*").
Proof. intros (_ & H & _). by apply Forall_cons in H as [H _]. Qed.

Lemma validateLabels_cons i l ls :
  validateLabels i (l :: ls) = None <->
  ((l = lit "*" /\ i = 0) \/ hostname_label l) /\ validateLabels (S i) ls = None.
Proof.
  cbn [validateLabels]. unfold hostname_label.
  case_bool_decide as H0; [subst; split; [done|]|].
  { intros [[[? _]|[? _]] _]; [done|]. cbn in *. lia. }
  assert (0 < length l) by (destruct l; [done|cbn; lia]).
  case_bool_decide as H63; [split; [done|]|].
  { intros [[[-> _]|[? _]] _]; [cbn in *; unfold maxLabelLen in *; lia|lia]. }
  case_bool_decide as Hstar; [subst|].
  { case_bool_decide as Hi; split; try done.
    - intros [[[_ ?]|H1] _]; [done|]. by apply star_not_hostname in H1.
    - intros H1. assert (i = 0) as -> by lia. split; [by left; split|done].
    - by intros [_ ?]. }
  destruct (validateChars l) as [e|] eqn:Hc.
  { split; [done|]. intros [[[? _]|(_ & Hf & _)] _]; [done|].
    apply validateChars_None in Hf. congruence. }
  apply validateChars_None in Hc.
  case_bool_decide as He; split; try done.
  - intros [[[? _]|(_ & _ & ? & ?)] _]; [done|]. by destruct He.
  - intros H1. split; [|done]. right. repeat split; [done|lia|done| |]; intros ?; apply He; auto.
  - by intros [_ ?].
Qed.

Lemma validateLabels_S i ls : validateLabels (S i) ls = None <-> Forall hostname_label ls.
Proof.
  revert i. induction ls as [|l ls IH]; intros i; [by split; constructor|].
  rewrite validateLabels_cons, Forall_cons, IH. naive_solver.
Qed.

Lemma validateLabels_0 ls : ls <> [] -> validateLabels 0 ls = None <-> valid_labels ls.
Proof.
  destruct ls as [|l ls]; [done|]. intros _. rewrite validateLabels_cons, validateLabels_S.
  unfold valid_labels. naive_solver.
Qed.

(** C39. [ValidateName] accepts exactly the names of at most 253 bytes made of labels of 1
    to 63 lower-case letters, digits, hyphens and underscores that neither start nor end
    with a hyphen, of which the leftmost may instead be the wildcard "*". *)
Theorem ValidateName_correct name :
  ValidateName name = None <->
  name <> [] /\ length name <= 253 /\ valid_labels (Split name "."%char).
Proof.
  unfold ValidateName. case_bool_decide; [naive_solver|].
  case_bool_decide; [split; [done|]; intros (_ & ? & _); lia|].
  rewrite validateLabels_0 by apply Split_not_nil. split; [|by intros (_ & _ & ?)].
  intros. repeat split; [done|lia|done].
Qed.

(** ** Accepted names are canonical *)

Lemma name_char_lower c : name_char c = true -> is_ascii c = true /\ lower_byte c = c.
Proof. destruct c as [[] [] [] [] [] [] [] []]; vm_compute; by intros. Qed.

Lemma hostname_label_bytes l :
  l = lit "*" \/ hostname_label l -> label_ok l /\ Forall (fun c => is_ascii c = true /\ lower_byte c = c) l.
Proof.
  intros [-> |(Hl & Hf & _)]; [split; [vm_compute; lia|by repeat constructor]|].
  split; [done|]. eapply Forall_impl; [done|]. by apply name_char_lower.
Qed.

Lemma valid_labels_Forall ls :
  valid_labels ls ->
  Forall (fun l => label_ok l /\ Forall (fun c => is_ascii c = true /\ lower_byte c = c) l) ls.
Proof.
  destruct ls as [|l ls]; [done|]. intros [Hl H]. constructor; [by apply hostname_label_bytes|].
  eapply Forall_impl; [done|]. intros x Hx. apply hostname_label_bytes. by right.
Qed.

Lemma Forall_Join (P : ascii -> Prop) ls sep :
  Forall (Forall P) ls -> Forall P sep -> Forall P (Join ls sep).
Proof.
  intros H Hs. induction H as [|l ls Hl H IH]; [constructor|].
  destruct ls as [|l' ls]; [done|]. rewrite Join_cons by done. by repeat apply Forall_app_2.
Qed.

Lemma ToLower_id `{GoUnicode} s :
  Forall (fun c => is_ascii c = true /\ lower_byte c = c) s -> ToLower s = s.
Proof.
  intros Hs. unfold ToLower. rewrite (proj2 (forallb_Forall _ _)).
  - induction Hs as [|c s [_ Hc] Hs IH]; [done|]. rewrite fmap_cons, Hc. by f_equal.
  - eapply Forall_impl; [done|]. by intros c [? _].
Qed.

Lemma valid_no_trailing_dot name :
  Forall label_ok (Split name "."%char) -> HasSuffix name (lit ".") = false.
Proof.
  intros H. rewrite <- (Join_Split name "."%char). apply Join_no_trailing_dot; [apply Split_not_nil|].
  pose proof (Split_labels_no_sep name "."%char) as Hd. rewrite Forall_forall in *.
  intros l Hin. split; [|by apply Hd]. specialize (H l Hin). intros ->. unfold label_ok in H. cbn in H. lia.
Qed.

Lemma ValidateName_valid name :
  ValidateName name = None ->
  name <> [] /\ length name <= 253 /\ valid_labels (Split name "."%char).
Proof.
  unfold ValidateName. case_bool_decide; [done|]. case_bool_decide; [done|].
  rewrite validateLabels_0 by apply Split_not_nil. intros. repeat split; [done|lia|done].
Qed.

Lemma validated_canonical `{GoUnicode} name :
  ValidateName name = None ->
  packable name /\ ToLower name = name /\ TrimSuffix name (lit ".") = name.
Proof.
  intros (Hne & Hlen & Hv%valid_labels_Forall)%ValidateName_valid.
  assert (Hok : Forall label_ok (Split name "."%char)) by (eapply Forall_impl; [done|]; by intros l [? _]).
  pose proof (TrimSuffix_no _ _ (valid_no_trailing_dot name Hok)) as Ht.
  split; [|split; [|done]].
  - apply packable_iff. unfold labels_of. rewrite Ht. destruct name as [|c n]; [done|].
    split; [done|]. nlia.
  - apply ToLower_id. rewrite <- (Join_Split name "."%char). apply Forall_Join; [|by repeat constructor].
    eapply Forall_impl; [exact Hv|]. by intros l [_ ?].
Qed.

(** Every name [ValidateName] accepts can be served as it is: it has a wire form, it is
    in lower case (whatever the Unicode tables say) and has no trailing dot, so that
    normalising it again changes nothing. *)
Theorem ValidateName_canonical `{GoUnicode} name :
  ValidateName name = None ->
  (forall buf, exists wire, PackName buf name = (buf ++ wire, None)) /\
  ToLower name = name /\ TrimSuffix name (lit ".") = name.
Proof.
  intros Hv. destruct (validated_canonical name Hv) as (Hp & Hl & Ht).
  split; [|done]. intros buf. eexists. by apply PackName_packable.
Qed.

(** A concrete stand-in for Go's Unicode tables (every non-ASCII string kept as it is). *)
Definition unicode_id : GoUnicode := Build_GoUnicode (fun s => s) (fun s => s).

Lemma ValidateName_canonical_witness :
  (forall buf, exists wire, PackName buf (lit "*.a-b.example") = (buf ++ wire, None)) /\
  @ToLower unicode_id (lit "*.a-b.example") = lit "*.a-b.example" /\
  TrimSuffix (lit "*.a-b.example") (lit ".") = lit "*.a-b.example".
Proof. exact (@ValidateName_canonical unicode_id (lit "*.a-b.example") eq_refl). Defined.
