(* ===== verification/RData.v ===== *)
(** * Record data: from text to wire form (src/internal/dns/rdata.go)

    [BuildRData] returns a byte slice and an error.  [Ok b] is the pair (b, nil) and
    [Err (e, b)] the pair (b, e): where [PackName] fails, the code returns the bytes
    packed so far together with the error, and a caller can see them.  A nil slice is
    the empty list: every slice of this file grows from nil by [append]. *)

From Stdlib Require Import ZArith Lia Ascii String.
From stdpp Require Import base list strings.
From S2P Require Import Prelude GoStrings GoNet Message WireNames.

Definition SupportedType (t : Z) : bool :=
  bool_decide (t ∈ [TypeA; TypeAAAA; TypeNS; TypeCNAME; TypeDNAME; TypePTR; TypeMX; TypeTXT;
    TypeSRV; TypeCAA; TypeNAPTR; TypeSSHFP; TypeTLSA; TypeDS; TypeDNSKEY; TypeHINFO]).

Inductive rdataError :=
| InvalidA | InvalidAAAA | ExpectsSingleName | ExpectsFields | InvalidUint | PackErr (e : packNameError)
| CAATagLength | InvalidCAAValue | NAPTRReplacement | StringTooLong | ExpectsHINFO
| InvalidFingerprint | InvalidCertificateData | InvalidDigest | InvalidPublicKey
| ExpectedQuotedString | ExpectedOpeningQuote | InvalidEscape | UnterminatedString
| UnsupportedType (t : Z).

Definition rdata : Type := go (rdataError * bytes) bytes.

(** A return of [nil, e]. *)
Definition fail {A} (e : rdataError) : go (rdataError * bytes) A := Err (e, []).

(** [return PackName(buf, name)] *)
Definition pack_name (buf : bytes) (name : gostring) : rdata :=
  match PackName buf name with
  | (b, None) => Ok b
  | (b, Some e) => Err (PackErr e, b)
  end.

Definition parseUint (s : gostring) (bits : Z) : go (rdataError * bytes) Z :=
  match ParseUint s bits with Some v => Ok v | None => fail InvalidUint end.

Definition isDigit (c : ascii) : bool := ((48 <=? bz c) && (bz c <=? 57))%Z.

Definition cutField (s : gostring) : gostring * gostring :=
  let s := TrimSpace s in
  match IndexAny s [" "%char; zb 9] with
  | None => (s, [])
  | Some i => (take i s, TrimSpace (drop i s))
  end.

(** The loop of [readQuoted], on the part of the string not yet read. *)
Fixpoint readQuoted_loop (s sb : gostring) : go (rdataError * bytes) (gostring * gostring) :=
  match s with
  | [] => fail UnterminatedString
  | c :: s1 =>
    if bool_decide (c = zb 34) then Ok (sb, s1)
    else if bool_decide (c = zb 92) then
      match s1 with
      | [] => readQuoted_loop s1 (sb ++ [c])
      | d :: s2 =>
        match s2 with
        | e :: f :: s3 =>
          if isDigit d && isDigit e && isDigit f then
            let v := ((bz d - 48) * 100 + (bz e - 48) * 10 + (bz f - 48))%Z in
            if (255 <? v)%Z then fail InvalidEscape else readQuoted_loop s3 (sb ++ [zb v])
          else readQuoted_loop s2 (sb ++ [d])
        | _ => readQuoted_loop s2 (sb ++ [d])
        end
      end
    else readQuoted_loop s1 (sb ++ [c])
  end.

Definition readQuoted (s : gostring) : go (rdataError * bytes) (gostring * gostring) :=
  match s with
  | [] => fail ExpectedOpeningQuote
  | c :: s' => if bool_decide (c <> zb 34) then fail ExpectedOpeningQuote else readQuoted_loop s' []
  end.

(** The loop of [parseQuotedStrings]; every turn consumes an opening quote. *)
Fixpoint parseQuotedStrings_loop (fuel : nat) (rest : gostring) (out : list gostring)
    : go (rdataError * bytes) (list gostring) :=
  if bool_decide (rest = []) then Ok out
  else
    match fuel with
    | 0 => NoFuel
    | S fuel' =>
      let! (s, remaining) := readQuoted rest in
      parseQuotedStrings_loop fuel' (TrimSpace remaining) (out ++ [s])
    end.

Definition parseQuotedStrings (text : gostring) : go (rdataError * bytes) (list gostring) :=
  let rest := TrimSpace text in parseQuotedStrings_loop (length rest) rest [].

(** The loop of [takeQuoted]; [n] strings are still to be read. *)
Fixpoint takeQuoted_loop (n : nat) (rest : gostring) (out : list gostring)
    : go (rdataError * bytes) (list gostring * gostring) :=
  match n with
  | 0 => Ok (out, rest)
  | S n' =>
    if negb (HasPrefix rest [zb 34]) then fail ExpectedQuotedString
    else
      let! (s, remaining) := readQuoted rest in
      takeQuoted_loop n' (TrimSpace remaining) (out ++ [s])
  end.

Definition takeQuoted (text : gostring) (n : nat) : go (rdataError * bytes) (list gostring * gostring) :=
  takeQuoted_loop n (TrimSpace text) [].

(** A character string: a length byte and the bytes. *)
Fixpoint appendStrings (buf : bytes) (strs : list gostring) : rdata :=
  match strs with
  | [] => Ok buf
  | s :: strs' =>
    if bool_decide (255 < length s) then fail StringTooLong
    else appendStrings ((buf ++ [zb (Z.of_nat (length s))]) ++ s) strs'
  end.

(** The inner loop of [buildTXT]: pieces of 255 bytes, then the remainder. *)
Fixpoint txtChunks (fuel : nat) (p buf : bytes) : rdata :=
  if bool_decide (255 < length p) then
    match fuel with
    | 0 => NoFuel
    | S fuel' => txtChunks fuel' (drop 255 p) ((buf ++ [zb 255]) ++ take 255 p)
    end
  else Ok ((buf ++ [zb (Z.of_nat (length p))]) ++ p).

Fixpoint txtParts (parts : list gostring) (buf : bytes) : rdata :=
  match parts with
  | [] => Ok buf
  | p :: parts' => let! buf := txtChunks (length p) p buf in txtParts parts' buf
  end.

Definition buildTXT (text : gostring) : rdata :=
  let! parts := (if HasPrefix text [zb 34] then parseQuotedStrings text else Ok [text]) in
  let! buf := txtParts parts [] in
  Ok (if bool_decide (length buf = 0) then [zb 0] else buf).

(** ** The cases of [BuildRData], on the trimmed text *)

Definition buildA (text : gostring) : rdata :=
  match ParseAddr text with
  | Some addr => if negb (Is4 addr) then fail InvalidA else Ok (AsSlice addr)
  | None => fail InvalidA
  end.

Definition buildAAAA (text : gostring) : rdata :=
  match ParseAddr text with
  | Some addr => if negb (Is6 addr) || Is4In6 addr then fail InvalidAAAA else Ok (AsSlice addr)
  | None => fail InvalidAAAA
  end.

Definition buildName (text : gostring) : rdata :=
  if bool_decide (text = []) || ContainsAny text [" "%char; zb 9] then fail ExpectsSingleName
  else pack_name [] text.

Definition buildMX (text : gostring) : rdata :=
  match Fields text with
  | [f0; f1] =>
    let! pref := parseUint f0 16 in
    pack_name (put16 (u16 pref)) f1
  | _ => fail ExpectsFields
  end.

Definition buildSRV (text : gostring) : rdata :=
  match Fields text with
  | [f0; f1; f2; f3] =>
    let! v := parseUint f0 16 in
    let buf := put16 (u16 v) in
    let! v := parseUint f1 16 in
    let buf := buf ++ put16 (u16 v) in
    let! v := parseUint f2 16 in
    let buf := buf ++ put16 (u16 v) in
    pack_name buf f3
  | _ => fail ExpectsFields
  end.

Definition buildCAA (text : gostring) : rdata :=
  match SplitN text " "%char 3 with
  | [f0; tag; f2] =>
    let! flags := parseUint f0 8 in
    if bool_decide (tag = []) || bool_decide (255 < length tag) then fail CAATagLength
    else
      let value := TrimSpace f2 in
      let! value :=
        (if HasPrefix value [zb 34] then
           match parseQuotedStrings value with
           | Ok [v] => Ok v
           | Ok _ | Err _ => fail InvalidCAAValue
           | Panic => Panic
           | NoFuel => NoFuel
           end
         else Ok value) in
      Ok (([zb flags; zb (Z.of_nat (length tag))] ++ tag) ++ value)
  | _ => fail ExpectsFields
  end.

Definition buildNAPTR (text : gostring) : rdata :=
  let (orderStr, rest) := cutField text in
  let (prefStr, rest) := cutField rest in
  let! order := parseUint orderStr 16 in
  let! pref := parseUint prefStr 16 in
  let! (strs, remaining) := takeQuoted rest 3 in
  let repl := TrimSpace remaining in
  if bool_decide (repl = []) || ContainsAny repl [" "%char; zb 9] then fail NAPTRReplacement
  else
    let buf := put16 (u16 order) in
    let buf := buf ++ put16 (u16 pref) in
    let! buf := appendStrings buf strs in
    pack_name buf repl.

Definition buildHINFO (text : gostring) : rdata :=
  match takeQuoted text 2 with
  | Ok (strs, rest) =>
    if bool_decide (TrimSpace rest <> []) then fail ExpectsHINFO else appendStrings [] strs
  | Err _ => fail ExpectsHINFO
  | Panic => Panic
  | NoFuel => NoFuel
  end.

(** [strings.Join(fs, "")] *)
Definition concat_fields (fs : list gostring) : gostring := Join fs [].

Definition buildSSHFP (text : gostring) : rdata :=
  match Fields text with
  | f0 :: f1 :: ((_ :: _) as digits) =>
    let! alg := parseUint f0 8 in
    let! fp := parseUint f1 8 in
    match hex_DecodeString (concat_fields digits) with
    | Some ((_ :: _) as digest) => Ok ([zb alg; zb fp] ++ digest)
    | _ => fail InvalidFingerprint
    end
  | _ => fail ExpectsFields
  end.

Definition buildTLSA (text : gostring) : rdata :=
  match Fields text with
  | f0 :: f1 :: f2 :: ((_ :: _) as digits) =>
    let! v := parseUint f0 8 in
    let buf := [zb v] in
    let! v := parseUint f1 8 in
    let buf := buf ++ [zb v] in
    let! v := parseUint f2 8 in
    let buf := buf ++ [zb v] in
    match hex_DecodeString (concat_fields digits) with
    | Some ((_ :: _) as data) => Ok (buf ++ data)
    | _ => fail InvalidCertificateData
    end
  | _ => fail ExpectsFields
  end.

Definition buildDS (text : gostring) : rdata :=
  match Fields text with
  | f0 :: f1 :: f2 :: ((_ :: _) as digits) =>
    let! tag := parseUint f0 16 in
    let! alg := parseUint f1 8 in
    let! dt := parseUint f2 8 in
    match hex_DecodeString (concat_fields digits) with
    | Some ((_ :: _) as digest) => Ok ((put16 (u16 tag) ++ [zb alg; zb dt]) ++ digest)
    | _ => fail InvalidDigest
    end
  | _ => fail ExpectsFields
  end.

Definition buildDNSKEY (text : gostring) : rdata :=
  match Fields text with
  | f0 :: f1 :: f2 :: ((_ :: _) as digits) =>
    let! flags := parseUint f0 16 in
    let! proto := parseUint f1 8 in
    let! alg := parseUint f2 8 in
    match base64_DecodeString (concat_fields digits) with
    | Some ((_ :: _) as key) => Ok ((put16 (u16 flags) ++ [zb proto; zb alg]) ++ key)
    | _ => fail InvalidPublicKey
    end
  | _ => fail ExpectsFields
  end.

Definition BuildRData (rtype : Z) (text : gostring) : rdata :=
  let text := TrimSpace text in
  if (rtype =? TypeA)%Z then buildA text
  else if (rtype =? TypeAAAA)%Z then buildAAAA text
  else if bool_decide (rtype ∈ [TypeNS; TypeCNAME; TypeDNAME; TypePTR]) then buildName text
  else if (rtype =? TypeMX)%Z then buildMX text
  else if (rtype =? TypeTXT)%Z then buildTXT text
  else if (rtype =? TypeSRV)%Z then buildSRV text
  else if (rtype =? TypeCAA)%Z then buildCAA text
  else if (rtype =? TypeNAPTR)%Z then buildNAPTR text
  else if (rtype =? TypeHINFO)%Z then buildHINFO text
  else if (rtype =? TypeSSHFP)%Z then buildSSHFP text
  else if (rtype =? TypeTLSA)%Z then buildTLSA text
  else if (rtype =? TypeDS)%Z then buildDS text
  else if (rtype =? TypeDNSKEY)%Z then buildDNSKEY text
  else fail (UnsupportedType rtype).

(** ** SOA data and the names inside record data *)

Fixpoint append_uint32s (buf : bytes) (vs : list Z) : bytes :=
  match vs with [] => buf | v :: vs' => append_uint32s (buf ++ put32 v) vs' end.

(** On an error the code returns nil, not the partial buffer. *)
Definition BuildSOA (primary admin : gostring) (serial refresh retry expire minimum : Z)
    : go packNameError bytes :=
  match PackName [] primary with
  | (_, Some e) => Err e
  | (buf, None) =>
    match PackName buf admin with
    | (_, Some e) => Err e
    | (buf, None) => Ok (append_uint32s buf [serial; refresh; retry; expire; minimum])
    end
  end.

(** The name in NS, CNAME, DNAME, PTR, MX and SRV data; the empty string when there is
    none or it does not parse. *)
Definition name_at (rdata : bytes) (off : nat) : gostring :=
  match ParseName rdata off with Ok (name, _) => name | _ => [] end.

Definition RDataNames (rtype : Z) (rdata : bytes) : gostring :=
  if bool_decide (rtype ∈ [TypeNS; TypeCNAME; TypeDNAME; TypePTR]) then name_at rdata 0
  else if (rtype =? TypeMX)%Z then if bool_decide (2 < length rdata) then name_at rdata 2 else []
  else if (rtype =? TypeSRV)%Z then if bool_decide (6 < length rdata) then name_at rdata 6 else []
  else [].
