(* ===== verification/RDataCorrect.v ===== *)
(** * Correctness of the record-data encoders (RData.v)

    Totality of [BuildRData], agreement of its case analysis with [SupportedType],
    round trips of the text forms with the wire forms, and what its error results
    carry. *)

From Stdlib Require Import ZArith Lia Ascii String.
From stdpp Require Import base list strings sets.
From S2P Require Import Prelude GoStrings GoNet Message WireNames MessageCodec RData.

(** ** Totality *)

Lemma readQuoted_loop_spec s sb :
  returns (readQuoted_loop s sb) /\
  forall a r, readQuoted_loop s sb = Ok (a, r) -> length r < length s.
Proof.
  revert sb. induction s as [s IH] using (induction_ltof1 _ (@length ascii)). unfold ltof in IH.
  intros sb. destruct s as [|c s1]; [done|]. cbn [readQuoted_loop].
  assert (Hrec : forall s' sb', length s' < length (c :: s1) ->
    returns (readQuoted_loop s' sb') /\
    forall a r, readQuoted_loop s' sb' = Ok (a, r) -> length r < length (c :: s1)).
  { intros s' sb' Hs'. destruct (IH s' Hs' sb') as [Hr Hl]. split; [done|].
    intros a r Ha. specialize (Hl a r Ha). lia. }
  case_bool_decide; [split; [done|]; intros a r [= _ ->]; cbn; lia|].
  case_bool_decide; [|apply Hrec; cbn; lia].
  destruct s1 as [|d [|e [|f s3]]]; try (apply Hrec; cbn; lia).
  destruct (isDigit d && isDigit e && isDigit f); [|apply Hrec; cbn; lia].
  destruct (255 <? _)%Z; [done|]. apply Hrec. cbn. lia.
Qed.

Lemma readQuoted_spec s :
  returns (readQuoted s) /\ forall a r, readQuoted s = Ok (a, r) -> length r < length s.
Proof.
  destruct s as [|c s]; [done|]. cbn [readQuoted]. case_bool_decide; [done|].
  destruct (readQuoted_loop_spec s []) as [Hr Hl]. split; [done|].
  intros a r H'. specialize (Hl a r H'). cbn. lia.
Qed.

Lemma parseQuotedStrings_loop_returns fuel rest out :
  length rest <= fuel -> returns (parseQuotedStrings_loop fuel rest out).
Proof.
  revert rest out. induction fuel as [|fuel IH]; intros rest out Hf; cbn [parseQuotedStrings_loop].
  - by destruct rest; [|cbn in Hf; lia].
  - case_bool_decide; [done|]. destruct (readQuoted_spec rest) as [Hr Hl].
    apply go_bind_returns; [done|]. intros [s r] Hs. specialize (Hl s r Hs).
    apply IH. pose proof (TrimSpace_length r). lia.
Qed.

Lemma parseQuotedStrings_returns text : returns (parseQuotedStrings text).
Proof. by apply parseQuotedStrings_loop_returns. Qed.

Lemma takeQuoted_returns n rest out : returns (takeQuoted_loop n rest out).
Proof.
  revert rest out. induction n as [|n IH]; intros rest out; cbn [takeQuoted_loop]; [done|].
  destruct (negb _); [done|]. apply go_bind_returns; [apply readQuoted_spec|].
  intros [s r] _. apply IH.
Qed.

Lemma appendStrings_returns buf strs : returns (appendStrings buf strs).
Proof.
  revert buf. induction strs as [|s strs IH]; intros buf; cbn [appendStrings]; [done|].
  case_bool_decide; [done|apply IH].
Qed.

Lemma txtChunks_returns fuel p buf : length p <= fuel -> returns (txtChunks fuel p buf).
Proof.
  revert p buf. induction fuel as [|fuel IH]; intros p buf Hp; cbn [txtChunks].
  - rewrite bool_decide_eq_false_2 by lia. done.
  - case_bool_decide; [|done]. apply IH. rewrite length_drop. lia.
Qed.

Lemma txtParts_returns parts buf : returns (txtParts parts buf).
Proof.
  revert buf. induction parts as [|p parts IH]; intros buf; cbn [txtParts]; [done|].
  apply go_bind_returns; [by apply txtChunks_returns|]. intros b _. apply IH.
Qed.

Lemma pack_name_returns buf name : returns (pack_name buf name).
Proof. unfold pack_name. by destruct (PackName buf name) as [b [e|]]. Qed.

Lemma parseUint_returns s bits : returns (parseUint s bits).
Proof. unfold parseUint. by destruct (ParseUint s bits). Qed.

#[export] Hint Resolve parseQuotedStrings_returns takeQuoted_returns appendStrings_returns
  txtParts_returns pack_name_returns parseUint_returns : go.
#[export] Hint Extern 1 (returns (fail _)) => exact I : go.
#[export] Hint Extern 1 (returns (takeQuoted _ _)) => apply takeQuoted_returns : go.

(** Walks through the body of an encoder. *)
Ltac build_step :=
  match goal with
  | |- returns (go_bind _ _) => apply go_bind_returns; [auto with go|intros ? ?]
  | |- returns (let (_, _) := ?p in _) => destruct p
  | |- returns (if _ then _ else _) => go_step
  | |- returns (match ?x with _ => _ end) => destruct x eqn:?
  end.
Ltac build_returns := repeat (build_step; auto with go; try done).

Lemma buildTXT_returns text : returns (buildTXT text).
Proof. unfold buildTXT. build_returns. Qed.

Lemma buildCAA_returns text : returns (buildCAA text).
Proof.
  unfold buildCAA. build_returns.
  all: match goal with
       | H : parseQuotedStrings ?x = _ |- _ =>
         pose proof (parseQuotedStrings_returns x) as Hr; by rewrite H in Hr
       end.
Qed.

Lemma buildHINFO_returns text : returns (buildHINFO text).
Proof.
  unfold buildHINFO. pose proof (takeQuoted_returns 2 (TrimSpace text) []) as Hr.
  unfold takeQuoted. build_returns.
Qed.

Lemma BuildRData_returns t text : returns (BuildRData t text).
Proof.
  unfold BuildRData. repeat go_step; auto using buildTXT_returns, buildCAA_returns, buildHINFO_returns.
  all: unfold buildA, buildAAAA, buildName, buildMX, buildSRV, buildNAPTR, buildSSHFP, buildTLSA,
    buildDS, buildDNSKEY; build_returns.
  done.
Qed.

(** [BuildRData] comes back on every type and every text, with the wire data or with
    an error: the loops over quoted strings and over TXT pieces always end. *)
Theorem BuildRData_total t text : returns (BuildRData t text).
Proof. apply BuildRData_returns. Qed.

(** A text every supported type accepts. *)
Definition quoted (s : gostring) : gostring := [zb 34] ++ s ++ [zb 34].

Definition sample_texts : list (Z * gostring) :=
  [ (TypeA, lit "192.0.2.1"); (TypeAAAA, lit "2001:db8::1"); (TypeNS, lit "ns1.example.");
    (TypeCNAME, lit "www.example"); (TypeDNAME, lit "example.org"); (TypePTR, lit "host.example");
    (TypeMX, lit "10 mail.example."); (TypeTXT, lit "v=spf1 -all"); (TypeSRV, lit "10 5 5060 sip.example");
    (TypeCAA, lit "0 issue " ++ quoted (lit "letsencrypt.org"));
    (TypeNAPTR, lit "100 10 " ++ quoted (lit "u") ++ lit " " ++ quoted (lit "E2U+sip") ++ lit " " ++
                quoted (lit "!^.*$!sip:x@example.com!") ++ lit " .");
    (TypeSSHFP, lit "1 2 00ff"); (TypeTLSA, lit "3 1 1 00FF"); (TypeDS, lit "12345 13 2 c0 de");
    (TypeDNSKEY, lit "257 3 13 aGVs bG8="); (TypeHINFO, quoted (lit "amd64") ++ quoted (lit "linux")) ].

Definition is_Ok {E A} (c : go E A) : bool := match c with Ok _ => true | _ => false end.

Lemma sample_texts_accepted :
  forallb (fun '(t, text) => is_Ok (BuildRData t text)) sample_texts = true.
Proof. vm_compute. reflexivity. Qed.

Lemma assoc_in {K V} `{EqDecision K} (k : K) (v : V) l : assoc k l = Some v -> (k, v) ∈ l.
Proof.
  induction l as [|[k' v'] l IH]; cbn; [done|]. case_bool_decide; [intros [= ->]; subst; by left|].
  intros Hk. right. by apply IH.
Qed.

Lemma supported_has_sample t : SupportedType t = true -> is_Some (assoc t sample_texts).
Proof.
  unfold SupportedType. intros Hs%bool_decide_eq_true.
  repeat (apply elem_of_cons in Hs as [Hs|Hs]; [rewrite Hs; eexists; vm_compute; reflexivity|]).
  by apply not_elem_of_nil in Hs.
Qed.

(** [SupportedType] and the case analysis of [BuildRData] agree: an unsupported type is
    refused whatever the text, and every supported type accepts some text. *)
Theorem SupportedType_BuildRData t :
  (SupportedType t = false -> forall text, BuildRData t text = Err (UnsupportedType t, [])) /\
  (SupportedType t = true -> exists text wire, BuildRData t text = Ok wire).
Proof.
  split.
  - unfold SupportedType. intros Hs%bool_decide_eq_false text. unfold BuildRData.
    repeat match goal with
    | |- context [(t =? ?k)%Z] =>
      destruct (Z.eqb_spec t k) as [-> |]; [exfalso; apply Hs; set_solver|]
    end.
    rewrite bool_decide_eq_false_2; [done|]. intros Hin. apply Hs. set_solver.
  - intros [text Ht]%supported_has_sample. exists text. apply assoc_in in Ht.
    pose proof (proj1 (forallb_Forall _ _) sample_texts_accepted) as HF.
    rewrite Forall_forall in HF. specialize (HF _ Ht). cbn in HF.
    destruct (BuildRData t text) as [wire| | |]; [by exists wire|done..].
Qed.

(** ** Names inside record data *)

(** A name without its trailing dot; "." for the root. *)
Definition plain_name (n : gostring) : gostring :=
  match TrimSuffix n (lit ".") with [] => lit "." | m => m end.

Lemma pack_name_Ok buf name w : pack_name buf name = Ok w -> w = buf ++ name_bytes name /\ packable name.
Proof.
  unfold pack_name. destruct (decide (packable name)) as [Hp|Hp].
  - rewrite PackName_packable by done. intros [= <-]. unfold name_bytes. by rewrite decide_True.
  - by destruct (PackName_not_packable buf name Hp) as (b & e & ->).
Qed.

Lemma name_at_name_bytes pre name :
  packable name -> name_at (pre ++ name_bytes name) (length pre) = plain_name name.
Proof.
  intros Hp. unfold name_at. rewrite <- (app_nil_r (name_bytes name)).
  rewrite ParseName_name_bytes by done. apply name_text_labels_of.
Qed.

(** The domain name in the text of a record that carries one. *)
Definition target_text (t : Z) (text : gostring) : gostring :=
  let text := TrimSpace text in
  if bool_decide (t ∈ [TypeNS; TypeCNAME; TypeDNAME; TypePTR]) then text
  else default [] (last (Fields text)).

Lemma BuildRData_name_case t text :
  t ∈ [TypeNS; TypeCNAME; TypeDNAME; TypePTR] -> BuildRData t text = buildName (TrimSpace text).
Proof. intros H. by repeat (apply elem_of_cons in H as [-> |H]; [reflexivity|]); apply not_elem_of_nil in H. Qed.

Lemma go_bind_Ok_inv {E A B} (c : go E A) (k : A -> go E B) b :
  go_bind c k = Ok b -> exists a, c = Ok a /\ k a = Ok b.
Proof. apply go_bind_Ok. Qed.

Ltac inv_bind :=
  repeat match goal with
  | H : go_bind _ _ = Ok _ |- _ => apply go_bind_Ok_inv in H as (? & ? & H)
  end.

Lemma buildMX_Ok text w :
  buildMX text = Ok w ->
  exists p f1, length p = 2 /\ default [] (last (Fields text)) = f1 /\ packable f1 /\ w = p ++ name_bytes f1.
Proof.
  unfold buildMX. destruct (Fields text) as [|f0 [|f1 [|]]]; try done. intros H. inv_bind.
  apply pack_name_Ok in H as [-> Hp]. by exists (put16 (u16 x)), f1.
Qed.

Lemma buildSRV_Ok text w :
  buildSRV text = Ok w ->
  exists p f3, length p = 6 /\ default [] (last (Fields text)) = f3 /\ packable f3 /\ w = p ++ name_bytes f3.
Proof.
  unfold buildSRV. destruct (Fields text) as [|f0 [|f1 [|f2 [|f3 [|]]]]]; try done. intros H. inv_bind.
  apply pack_name_Ok in H as [-> Hp]. by exists ((put16 (u16 x) ++ put16 (u16 x0)) ++ put16 (u16 x1)), f3.
Qed.

(** The handler reads back the name an operator wrote: for NS, CNAME, DNAME, PTR, MX
    and SRV records, [RDataNames] of the encoded data is the name in the record's text,
    without its trailing dot. *)
Theorem RDataNames_BuildRData t text wire :
  t ∈ [TypeNS; TypeCNAME; TypeDNAME; TypePTR; TypeMX; TypeSRV] ->
  BuildRData t text = Ok wire ->
  RDataNames t wire = plain_name (target_text t text).
Proof.
  intros Ht H. destruct (decide (t ∈ [TypeNS; TypeCNAME; TypeDNAME; TypePTR])) as [Hn|Hn].
  - unfold RDataNames, target_text. rewrite !bool_decide_eq_true_2 by done.
    rewrite BuildRData_name_case in H by done. unfold buildName in H.
    destruct (bool_decide _ || _); [done|]. apply pack_name_Ok in H as [-> Hp].
    exact (name_at_name_bytes [] _ Hp).
  - unfold RDataNames, target_text. rewrite !(bool_decide_eq_false_2 _ Hn).
    assert (t = TypeMX \/ t = TypeSRV) as [-> | ->] by set_solver.
    + apply buildMX_Ok in H as (p & f1 & Hl & -> & Hp & ->).
      pose proof (length_name_bytes f1). cbn [Z.eqb Pos.eqb TypeMX].
      rewrite bool_decide_eq_true_2 by (rewrite length_app; lia). rewrite <- Hl.
      by apply name_at_name_bytes.
    + apply buildSRV_Ok in H as (p & f3 & Hl & -> & Hp & ->).
      pose proof (length_name_bytes f3). cbn [Z.eqb Pos.eqb TypeMX TypeSRV].
      rewrite bool_decide_eq_true_2 by (rewrite length_app; lia). rewrite <- Hl.
      by apply name_at_name_bytes.
Qed.

Lemma RDataNames_BuildRData_witness :
  RDataNames TypeMX (put16 10 ++ name_bytes (lit "mail.example.com.")) = lit "mail.example.com".
Proof.
  exact (RDataNames_BuildRData TypeMX (lit " 10  mail.example.com. ")
    (put16 10 ++ name_bytes (lit "mail.example.com."))
    ltac:(set_solver) ltac:(vm_compute; reflexivity)).
Defined.

(** ** TXT *)

Lemma txtChunks_strings fuel p buf w :
  txtChunks fuel p buf = Ok w ->
  exists strs, w = buf ++ encode_labels strs /\ Forall (fun s => length s <= 255) strs /\
    mjoin strs = p /\ strs <> [].
Proof.
  revert p buf. induction fuel as [|fuel IH]; intros p buf; cbn [txtChunks]; case_bool_decide; [done| | |].
  1, 3: intros [= <-]; exists [p]; rewrite encode_labels_cons, app_nil_r, <- app_assoc;
    split; [done|]; split; [constructor; [lia|constructor]|]; split; [apply app_nil_r|done].
  intros (strs & -> & Hs & Hj & _)%IH. exists (take 255 p :: strs).
  assert (Hl : length (take 255 p) = 255) by (rewrite length_take; lia).
  rewrite encode_labels_cons, Hl, mjoin_cons, Hj, take_drop, <- !app_assoc.
  repeat split; [constructor; [lia|done]|done].
Qed.

Lemma txtChunks_no_error fuel p buf e : txtChunks fuel p buf <> Err e.
Proof.
  revert p buf. induction fuel as [|fuel IH]; intros p buf; cbn [txtChunks]; case_bool_decide; done.
Qed.

Lemma encode_labels_app l1 l2 : encode_labels (l1 ++ l2) = encode_labels l1 ++ encode_labels l2.
Proof.
  induction l1 as [|l l1 IH]; [done|]. cbn [app]. rewrite !encode_labels_cons, IH. by rewrite app_assoc.
Qed.

Lemma mjoin_app {A} (l1 l2 : list (list A)) : mjoin (l1 ++ l2) = mjoin l1 ++ mjoin l2.
Proof.
  induction l1 as [|l l1 IH]; [done|]. cbn [app]. rewrite !mjoin_cons, IH. by rewrite app_assoc.
Qed.

Lemma txtParts_strings parts buf w :
  txtParts parts buf = Ok w ->
  exists strs, w = buf ++ encode_labels strs /\ Forall (fun s => length s <= 255) strs /\
    mjoin strs = mjoin parts.
Proof.
  revert buf. induction parts as [|p parts IH]; intros buf; cbn [txtParts].
  - intros [= <-]. exists []. by rewrite app_nil_r.
  - intros H. inv_bind. match goal with H1 : txtChunks _ _ _ = Ok _ |- _ =>
      apply txtChunks_strings in H1 as (s1 & -> & Hs1 & Hj1 & _) end.
    apply IH in H as (s2 & -> & Hs2 & Hj2). exists (s1 ++ s2).
    rewrite encode_labels_app, mjoin_app, mjoin_cons, Hj1, Hj2, app_assoc.
    repeat split. by apply Forall_app.
Qed.

Lemma buildTXT_strings text w :
  buildTXT text = Ok w ->
  exists parts strs,
    (if HasPrefix text [zb 34] then parseQuotedStrings text else Ok [text]) = Ok parts /\
    w = encode_labels strs /\ strs <> [] /\ Forall (fun s => length s <= 255) strs /\
    mjoin strs = mjoin parts.
Proof.
  unfold buildTXT. intros H. apply go_bind_Ok_inv in H as (parts & Hp & H).
  apply go_bind_Ok_inv in H as (b & Hb & H). exists parts.
  apply txtParts_strings in Hb as (strs & -> & Hs & Hj). cbn [app] in *.
  destruct strs as [|s strs].
  - exists [[]]. rewrite <- Hj. injection H as <-. repeat split; [done|done|].
    constructor; [cbn; lia|constructor].
  - exists (s :: strs). rewrite bool_decide_eq_false_2 in H by done. injection H as <-. by repeat split.
Qed.

(** *** Quoting *)

(** The text form of an arbitrary byte string: quotes and backslashes escaped. *)
Definition escape (s : bytes) : gostring :=
  mjoin ((fun c => if bool_decide (c = zb 34 \/ c = zb 92) then [zb 92; c] else [c]) <$> s).

Lemma readQuoted_loop_escape s sb rest :
  readQuoted_loop (escape s ++ zb 34 :: rest) sb = Ok (sb ++ s, rest).
Proof.
  revert sb. induction s as [|c s IH]; intros sb.
  - cbn. by rewrite app_nil_r.
  - unfold escape. rewrite fmap_cons, mjoin_cons, <- app_assoc. fold (escape s).
    case_bool_decide as Hc.
    + cbn [app]. set (tail := escape s ++ zb 34 :: rest) in *.
      assert (Hstep : readQuoted_loop (zb 92 :: c :: tail) sb = readQuoted_loop tail (sb ++ [c])).
      { cbn [readQuoted_loop]. rewrite (bool_decide_eq_false_2 (zb 92 = zb 34)) by done.
        rewrite (bool_decide_eq_true_2 (zb 92 = zb 92)) by done.
        assert (isDigit c = false) as -> by (by destruct Hc as [-> | ->]).
        by destruct tail as [|e [|f t]]. }
      rewrite Hstep, IH. by rewrite <- app_assoc.
    + cbn [app readQuoted_loop].
      rewrite (bool_decide_eq_false_2 (c = zb 34)), (bool_decide_eq_false_2 (c = zb 92)) by tauto.
      rewrite IH. by rewrite <- app_assoc.
Qed.

Lemma readQuoted_escape s rest : readQuoted (zb 34 :: escape s ++ zb 34 :: rest) = Ok (s, rest).
Proof.
  cbn [readQuoted]. rewrite bool_decide_eq_false_2 by tauto. by rewrite readQuoted_loop_escape.
Qed.

Lemma TrimSpace_quoted s : TrimSpace (quoted s) = quoted s.
Proof.
  apply (TrimSpace_id _ (zb 34) (zb 34) (s ++ [zb 34]) (zb 34 :: s)); [done..|reflexivity|reflexivity].
Qed.

Lemma parseQuotedStrings_escape s : parseQuotedStrings (quoted (escape s)) = Ok [s].
Proof.
  unfold parseQuotedStrings. rewrite TrimSpace_quoted.
  replace (quoted (escape s)) with (zb 34 :: escape s ++ [zb 34]) by done.
  cbn [length parseQuotedStrings_loop]. rewrite bool_decide_eq_false_2 by done.
  rewrite readQuoted_escape. cbn [go_bind app]. change (TrimSpace []) with (@nil ascii).
  by destruct (length (escape s ++ [zb 34])).
Qed.


(** ** Addresses *)

Lemma parseIPv4Fields_length s prev val dl fields b :
  length fields <= 3 -> parseIPv4Fields s prev val dl fields = Some b -> length b = 4.
Proof.
  revert prev val dl fields. induction s as [|c s IH]; intros prev val dl fields Hf; cbn [parseIPv4Fields].
  - case_bool_decide; [done|]. intros [= <-]. rewrite length_app. cbn. lia.
  - destruct (digit_val c) as [d|].
    + case_bool_decide; [done|]. destruct (255 <? _)%Z; [done|]. by apply IH.
    + case_bool_decide; [|done]. case_bool_decide; [done|]. case_bool_decide; [done|].
      apply IH. rewrite length_app. cbn. lia.
Qed.

Lemma parseIPv6_loop_length k ip e s ip' e' s' :
  length ip + 2 * k = 16 -> parseIPv6_loop k ip e s = Some (ip', e', s') -> length ip' <= 16.
Proof.
  revert ip e s. induction k as [|k IH]; intros ip e s Hl; cbn [parseIPv6_loop].
  - intros [= <- _ _]. lia.
  - destruct (scan_hex s 0 0) as [[[[|off] acc] rest]|]; [done| |done].
    destruct rest as [|c rest].
    { intros [= <- _ _]. rewrite length_app. cbn. lia. }
    case_bool_decide.
    { case_bool_decide; [done|]. case_bool_decide as H16; [done|].
      destruct (parseIPv4Fields s None 0 0 []) as [b|] eqn:Hb; [|done]. intros [= <- _ _].
      apply parseIPv4Fields_length in Hb; [|cbn; lia]. rewrite length_app. lia. }
    case_bool_decide; [done|]. destruct rest as [|d rest2]; [done|].
    case_bool_decide; [|apply IH; rewrite length_app; cbn; lia].
    destruct e as [|]; [done|]. destruct rest2 as [|x rest2].
    + intros [= <- _ _]. rewrite length_app. cbn. lia.
    + apply IH. rewrite length_app. cbn. lia.
Qed.

Lemma parseIPv6_length s a : parseIPv6 s = Some a -> Is6 a = true /\ length (AsSlice a) = 16.
Proof.
  unfold parseIPv6. intros H.
  repeat match type of H with
  | match ?x with _ => _ end = _ => destruct x eqn:?; try done; simplify_eq
  | (let '(_, _) := ?x in _) = _ => destruct x eqn:?
  end; cbn [Is6 AsSlice]; split; try done.
  all: match goal with
       | H1 : parseIPv6_loop _ _ _ _ = Some _ |- _ =>
         apply parseIPv6_loop_length in H1; [|reflexivity]
       end.
  all: repeat match goal with H1 : bool_decide _ = _ |- _ => apply bool_decide_eq_true in H1 || apply bool_decide_eq_false in H1 end.
  - rewrite !length_app, length_replicate, length_take, length_drop. lia.
  - lia.
Qed.

Lemma ParseAddr_length s a :
  ParseAddr s = Some a -> length (AsSlice a) = if Is4 a then 4 else 16.
Proof.
  unfold ParseAddr. destruct (IndexAny s _) as [i|]; [|done]. destruct (s !! i) as [c|]; [|done].
  case_bool_decide.
  - destruct (parseIPv4Fields s None 0 0 []) as [b|] eqn:Hb; [|done]. intros [= <-]. cbn.
    apply parseIPv4Fields_length in Hb; [done|cbn; lia].
  - case_bool_decide; [|done]. intros [H6 Hl]%parseIPv6_length. by destruct a.
Qed.

(** Address data has the length its type demands: whatever text [BuildRData] accepts,
    an A record is 4 bytes and an AAAA record 16. *)
Theorem BuildRData_address_length text wire :
  (BuildRData TypeA text = Ok wire -> length wire = 4) /\
  (BuildRData TypeAAAA text = Ok wire -> length wire = 16).
Proof.
  change (BuildRData TypeA text) with (buildA (TrimSpace text)).
  change (BuildRData TypeAAAA text) with (buildAAAA (TrimSpace text)).
  unfold buildA, buildAAAA. destruct (ParseAddr (TrimSpace text)) as [a|] eqn:Ha; [|done].
  apply ParseAddr_length in Ha. split.
  - destruct (Is4 a); cbn [negb]; [|done]. by intros [= <-].
  - destruct a as [b|b z]; cbn [Is6 negb orb]; [done|].
    destruct (Is4In6 (Addr6 b z)); [done|]. by intros [= <-].
Qed.

(** *** Dotted quads *)

Definition octets : list Z := Z.of_nat <$> seq 0 256.

Lemma octet_in n : (0 <= n < 256)%Z -> n ∈ octets.
Proof.
  intros H. unfold octets. apply list_elem_of_fmap. exists (Z.to_nat n).
  split; [lia|]. apply list_elem_of_In, in_seq. lia.
Qed.

(** What the scan of one octet leaves behind, checked on every octet. *)
Fixpoint scan_octet (s : gostring) (val : Z) (dl : nat) : option (Z * nat) :=
  match s with
  | [] => Some (val, dl)
  | c :: s' =>
    match digit_val c with
    | Some d =>
      if bool_decide (dl = 1 /\ val = 0%Z) then None
      else if (255 <? val * 10 + d)%Z then None else scan_octet s' (val * 10 + d) (S dl)
    | None => None
    end
  end.

Lemma scan_octet_all :
  forallb (fun n => match scan_octet (Itoa n) 0 0 with Some (v, _) => (v =? n)%Z | None => false end) octets = true.
Proof. vm_compute. reflexivity. Qed.

Lemma scan_octet_parse s rest prev val dl fields v dl' :
  scan_octet s val dl = Some (v, dl') ->
  parseIPv4Fields (s ++ rest) prev val dl fields =
  parseIPv4Fields rest (match last s with Some c => Some c | None => prev end) v dl' fields.
Proof.
  revert prev val dl. induction s as [|c s IH]; intros prev val dl; cbn [scan_octet].
  - by intros [= <- <-].
  - destruct (digit_val c) as [d|] eqn:Hd; [|done]. case_bool_decide as H0; [done|].
    destruct (255 <? val * 10 + d)%Z eqn:H255; [done|]. intros Hs.
    cbn [app parseIPv4Fields]. rewrite Hd, bool_decide_eq_false_2, H255 by done.
    rewrite (IH (Some c) _ _ Hs). f_equal. rewrite last_cons. by destruct (last s).
Qed.

Lemma digits_all_graphic fuel n acc :
  Forall (fun c => graphic c = true /\ isDigit c = true) acc ->
  Forall (fun c => graphic c = true /\ isDigit c = true) (format_digits fuel n acc).
Proof.
  revert n acc. induction fuel as [|fuel IH]; intros n acc H; [done|]. cbn [format_digits].
  assert (Hd : Forall (fun c => graphic c = true /\ isDigit c = true) (zb (48 + n mod 10) :: acc)).
  { constructor; [|done]. pose proof (Z.mod_pos_bound n 10 ltac:(lia)). unfold graphic, isDigit.
    rewrite bz_zb_small by lia. split; apply andb_true_iff; split; apply Z.leb_le; lia. }
  destruct (n <? 10)%Z; [done|by apply IH].
Qed.

Lemma Itoa_octet n :
  (0 <= n < 256)%Z ->
  Itoa n <> [] /\ Forall (fun c => graphic c = true /\ isDigit c = true) (Itoa n) /\
  exists dl, scan_octet (Itoa n) 0 0 = Some (n, dl).
Proof.
  intros H. unfold Itoa, FormatInt. rewrite (proj2 (Z.ltb_ge _ _)) by lia.
  split; [apply format_digits_not_nil; lia|]. split; [by apply digits_all_graphic|].
  pose proof (proj1 (forallb_Forall _ _) scan_octet_all) as HF. rewrite Forall_forall in HF.
  specialize (HF n (octet_in n H)). cbn beta in HF. unfold Itoa, FormatInt in HF.
  rewrite (proj2 (Z.ltb_ge _ _)) in HF by lia.
  destruct (scan_octet _ 0 0) as [[v dl]|]; [|done]. apply Z.eqb_eq in HF as ->. by exists dl.
Qed.

(** One octet and the dot behind it. *)
Lemma parse_octet n c rest prev fields :
  (0 <= n < 256)%Z -> length fields < 3 ->
  parseIPv4Fields (Itoa n ++ "."%char :: c :: rest) prev 0 0 fields =
  parseIPv4Fields (c :: rest) (Some "."%char) 0 0 (fields ++ [zb n]).
Proof.
  intros Hn Hf. destruct (Itoa_octet n Hn) as (Hne & Hg & dl & Hs).
  rewrite (scan_octet_parse _ _ _ _ _ _ _ _ Hs).
  destruct (exists_last Hne) as (l & d & Hl). rewrite Hl, last_snoc.
  cbn [parseIPv4Fields]. change (digit_val "."%char) with (@None Z).
  rewrite (bool_decide_eq_true_2 ("."%char = "."%char)) by done.
  rewrite bool_decide_eq_false_2.
  - rewrite bool_decide_eq_false_2 by lia. done.
  - rewrite Hl, Forall_app, Forall_singleton in Hg. destruct Hg as [_ [_ Hd]].
    intros [?|[?|[= ->]]]; done.
Qed.

Definition dotted (a b c d : Z) : gostring :=
  Itoa a ++ "."%char :: Itoa b ++ "."%char :: Itoa c ++ "."%char :: Itoa d.

Lemma parse_dotted a b c d :
  (0 <= a < 256)%Z -> (0 <= b < 256)%Z -> (0 <= c < 256)%Z -> (0 <= d < 256)%Z ->
  parseIPv4Fields (dotted a b c d) None 0 0 [] = Some [zb a; zb b; zb c; zb d].
Proof.
  intros Ha Hb Hc Hd. unfold dotted.
  destruct (Itoa_octet b Hb) as (Hnb & _). destruct (Itoa_octet c Hc) as (Hnc & _).
  destruct (Itoa_octet d Hd) as (Hnd & _ & dl & Hs).
  destruct (Itoa b) as [|xb lb] eqn:Eb; [done|]. destruct (Itoa c) as [|xc lc] eqn:Ec; [done|].
  destruct (Itoa d) as [|xd ld] eqn:Ed; [done|]. cbn [app].
  rewrite parse_octet by (done || cbn; lia). rewrite app_comm_cons, <- Eb.
  rewrite parse_octet by (done || cbn; lia). rewrite app_comm_cons, <- Ec.
  rewrite parse_octet by (done || cbn; lia). rewrite <- (app_nil_r (xd :: ld)).
  by rewrite (scan_octet_parse _ _ _ _ _ _ _ _ Hs).
Qed.

Lemma IndexFunc_app_false f s c r :
  Forall (fun x => f x = false) s -> f c = true -> IndexFunc f (s ++ c :: r) = Some (length s).
Proof. induction 1 as [|x s Hx H IH]; intros Hc; cbn; [by rewrite Hc|]. by rewrite Hx, IH. Qed.

(** Every IPv4 address, in dotted-quad notation, is encoded as its four bytes. *)
Theorem A_roundtrip a b c d :
  (0 <= a < 256)%Z -> (0 <= b < 256)%Z -> (0 <= c < 256)%Z -> (0 <= d < 256)%Z ->
  BuildRData TypeA (dotted a b c d) = Ok [zb a; zb b; zb c; zb d].
Proof.
  intros Ha Hb Hc Hd. change (BuildRData TypeA (dotted a b c d)) with (buildA (TrimSpace (dotted a b c d))).
  destruct (Itoa_octet a Ha) as (Hna & Hga & _). destruct (Itoa_octet d Hd) as (Hnd & Hgd & _).
  assert (TrimSpace (dotted a b c d) = dotted a b c d) as ->.
  { destruct (Itoa a) as [|x la] eqn:Ea; [done|]. destruct (exists_last Hnd) as (ld & y & Ed).
    rewrite Ed, Forall_app, Forall_singleton in Hgd. apply Forall_cons in Hga as [[Hx _] _].
    destruct Hgd as [_ [Hy _]]. eapply TrimSpace_id; [| |exact Hx|exact Hy]; unfold dotted.
    - by rewrite Ea.
    - rewrite Ed, !app_comm_cons, !app_assoc. done. }
  unfold buildA, ParseAddr.
  assert (IndexAny (dotted a b c d) (lit ".:%") = Some (length (Itoa a))) as ->.
  { apply IndexFunc_app_false; [|reflexivity]. eapply Forall_impl; [exact Hga|].
    intros x [_ Hx]. apply bool_decide_eq_false. intros Hin.
    repeat (apply elem_of_cons in Hin as [-> |Hin]; [done|]). by apply not_elem_of_nil in Hin. }
  unfold dotted at 1. rewrite lookup_app_r, Nat.sub_diag by lia. cbn [lookup list_lookup].
  rewrite bool_decide_eq_true_2 by done. by rewrite parse_dotted.
Qed.

Lemma A_roundtrip_witness :
  BuildRData TypeA (dotted 192 0 2 1) = Ok [zb 192; zb 0; zb 2; zb 1].
Proof. apply (A_roundtrip 192 0 2 1); lia. Defined.

(** ** What the error results carry *)

(** An error of [BuildRData] can come with data: a name with a bad label behind a good
    one is reported as an error next to the labels packed before it. *)
Theorem BuildRData_partial_on_error :
  BuildRData TypeNS (lit "ns1..example") =
  Err (PackErr PackEmptyLabel, [zb 3] ++ lit "ns1").
Proof. vm_compute. reflexivity. Qed.

(** The text of an AAAA record may carry an IPv6 zone, which is dropped: the record
    fe80::1%eth0 is accepted and served as fe80::1. *)
Theorem AAAA_drops_zone :
  BuildRData TypeAAAA (lit "fe80::1%eth0") = BuildRData TypeAAAA (lit "fe80::1") /\
  is_Ok (BuildRData TypeAAAA (lit "fe80::1%eth0")) = true.
Proof. split; vm_compute; reflexivity. Qed.
