(* ===== verification/Store.v ===== *)
(** * The record store (src/internal/store/store.go, zone.go, record.go, src/db/schema.sql)

    The two tables are lists of rows and every SQL statement of the package is a function
    on them.  What PostgreSQL brings along is a parameter: [md5], the default collation
    and the order of the rows of a query without ORDER BY ([Postgres]), and for each call
    the clock and the failures of its statements ([Env]).  A transaction is one step: both
    writing transactions update the zone's row and hold its lock until they end. *)

From Stdlib Require Import ZArith Lia Ascii String.
From stdpp Require Import base list strings.
From S2P Require Import Prelude GoStrings RData.

(** ** Data *)
Record Zone := mkZone {
  zName : gostring; zPrimaryNS : gostring; zAdminEmail : gostring; zSerial : Z;
  zRefresh : Z; zRetry : Z; zExpire : Z; zMinTTL : Z; zCreatedAt : Z; zUpdatedAt : Z;
}.

(** [rWire] is nil when it is empty. *)
Record Record_ := mkRecord {
  rID : Z; rZone : gostring; rName : gostring; rType : gostring; rTTL : Z; rRData : gostring;
  rCreatedAt : Z; rWire : bytes; rWireErr : option rdataError;
}.

Record NameSet := mkNameSet { Records : list Record_; HasChildren : bool }.

Definition Exists (n : NameSet) : bool := bool_decide (0 < length (Records n)) || HasChildren n.

(** An encoder returns a slice and an error, as [BuildRData] does. *)
Definition Encoder : Type := gostring -> gostring -> rdata.

Record Store := mkStore { encode : option Encoder }.

(** ** Names *)
Section Names.
Context `{GoUnicode}.

Definition NormalizeZone (name : gostring) : gostring :=
  TrimSuffix (ToLower (TrimSpace name)) (lit ".").

Definition NormalizeName (zone name : gostring) : gostring :=
  let name := TrimSuffix (ToLower (TrimSpace name)) (lit ".") in
  if bool_decide (name = []) || bool_decide (name = lit "@") || bool_decide (name = zone) then zone
  else if HasSuffix name (lit "." ++ zone) then name
  else name ++ lit "." ++ zone.

Definition NormalizeType (t : gostring) : gostring := ToUpper (TrimSpace t).
End Names.

(** The swaps of [reverseName] reverse the slice of labels. *)
Definition reverseName (name : gostring) : gostring :=
  Join (reverse (Split name "."%char)) (lit ".").

(** ** The tables *)
Record recordRow := mkRow {
  rowID : Z; rowZone : gostring; rowName : gostring; rowNameRev : gostring; rowType : gostring;
  rowTTL : Z; rowRData : gostring; rowCreatedAt : Z;
}.

(** [nextID] is the identity sequence of the records table, which no rollback resets. *)
Record DB := mkDB { zones : list Zone; records : list recordRow; nextID : Z }.

Inductive dbError :=
| PgError (code : gostring)
| ErrNoRows
| Canceled
| DeadlineExceeded
| OtherError.

Inductive conflict :=
| ZoneAlreadyExists (name : gostring)
| CNAMEAtApex
| CNAMECannotCoexist (name : gostring)
| NameHasCNAME (name : gostring).

Inductive storeError :=
| ErrNotFound
| ErrConflict (why : conflict)
| ZoneNameRequired
| InvalidPageToken
| DBError (e : dbError).

#[export] Instance Zone_eq_dec : EqDecision Zone.
Proof. solve_decision. Defined.
#[export] Instance recordRow_eq_dec : EqDecision recordRow.
Proof. solve_decision. Defined.
#[export] Instance packNameError_eq_dec : EqDecision Message.packNameError.
Proof. solve_decision. Defined.
#[export] Instance rdataError_eq_dec : EqDecision rdataError.
Proof. solve_decision. Defined.
#[export] Instance Record_eq_dec : EqDecision Record_.
Proof. solve_decision. Defined.
#[export] Instance NameSet_eq_dec : EqDecision NameSet.
Proof. solve_decision. Defined.
#[export] Instance dbError_eq_dec : EqDecision dbError.
Proof. solve_decision. Defined.
#[export] Instance conflict_eq_dec : EqDecision conflict.
Proof. solve_decision. Defined.
#[export] Instance storeError_eq_dec : EqDecision storeError.
Proof. solve_decision. Defined.

(** ** PostgreSQL *)

(** [text_lt] is the order of the database's collation, [unordered] the order in which a
    query without ORDER BY returns its rows. *)
Class Postgres := {
  md5 : gostring -> gostring;
  text_lt : gostring -> gostring -> bool;
  unordered : list recordRow -> list recordRow;
}.

Class PostgresLaws `{Postgres} : Prop := {
  unordered_perm rows : unordered rows ≡ₚ rows;
  text_lt_irrefl s : text_lt s s = false;
  text_lt_trans s1 s2 s3 : text_lt s1 s2 = true -> text_lt s2 s3 = true -> text_lt s1 s3 = true;
  text_lt_total s1 s2 : s1 = s2 \/ text_lt s1 s2 = true \/ text_lt s2 s1 = true;
  text_lt_empty s : s <> [] -> text_lt [] s = true;
}.

(** What one call meets: [now()], [extract(epoch from now())::bigint], the failure of its
    n-th statement, and whether a COMMIT whose answer was lost had taken effect. *)
Record Env := mkEnv {
  now : Z;
  now_epoch : Z;
  fault : nat -> option dbError;
  commit_applied : bool;
}.

(** Byte order, which is COLLATE "C". *)
Fixpoint bytes_lt (s t : gostring) : bool :=
  match s, t with
  | _, [] => false
  | [], _ :: _ => true
  | a :: s', b :: t' => (bz a <? bz b)%Z || (bz a =? bz b)%Z && bytes_lt s' t'
  end.

(** [length(text)] counts characters: the bytes that do not continue one. *)
Definition char_length (s : gostring) : nat :=
  length (filter (fun c => Z.land (bz c) 0xC0 <> 0x80%Z) s).

(** ORDER BY a key, as an insertion sort. *)
Fixpoint insert_by {A} (lt : A -> A -> bool) (x : A) (l : list A) : list A :=
  match l with
  | [] => [x]
  | y :: l' => if lt y x then y :: insert_by lt x l' else x :: l
  end.
Definition order_by {A} (lt : A -> A -> bool) (l : list A) : list A := foldr (insert_by lt) [] l.

(** LIMIT n; a negative one is an error. *)
Definition limit_rows {A} (n : Z) (l : list A) : go dbError (list A) :=
  if (n <? 0)%Z then Err (PgError (lit "2201W")) else Ok (take (Z.to_nat n) l).

(** The n-th statement of a call, with result [r] unless it fails. *)
Definition stmt {A} (e : Env) (n : nat) (r : go dbError A) : go storeError A :=
  match fault e n with
  | Some x => Err (DBError x)
  | None => go_wrap DBError r
  end.

Definition set_zones (d : DB) (zs : list Zone) : DB := mkDB zs (records d) (nextID d).
Definition set_records (d : DB) (rs : list recordRow) : DB := mkDB (zones d) rs (nextID d).

(** A statement outside a transaction, with its result and its effect.  The answer can be
    lost after the statement took effect. *)
Definition autocommit {A} (e : Env) (r : go dbError (A * DB)) : st DB storeError A :=
  fun d =>
    match r, fault e 0 with
    | Ok (a, d'), None => (Ok a, d')
    | Ok (_, d'), Some x => (Err (DBError x), if commit_applied e then d' else d)
    | Err x, None => (Err (DBError x), d)
    | Err _, Some x => (Err (DBError x), d)
    | Panic, _ => (Panic, d)
    | NoFuel, _ => (NoFuel, d)
    end.

(** Begin, the body, and Commit, or the deferred Rollback where the body returns early. *)
Definition rollback (before after : DB) : DB := mkDB (zones before) (records before) (nextID after).

Definition transaction {A} (e : Env) (commit : nat) (body : st DB storeError A) : st DB storeError A :=
  fun d =>
    match fault e 0 with
    | Some x => (Err (DBError x), d)
    | None =>
      match body d with
      | (Ok a, d') =>
        match fault e commit with
        | None => (Ok a, d')
        | Some x => (Err (DBError x), if commit_applied e then d' else rollback d d')
        end
      | (r, d') => (r, rollback d d')
      end
    end.

(** ** Zones (zone.go) *)

Definition isPgCode (e : dbError) (code : gostring) : bool :=
  match e with PgError c => bool_decide (c = code) | _ => false end.

(** The SET list [bumpSerial]; adding one to the largest bigint is an error. *)
Definition bumpSerial (e : Env) (z : Zone) : go dbError Zone :=
  if (2 ^ 63 - 1 <? zSerial z + 1)%Z then Err (PgError (lit "22003"))
  else
    Ok (mkZone (zName z) (zPrimaryNS z) (zAdminEmail z) (Z.max (zSerial z + 1) (now_epoch e))
          (zRefresh z) (zRetry z) (zExpire z) (zMinTTL z) (zCreatedAt z) (now e)).

(** UPDATE zones SET ... WHERE name = $1: the table and the rows updated. *)
Fixpoint update_zones (name : gostring) (set : Zone -> go dbError Zone) (zs : list Zone)
    : go dbError (list Zone * list Zone) :=
  match zs with
  | [] => Ok ([], [])
  | z :: zs' =>
    if bool_decide (zName z = name) then
      let! z := set z in
      let! (zs', hit) := update_zones name set zs' in
      Ok (z :: zs', z :: hit)
    else
      let! (zs', hit) := update_zones name set zs' in
      Ok (z :: zs', hit)
  end.

(** The row of a query for one row; no row is [pgx.ErrNoRows]. *)
Definition first_row {A} (rows : list A) : go dbError A :=
  match rows with [] => Err ErrNoRows | r :: _ => Ok r end.

Definition scanZone (row : go storeError Zone) : go storeError Zone :=
  match row with
  | Err (DBError ErrNoRows) => Err ErrNotFound
  | _ => row
  end.

Section Zones.
Context `{GoUnicode} `{Postgres}.

Definition CreateZone (e : Env) (z : Zone) : st DB storeError Zone := fun d =>
  let name := NormalizeZone (zName z) in
  if bool_decide (name = []) then (Err ZoneNameRequired, d)
  else
    let row :=
      mkZone name (zPrimaryNS z) (zAdminEmail z) (now_epoch e) (zRefresh z) (zRetry z) (zExpire z)
        (zMinTTL z) (now e) (now e) in
    let inserted :=
      if bool_decide (name ∈ zName <$> zones d) then Err (PgError (lit "23505"))
      else Ok (row, set_zones d (zones d ++ [row])) in
    let (r, d) := autocommit e inserted d in
    match scanZone r with
    | Err (DBError x) =>
      if isPgCode x (lit "23505") then (Err (ErrConflict (ZoneAlreadyExists name)), d)
      else (Err (DBError x), d)
    | r => (r, d)
    end.

Definition GetZone (e : Env) (name : gostring) (d : DB) : go storeError Zone :=
  let name := NormalizeZone name in
  scanZone (stmt e 0 (first_row (filter (fun z => zName z = name) (zones d)))).

Definition UpdateZone (e : Env) (z : Zone) : st DB storeError Zone := fun d =>
  let set old :=
    bumpSerial e
      (mkZone (zName old) (zPrimaryNS z) (zAdminEmail z) (zSerial old) (zRefresh z) (zRetry z)
         (zExpire z) (zMinTTL z) (zCreatedAt old) (zUpdatedAt old)) in
  let updated :=
    let! (zs, hit) := update_zones (NormalizeZone (zName z)) set (zones d) in
    let! row := first_row hit in
    Ok (row, set_zones d zs) in
  let (r, d) := autocommit e updated d in
  (scanZone r, d).

(** The foreign key deletes the records of the zone with it. *)
Definition DeleteZone (e : Env) (name : gostring) : st DB storeError unit :=
  fun d =>
    let name := NormalizeZone name in
    let tag := length (filter (fun z => zName z = name) (zones d)) in
    let d' :=
      mkDB (filter (fun z => zName z <> name) (zones d))
        (filter (fun r => rowZone r <> name) (records d)) (nextID d) in
    match autocommit e (Ok (tag, d')) d with
    | (Ok n, d) => if bool_decide (n = 0) then (Err ErrNotFound, d) else (Ok tt, d)
    | (Err x, d) => (Err x, d)
    | (Panic, d) => (Panic, d)
    | (NoFuel, d) => (NoFuel, d)
    end.

(** The tail of both list operations: cut the page to [limit] rows and name its last row
    where there are more.  Slicing and indexing panic outside the slice. *)
Definition page {A} (limit : Z) (token : A -> gostring) (rows : list A)
    : go storeError (list A * gostring) :=
  if (limit <? Z.of_nat (length rows))%Z then
    if (limit <? 0)%Z then Panic
    else
      let rows := take (Z.to_nat limit) rows in
      if (limit - 1 <? 0)%Z then Panic
      else
        let! last := index rows (Z.to_nat (limit - 1)) in
        Ok (rows, token last)
  else Ok (rows, []).

Definition ListZones (e : Env) (limit : Z) (after : gostring) (d : DB)
    : go storeError (list Zone * gostring) :=
  let rows :=
    order_by (fun z1 z2 => text_lt (zName z1) (zName z2))
      (filter (fun z => text_lt after (zName z) = true) (zones d)) in
  let! rows := stmt e 0 (limit_rows (limit + 1) rows) in
  if (limit <? 0)%Z then Panic (* make with a negative capacity *)
  else
    let! zs := stmt e 1 (Ok rows) in
    page limit zName zs.
End Zones.

(** The loop of [FindZone] over [name] and what follows each of its dots.  Every turn
    drops at least a byte. *)
Fixpoint candidates_loop (fuel : nat) (name : gostring) (candidates : list gostring)
    : go storeError (list gostring) :=
  if bool_decide (name = []) then Ok candidates
  else
    match fuel with
    | 0 => NoFuel
    | S fuel' =>
      let candidates := candidates ++ [name] in
      match IndexByte name "."%char with
      | None => Ok candidates
      | Some i => candidates_loop fuel' (drop (i + 1) name) candidates
      end
    end.

(** ORDER BY length(name) DESC *)
Definition longer (z1 z2 : Zone) : bool := bool_decide (char_length (zName z2) < char_length (zName z1)).

Definition FindZone `{GoUnicode} (e : Env) (qname : gostring) (d : DB) : go storeError Zone :=
  let qname := NormalizeZone qname in
  let! candidates := candidates_loop (length qname) qname [] in
  if bool_decide (length candidates = 0) then Err ErrNotFound
  else
    let rows := order_by longer (filter (fun z => zName z ∈ candidates) (zones d)) in
    scanZone (stmt e 0 (first_row (take 1 rows))).

(** ** Records (record.go) *)

(** The columns of a row as a record, with its wire form if the store has an encoder. *)
Definition scanRecord (s : Store) (row : recordRow) : go storeError Record_ :=
  let r wire err :=
    mkRecord (rowID row) (rowZone row) (rowName row) (rowType row) (rowTTL row) (rowRData row)
      (rowCreatedAt row) wire err in
  match encode s with
  | None => Ok (r [] None)
  | Some enc =>
    match enc (rowType row) (rowRData row) with
    | Ok b => Ok (r b None)
    | Err (err, b) => Ok (r b (Some err))
    | Panic => Panic
    | NoFuel => NoFuel
    end
  end.

Fixpoint scanRecords (s : Store) (rows : list recordRow) : go storeError (list Record_) :=
  match rows with
  | [] => Ok []
  | row :: rows' =>
    let! r := scanRecord s row in
    let! out := scanRecords s rows' in
    Ok (r :: out)
  end.

(** Statement [n] is the reading of the rows, which can fail behind the query. *)
Definition collectRecords (s : Store) (e : Env) (n : nat) (rows : list recordRow)
    : go storeError (list Record_) :=
  let! rows := stmt e n (Ok rows) in scanRecords s rows.

(** A row of the RRset, and the key of the unique index records_rrset_member. *)
Definition at_name (zone name : gostring) (r : recordRow) : Prop := rowZone r = zone /\ rowName r = name.
Definition in_rrset (zone name rtype : gostring) (r : recordRow) : Prop :=
  at_name zone name r /\ rowType r = rtype.
Definition same_member `{Postgres} (zone name rtype rdata : gostring) (r : recordRow) : Prop :=
  in_rrset zone name rtype r /\ md5 (rowRData r) = md5 rdata.

#[export] Instance at_name_dec z n r : Decision (at_name z n r).
Proof. unfold at_name. apply _. Defined.
#[export] Instance in_rrset_dec z n t r : Decision (in_rrset z n t r).
Proof. unfold in_rrset. apply _. Defined.
#[export] Instance same_member_dec `{Postgres} z n t x r : Decision (same_member z n t x r).
Proof. unfold same_member. apply _. Defined.

#[global] Typeclasses Opaque at_name in_rrset same_member.

Section Records.
Context `{GoUnicode} `{Postgres} (s : Store).

Definition set_ttl (r : recordRow) (t : Z) : recordRow :=
  mkRow (rowID r) (rowZone r) (rowName r) (rowNameRev r) (rowType r) t (rowRData r) (rowCreatedAt r).

(** INSERT ... ON CONFLICT (zone, name, type, md5(rdata)) DO UPDATE SET ttl: the sequence
    advances in both cases. *)
Definition upsert (e : Env) (row : recordRow) (d : DB) : go dbError recordRow * DB :=
  if (2 ^ 63 - 1 <? nextID d)%Z then (Err (PgError (lit "2200H")), d)
  else
    let row := mkRow (nextID d) (rowZone row) (rowName row) (rowNameRev row) (rowType row)
                 (rowTTL row) (rowRData row) (now e) in
    let hit := same_member (rowZone row) (rowName row) (rowType row) (rowRData row) in
    match filter hit (records d) with
    | [] => (Ok row, mkDB (zones d) (records d ++ [row]) (nextID d + 1))
    | old :: _ =>
      (Ok (set_ttl old (rowTTL row)),
       mkDB (zones d)
         ((fun r => if bool_decide (hit r) then set_ttl r (rowTTL row) else r) <$> records d)
         (nextID d + 1))
    end.

(** UPDATE records SET ttl = $4 WHERE zone = $1 AND name = $2 AND type = $3 AND ttl <> $4 *)
Definition align_ttl (zone name rtype : gostring) (t : Z) (rows : list recordRow) : list recordRow :=
  (fun r => if bool_decide (in_rrset zone name rtype r /\ rowTTL r <> t) then set_ttl r t else r) <$> rows.

(** A statement of a transaction that changes the tables. *)
Definition exec {A} (e : Env) (n : nat) (f : DB -> go dbError A * DB) : st DB storeError A :=
  fun d =>
    match fault e n with
    | Some x => (Err (DBError x), d)
    | None => let (r, d') := f d in (go_wrap DBError r, d')
    end.

(** UPDATE zones SET bumpSerial WHERE name = $1, giving the number of rows. *)
Definition bump (e : Env) (name : gostring) (d : DB) : go dbError nat * DB :=
  match update_zones name (bumpSerial e) (zones d) with
  | Ok (zs, hit) => (Ok (length hit), set_zones d zs)
  | Err x => (Err x, d)
  | Panic => (Panic, d)
  | NoFuel => (NoFuel, d)
  end.

(** SELECT EXISTS (SELECT 1 FROM records WHERE ...) *)
Definition exists_row (p : recordRow -> Prop) `{forall r, Decision (p r)} (d : DB) : go dbError bool * DB :=
  (Ok (existsb (fun r => bool_decide (p r)) (records d)), d).

Definition CreateRecord (e : Env) (r : Record_) : st DB storeError Record_ :=
  let zone := NormalizeZone (rZone r) in
  let name := NormalizeName zone (rName r) in
  let rtype := NormalizeType (rType r) in
  transaction e 5
    (do! tag := exec e 1 (bump e zone) in
     if bool_decide (tag = 0) then st_ret (Err ErrNotFound)
     else
       do! _ :=
         (if bool_decide (rtype = lit "CNAME") then
            if bool_decide (name = zone) then st_ret (Err (ErrConflict CNAMEAtApex))
            else
              do! other :=
                exec e 2 (exists_row (fun x => at_name zone name x /\
                  (rowType x <> lit "CNAME" \/ md5 (rowRData x) <> md5 (rRData r)))) in
              if other : bool then st_ret (Err (ErrConflict (CNAMECannotCoexist name)))
              else st_ret (Ok tt)
          else
            do! cname := exec e 2 (exists_row (in_rrset zone name (lit "CNAME"))) in
            if cname : bool then st_ret (Err (ErrConflict (NameHasCNAME name)))
            else st_ret (Ok tt)) in
       do! row :=
         exec e 3 (upsert e (mkRow 0 zone name (reverseName name) rtype (rTTL r) (rRData r) 0)) in
       do! out := st_ret (scanRecord s row) in
       do! _ :=
         exec e 4 (fun d => (Ok tt, set_records d (align_ttl zone name rtype (rTTL r) (records d)))) in
       st_ret (Ok out)).

Definition DeleteRecord (e : Env) (zone name rtype rdata : gostring) : st DB storeError unit :=
  let zone := NormalizeZone zone in
  let name := NormalizeName zone name in
  let hit := same_member zone name (NormalizeType rtype) rdata in
  transaction e 3
    (do! tag :=
       exec e 1 (fun d =>
         (Ok (length (filter hit (records d))), set_records d (filter (fun r => ~ hit r) (records d)))) in
     if bool_decide (tag = 0) then st_ret (Err ErrNotFound)
     else
       do! _ := exec e 2 (bump e zone) in
       st_ret (Ok tt)).

Definition ListRecords (e : Env) (zone : gostring) (limit : Z) (after : gostring) (d : DB)
    : go storeError (list Record_ * gostring) :=
  let! afterID :=
    (if bool_decide (after = []) then Ok 0%Z
     else
       match ParseInt64 after with
       | Some id => if (id <? 0)%Z then Err InvalidPageToken else Ok id
       | None => Err InvalidPageToken
       end) in
  let zone := NormalizeZone zone in
  let rows :=
    order_by (fun r1 r2 => (rowID r1 <? rowID r2)%Z)
      (filter (fun r => rowZone r = zone /\ (afterID < rowID r)%Z) (records d)) in
  let! rows := stmt e 0 (limit_rows (limit + 1) rows) in
  let! rs := collectRecords s e 1 rows in
  page limit (fun r => FormatInt (rID r)) rs.

Definition GetRecords (e : Env) (zone name rtype : gostring) (d : DB) : go storeError (list Record_) :=
  let zone := NormalizeZone zone in
  let name := NormalizeName zone name in
  let rtype := NormalizeType rtype in
  let! rows :=
    stmt e 0 (Ok (order_by (fun r1 r2 => (rowID r1 <? rowID r2)%Z)
      (filter (in_rrset zone name rtype) (records d)))) in
  collectRecords s e 1 rows.

Definition LookupName (e : Env) (zone name : gostring) (d : DB) : go storeError NameSet :=
  let! rows := stmt e 0 (Ok (unordered (filter (at_name zone name) (records d)))) in
  let! recs := collectRecords s e 1 rows in
  if bool_decide (0 < length recs) then Ok (mkNameSet recs false)
  else
    let prefix := reverseName name ++ lit "." in
    let upper := take (length prefix - 1) prefix ++ lit "/" in
    let children :=
      existsb (fun r => bool_decide (rowZone r = zone) &&
        negb (bytes_lt (rowNameRev r) prefix) && bytes_lt (rowNameRev r) upper) (records d) in
    match stmt e 2 (Ok children) with
    | Ok b => Ok (mkNameSet recs b)
    | Err (DBError ErrNoRows) => Ok (mkNameSet recs false)
    | Err x => Err x
    | Panic => Panic
    | NoFuel => NoFuel
    end.
End Records.

(** ** The encoder sharddnsd gives its store (src/cmd/sharddnsd/main.go) *)
Definition rdata_encoder `{GoUnicode} : Encoder := fun rtype rdata =>
  BuildRData (Message.TypeCode rtype) rdata.
