(* ===== verification/StoreCorrect.v ===== *)
(** * Correctness of the store

    The subdomain range query, zone selection, the invariant of the tables under every
    operation and every failure, serial numbers, and pagination. *)

From Stdlib Require Import ZArith Lia Ascii String.
From stdpp Require Import base list strings.
From S2P Require Import Prelude GoStrings Message WireNames Names RData RDataCorrect Store.

(** ** Reversed names and the range query *)

(** [below name n]: [n] is a proper subdomain of [name]. *)
Definition below (name n : gostring) : Prop := exists w, n = w ++ lit "." ++ name.

Lemma Split_reverseName n : Split (reverseName n) "."%char = reverse (Split n "."%char).
Proof.
  apply Split_Join.
  - intros H%(f_equal reverse). rewrite reverse_involutive in H. by apply Split_not_nil in H.
  - apply Forall_reverse, Split_labels_no_sep.
Qed.

Lemma reverse_not_nil {A} (l : list A) : l <> [] -> reverse l <> [].
Proof. intros H Hr%(f_equal reverse). by rewrite reverse_involutive in Hr. Qed.

Lemma reverseName_below name n :
  below name n <-> exists t, reverseName n = reverseName name ++ lit "." ++ t.
Proof.
  split.
  - intros [w ->]. exists (reverseName w). unfold reverseName. cbn [lit list_ascii_of_string app].
    rewrite Split_app_gen, reverse_app, Join_app by (apply reverse_not_nil, Split_not_nil). done.
  - intros [t Ht]. exists (reverseName t). apply (f_equal (fun s => Split s "."%char)) in Ht.
    rewrite Split_reverseName in Ht. cbn [lit list_ascii_of_string app] in Ht.
    rewrite Split_app_gen, Split_reverseName in Ht. apply (f_equal reverse) in Ht.
    rewrite reverse_involutive, reverse_app, reverse_involutive in Ht.
    rewrite <- (Join_Split n "."%char), Ht, Join_app by
      (apply Split_not_nil || apply reverse_not_nil, Split_not_nil).
    by rewrite Join_Split.
Qed.

Lemma reverseName_inj n1 n2 : reverseName n1 = reverseName n2 -> n1 = n2.
Proof.
  intros H%(f_equal (fun s => Split s "."%char)). rewrite !Split_reverseName in H.
  apply (f_equal reverse) in H. rewrite !reverse_involutive in H.
  by rewrite <- (Join_Split n1 "."%char), H, Join_Split.
Qed.

(** The byte-order interval from "p." (included) to "p/" (excluded) holds exactly the
    strings that start with "p.". *)
Lemma bytes_lt_interval p x :
  bytes_lt x (p ++ lit ".") = false /\ bytes_lt x (p ++ lit "/") = true <->
  exists t, x = p ++ lit "." ++ t.
Proof.
  revert x. induction p as [|a p IH]; intros x.
  - cbn [app lit list_ascii_of_string]. destruct x as [|c x]; cbn [bytes_lt].
    + split; [by intros []|by intros [t ?]].
    + change (bz "."%char) with 46%Z. change (bz "/"%char) with 47%Z. split.
      * intros [H1 H2]. exists x. f_equal. apply bz_inj. change (bz "."%char) with 46%Z.
        destruct x; cbn in H1, H2; bool_prop; destruct (bz c <? 47)%Z eqn:E; bool_prop; cbn in H2;
          rewrite ?andb_false_r in H2; bool_prop; try lia; try done.
      * intros [t [= -> ->]]. cbn. split; [|done]. by destruct t.
  - cbn [app]. destruct x as [|c x]; cbn [bytes_lt].
    + split; [by intros []|by intros [t ?]].
    + split.
      * intros [H1 H2]. apply orb_false_iff in H1 as [H1 H1']. bool_prop.
        apply orb_true_iff in H2 as [H2|[H2 H3]%andb_true_iff]; bool_prop; [lia|].
        assert (c = a) as -> by (by apply bz_inj). rewrite Z.eqb_refl in H1'. cbn in H1'.
        destruct (proj1 (IH x) (conj H1' H3)) as [t ->]. by exists t.
      * intros [t [= -> ->]]. rewrite Z.ltb_irrefl, Z.eqb_refl. cbn. apply IH. eauto.
Qed.

(** ** Looking a name up *)

(** A failing statement is never reported as "no rows". *)
Definition env_ok (e : Env) : Prop := forall n, fault e n <> Some ErrNoRows.

Definition encoder_total (s : Store) : Prop :=
  forall enc t x, encode s = Some enc -> returns (enc t x).

(** The error of a call is the error of one of its statements. *)
Definition statement_error (e : Env) (x : storeError) : Prop :=
  exists n err, fault e n = Some err /\ x = DBError err.

Lemma stmt_Ok_cases {A} e n (a : A) :
  (stmt e n (Ok a) = Ok a /\ fault e n = None) \/
  exists x, stmt e n (Ok a) = Err (DBError x) /\ fault e n = Some x.
Proof. unfold stmt. destruct (fault e n); [right; eauto|by left]. Qed.

(** What a row becomes. *)
Definition record_of (s : Store) (row : recordRow) (r : Record_) : Prop := scanRecord s row = Ok r.

Lemma scanRecord_total s row : encoder_total s -> exists r, record_of s row r.
Proof.
  intros Ht. unfold record_of, scanRecord. destruct (encode s) as [enc|] eqn:E; [|eauto].
  specialize (Ht enc (rowType row) (rowRData row) E).
  destruct (enc _ _) as [|[]| |]; [eauto..|done|done].
Qed.

Lemma scanRecords_Forall2 s rows rs : scanRecords s rows = Ok rs <-> Forall2 (record_of s) rows rs.
Proof.
  revert rs. induction rows as [|row rows IH]; intros rs; cbn [scanRecords].
  - split; [by intros [= <-]|by intros ->%Forall2_nil_inv_l].
  - rewrite go_bind_Ok. setoid_rewrite go_bind_Ok. setoid_rewrite IH. split.
    + intros (r & Hr & rs' & Hrs & [= <-]). by constructor.
    + intros (r & rs' & Hr & Hrs & ->)%Forall2_cons_inv_l. by exists r; split; [|exists rs'].
Qed.

Lemma scanRecords_total s rows : encoder_total s -> exists rs, Forall2 (record_of s) rows rs.
Proof.
  intros Ht. induction rows as [|row rows [rs IH]]; [by exists []|].
  destruct (scanRecord_total s row Ht) as [r Hr]. exists (r :: rs). by constructor.
Qed.

Lemma collectRecords_cases s e n rows :
  encoder_total s ->
  (exists rs, collectRecords s e n rows = Ok rs /\ Forall2 (record_of s) rows rs) \/
  exists x, collectRecords s e n rows = Err (DBError x) /\ fault e n = Some x.
Proof.
  intros Ht. unfold collectRecords.
  destruct (stmt_Ok_cases e n rows) as [[-> _]|(x & -> & Hx)]; [left|right; eauto]. cbn [go_bind].
  destruct (scanRecords_total s rows Ht) as [rs Hrs]. exists rs. by rewrite scanRecords_Forall2.
Qed.

Lemma length_pos_elem {A} (x : A) l : x ∈ l -> 0 < length l.
Proof. destruct l; [by intros ?%not_elem_of_nil|cbn; lia]. Qed.

(** The rows of a table carry the reversed name in their name_rev column. *)
Definition rev_ok (d : DB) : Prop := Forall (fun r => rowNameRev r = reverseName (rowName r)) (records d).

Definition has_child (zone name : gostring) (d : DB) : Prop :=
  exists r, r ∈ records d /\ rowZone r = zone /\ below name (rowName r).

Lemma prefix_upper (p : gostring) : take (length (p ++ lit ".") - 1) (p ++ lit ".") = p.
Proof. rewrite length_app. cbn. by rewrite Nat.add_sub, take_app_length. Qed.

Lemma children_query zone name d :
  rev_ok d ->
  existsb (fun r => bool_decide (rowZone r = zone) &&
    negb (bytes_lt (rowNameRev r) (reverseName name ++ lit ".")) &&
    bytes_lt (rowNameRev r) (reverseName name ++ lit "/")) (records d) = true <->
  has_child zone name d.
Proof.
  intros Hrev. rewrite existsb_exists. unfold rev_ok in Hrev. rewrite Forall_forall in Hrev.
  setoid_rewrite <- list_elem_of_In. split; intros (r & Hr & H); exists r; (split; [done|]).
  - apply andb_true_iff in H as [[Hz Hge]%andb_true_iff Hlt]. apply negb_true_iff in Hge.
    apply bool_decide_eq_true in Hz. split; [done|]. apply reverseName_below.
    rewrite (Hrev r Hr) in *. by apply bytes_lt_interval.
  - destruct H as [Hz Hb]. apply reverseName_below, bytes_lt_interval in Hb as [Hge Hlt].
    rewrite (Hrev r Hr), Hge, Hlt, bool_decide_eq_true_2 by done. done.
Qed.

(** What [LookupName] promises: the records at the name, and for a name without records
    whether the zone has one below it. *)
Definition lookup_answer (s : Store) (d : DB) (zone name : gostring) (set : NameSet) : Prop :=
  (exists rows, rows ≡ₚ filter (at_name zone name) (records d) /\
     Forall2 (record_of s) rows (Records set)) /\
  (HasChildren set = true <-> Records set = [] /\ has_child zone name d).

Lemma LookupName_answer `{PostgresLaws} s e zone name d :
  env_ok e -> encoder_total s -> rev_ok d ->
  match LookupName s e zone name d with
  | Ok set => lookup_answer s d zone name set
  | Err x => statement_error e x
  | _ => False
  end.
Proof.
  intros He Ht Hrev. unfold LookupName, statement_error.
  destruct (stmt_Ok_cases e 0 (unordered (filter (at_name zone name) (records d)))) as [[-> _]|(x & -> & Hx)];
    cbn [go_bind]; [|by eauto].
  destruct (collectRecords_cases s e 1 (unordered (filter (at_name zone name) (records d))) Ht)
    as [(rs & -> & Hrs)|(x & -> & Hx)]; cbn [go_bind]; [|by eauto].
  assert (Hrows : exists rows, rows ≡ₚ filter (at_name zone name) (records d) /\ Forall2 (record_of s) rows rs).
  { eexists. split; [|exact Hrs]. apply unordered_perm. }
  case_bool_decide as Hl.
  - split; [done|]. cbn [HasChildren Records]. split; [done|]. intros [-> _]. cbn in Hl. lia.
  - assert (rs = []) as -> by (destruct rs; [done|cbn in Hl; lia]).
    rewrite prefix_upper. pose proof (children_query zone name d Hrev) as Hq.
    destruct (stmt_Ok_cases e 2 (existsb (fun r => bool_decide (rowZone r = zone) &&
      negb (bytes_lt (rowNameRev r) (reverseName name ++ lit ".")) &&
      bytes_lt (rowNameRev r) (reverseName name ++ lit "/")) (records d))) as [[-> _]|(x & -> & Hx)].
    + split; [done|]. cbn [HasChildren Records]. rewrite Hq. naive_solver.
    + specialize (He 2). rewrite Hx in He. destruct x; try done; eauto.
Qed.

(** C31. [LookupName] returns the records at the name, in some order, each with its wire form,
    and for a name without records reports children exactly when the zone has a record at
    a proper subdomain: the range scan over name_rev finds them all and nothing else.  The
    only error is the failure of a statement. *)
Theorem LookupName_correct `{PostgresLaws} s e zone name d :
  env_ok e -> encoder_total s -> rev_ok d ->
  match LookupName s e zone name d with
  | Ok set => lookup_answer s d zone name set
  | Err x => statement_error e x
  | _ => False
  end.
Proof. apply LookupName_answer. Qed.

Lemma lookup_answer_Exists s d zone name set :
  lookup_answer s d zone name set ->
  Exists set = true <->
  exists r, r ∈ records d /\ rowZone r = zone /\ (rowName r = name \/ below name (rowName r)).
Proof.
  intros [(rows & Hp & Hf) Hc]. unfold Exists. rewrite orb_true_iff, bool_decide_eq_true, Hc.
  pose proof (Forall2_length _ _ _ Hf) as Hlen. rewrite (Permutation_length Hp) in Hlen. split.
  - intros [Hl|[_ (r & ? & ? & ?)]]; [|naive_solver].
    destruct (filter (at_name zone name) (records d)) as [|r l] eqn:E; [cbn in Hlen; lia|].
    assert (Hr : r ∈ filter (at_name zone name) (records d)) by (rewrite E; left).
    apply list_elem_of_filter in Hr as [[? ?] ?]. naive_solver.
  - intros (r & Hr & Hz & [Hn|Hb]).
    + left. rewrite <- Hlen. apply (length_pos_elem r). by apply list_elem_of_filter.
    + destruct (Records set) as [|x l]; [right; split; [done|]; by exists r|left; cbn; lia].
Qed.

(** Wherever no statement fails, [Exists] of the result says whether the zone has a record
    at the name or below it. *)
Theorem LookupName_Exists `{PostgresLaws} s e zone name d set :
  env_ok e -> encoder_total s -> rev_ok d ->
  LookupName s e zone name d = Ok set ->
  Exists set = true <->
  exists r, r ∈ records d /\ rowZone r = zone /\ (rowName r = name \/ below name (rowName r)).
Proof.
  intros He Ht Hrev Hs. pose proof (LookupName_answer s e zone name d He Ht Hrev) as Ha.
  rewrite Hs in Ha. by apply (lookup_answer_Exists s).
Qed.

(** ** The invariant of the tables *)

(** Everything but the TTLs: what schema.sql declares (primary keys, the foreign key, the
    unique index), the name_rev column, names inside their zone, and CNAME alone at its name. *)
Record keys_ok `{Postgres} (d : DB) : Prop := {
  ok_zones : NoDup (zName <$> zones d);
  ok_zone_names : [] ∉ zName <$> zones d;
  ok_next : (1 <= nextID d <= 2 ^ 63)%Z;
  ok_ids : NoDup (rowID <$> records d);
  ok_seq : Forall (fun r => (1 <= rowID r < nextID d)%Z) (records d);
  ok_fk : Forall (fun r => rowZone r ∈ zName <$> zones d) (records d);
  ok_rev : rev_ok d;
  ok_in_zone : Forall (fun r => rowName r = rowZone r \/ below (rowZone r) (rowName r)) (records d);
  ok_apex : Forall (fun r => rowType r = lit "CNAME" -> rowName r <> rowZone r) (records d);
  ok_member r1 r2 : r1 ∈ records d -> r2 ∈ records d ->
    same_member (rowZone r1) (rowName r1) (rowType r1) (rowRData r1) r2 -> r1 = r2;
  ok_cname r1 r2 : r1 ∈ records d -> r2 ∈ records d ->
    at_name (rowZone r1) (rowName r1) r2 -> rowType r1 = lit "CNAME" -> r1 = r2;
}.

(** All members of an RRset have one TTL. *)
Definition ttl_ok (d : DB) : Prop :=
  forall r1 r2, r1 ∈ records d -> r2 ∈ records d ->
  in_rrset (rowZone r1) (rowName r1) (rowType r1) r2 -> rowTTL r1 = rowTTL r2.

Definition db_ok `{Postgres} (d : DB) : Prop := keys_ok d /\ ttl_ok d.

Section Invariant.
Context `{GoUnicode} `{Postgres}.

(** *** Zones *)
Lemma update_zones_names name set zs zs' hit :
  (forall z z', set z = Ok z' -> zName z' = zName z) ->
  update_zones name set zs = Ok (zs', hit) -> zName <$> zs' = zName <$> zs.
Proof.
  intros Hset. revert zs' hit. induction zs as [|z zs IH]; intros zs' hit; cbn [update_zones].
  - by intros [= <- <-].
  - case_bool_decide as Hz.
    + rewrite go_bind_Ok. intros (z' & Hz' & ((zs1 & hit1) & H1 & [= <- <-])%go_bind_Ok).
      cbn. by rewrite (IH _ _ H1), (Hset _ _ Hz').
    + rewrite go_bind_Ok. intros ((zs1 & hit1) & H1 & [= <- <-]). cbn. by rewrite (IH _ _ H1).
Qed.

Lemma bumpSerial_name e z z' : bumpSerial e z = Ok z' -> zName z' = zName z.
Proof. unfold bumpSerial. destruct (_ <? _)%Z; [done|]. by intros [= <-]. Qed.

(** Changing zone rows without renaming them keeps the invariant. *)
Lemma keys_ok_zones d zs : zName <$> zs = zName <$> zones d -> keys_ok d -> keys_ok (set_zones d zs).
Proof. intros Hz []. constructor; cbn; rewrite ?Hz; try done. Qed.

Lemma db_ok_zones d zs : zName <$> zs = zName <$> zones d -> db_ok d -> db_ok (set_zones d zs).
Proof. intros Hz [Hk Ht]. split; [by apply keys_ok_zones|done]. Qed.

Lemma bump_state e name d r d' : bump e name d = (r, d') -> exists zs,
  d' = set_zones d zs /\ zName <$> zs = zName <$> zones d.
Proof.
  unfold bump. destruct (update_zones _ _ _) as [[zs hit]| | |] eqn:E; intros [= <- <-].
  2-4: exists (zones d); by destruct d.
  exists zs. split; [done|]. eapply update_zones_names; [|exact E]. apply bumpSerial_name.
Qed.

(** *** Rows *)

Lemma Forall_filter_rows {A} (Q P : A -> Prop) `{forall r, Decision (P r)} l :
  Forall Q l -> Forall Q (filter P l).
Proof. rewrite !Forall_forall. intros HQ x [_ Hx]%list_elem_of_filter. by apply HQ. Qed.

(** A sublist of the rows. *)
Lemma keys_ok_filter d (P : recordRow -> Prop) `{forall r, Decision (P r)} :
  keys_ok d -> keys_ok (set_records d (filter P (records d))).
Proof.
  intros [Hz Hzn Hn Hi Hs Hf Hr Hin Ha Hm Hc]. constructor; cbn; try done.
  1: { eapply sublist_NoDup; [exact Hi|]. apply fmap_sublist, sublist_filter. }
  1-5: by apply Forall_filter_rows.
  - intros r1 r2 [_ ?]%list_elem_of_filter [_ ?]%list_elem_of_filter. by apply Hm.
  - intros r1 r2 [_ ?]%list_elem_of_filter [_ ?]%list_elem_of_filter. by apply Hc.
Qed.

(** Other TTLs. *)
Definition retime (P : recordRow -> bool) (t : Z) (r : recordRow) : recordRow :=
  if P r then set_ttl r t else r.

Lemma retime_keys P t r :
  rowID (retime P t r) = rowID r /\ rowZone (retime P t r) = rowZone r /\
  rowName (retime P t r) = rowName r /\ rowNameRev (retime P t r) = rowNameRev r /\
  rowType (retime P t r) = rowType r /\ rowRData (retime P t r) = rowRData r.
Proof. unfold retime. by destruct (P r). Qed.

Ltac retime_rewrite P t r :=
  let E := fresh in
  pose proof (retime_keys P t r) as E; rewrite ?(proj1 E), ?(proj1 (proj2 E)),
    ?(proj1 (proj2 (proj2 E))), ?(proj1 (proj2 (proj2 (proj2 E)))),
    ?(proj1 (proj2 (proj2 (proj2 (proj2 E))))), ?(proj2 (proj2 (proj2 (proj2 (proj2 E))))); clear E.

Lemma Forall_retime (Q : recordRow -> Prop) P t rows :
  (forall r, Q r -> Q (retime P t r)) -> Forall Q rows -> Forall Q (retime P t <$> rows).
Proof. intros HQ H1. apply Forall_fmap. eapply Forall_impl; [exact H1|]. done. Qed.

Lemma keys_ok_retime d P t :
  keys_ok d -> keys_ok (set_records d (retime P t <$> records d)).
Proof.
  intros [Hz Hzn Hn Hi Hs Hf Hr Hin Ha Hm Hc]. constructor; cbn; try done.
  1: { rewrite <- list_fmap_compose. erewrite list_fmap_ext; [exact Hi|].
       intros i r _. cbn. by retime_rewrite P t r. }
  1-5: apply Forall_retime; [intros r; by retime_rewrite P t r|done].
  all: intros ? ? (r1 & -> & H1)%list_elem_of_fmap (r2 & -> & H2)%list_elem_of_fmap;
    unfold same_member, in_rrset, at_name; retime_rewrite P t r1; retime_rewrite P t r2; intros;
    f_equal.
  - by apply Hm.
  - by apply Hc.
Qed.
(** *** Adding a row *)
Lemma NormalizeName_in_zone zone name :
  NormalizeName zone name = zone \/ below zone (NormalizeName zone name).
Proof.
  unfold NormalizeName. destruct (_ || _ || _); [by left|]. right.
  destruct (HasSuffix _ _) eqn:E; [|eexists; reflexivity].
  apply HasSuffix_true in E as [w Hw]. by exists w.
Qed.

Lemma filter_nil_elem {A} (P : A -> Prop) `{forall x, Decision (P x)} l x :
  filter P l = [] -> x ∈ l -> ~ P x.
Proof.
  intros Hf Hx HP. assert (Hin : x ∈ filter P l) by (by apply list_elem_of_filter).
  rewrite Hf in Hin. by apply not_elem_of_nil in Hin.
Qed.

Lemma Forall_snoc {A} (P : A -> Prop) l x : Forall P l -> P x -> Forall P (l ++ [x]).
Proof. intros. apply Forall_app. split; [done|]. by constructor. Qed.

(** What the checks of [CreateRecord] establish before the insertion. *)
Definition insertable (row : recordRow) (d : DB) : Prop :=
  rowZone row ∈ zName <$> zones d /\ rowNameRev row = reverseName (rowName row) /\
  (rowName row = rowZone row \/ below (rowZone row) (rowName row)) /\
  (rowType row = lit "CNAME" -> rowName row <> rowZone row) /\
  (forall x, x ∈ records d -> at_name (rowZone row) (rowName row) x ->
     if bool_decide (rowType row = lit "CNAME")
     then rowType x = lit "CNAME" /\ md5 (rowRData x) = md5 (rowRData row)
     else rowType x <> lit "CNAME").

Lemma keys_ok_insert row d :
  keys_ok d -> insertable row d -> rowID row = nextID d -> (nextID d < 2 ^ 63)%Z ->
  filter (same_member (rowZone row) (rowName row) (rowType row) (rowRData row)) (records d) = [] ->
  keys_ok (mkDB (zones d) (records d ++ [row]) (nextID d + 1)).
Proof.
  intros [Hz Hzn Hn Hi Hs Hf Hr Hin Ha Hm Hc] (Iz & Ir & Ii & Ia & Ic) Hid Hlt Hnew.
  assert (Hout : forall x, x ∈ records d ->
    ~ same_member (rowZone row) (rowName row) (rowType row) (rowRData row) x).
  { intros x Hx. exact (filter_nil_elem _ _ _ Hnew Hx). }
  assert (Hsym : forall x, x ∈ records d ->
    ~ same_member (rowZone x) (rowName x) (rowType x) (rowRData x) row).
  { intros x Hx [[[E1 E2] E3] E4]. apply (Hout x Hx). by repeat split. }
  constructor; cbn; try done; try lia.
  - rewrite fmap_app. apply NoDup_app. split; [done|]. split; [|apply NoDup_singleton].
    intros x (r & -> & Hx)%list_elem_of_fmap Hx'. apply list_elem_of_singleton in Hx'.
    rewrite Forall_forall in Hs. specialize (Hs r Hx). lia.
  - apply Forall_snoc; [|lia]. eapply Forall_impl; [exact Hs|]. cbn. intros; lia.
  - by apply Forall_snoc.
  - by apply Forall_snoc.
  - by apply Forall_snoc.
  - by apply Forall_snoc.
  - intros r1 r2 [H1|E1%list_elem_of_singleton]%elem_of_app [H2|E2%list_elem_of_singleton]%elem_of_app;
      subst; intros Hs'; [by apply Hm|by apply Hsym in Hs'|by apply Hout in Hs'|done].
  - intros r1 r2 [H1|E1%list_elem_of_singleton]%elem_of_app [H2|E2%list_elem_of_singleton]%elem_of_app;
      subst; intros [Ea Eb] Et; [by apply Hc| | |done].
    + exfalso. specialize (Ic r1 H1 ltac:(by split)). case_bool_decide as Hcn; [|done].
      destruct Ic as [_ Em]. apply (Hout r1 H1). split; [split; [by split|by rewrite Et, Hcn]|done].
    + exfalso. specialize (Ic r2 H2 ltac:(by split)). rewrite bool_decide_eq_true_2 in Ic by done.
      destruct Ic as [Et' Em]. apply (Hout r2 H2). split; [split; [by split|by rewrite Et', Et]|done].
Qed.

Lemma keys_ok_next d n : (nextID d <= n <= 2 ^ 63)%Z -> keys_ok d -> keys_ok (mkDB (zones d) (records d) n).
Proof.
  intros Hle [Hz Hzn Hn Hi Hs Hf Hr Hin Ha Hm Hc]. constructor; cbn; try done; try lia.
  eapply Forall_impl; [exact Hs|]. cbn. intros; lia.
Qed.

Lemma keys_ok_upsert e row d row' d' :
  keys_ok d -> insertable row d -> upsert e row d = (Ok row', d') ->
  keys_ok d' /\ zones d' = zones d /\ (nextID d <= nextID d')%Z /\
  (forall r, r ∈ records d' -> in_rrset (rowZone row) (rowName row) (rowType row) r \/ r ∈ records d).
Proof.
  intros Hk Hi. unfold upsert. destruct (_ <? _)%Z eqn:Hmax; [done|].
  cbn [rowZone rowName rowType rowRData rowTTL rowNameRev].
  destruct (filter _ (records d)) as [|old l] eqn:E; intros [= <- <-].
  - split; [|split; [done|split; [cbn; lia|]]].
    + apply keys_ok_insert; try done. apply Z.ltb_ge in Hmax. lia.
    + cbn. intros r [?|E'%list_elem_of_singleton]%elem_of_app; [by right|left; by subst].
  - split; [|split; [done|split; [cbn; lia|]]].
    + refine (keys_ok_next (set_records d (retime (fun r => bool_decide
        (same_member (rowZone row) (rowName row) (rowType row) (rowRData row) r)) (rowTTL row) <$> records d))
        (nextID d + 1) _ _); [cbn; apply Z.ltb_ge in Hmax; lia|]. by apply keys_ok_retime.
    + cbn. intros r (x & -> & Hx)%list_elem_of_fmap. case_bool_decide as Hh; [left|by right].
      destruct Hh as [[[? ?] ?] _]. by repeat split.
Qed.

(** *** Transactions *)

(** The identity sequence never goes back and stays within a bigint. *)
Definition grows {E A} (c : st DB E A) : Prop :=
  forall d, (nextID d <= 2 ^ 63 -> nextID d <= nextID (snd (c d)) <= 2 ^ 63)%Z.

Lemma grows_ret {E A} (c : go E A) : grows (st_ret c).
Proof. intros d. cbn. lia. Qed.

Lemma grows_bind {E A B} (c : st DB E A) (k : A -> st DB E B) :
  grows c -> (forall a, grows (k a)) -> grows (st_bind c k).
Proof.
  intros Hc Hk d. unfold st_bind. specialize (Hc d).
  destruct (c d) as [[a| | |] d1]; cbn in *; [|done..]. specialize (Hk a d1). lia.
Qed.

Lemma grows_exec {A} e n (f : st DB dbError A) : grows f -> grows (exec e n f).
Proof. intros Hf d. unfold exec. destruct (fault e n); [cbn; lia|]. specialize (Hf d). by destruct (f d). Qed.

Lemma grows_bump e name : grows (bump e name).
Proof. intros d. destruct (bump e name d) eqn:E. apply bump_state in E as (zs & -> & _). cbn. lia. Qed.

Lemma grows_upsert e row : grows (upsert e row).
Proof.
  intros d Hd. unfold upsert. destruct (_ <? _)%Z eqn:E; [cbn; lia|]. apply Z.ltb_ge in E.
  destruct (filter _ _); cbn; lia.
Qed.

Create HintDb grows.
Hint Resolve grows_ret grows_bump grows_upsert : grows.

(** A transaction keeps what its body keeps and what a rollback restores. *)
Lemma transaction_db_ok {A} e n (body : st DB storeError A) d :
  db_ok d -> grows body -> (forall a d', body d = (Ok a, d') -> db_ok d') ->
  db_ok (snd (transaction e n body d)).
Proof.
  intros Hd Hg Hb. unfold transaction. destruct (fault e 0); [done|]. specialize (Hg d).
  assert (Hr : db_ok (rollback d (snd (body d)))).
  { destruct Hd as [Hk Ht]. split; [|done]. apply keys_ok_next; [|done]. apply Hg, Hk. }
  destruct (body d) as [[a| | |] d'] eqn:E; cbn in *; try done.
  destruct (fault e n); [|by eapply Hb]. destruct (commit_applied e); [by eapply Hb|done].
Qed.

Lemma exec_Ok {A} e n (f : st DB dbError A) d a d' :
  exec e n f d = (Ok a, d') -> f d = (Ok a, d').
Proof.
  unfold exec. destruct (fault e n); [done|]. destruct (f d) as [r d1].
  intros [= H1%go_wrap_Ok <-]. by rewrite H1.
Qed.

Lemma exists_row_Ok (p : recordRow -> Prop) `{forall r, Decision (p r)} d b d' :
  exists_row p d = (Ok b, d') -> d' = d /\ (b = false -> forall x, x ∈ records d -> ~ p x).
Proof.
  intros [= <- <-]. split; [done|]. intros Hb x Hx Hp.
  assert (existsb (fun r => bool_decide (p r)) (records d) = true); [|congruence].
  apply existsb_exists. exists x. by rewrite <- list_elem_of_In, bool_decide_eq_true.
Qed.

(** *** Aligning the TTLs of an RRset *)
Lemma align_ttl_retime zone name rtype t rows :
  align_ttl zone name rtype t rows =
  retime (fun r => bool_decide (in_rrset zone name rtype r /\ rowTTL r <> t)) t <$> rows.
Proof. done. Qed.

Lemma align_ttl_ok zone name rtype t d (before : DB) :
  ttl_ok before ->
  (forall r, r ∈ records d -> in_rrset zone name rtype r \/ r ∈ records before) ->
  ttl_ok (set_records d (align_ttl zone name rtype t (records d))).
Proof.
  intros Ht Hd r1' r2'. cbn [records set_records]. rewrite align_ttl_retime.
  set (P := fun r => bool_decide (in_rrset zone name rtype r /\ rowTTL r <> t)).
  intros (r1 & -> & H1)%list_elem_of_fmap (r2 & -> & H2)%list_elem_of_fmap.
  assert (Hin : forall r, in_rrset zone name rtype r -> rowTTL (retime P t r) = t).
  { intros r Hr. unfold retime, P. case_bool_decide as Hc; [done|].
    destruct (decide (rowTTL r = t)); [done|]. by destruct Hc. }
  assert (Hout : forall r, ~ in_rrset zone name rtype r -> rowTTL (retime P t r) = rowTTL r).
  { intros r Hr. unfold retime, P. rewrite bool_decide_eq_false_2; [done|]. by intros []. }
  unfold in_rrset at 1, at_name. retime_rewrite P t r1. retime_rewrite P t r2. intros [[Ez En] Et].
  destruct (decide (in_rrset zone name rtype r1)) as [Hr|Hr].
  - rewrite !Hin; [done| |done]. destruct Hr as [[? ?] ?]. repeat split; congruence.
  - rewrite !Hout; [|intros [[? ?] ?]; apply Hr; repeat split; congruence|done].
    destruct (Hd r1 H1), (Hd r2 H2); try done.
    + exfalso. apply Hr. destruct H4 as [[? ?] ?]. repeat split; congruence.
    + apply Ht; [done..|]. by repeat split.
Qed.

(** *** The operations *)
Lemma update_zones_hit name set zs zs' hit :
  update_zones name set zs = Ok (zs', hit) -> length hit <> 0 -> name ∈ zName <$> zs.
Proof.
  revert zs' hit. induction zs as [|z zs IH]; intros zs' hit; cbn [update_zones].
  - by intros [= <- <-].
  - case_bool_decide as Hz; [intros _ _; rewrite fmap_cons, Hz; left|].
    rewrite go_bind_Ok. intros ((zs1 & hit1) & H1 & [= <- <-]) Hl.
    rewrite fmap_cons. right. by eapply IH.
Qed.

Lemma bump_Ok e name d tag d' :
  bump e name d = (Ok tag, d') -> tag <> 0 ->
  name ∈ zName <$> zones d /\ exists zs, d' = set_zones d zs /\ zName <$> zs = zName <$> zones d.
Proof.
  intros Hb Ht. split; [|by eapply bump_state]. unfold bump in Hb.
  destruct (update_zones _ _ _) as [[zs hit]| | |] eqn:E; try done.
  injection Hb as <- <-. by eapply update_zones_hit.
Qed.

(** The check between the serial bump and the insertion. *)
Definition cname_check (e : Env) (zone name rtype rdata : gostring) : st DB storeError unit :=
  if bool_decide (rtype = lit "CNAME") then
    if bool_decide (name = zone) then st_ret (Err (ErrConflict CNAMEAtApex))
    else
      do! other :=
        exec e 2 (exists_row (fun x => at_name zone name x /\
          (rowType x <> lit "CNAME" \/ md5 (rowRData x) <> md5 rdata))) in
      if other : bool then st_ret (Err (ErrConflict (CNAMECannotCoexist name)))
      else st_ret (Ok tt)
  else
    do! cname := exec e 2 (exists_row (in_rrset zone name (lit "CNAME"))) in
    if cname : bool then st_ret (Err (ErrConflict (NameHasCNAME name)))
    else st_ret (Ok tt).

Lemma cname_check_Ok e zone name rtype rdata d d' :
  cname_check e zone name rtype rdata d = (Ok tt, d') ->
  d' = d /\ (rtype = lit "CNAME" -> name <> zone) /\
  forall x, x ∈ records d -> at_name zone name x ->
    if bool_decide (rtype = lit "CNAME")
    then rowType x = lit "CNAME" /\ md5 (rowRData x) = md5 rdata
    else rowType x <> lit "CNAME".
Proof.
  unfold cname_check. case_bool_decide as Hc.
  - case_bool_decide as Hz; [done|].
    intros (b & d1 & (-> & Hb)%exec_Ok%exists_row_Ok & Hk)%st_bind_Ok.
    destruct b; [done|]. injection Hk as <-. split; [done|]. split; [done|].
    intros x Hx Hat. specialize (Hb eq_refl x Hx).
    destruct (decide (rowType x = lit "CNAME")), (decide (md5 (rowRData x) = md5 rdata));
      [done|exfalso; tauto..].
  - intros (b & d1 & (-> & Hb)%exec_Ok%exists_row_Ok & Hk)%st_bind_Ok.
    destruct b; [done|]. injection Hk as <-. split; [done|]. split; [done|].
    intros x Hx Hat Ht. by apply (Hb eq_refl x Hx).
Qed.

Lemma grows_cname_check e zone name rtype rdata : grows (cname_check e zone name rtype rdata).
Proof.
  unfold cname_check. repeat case_bool_decide; [apply grows_ret|..];
    (apply grows_bind; [apply grows_exec; intros d; cbn; lia|intros []; apply grows_ret]).
Qed.

Lemma CreateRecord_db_ok s e r d : db_ok d -> db_ok (snd (CreateRecord s e r d)).
Proof.
  intros Hd. unfold CreateRecord. fold (cname_check e (NormalizeZone (rZone r))
    (NormalizeName (NormalizeZone (rZone r)) (rName r)) (NormalizeType (rType r)) (rRData r)).
  set (zone := NormalizeZone _). set (name := NormalizeName _ _). set (rtype := NormalizeType _).
  apply transaction_db_ok; [done| |].
  - apply grows_bind; [by apply grows_exec, grows_bump|]. intros tag.
    case_bool_decide; [apply grows_ret|]. apply grows_bind; [apply grows_cname_check|]. intros [].
    apply grows_bind; [by apply grows_exec, grows_upsert|]. intros row.
    apply grows_bind; [apply grows_ret|]. intros out. apply grows_bind; [|intros []; apply grows_ret].
    apply grows_exec. intros d'. cbn. lia.
  - intros out d5. rewrite st_bind_Ok. intros (tag & d1 & H1%exec_Ok & H2).
    case_bool_decide as Htag; [done|]. apply bump_Ok in H1 as (Hz & zs & -> & Hzs); [|done].
    apply st_bind_Ok in H2 as ([] & d2 & (-> & Hapex & Hcn)%cname_check_Ok & H3).
    apply st_bind_Ok in H3 as (row & d3 & H3%exec_Ok & H4).
    apply st_bind_Ok in H4 as (out' & d4 & [= Hrec <-] & H5).
    apply st_bind_Ok in H5 as ([] & d4' & [= <-]%exec_Ok & [= <- <-]).
    destruct Hd as [Hk Ht]. apply (keys_ok_zones _ _ Hzs) in Hk.
    apply keys_ok_upsert in H3 as (Hk3 & _ & _ & Hrows); [| done |].
    + split; [rewrite align_ttl_retime; by apply keys_ok_retime|by eapply align_ttl_ok].
    + split; [cbn; by rewrite Hzs|]. split; [done|]. split; [apply NormalizeName_in_zone|]. by split.
Qed.

Lemma DeleteRecord_db_ok e zone name rtype rdata d :
  db_ok d -> db_ok (snd (DeleteRecord e zone name rtype rdata d)).
Proof.
  intros Hd. unfold DeleteRecord. apply transaction_db_ok; [done| |].
  - apply grows_bind; [apply grows_exec; intros d'; cbn; lia|]. intros tag.
    case_bool_decide; [apply grows_ret|]. apply grows_bind; [|intros; apply grows_ret].
    by apply grows_exec, grows_bump.
  - intros [] d3. rewrite st_bind_Ok. intros (tag & d1 & [= <- <-]%exec_Ok & H2).
    case_bool_decide as Htag; [done|].
    apply st_bind_Ok in H2 as (n & d2 & (zs & -> & Hzs)%exec_Ok%bump_state & [= <-]).
    destruct Hd as [Hk Ht]. apply db_ok_zones; [done|]. split; [by apply keys_ok_filter|].
    intros r1 r2 [_ ?]%list_elem_of_filter [_ ?]%list_elem_of_filter. by apply Ht.
Qed.

Lemma autocommit_db_ok {A} e (r : go dbError (A * DB)) d :
  db_ok d -> (forall a d', r = Ok (a, d') -> db_ok d') -> db_ok (snd (autocommit e r d)).
Proof.
  intros Hd Hr. unfold autocommit. destruct r as [[a d']|x| |]; [|by destruct (fault e 0)|done..].
  specialize (Hr a d' eq_refl). destruct (fault e 0); [|done]. by destruct (commit_applied e).
Qed.

Lemma CreateZone_db_ok e z d : db_ok d -> db_ok (snd (CreateZone e z d)).
Proof.
  intros Hd. unfold CreateZone. case_bool_decide as Hne; [done|].
  set (row := mkZone _ _ _ _ _ _ _ _ _ _). set (ins := if bool_decide _ then _ else _).
  assert (Hok : db_ok (snd (autocommit e ins d))).
  { apply autocommit_db_ok; [done|]. intros a d'. unfold ins. case_bool_decide as Hin; [done|].
    intros [= <- <-]. destruct Hd as [[Hz Hzn Hn Hi Hs Hf Hr Hiz Ha Hm Hc] Ht].
    split; [|done]. constructor; cbn; try done.
    - rewrite fmap_app. apply NoDup_app. split; [done|]. split; [|apply NoDup_singleton].
      intros x Hx ->%list_elem_of_singleton. done.
    - rewrite fmap_app. intros [?|Hx%list_elem_of_singleton]%elem_of_app; [done|]. by destruct Hne.
    - eapply Forall_impl; [exact Hf|]. intros r Hx. rewrite fmap_app. apply elem_of_app. by left. }
  destruct (autocommit e ins d) as [r d1]. cbn in Hok |- *.
  destruct (scanZone r) as [|[]| |]; try done. by destruct (isPgCode _ _).
Qed.

Lemma UpdateZone_db_ok e z d : db_ok d -> db_ok (snd (UpdateZone e z d)).
Proof.
  intros Hd. unfold UpdateZone. set (upd := go_bind _ _).
  assert (Hok : db_ok (snd (autocommit e upd d))); [|by destruct (autocommit e upd d)].
  apply autocommit_db_ok; [done|]. intros a d'. unfold upd. rewrite go_bind_Ok.
  intros ((zs & hit) & Hu & (row & _ & [= <- <-])%go_bind_Ok). apply db_ok_zones; [|done].
  eapply update_zones_names; [|exact Hu]. intros z1 z2 Hb%bumpSerial_name. done.
Qed.

Lemma DeleteZone_db_ok e name d : db_ok d -> db_ok (snd (DeleteZone e name d)).
Proof.
  intros Hd. unfold DeleteZone. set (dels := Ok _).
  assert (Hok : db_ok (snd (autocommit e dels d))).
  2: { destruct (autocommit e dels d) as [[n| | |] d1]; try done. by destruct (bool_decide _). }
  apply autocommit_db_ok; [done|]. intros a d' [= <- <-].
  destruct Hd as [Hk Ht]. split.
  - destruct (keys_ok_filter d (fun r => rowZone r <> NormalizeZone name) Hk)
      as [_ _ Hn Hi Hs Hf Hr Hiz Ha Hm Hc]. destruct Hk as [Hz Hzn _ _ _ _ _ _ _ _ _].
    assert (Hsub : forall x, x ∈ zName <$> filter (fun z => zName z <> NormalizeZone name) (zones d) <->
      x ∈ zName <$> zones d /\ x <> NormalizeZone name).
    { intros x. rewrite !list_elem_of_fmap. setoid_rewrite list_elem_of_filter. naive_solver. }
    constructor; try done.
    + eapply sublist_NoDup; [exact Hz|]. apply fmap_sublist, sublist_filter.
    + cbn. rewrite Hsub. by intros [].
    + cbn in *. rewrite Forall_forall in *. intros r Hr'. specialize (Hf r Hr').
      apply Hsub. split; [done|]. by apply list_elem_of_filter in Hr' as [? _].
  - intros r1 r2 [_ ?]%list_elem_of_filter [_ ?]%list_elem_of_filter. by apply Ht.
Qed.

(** *** All of them *)
Inductive op :=
| CreateZoneOp (z : Zone)
| UpdateZoneOp (z : Zone)
| DeleteZoneOp (name : gostring)
| CreateRecordOp (r : Record_)
| DeleteRecordOp (zone name rtype rdata : gostring).

Definition run (s : Store) (e : Env) (o : op) (d : DB) : go storeError unit * DB :=
  match o with
  | CreateZoneOp z => (do! _ := CreateZone e z in st_ret (Ok tt)) d
  | UpdateZoneOp z => (do! _ := UpdateZone e z in st_ret (Ok tt)) d
  | DeleteZoneOp n => DeleteZone e n d
  | CreateRecordOp r => (do! _ := CreateRecord s e r in st_ret (Ok tt)) d
  | DeleteRecordOp z n t x => DeleteRecord e z n t x d
  end.

Inductive reachable (s : Store) : DB -> Prop :=
| reachable_empty : reachable s (mkDB [] [] 1)
| reachable_step e o d : reachable s d -> reachable s (snd (run s e o d)).

Lemma snd_bind_ret {A} (c : st DB storeError A) d : snd ((do! _ := c in st_ret (Ok tt)) d) = snd (c d).
Proof. unfold st_bind. by destruct (c d) as [[]]. Qed.

Lemma run_db_ok s e o d : db_ok d -> db_ok (snd (run s e o d)).
Proof.
  intros Hd. destruct o; cbn [run]; rewrite ?snd_bind_ret.
  - by apply CreateZone_db_ok.
  - by apply UpdateZone_db_ok.
  - by apply DeleteZone_db_ok.
  - by apply CreateRecord_db_ok.
  - by apply DeleteRecord_db_ok.
Qed.

Lemma reachable_db_ok s d : reachable s d -> db_ok d.
Proof.
  induction 1 as [|e o d _ IH]; [|by apply run_db_ok].
  split; [|by intros r1 r2 ?%not_elem_of_nil].
  constructor; cbn; try done; try apply NoDup_nil_2; try apply not_elem_of_nil.
  all: try (by intros r1 r2 ?%not_elem_of_nil). by apply Forall_nil.
Qed.
End Invariant.

(** C10. Whatever operations run, and whichever of their statements fail, the tables stay
    consistent: keys are unique, every record belongs to an existing zone and lies inside it,
    name_rev is the reversed name, a CNAME is the only record at its name and never at the
    apex, and the members of an RRset share one TTL. *)
Theorem Store_invariant `{GoUnicode} `{Postgres} s d : reachable s d -> db_ok d.
Proof. apply reachable_db_ok. Qed.

(** ** Atomicity and serial numbers *)
Section Effects.
Context `{GoUnicode} `{Postgres}.

(** The visible tables, without the sequence. *)
Definition same_tables (d d' : DB) : Prop := zones d' = zones d /\ records d' = records d.

Lemma transaction_atomic {A} e n (body : st DB storeError A) d :
  commit_applied e = false ->
  (forall a, fst (transaction e n body d) <> Ok a) -> same_tables d (snd (transaction e n body d)).
Proof.
  intros Hc. unfold transaction. destruct (fault e 0); [done|].
  destruct (body d) as [[a| | |] d']; [|done..]. destruct (fault e n).
  - by rewrite Hc.
  - intros Hr. by destruct (Hr a).
Qed.

Lemma autocommit_atomic {A} e (r : go dbError (A * DB)) d :
  commit_applied e = false ->
  (forall a, fst (autocommit e r d) <> Ok a) -> snd (autocommit e r d) = d.
Proof.
  intros Hc. unfold autocommit. destruct r as [[a d']|x| |]; [|by destruct (fault e 0)|done..].
  destruct (fault e 0); [by rewrite Hc|]. intros Hr. by destruct (Hr a).
Qed.

Lemma fst_bind_ret {A} (c : st DB storeError A) d :
  fst ((do! _ := c in st_ret (Ok tt)) d) <> Ok tt -> forall a, fst (c d) <> Ok a.
Proof. unfold st_bind. by destruct (c d) as [[]]. Qed.

Lemma filter_all {A} (P : A -> Prop) `{forall x, Decision (P x)} l : Forall P l -> filter P l = l.
Proof. induction 1 as [|x l Hx Hl IH]; [done|]. rewrite filter_cons_True by done. by f_equal. Qed.

Lemma DeleteZone_not_found name d :
  db_ok d -> length (filter (fun z => zName z = name) (zones d)) = 0 ->
  filter (fun z => zName z <> name) (zones d) = zones d /\
  filter (fun r => rowZone r <> name) (records d) = records d.
Proof.
  intros [[_ _ _ _ _ Hf _ _ _ _ _] _] Hl%nil_length_inv.
  assert (Hz : Forall (fun z => zName z <> name) (zones d)).
  { apply Forall_forall. intros z Hz. exact (filter_nil_elem _ _ _ Hl Hz). }
  split; apply filter_all; [done|]. eapply Forall_impl; [exact Hf|].
  intros r (z & Hr & Hin)%list_elem_of_fmap. rewrite Hr. rewrite Forall_forall in Hz. by apply Hz.
Qed.

Lemma run_atomic s e o d :
  db_ok d -> commit_applied e = false -> fst (run s e o d) <> Ok tt ->
  same_tables d (snd (run s e o d)).
Proof.
  intros Hd Hc. destruct o; cbn [run]; rewrite ?snd_bind_ret; intros Hr;
    try (specialize (fst_bind_ret _ _ Hr) as Ha; clear Hr).
  - unfold CreateZone in *. case_bool_decide; [done|]. set (ins := if bool_decide _ then _ else _) in *.
    enough (snd (autocommit e ins d) = d) as Hs.
    { destruct (autocommit e ins d) as [r d1]. cbn in Hs. subst d1.
      destruct (scanZone r) as [|[]| |]; try done. by destruct (isPgCode _ _). }
    apply autocommit_atomic; [done|]. intros a Hok. destruct (autocommit e ins d) as [r d1].
    cbn in Hok. subst r. by destruct (Ha a).
  - unfold UpdateZone in *. set (upd := go_bind _ _) in *.
    enough (snd (autocommit e upd d) = d) as Hs by (destruct (autocommit e upd d); cbn in *; by subst).
    apply autocommit_atomic; [done|]. intros a Hok. destruct (autocommit e upd d) as [r d1].
    cbn in Hok. subst r. by destruct (Ha a).
  - unfold DeleteZone, autocommit in *. destruct (fault e 0); [by rewrite Hc|].
    case_bool_decide as Hz; [|done]. destruct (DeleteZone_not_found _ _ Hd Hz) as [E1 E2].
    unfold same_tables. cbn. by rewrite E1, E2.
  - by apply transaction_atomic.
  - apply transaction_atomic; [done|]. intros [] Hok. done.
Qed.


(** How a zone row changes when the zone [name] is written to. *)
Definition bumped (e : Env) (name : gostring) (z z' : Zone) : Prop :=
  zName z' = zName z /\
  if bool_decide (zName z = name) then (zSerial z < zSerial z' /\ now_epoch e <= zSerial z')%Z
  else z' = z.

Lemma update_zones_bumped e name set zs zs' hit :
  (forall z z', set z = Ok z' -> zName z' = zName z /\ (zSerial z < zSerial z' /\ now_epoch e <= zSerial z')%Z) ->
  update_zones name set zs = Ok (zs', hit) -> Forall2 (bumped e name) zs zs'.
Proof.
  intros Hset. revert zs' hit. induction zs as [|z zs IH]; intros zs' hit; cbn [update_zones].
  - by intros [= <- <-].
  - case_bool_decide as Hz.
    + rewrite go_bind_Ok. intros (z' & Hz' & ((zs1 & hit1) & H1 & [= <- <-])%go_bind_Ok).
      constructor; [|by eapply IH]. unfold bumped. rewrite bool_decide_eq_true_2 by done. by apply Hset.
    + rewrite go_bind_Ok. intros ((zs1 & hit1) & H1 & [= <- <-]).
      constructor; [|by eapply IH]. unfold bumped. by rewrite bool_decide_eq_false_2.
Qed.

Lemma bumpSerial_bumps e z z' :
  bumpSerial e z = Ok z' -> zName z' = zName z /\ (zSerial z < zSerial z' /\ now_epoch e <= zSerial z')%Z.
Proof. unfold bumpSerial. destruct (_ <? _)%Z; [done|]. intros [= <-]. cbn. split; [done|lia]. Qed.

Lemma bump_bumped e name d n d' :
  bump e name d = (Ok n, d') -> records d' = records d /\ Forall2 (bumped e name) (zones d) (zones d').
Proof.
  unfold bump. destruct (update_zones _ _ _) as [[zs hit]| | |] eqn:E; intros [= <- <-]. split; [done|].
  eapply update_zones_bumped; [|exact E]. apply bumpSerial_bumps.
Qed.

Lemma transaction_Ok {A} e n (body : st DB storeError A) d a d' :
  transaction e n body d = (Ok a, d') -> body d = (Ok a, d').
Proof.
  unfold transaction. destruct (fault e 0); [done|].
  destruct (body d) as [[]]; [|done..]. by destruct (fault e n).
Qed.

Lemma autocommit_Ok {A} e (r : go dbError (A * DB)) d a d' :
  autocommit e r d = (Ok a, d') -> r = Ok (a, d').
Proof.
  unfold autocommit. destruct r as [[]|x| |]; [|by destruct (fault e 0)|done..].
  destruct (fault e 0); [done|]. by intros [= <- <-].
Qed.

Lemma scanZone_Ok r z : scanZone r = Ok z -> r = Ok z.
Proof. unfold scanZone. destruct r as [|[| | | |[]]| |]; naive_solver. Qed.

Lemma upsert_zones e row d r d' : upsert e row d = (r, d') -> zones d' = zones d.
Proof. unfold upsert. destruct (_ <? _)%Z; [|destruct (filter _ _)]; by intros [= <- <-]. Qed.

(** The zone whose contents an operation changes. *)
Definition written_zone (o : op) : option gostring :=
  match o with
  | UpdateZoneOp z => Some (NormalizeZone (zName z))
  | CreateRecordOp r => Some (NormalizeZone (rZone r))
  | DeleteRecordOp z _ _ _ => Some (NormalizeZone z)
  | CreateZoneOp _ | DeleteZoneOp _ => None
  end.

(** C28. Every successful change to the contents of a zone makes the zone's serial number
    strictly larger and at least the clock, and touches no other zone. *)
Theorem Store_serial_increases s e o d d' name :
  run s e o d = (Ok tt, d') -> written_zone o = Some name ->
  Forall2 (bumped e name) (zones d) (zones d').
Proof.
  intros Hrun Hw. destruct o; try done; injection Hw as <-; cbn [run] in Hrun.
  - apply st_bind_Ok in Hrun as (z' & d1 & Hu & [= <-]). unfold UpdateZone in Hu.
    destruct (autocommit _ _ _) as [r d2] eqn:E. injection Hu as Hs%scanZone_Ok <-. subst r.
    apply autocommit_Ok in E. apply go_bind_Ok in E as ((zs & hit) & Hz & E).
    apply go_bind_Ok in E as (row & _ & [= <- <-]). cbn [zones set_zones].
    eapply update_zones_bumped; [|exact Hz]. intros z1 z2 Hb%bumpSerial_bumps. done.
  - apply st_bind_Ok in Hrun as (out & d1 & Hc%transaction_Ok & [= <-]).
    apply st_bind_Ok in Hc as (tag & d2 & [_ Hb]%exec_Ok%bump_bumped & Hc).
    case_bool_decide; [done|]. fold (cname_check e (NormalizeZone (rZone r))
      (NormalizeName (NormalizeZone (rZone r)) (rName r)) (NormalizeType (rType r)) (rRData r)) in Hc.
    apply st_bind_Ok in Hc as ([] & d3 & [-> _]%cname_check_Ok & Hc).
    apply st_bind_Ok in Hc as (row & d4 & Hu%exec_Ok%upsert_zones & Hc).
    apply st_bind_Ok in Hc as (out' & d5 & [= _ <-] & Hc).
    apply st_bind_Ok in Hc as ([] & d6 & [= <-]%exec_Ok & [= _ <-]). cbn. by rewrite Hu.
  - apply transaction_Ok, st_bind_Ok in Hrun as (tag & d1 & [= <- <-]%exec_Ok & Hr).
    case_bool_decide; [done|]. apply st_bind_Ok in Hr as (n & d2 & [_ Hb]%exec_Ok%bump_bumped & [= <-]). done.
Qed.
End Effects.

(** ** What the record operations do to the records *)
Section Records.
Context `{GoUnicode} `{Postgres}.

(** The rows away from one name are the same. *)
Definition changes_only (zone name : gostring) (d d' : DB) : Prop :=
  filter (fun r => ~ at_name zone name r) (records d') = filter (fun r => ~ at_name zone name r) (records d).

Lemma filter_retime (Q : recordRow -> Prop) `{forall r, Decision (Q r)} P t (rows : list recordRow) :
  (forall r, P r = true -> ~ Q r /\ ~ Q (set_ttl r t)) ->
  filter Q (retime P t <$> rows) = filter Q rows.
Proof.
  intros HP. induction rows as [|r rows IH]; [done|]. rewrite fmap_cons, !filter_cons, IH.
  assert (Hr : retime P t r = r \/ ~ Q (retime P t r) /\ ~ Q r).
  { unfold retime. destruct (P r) eqn:E; [right|by left]. destruct (HP r E). done. }
  destruct Hr as [-> |[? ?]]; [done|]. by rewrite !decide_False.
Qed.

Lemma upsert_changes_only e row d r d' :
  upsert e row d = (r, d') -> changes_only (rowZone row) (rowName row) d d'.
Proof.
  unfold upsert, changes_only. destruct (_ <? _)%Z; [by intros [= <- <-]|].
  destruct (filter _ _); intros [= <- <-]; cbn [records].
  - rewrite filter_app, filter_cons_False, filter_nil, app_nil_r; [done|]. cbn. by intros [].
  - apply (filter_retime _ (fun r => bool_decide (same_member (rowZone row) (rowName row) (rowType row) (rowRData row) r))).
    intros x [[[? ?] ?] ?]%bool_decide_eq_true. by split; intros [].
Qed.

Lemma align_ttl_changes_only zone name rtype t rows :
  filter (fun r => ~ at_name zone name r) (align_ttl zone name rtype t rows) =
  filter (fun r => ~ at_name zone name r) rows.
Proof.
  rewrite align_ttl_retime. apply filter_retime.
  intros x [[[? ?] ?] ?]%bool_decide_eq_true. by split; intros [].
Qed.

(** The effect of a successful [CreateRecord], statement by statement. *)
Lemma CreateRecord_Ok s e r d out d' :
  CreateRecord s e r d = (Ok out, d') ->
  let zone := NormalizeZone (rZone r) in
  let name := NormalizeName zone (rName r) in
  let rtype := NormalizeType (rType r) in
  zone ∈ zName <$> zones d /\
  exists d1 row d3, records d1 = records d /\ Forall2 (bumped e zone) (zones d) (zones d1) /\
    upsert e (mkRow 0 zone name (reverseName name) rtype (rTTL r) (rRData r) 0) d1 = (Ok row, d3) /\
    scanRecord s row = Ok out /\
    d' = set_records d3 (align_ttl zone name rtype (rTTL r) (records d3)).
Proof.
  intros Hc%transaction_Ok zone name rtype.
  apply st_bind_Ok in Hc as (tag & d2 & Hb%exec_Ok & Hc). pose proof (bump_bumped _ _ _ _ _ Hb) as [Hrec Hz].
  case_bool_decide; [done|]. apply bump_Ok in Hb as [Hin _]; [|done]. split; [done|].
  fold (cname_check e zone name rtype (rRData r)) in Hc.
  apply st_bind_Ok in Hc as ([] & d3 & [-> _]%cname_check_Ok & Hc).
  apply st_bind_Ok in Hc as (row & d4 & Hu%exec_Ok & Hc).
  apply st_bind_Ok in Hc as (out' & d5 & [= Hs <-] & Hc).
  apply st_bind_Ok in Hc as ([] & d6 & [= <-]%exec_Ok & [= <- <-]). by exists d2, row, d4.
Qed.

Lemma DeleteRecord_Ok e zone name rtype rdata d d' :
  DeleteRecord e zone name rtype rdata d = (Ok tt, d') ->
  let z := NormalizeZone zone in
  let hit := same_member z (NormalizeName z name) (NormalizeType rtype) rdata in
  filter hit (records d) <> [] /\ records d' = filter (fun r => ~ hit r) (records d) /\
  Forall2 (bumped e z) (zones d) (zones d').
Proof.
  intros Hr%transaction_Ok z hit. apply st_bind_Ok in Hr as (tag & d1 & [= <- <-]%exec_Ok & Hr).
  case_bool_decide as Hl; [done|]. apply st_bind_Ok in Hr as (n & d2 & [Hrec Hb]%exec_Ok%bump_bumped & [= <-]).
  split; [|done]. intros E. apply Hl. fold z hit. by rewrite E.
Qed.

Lemma align_ttl_elem zone name rtype t rows x :
  x ∈ rows -> in_rrset zone name rtype x -> set_ttl x t ∈ align_ttl zone name rtype t rows.
Proof.
  intros Hx Hin. apply list_elem_of_fmap. exists x. split; [|done]. case_bool_decide as Hc; [done|].
  destruct (decide (rowTTL x = t)) as [<-|]; [by destruct x|]. by destruct Hc.
Qed.

(** The row an upsert returns is in the table. *)
Lemma upsert_row e row d row' d' :
  upsert e row d = (Ok row', d') ->
  same_member (rowZone row) (rowName row) (rowType row) (rowRData row) row' /\
  rowTTL row' = rowTTL row /\ row' ∈ records d'.
Proof.
  unfold upsert. destruct (_ <? _)%Z; [done|]. cbn [rowZone rowName rowType rowRData rowTTL rowNameRev].
  destruct (filter _ (records d)) as [|old l] eqn:E; intros [= <- <-].
  - split; [by repeat split|]. split; [done|]. apply elem_of_app. right. left.
  - assert (Hold : old ∈ filter (same_member (rowZone row) (rowName row) (rowType row) (rowRData row)) (records d))
      by (rewrite E; left).
    apply list_elem_of_filter in Hold as [Hm Hold]. split; [by destruct Hm as [[[? ?] ?] ?]|].
    split; [done|]. apply list_elem_of_fmap. exists old. by rewrite bool_decide_eq_true_2.
Qed.

(** The row of a created record. *)
Lemma CreateRecord_row s e r d out d' :
  CreateRecord s e r d = (Ok out, d') ->
  let zone := NormalizeZone (rZone r) in
  exists row, row ∈ records d' /\ same_member zone (NormalizeName zone (rName r)) (NormalizeType (rType r)) (rRData r) row /\
    rowTTL row = rTTL r /\ scanRecord s row = Ok out.
Proof.
  intros Hc zone. apply CreateRecord_Ok in Hc as (_ & d1 & row & d3 & _ & _ & Hu & Hs & ->). fold zone in Hu |- *.
  apply upsert_row in Hu as (Hm & Ht & Hin). cbn in Hm, Ht. exists row.
  split; [|done]. destruct Hm as [Hm ?]. pose proof (align_ttl_elem _ _ _ (rTTL r) _ _ Hin Hm) as Ha.
  rewrite <- Ht in Ha at 1. by destruct row.
Qed.


(** C30. A successful [DeleteRecord] removes the record, of which there was at least one row,
    and no other row. *)
Theorem DeleteRecord_correct e zone name rtype rdata d d' :
  DeleteRecord e zone name rtype rdata d = (Ok tt, d') ->
  let z := NormalizeZone zone in
  let member := same_member z (NormalizeName z name) (NormalizeType rtype) rdata in
  (exists r, r ∈ records d /\ member r) /\ (forall r, r ∈ records d' <-> r ∈ records d /\ ~ member r).
Proof.
  intros Hd z member. apply DeleteRecord_Ok in Hd as (Hne & Hrec & _). fold z member in Hne, Hrec. split.
  - destruct (filter member (records d)) as [|r l] eqn:E; [done|]. exists r.
    assert (Hr : r ∈ filter member (records d)) by (rewrite E; left).
    by apply list_elem_of_filter in Hr as [? ?].
  - intros r. rewrite Hrec, list_elem_of_filter. tauto.
Qed.
End Records.
