(* ===== verification/StoreQueries.v ===== *)
(** * Zone selection and pagination

    [FindZone] picks the zone with the longest matching name; [ListZones] and [ListRecords]
    enumerate their tables page by page.  A reference PostgreSQL closes the file. *)

From Stdlib Require Import ZArith Lia Ascii String.
From stdpp Require Import base list strings sorting.
From S2P Require Import Prelude GoStrings Message WireNames Names RData RDataCorrect Store StoreCorrect.

(** ** Ancestors of a name *)
Lemma app_dot_cases (w l x r : gostring) :
  "."%char ∉ l -> w ++ "."%char :: x = l ++ "."%char :: r ->
  x = r \/ exists w', r = w' ++ "."%char :: x.
Proof.
  intros Hl H. apply app_eq_inv in H as [(k & Hw & Hk)|(k & Hw & Hk)].
  - destruct k as [|c k]; cbn in Hk; [by injection Hk as ->; left|].
    injection Hk as <- ->. right. by exists k.
  - destruct k as [|c k]; cbn in Hk; [by injection Hk as ->; left|].
    injection Hk as <- Hk. subst l. exfalso. apply Hl. rewrite elem_of_app. right. left.
Qed.

Lemma drop_past {A} (l : list A) c r : drop (length l + 1) (l ++ c :: r) = r.
Proof. induction l as [|x l IH]; [done|]. apply IH. Qed.

Lemma below_step x l r :
  "."%char ∉ l -> below x (l ++ "."%char :: r) <-> x = r \/ below x r.
Proof.
  intros Hl. split.
  - intros [w Hw]. symmetry in Hw. by apply app_dot_cases in Hw.
  - intros [-> |[w ->]]; [by exists l|]. exists (l ++ "."%char :: w). by rewrite <- app_assoc.
Qed.

Lemma below_no_dot x n : "."%char ∉ n -> ~ below x n.
Proof. intros Hn [w ->]. apply Hn. rewrite elem_of_app. right. left. Qed.

(** [at_or_below x n]: the name [n] is [x] or a subdomain of it. *)
Definition at_or_below (x n : gostring) : Prop := n = x \/ below x n.

Lemma candidates_loop_spec fuel name acc :
  length name <= fuel -> exists cs, candidates_loop fuel name acc = Ok (acc ++ cs) /\
  forall x, x ∈ cs <-> x <> [] /\ at_or_below x name.
Proof.
  revert name acc. induction fuel as [|fuel IH]; intros name acc Hf; cbn [candidates_loop].
  all: case_bool_decide as Hn.
  1,3: subst name; exists []; rewrite app_nil_r; split; [done|]; intros x; rewrite elem_of_nil;
    split; [done|]; intros [Hx [?|Hb]]; [done|]; by apply below_no_dot in Hb; [|apply not_elem_of_nil].
  1: destruct name; [done|cbn in Hf; lia].
  unfold at_or_below. destruct (IndexByte name "."%char) as [i|] eqn:Hi.
  - apply IndexByte_Some in Hi as (l & r & -> & <- & Hl).
    rewrite drop_past. rewrite length_app in Hf. cbn in Hf. destruct (IH r (acc ++ [l ++ "."%char :: r])) as (cs & -> & Hcs); [lia|].
    exists ((l ++ "."%char :: r) :: cs). rewrite <- app_assoc. split; [done|]. intros x.
    rewrite elem_of_cons, Hcs, below_step by done. unfold at_or_below. naive_solver.
  - apply IndexByte_None in Hi. exists [name]. split; [done|]. intros x.
    rewrite list_elem_of_singleton. split; [naive_solver|].
    intros [Hx [?|Hb]]; [done|]. by apply below_no_dot in Hb.
Qed.

Lemma below_trans x y z : below x y -> below y z -> below x z.
Proof. intros [w ->] [v ->]. exists (v ++ "."%char :: w). by rewrite <- app_assoc. Qed.

(** The ancestors of one name are a chain. *)
Lemma ancestors_chain q x y :
  at_or_below x q -> at_or_below y q -> x = y \/ below x y \/ below y x.
Proof.
  induction q as [q Hq|l r Hl IH] using (sep_ind "."%char).
  - intros [->|Hx]; [|by apply below_no_dot in Hx]. intros [->|Hy]; [by left|by apply below_no_dot in Hy].
  - unfold at_or_below. rewrite !below_step by done. unfold at_or_below in IH.
    intros [<-|Hx] [<-|Hy].
    + by left.
    + right. right. by apply below_step.
    + right. left. by apply below_step.
    + apply IH; naive_solver.
Qed.

Lemma char_length_below x y : below x y -> char_length x < char_length y.
Proof.
  intros [w ->]. unfold char_length. cbn [lit list_ascii_of_string app].
  rewrite filter_app, length_app, filter_cons_True by done. cbn. lia.
Qed.

(** ** ORDER BY *)
Section OrderBy.
Context {A : Type} (lt : A -> A -> bool).
Hypothesis lt_asym : forall x y, lt x y = true -> lt y x = false.
Hypothesis lt_trans : forall x y z, lt y x = false -> lt z y = false -> lt z x = false.

Let le (x y : A) : Prop := lt y x = false.

Lemma insert_by_perm x l : insert_by lt x l ≡ₚ x :: l.
Proof.
  induction l as [|y l IH]; [done|]. cbn. destruct (lt y x); [|done].
  rewrite IH. constructor.
Qed.

Lemma order_by_perm l : order_by lt l ≡ₚ l.
Proof. induction l as [|x l IH]; [done|]. cbn. by rewrite insert_by_perm, IH. Qed.

Lemma insert_by_sorted x l : StronglySorted le l -> StronglySorted le (insert_by lt x l).
Proof.
  induction 1 as [|y l Hl IH Hy]; cbn; [by repeat constructor|]. destruct (lt y x) eqn:E.
  - constructor; [done|]. rewrite insert_by_perm. constructor; [by apply lt_asym|done].
  - constructor; [by constructor|]. constructor; [done|].
    eapply Forall_impl; [exact Hy|]. intros z Hz. by apply (lt_trans _ y).
Qed.

Lemma order_by_sorted l : StronglySorted le (order_by lt l).
Proof. induction l as [|x l IH]; [constructor|]. by apply insert_by_sorted. Qed.
End OrderBy.

(** ** Finding the zone of a name *)

(** The zone a name belongs to: the deepest zone at or above it. *)
Definition deepest_zone (d : DB) (qname : gostring) (z : Zone) : Prop :=
  z ∈ zones d /\ zName z <> [] /\ at_or_below (zName z) qname /\
  forall z', z' ∈ zones d -> zName z' <> [] -> at_or_below (zName z') qname ->
    at_or_below (zName z') (zName z).

Lemma FindZone_spec `{GoUnicode} e qname d :
  env_ok e ->
  match FindZone e qname d with
  | Ok z => deepest_zone d (NormalizeZone qname) z
  | Err ErrNotFound =>
    forall z, z ∈ zones d -> zName z <> [] -> ~ at_or_below (zName z) (NormalizeZone qname)
  | Err x => statement_error e x
  | _ => False
  end.
Proof.
  intros He. unfold FindZone. set (q := NormalizeZone qname).
  destruct (candidates_loop_spec (length q) q [] ltac:(done)) as (cs & -> & Hcs). cbn [go_bind app].
  case_bool_decide as Hl.
  - apply nil_length_inv in Hl as ->. intros z _ Hz Hq.
    apply (not_elem_of_nil (zName z)), Hcs. done.
  - set (rows := filter _ (zones d)).
    pose proof (order_by_perm longer rows) as Hp.
    assert (Hs : StronglySorted (fun z1 z2 => longer z2 z1 = false) (order_by longer rows)).
    { apply order_by_sorted; unfold longer; intros *; rewrite ?bool_decide_eq_true, !bool_decide_eq_false; lia. }
    assert (Hrows : forall z, z ∈ rows <-> z ∈ zones d /\ zName z <> [] /\ at_or_below (zName z) q).
    { intros z. unfold rows. rewrite list_elem_of_filter, Hcs. tauto. }
    unfold stmt. destruct (fault e 0) as [x|] eqn:Hx.
    + specialize (He 0). destruct x; cbn; try done; by repeat econstructor.
    + destruct (order_by longer rows) as [|z zs]; cbn.
      * intros z Hz Hne Hq. apply (not_elem_of_nil z). rewrite Hp. by apply Hrows.
      * assert (Hz : z ∈ rows) by (rewrite <- Hp; left). apply Hrows in Hz as (Hz & Hne & Hq).
        repeat split; [done..|]. intros z' Hz' Hne' Hq'.
        assert (Hin : z' ∈ z :: zs) by (rewrite Hp; by apply Hrows).
        destruct (ancestors_chain q (zName z) (zName z') Hq Hq') as [Heq|[Hb|Hb]].
        -- by left.
        -- exfalso. apply char_length_below in Hb. apply elem_of_cons in Hin as [-> |Hin]; [lia|].
           apply StronglySorted_inv in Hs as [_ Hs]. rewrite Forall_forall in Hs. specialize (Hs z' Hin).
           unfold longer in Hs. apply bool_decide_eq_false in Hs. lia.
        -- by right.
Qed.

(** C32. [FindZone] returns the deepest zone at or above the name, and says "not found" only
    when no zone encloses it; any other error is the failure of its statement. *)
Theorem FindZone_correct `{GoUnicode} e qname d :
  env_ok e ->
  match FindZone e qname d with
  | Ok z => deepest_zone d (NormalizeZone qname) z
  | Err ErrNotFound =>
    forall z, z ∈ zones d -> zName z <> [] -> ~ at_or_below (zName z) (NormalizeZone qname)
  | Err x => statement_error e x
  | _ => False
  end.
Proof. apply FindZone_spec. Qed.

(** ** Pagination *)

(** A client that asks for page after page until it gets no token. *)
Fixpoint follow {A} (fuel : nat) (list_page : gostring -> go storeError (list A * gostring))
    (after : gostring) : go storeError (list A) :=
  match fuel with
  | 0 => NoFuel
  | S fuel' =>
    let! (rows, next) := list_page after in
    if bool_decide (next = []) then Ok rows
    else
      let! more := follow fuel' list_page next in
      Ok (rows ++ more)
  end.

(** If the page behind the token of a row holds the rows after it, the pages together hold
    every row once, in order. *)
Lemma follow_complete {A} (limit : nat) (tok : A -> gostring) list_page (all : list A) :
  0 < limit -> (forall x, x ∈ all -> tok x <> []) ->
  list_page [] = page (Z.of_nat limit) tok (take (S limit) all) ->
  (forall l x r, all = l ++ x :: r -> list_page (tok x) = page (Z.of_nat limit) tok (take (S limit) r)) ->
  follow (S (length all)) list_page [] = Ok all.
Proof.
  intros Hlim Htok H0 Hnext.
  enough (forall fuel pre rest after, length rest < fuel -> all = pre ++ rest ->
    list_page after = page (Z.of_nat limit) tok (take (S limit) rest) ->
    follow fuel list_page after = Ok rest) as Hgen
    by (apply (Hgen _ [] all); [lia|done..]).
  intros fuel. induction fuel as [|fuel IH]; intros pre rest after Hf Hall Hp; [lia|].
  cbn [follow]. rewrite Hp. unfold page. rewrite length_take.
  destruct (Z.ltb_spec (Z.of_nat limit) (Z.of_nat (S limit `min` length rest))).
  - rewrite (proj2 (Z.ltb_ge _ _)), (proj2 (Z.ltb_ge _ _)) by lia.
    rewrite Nat2Z.id, take_take, Nat.min_l by lia.
    assert (Hi : Z.to_nat (Z.of_nat limit - 1) < length (take limit rest)) by (rewrite length_take; lia).
    destruct (index_lt (E := storeError) _ _ Hi) as (x & Hx & ->). cbn [go_bind].
    assert (Hsplit : rest = take (limit - 1) rest ++ x :: drop limit rest).
    { rewrite lookup_take_Some in Hx. destruct Hx as [Hx _].
      replace (Z.to_nat (Z.of_nat limit - 1)) with (limit - 1) in Hx by lia.
      rewrite <- (take_drop_middle _ _ _ Hx) at 1. by replace (S (limit - 1)) with limit by lia. }
    assert (Hin : x ∈ all) by (rewrite Hall, Hsplit, elem_of_app, elem_of_app; right; right; left).
    rewrite bool_decide_eq_false_2 by (by apply Htok).
    rewrite (IH (pre ++ take limit rest) (drop limit rest)); cbn [go_bind].
    + by rewrite take_drop.
    + rewrite length_drop. lia.
    + by rewrite <- app_assoc, take_drop.
    + apply (Hnext (pre ++ take (limit - 1) rest)). rewrite Hall, Hsplit at 1. by rewrite <- app_assoc.
  - cbn [go_bind]. rewrite bool_decide_eq_true_2 by done. by rewrite take_ge by lia.
Qed.

(** Selecting rows commutes with sorting them. *)
Lemma order_by_filter {A} (lt : A -> A -> bool) (P : A -> Prop) `{forall x, Decision (P x)} l :
  (forall x y, lt x y = true -> lt y x = false) ->
  (forall x y z, lt y x = false -> lt z y = false -> lt z x = false) ->
  order_by lt (filter P l) = filter P (order_by lt l).
Proof.
  intros Ha Ht. induction l as [|x l IH]; [done|]. rewrite filter_cons. cbn [order_by foldr].
  fold (order_by lt l). pose proof (order_by_sorted lt Ha Ht l) as Hs.
  assert (Hins : forall k, StronglySorted (fun a b => lt b a = false) k ->
    filter P (insert_by lt x k) = if decide (P x) then insert_by lt x (filter P k) else filter P k).
  { clear -Ht. induction 1 as [|y k Hk IH Hy]; cbn [insert_by].
    - rewrite filter_cons. by destruct (decide (P x)).
    - destruct (lt y x) eqn:E.
      + rewrite !filter_cons, IH. destruct (decide (P y)), (decide (P x)); cbn [insert_by]; by rewrite ?E.
      + rewrite (filter_cons P x). destruct (decide (P x)); [|done].
        destruct (filter P (y :: k)) as [|z k'] eqn:Ez; [done|]. cbn [insert_by].
        assert (Hz : z ∈ filter P (y :: k)) by (rewrite Ez; left).
        apply list_elem_of_filter in Hz as [_ [-> |Hz]%elem_of_cons]; [by rewrite E|].
        rewrite Forall_forall in Hy. by rewrite (Ht x y z) by (done || by apply Hy). }
  rewrite Hins, <- IH by done. by destruct (decide (P x)).
Qed.

(** In a strictly sorted list the rows behind a row are those with a larger key. *)
Lemma filter_after {A} (lt : A -> A -> bool) (l r : list A) x :
  (forall y, lt y y = false) -> (forall y z, lt y z = true -> lt z y = false) ->
  StronglySorted (fun a b => lt a b = true) (l ++ x :: r) ->
  filter (fun y => lt x y = true) (l ++ x :: r) = r.
Proof.
  intros Hi Ha. induction l as [|y l IH]; cbn [app]; intros [Hs Hf]%StronglySorted_inv.
  - rewrite filter_cons_False by (by rewrite Hi). apply filter_all. exact Hf.
  - rewrite filter_cons_False; [by apply IH|]. rewrite Forall_app, Forall_cons in Hf.
    destruct Hf as (_ & Hyx & _). by rewrite (Ha _ _ Hyx).
Qed.

Lemma strictly_sorted {A K} (lt : A -> A -> bool) (key : A -> K) (l : list A) :
  (forall x y, key x = key y \/ lt x y = true \/ lt y x = true) ->
  NoDup (key <$> l) -> StronglySorted (fun a b => lt b a = false) l ->
  StronglySorted (fun a b => lt a b = true) l.
Proof.
  intros Ht. induction l as [|x l IH]; [constructor|]. rewrite fmap_cons.
  intros [Hx Hn]%NoDup_cons [Hs Hf]%StronglySorted_inv. constructor; [by apply IH|].
  rewrite Forall_forall in *. intros y Hy. destruct (Ht x y) as [E|[E|E]]; [|done|].
  - exfalso. apply Hx. rewrite E. by apply list_elem_of_fmap_2.
  - by rewrite (Hf y Hy) in E.
Qed.

Definition no_fault (e : Env) : Prop := forall n, fault e n = None.

Lemma stmt_no_fault {A} e n (r : go dbError A) : no_fault e -> stmt e n r = go_wrap DBError r.
Proof. intros He. unfold stmt. by rewrite He. Qed.

Lemma limit_rows_page {A} (limit : nat) (rows : list A) :
  limit_rows (Z.of_nat limit + 1) rows = Ok (take (S limit) rows).
Proof.
  unfold limit_rows. rewrite (proj2 (Z.ltb_ge _ _)) by lia.
  by replace (Z.to_nat (Z.of_nat limit + 1)) with (S limit) by lia.
Qed.

Section Pages.
Context `{GoUnicode} `{PostgresLaws}.

(** *** Zones by name *)
Definition name_lt (z1 z2 : Zone) : bool := text_lt (zName z1) (zName z2).

Lemma text_lt_asym x y : text_lt x y = true -> text_lt y x = false.
Proof.
  intros Hxy. destruct (text_lt y x) eqn:E; [|done].
  by rewrite <- (text_lt_irrefl x), (text_lt_trans x y x).
Qed.

Lemma text_lt_neg_trans x y z : text_lt y x = false -> text_lt z y = false -> text_lt z x = false.
Proof.
  intros Hyx Hzy. destruct (text_lt z x) eqn:E; [|done].
  destruct (text_lt_total z y) as [-> |[Hl|Hl]]; [congruence..|].
  by rewrite (text_lt_trans y z x) in Hyx.
Qed.

Lemma ListZones_page e limit after d :
  no_fault e ->
  ListZones e (Z.of_nat limit) after d =
  page (Z.of_nat limit) zName
    (take (S limit) (filter (fun z => text_lt after (zName z) = true) (order_by name_lt (zones d)))).
Proof.
  intros He. unfold ListZones. rewrite stmt_no_fault, limit_rows_page by done. cbn [go_wrap go_bind].
  rewrite (proj2 (Z.ltb_ge _ _)), stmt_no_fault by (lia || done). cbn [go_wrap go_bind].
  do 2 f_equal. apply (order_by_filter name_lt); unfold name_lt; intros *;
    [apply text_lt_asym|apply text_lt_neg_trans].
Qed.

(** Following the page tokens of [ListZones] gives every zone exactly once, in the order
    of their names, for every page size. *)
Theorem ListZones_complete e limit d :
  no_fault e -> db_ok d -> 0 < limit ->
  follow (S (length (zones d))) (fun after => ListZones e (Z.of_nat limit) after d) [] =
  Ok (order_by name_lt (zones d)).
Proof.
  intros He [Hk _] Hlim. pose proof (order_by_perm name_lt (zones d)) as Hp.
  rewrite <- (Permutation_length Hp).
  assert (Hne : forall z, z ∈ order_by name_lt (zones d) -> zName z <> []).
  { intros z Hz Hz0. rewrite Hp in Hz. apply (ok_zone_names _ Hk). rewrite <- Hz0.
    by apply list_elem_of_fmap_2. }
  assert (Hs : StronglySorted (fun a b => name_lt a b = true) (order_by name_lt (zones d))).
  { apply (strictly_sorted _ zName).
    - intros x y. apply text_lt_total.
    - rewrite Hp. apply (ok_zones _ Hk).
    - apply order_by_sorted; unfold name_lt; intros *; [apply text_lt_asym|apply text_lt_neg_trans]. }
  apply follow_complete with (limit := limit) (tok := zName); [done|exact Hne| |].
  - rewrite ListZones_page by done. f_equal. f_equal. apply filter_all, Forall_forall.
    intros z Hz. by apply text_lt_empty, Hne.
  - intros l x r Hall. rewrite ListZones_page, Hall by done. f_equal. f_equal.
    apply (filter_after name_lt); unfold name_lt.
    + intros. apply text_lt_irrefl.
    + intros *. apply text_lt_asym.
    + by rewrite <- Hall.
Qed.

(** *** Records by id *)
Definition id_lt (r1 r2 : recordRow) : bool := (rowID r1 <? rowID r2)%Z.

Definition scan (s : Store) (row : recordRow) : Record_ :=
  match scanRecord s row with
  | Ok r => r
  | _ => mkRecord (rowID row) [] [] [] 0 [] 0 [] None
  end.

Lemma scanRecords_scan s rows : encoder_total s -> scanRecords s rows = Ok (scan s <$> rows).
Proof.
  intros Ht. apply scanRecords_Forall2. induction rows as [|row rows IH]; [constructor|].
  rewrite fmap_cons. constructor; [|done]. unfold record_of, scan.
  by destruct (scanRecord_total s row Ht) as [r ->].
Qed.

Lemma scan_ID s row : rID (scan s row) = rowID row.
Proof.
  unfold scan, scanRecord. destruct (encode s) as [enc|]; [|done].
  by destruct (enc _ _) as [|[]| |].
Qed.

Definition zone_rows (zone : gostring) (d : DB) : list recordRow :=
  filter (fun r => rowZone r = zone) (records d).

Lemma ListRecords_page s e zone limit after afterID d :
  no_fault e -> encoder_total s ->
  (after = [] /\ afterID = 0%Z \/ after = FormatInt afterID /\ (0 <= afterID < 2 ^ 63)%Z) ->
  ListRecords s e zone (Z.of_nat limit) after d =
  page (Z.of_nat limit) (fun r => FormatInt (rID r))
    (take (S limit) (scan s <$> filter (fun r => (afterID < rowID r)%Z)
       (order_by id_lt (zone_rows (NormalizeZone zone) d)))).
Proof.
  intros He Ht Ha. unfold ListRecords.
  assert ((if bool_decide (after = []) then Ok 0%Z
    else match ParseInt64 after with
         | Some id => if (id <? 0)%Z then Err InvalidPageToken else Ok id
         | None => Err InvalidPageToken
         end) = Ok afterID) as ->.
  { destruct Ha as [[-> ->]|[-> Hr]]; [done|].
    rewrite bool_decide_eq_false_2, ParseInt64_FormatInt by (done || apply FormatInt_not_nil).
    by rewrite (proj2 (Z.ltb_ge _ _)) by lia. }
  cbn [go_bind]. rewrite stmt_no_fault, limit_rows_page by done. cbn [go_wrap go_bind].
  unfold collectRecords. rewrite stmt_no_fault by done. cbn [go_wrap go_bind].
  rewrite scanRecords_scan by done. cbn [go_bind]. rewrite fmap_take. do 3 f_equal.
  unfold zone_rows. rewrite <- (order_by_filter id_lt).
  - unfold id_lt. f_equal. rewrite list_filter_filter. apply list_filter_iff. intros; tauto.
  - unfold id_lt. intros *. rewrite Z.ltb_lt, Z.ltb_ge. lia.
  - unfold id_lt. intros *. rewrite !Z.ltb_ge. lia.
Qed.

(** Following the page tokens of [ListRecords] gives every record of the zone exactly once,
    in the order of their ids, for every page size. *)
Theorem ListRecords_complete s e zone limit d :
  no_fault e -> encoder_total s -> db_ok d -> 0 < limit ->
  let rows := order_by id_lt (zone_rows (NormalizeZone zone) d) in
  follow (S (length rows)) (fun after => ListRecords s e zone (Z.of_nat limit) after d) [] =
  Ok (scan s <$> rows).
Proof.
  intros He Ht [Hk _] Hlim rows. rewrite <- (length_fmap (scan s)).
  assert (Hids : forall r, r ∈ rows -> (1 <= rowID r < 2 ^ 63)%Z).
  { intros r Hr. unfold rows in Hr. rewrite order_by_perm in Hr. apply list_elem_of_filter in Hr as [_ Hr].
    pose proof (ok_seq _ Hk) as Hq. pose proof (ok_next _ Hk). rewrite Forall_forall in Hq.
    specialize (Hq r Hr). lia. }
  assert (Hs : StronglySorted (fun a b => id_lt a b = true) rows).
  { apply (strictly_sorted _ rowID).
    - intros x y. unfold id_lt. rewrite !Z.ltb_lt. lia.
    - unfold rows, zone_rows. rewrite order_by_perm. eapply sublist_NoDup; [apply (ok_ids _ Hk)|].
      apply fmap_sublist, sublist_filter.
    - apply order_by_sorted; unfold id_lt; intros *; rewrite ?Z.ltb_lt, !Z.ltb_ge; lia. }
  apply follow_complete with (limit := limit) (tok := fun r => FormatInt (rID r)); [done| | |].
  - intros x _. apply FormatInt_not_nil.
  - rewrite (ListRecords_page _ _ _ _ _ 0) by (done || by left). f_equal. f_equal. f_equal. fold rows.
    apply filter_all, Forall_forall. intros r Hr. specialize (Hids r Hr). lia.
  - intros l x r Hall. apply fmap_app_inv in Hall as (l' & k' & -> & Hk' & Hrows).
    symmetry in Hk'. apply fmap_cons_inv in Hk' as (x' & r' & -> & -> & ->).
    rewrite scan_ID. rewrite (ListRecords_page _ _ _ _ _ (rowID x')); [|done..|].
    + f_equal. f_equal. f_equal. fold rows. rewrite Hrows.
      rewrite (list_filter_iff _ (fun y => id_lt x' y = true)) by (intros; unfold id_lt; by rewrite Z.ltb_lt).
      apply filter_after; [unfold id_lt; intros; apply Z.ltb_irrefl| |by rewrite <- Hrows].
      unfold id_lt. intros *. rewrite Z.ltb_lt, Z.ltb_ge. lia.
    + right. split; [done|]. specialize (Hids x'). rewrite Hrows in Hids.
      specialize (Hids ltac:(rewrite elem_of_app; right; left)). lia.
Qed.
End Pages.

(** ** A reference database, for concrete runs *)
Lemma bytes_lt_irrefl s : bytes_lt s s = false.
Proof. induction s as [|c s IH]; [done|]. cbn. by rewrite Z.ltb_irrefl, Z.eqb_refl, IH. Qed.

Lemma bytes_lt_trans s1 s2 s3 : bytes_lt s1 s2 = true -> bytes_lt s2 s3 = true -> bytes_lt s1 s3 = true.
Proof.
  revert s2 s3. induction s1 as [|a s1 IH]; intros [|b s2] [|c s3]; cbn; try done.
  rewrite !orb_true_iff, !andb_true_iff, !Z.ltb_lt, !Z.eqb_eq.
  intros [Hab|[Hab H1]] [Hbc|[Hbc H2]]; [left; lia..|]. right. split; [lia|]. by eapply IH.
Qed.

Lemma bytes_lt_total s1 s2 : s1 = s2 \/ bytes_lt s1 s2 = true \/ bytes_lt s2 s1 = true.
Proof.
  revert s2. induction s1 as [|a s1 IH]; intros [|b s2]; cbn; [tauto..|].
  rewrite !orb_true_iff, !andb_true_iff, !Z.ltb_lt, !Z.eqb_eq.
  destruct (Z.lt_trichotomy (bz a) (bz b)) as [?|[E|?]]; [tauto| |tauto].
  apply bz_inj in E as E'. subst b. destruct (IH s2) as [-> |[?|?]]; tauto.
Qed.

Definition pg_ref : Postgres := Build_Postgres (fun s => s) bytes_lt (fun rows => rows).

Lemma pg_ref_laws : @PostgresLaws pg_ref.
Proof.
  constructor; cbn.
  - done.
  - apply bytes_lt_irrefl.
  - apply bytes_lt_trans.
  - apply bytes_lt_total.
  - by intros [].
Qed.

Definition env0 : Env := mkEnv 1000000 1700000000 (fun _ => None) false.

Lemma env0_ok : env_ok env0 /\ no_fault env0.
Proof. by split. Qed.

Definition ref_store : Store := mkStore (Some (@rdata_encoder unicode_id)).

Lemma ref_store_total : encoder_total ref_store.
Proof. intros enc t x [= <-]. apply BuildRData_returns. Qed.

Definition ref_ops : list op :=
  let rec zone name type ttl rdata := mkRecord 0 zone name type ttl rdata 0 [] None in
  [ CreateZoneOp (mkZone (lit "Example.com.") (lit "ns1.example.com.") (lit "admin@example.com") 0 3600 900 604800 300 0 0);
    CreateZoneOp (mkZone (lit "dev.example.com") (lit "ns1.example.com.") (lit "admin@example.com") 0 3600 900 604800 300 0 0);
    CreateRecordOp (rec (lit "example.com") (lit "www") (lit "A") 300 (lit "192.0.2.1"))%Z;
    CreateRecordOp (rec (lit "example.com") (lit "www") (lit "A") 60 (lit "192.0.2.2"))%Z;
    CreateRecordOp (rec (lit "example.com") (lit "www") (lit "CNAME") 60 (lit "example.com."))%Z;
    CreateRecordOp (rec (lit "example.com") (lit "a.deep") (lit "MX") 300 (lit "10 www.example.com."))%Z;
    CreateRecordOp (rec (lit "dev.example.com") (lit "@") (lit "NS") 300 (lit "ns1.example.com."))%Z ].

Definition ref_db : DB :=
  foldl (fun d o => snd (@run unicode_id pg_ref ref_store env0 o d)) (mkDB [] [] 1) ref_ops.

Lemma ref_reachable : @reachable unicode_id pg_ref ref_store ref_db.
Proof. unfold ref_db, ref_ops. cbn [foldl]. repeat apply reachable_step. apply reachable_empty. Qed.

Lemma Store_invariant_witness : @db_ok pg_ref ref_db.
Proof. exact (@Store_invariant unicode_id pg_ref ref_store ref_db ref_reachable). Defined.

Lemma ref_db_ok : @db_ok pg_ref ref_db.
Proof. exact (@reachable_db_ok unicode_id pg_ref ref_store ref_db ref_reachable). Qed.

Lemma ref_rev_ok : rev_ok ref_db.
Proof. exact (ok_rev _ (proj1 ref_db_ok)). Qed.

(** The second A record re-timed the first, and the CNAME was refused. *)
Lemma ref_db_contents :
  (fun r => (rowName r, rowType r, rowTTL r)) <$> records ref_db =
  [ (lit "www.example.com", lit "A", 60%Z); (lit "www.example.com", lit "A", 60%Z);
    (lit "a.deep.example.com", lit "MX", 300%Z); (lit "dev.example.com", lit "NS", 300%Z) ].
Proof. vm_compute. reflexivity. Qed.

Lemma LookupName_correct_witness :
  match @LookupName pg_ref ref_store env0 (lit "example.com") (lit "deep.example.com") ref_db with
  | Ok set => lookup_answer ref_store ref_db (lit "example.com") (lit "deep.example.com") set
  | Err x => statement_error env0 x
  | _ => False
  end.
Proof.
  exact (@LookupName_correct pg_ref pg_ref_laws ref_store env0 (lit "example.com") (lit "deep.example.com")
    ref_db (proj1 env0_ok) ref_store_total ref_rev_ok).
Defined.

Lemma LookupName_Exists_witness :
  exists set, @LookupName pg_ref ref_store env0 (lit "example.com") (lit "deep.example.com") ref_db = Ok set /\
  (Exists set = true <-> exists r, r ∈ records ref_db /\ rowZone r = lit "example.com" /\
    (rowName r = lit "deep.example.com" \/ below (lit "deep.example.com") (rowName r))).
Proof.
  exists (mkNameSet [] true).
  assert (E : @LookupName pg_ref ref_store env0 (lit "example.com") (lit "deep.example.com") ref_db =
    Ok (mkNameSet [] true)) by (vm_compute; reflexivity).
  split; [exact E|].
  exact (@LookupName_Exists pg_ref pg_ref_laws ref_store env0 (lit "example.com") (lit "deep.example.com")
    ref_db _ (proj1 env0_ok) ref_store_total ref_rev_ok E).
Defined.

Lemma FindZone_correct_witness :
  match @FindZone unicode_id env0 (lit "x.DEV.example.com.") ref_db with
  | Ok z => deepest_zone ref_db (lit "x.dev.example.com") z
  | Err ErrNotFound => forall z, z ∈ zones ref_db -> zName z <> [] -> ~ at_or_below (zName z) (lit "x.dev.example.com")
  | Err x => statement_error env0 x
  | _ => False
  end.
Proof. exact (@FindZone_correct unicode_id env0 (lit "x.DEV.example.com.") ref_db (proj1 env0_ok)). Defined.

(** A statement of the reference run that succeeds, and one that fails in the middle. *)
Definition ref_record (name type rdata : gostring) : Record_ :=
  mkRecord 0 (lit "example.com") name type 120 rdata 0 [] None.

Definition env_broken : Env :=
  mkEnv 1000000 1700000000 (fun n => if bool_decide (n = 4) then Some Canceled else None) false.

Lemma pair_snd {A B} (p : A * B) a : fst p = a -> p = (a, snd p).
Proof. destruct p. cbn. by intros ->. Qed.


Lemma Store_serial_increases_witness :
  Forall2 (bumped env0 (lit "example.com")) (zones ref_db)
    (zones (snd (@run unicode_id pg_ref ref_store env0
      (DeleteRecordOp (lit "example.com") (lit "www") (lit "A") (lit "192.0.2.1")) ref_db))).
Proof.
  refine (@Store_serial_increases unicode_id pg_ref ref_store env0
    (DeleteRecordOp (lit "example.com") (lit "www") (lit "A") (lit "192.0.2.1")) ref_db _ _ _ eq_refl).
  refine (pair_snd (@run unicode_id pg_ref ref_store env0
    (DeleteRecordOp (lit "example.com") (lit "www") (lit "A") (lit "192.0.2.1")) ref_db) _ _).
  vm_compute. reflexivity.
Defined.


Lemma DeleteRecord_correct_witness :
  let member := @same_member pg_ref (lit "example.com") (lit "www.example.com") (lit "A") (lit "192.0.2.1") in
  let d' := snd (@DeleteRecord unicode_id pg_ref env0 (lit "example.com") (lit "WWW") (lit "a") (lit "192.0.2.1") ref_db) in
  (exists r, r ∈ records ref_db /\ member r) /\ (forall r, r ∈ records d' <-> r ∈ records ref_db /\ ~ member r).
Proof.
  intros member d'. refine (@DeleteRecord_correct unicode_id pg_ref env0 (lit "example.com") (lit "WWW")
    (lit "a") (lit "192.0.2.1") ref_db d' _).
  refine (pair_snd (@DeleteRecord unicode_id pg_ref env0 (lit "example.com") (lit "WWW") (lit "a")
    (lit "192.0.2.1") ref_db) _ _). vm_compute. reflexivity.
Defined.

Lemma ListZones_complete_witness :
  follow 3 (fun after => @ListZones pg_ref env0 1 after ref_db) [] = Ok (@order_by Zone (@name_lt pg_ref) (zones ref_db)).
Proof.
  exact (@ListZones_complete pg_ref pg_ref_laws env0 1 ref_db (proj2 env0_ok) ref_db_ok (le_n 1)).
Defined.

Lemma ListRecords_complete_witness :
  let rows := order_by id_lt (zone_rows (lit "example.com") ref_db) in
  follow (S (length rows)) (fun after => @ListRecords unicode_id ref_store env0 (lit "example.com.") 2 after ref_db) [] =
  Ok (scan ref_store <$> rows).
Proof.
  exact (@ListRecords_complete unicode_id pg_ref ref_store env0 (lit "example.com.") 2 ref_db
    (proj2 env0_ok) ref_store_total ref_db_ok (le_S _ _ (le_n 1))).
Defined.
