(* ===== verification/Cache.v ===== *)
(** * The sharded cache (src/internal/cache/cache.go)

    Sequential semantics of every operation.  The hash and the order in which Go ranges over
    a map are parameters ([GoMaps]); [now] is what [time.Now().UnixNano()] returns.  The
    interleavings of concurrent calls are in CacheConcurrency. *)

From Stdlib Require Import ZArith Lia Ascii String.
From stdpp Require Import base list strings gmap.
From S2P Require Import Prelude GoStrings.

(** [maphash.String] under the seed of a cache, and the iteration order of a map with the
    given keys. *)
Class GoMaps := {
  maphash_String : gostring -> Z;
  range_order : list gostring -> list gostring;
}.

Class GoMapsLaws `{GoMaps} : Prop := {
  range_order_perm ks : range_order ks ≡ₚ ks;
}.

Definition shardCount : nat := 64.

Record entry (V : Type) := mkEntry { value : V; group : gostring; expires : Z }.
Arguments mkEntry {V} value group expires.
Arguments value {V} e.
Arguments group {V} e.
Arguments expires {V} e.

Abbreviation shard V := (gmap (list ascii) (entry V)).

Record Cache (V : Type) := mkCache {
  shards : list (shard V);
  perShard : nat;
  ttl : Z;
  epoch : Z;
  hits : Z;
  misses : Z;
}.
Arguments mkCache {V} shards perShard ttl epoch hits misses.
Arguments shards {V} c.
Arguments perShard {V} c.
Arguments ttl {V} c.
Arguments epoch {V} c.
Arguments hits {V} c.
Arguments misses {V} c.

Definition New (V : Type) (maxEntries : Z) (ttl : Z) : Cache V :=
  let per := Z.quot maxEntries (Z.of_nat shardCount) in
  let per := if (per <? 1)%Z then 1%Z else per in
  mkCache (replicate shardCount ∅) (Z.to_nat per) ttl 0 0 0.

Section Operations.
Context `{GoMaps} {V : Type}.
Implicit Types c : Cache V.

Definition set_shards c (ss : list (shard V)) : Cache V :=
  mkCache ss (perShard c) (ttl c) (epoch c) (hits c) (misses c).
Definition add_epoch c : Cache V :=
  mkCache (shards c) (perShard c) (ttl c) (u64 (epoch c + 1)) (hits c) (misses c).
Definition add_hit c : Cache V :=
  mkCache (shards c) (perShard c) (ttl c) (epoch c) (u64 (hits c + 1)) (misses c).
Definition add_miss c : Cache V :=
  mkCache (shards c) (perShard c) (ttl c) (epoch c) (hits c) (u64 (misses c + 1)).

Definition shardFor (key : gostring) : nat := Z.to_nat (maphash_String key mod Z.of_nat shardCount).

(** The shard of a key; there always is one. *)
Definition shard_of c (key : gostring) : shard V := default ∅ (shards c !! shardFor key).
Definition update_shard c (i : nat) (f : shard V -> shard V) : Cache V :=
  set_shards c (alter f i (shards c)).

Definition Epoch c : Z := epoch c.

Definition Get c (key : gostring) (now : Z) : option V * Cache V :=
  match shard_of c key !! key with
  | Some e => if (now <? expires e)%Z then (Some (value e), add_hit c) else (None, add_miss c)
  | None => (None, add_miss c)
  end.

(** [evict]: drop the expired entries, then others until there is room. *)
Fixpoint evict_loop (per : nat) (ks : list gostring) (m : shard V) : shard V :=
  match ks with
  | [] => m
  | k :: ks' => if bool_decide (size m < per) then m else evict_loop per ks' (delete k m)
  end.

Definition evict (per : nat) (now : Z) (m : shard V) : shard V :=
  let m := filter (fun kv => ~ (expires kv.2 <= now)%Z) m in
  evict_loop per (range_order (fst <$> map_to_list m)) m.

(** The part of [Set] under the lock of the shard. *)
Definition Set_locked c (key group : gostring) (v : V) (ep now : Z) : Cache V :=
  if bool_decide (epoch c <> ep) then c
  else
    update_shard c (shardFor key) (fun m =>
      let m :=
        match m !! key with
        | None => if bool_decide (perShard c <= size m) then evict (perShard c) now m else m
        | Some _ => m
        end in
      let expires := if (0 <? ttl c)%Z then i64 (now + ttl c) else (2 ^ 63 - 1)%Z in
      <[key := mkEntry v group expires]> m).

Definition Set_ c (key group : gostring) (v : V) (ep now : Z) : Cache V :=
  if bool_decide (epoch c <> ep) then c else Set_locked c key group v ep now.

Definition delete_locked c (key : gostring) : Cache V := update_shard c (shardFor key) (delete key).

Definition Delete c (key : gostring) : Cache V := delete_locked (add_epoch c) key.

Definition delete_group_shard (g : gostring) (m : shard V) : shard V :=
  filter (fun kv => group kv.2 <> g) m.

(** The loops over the shards, shard [i] first, [n] of them left. *)
Fixpoint each_shard (n i : nat) (f : shard V -> shard V) c : Cache V :=
  match n with
  | 0 => c
  | S n' => each_shard n' (S i) f (update_shard c i f)
  end.

Definition DeleteGroup c (g : gostring) : Cache V :=
  each_shard shardCount 0 (delete_group_shard g) (add_epoch c).

Definition Clear c : Cache V := each_shard shardCount 0 (fun _ => ∅) (add_epoch c).

Definition Len c : nat := sum_list_with size (shards c).

Definition Stats c : Z * Z := (hits c, misses c).

(** ** The contents of a cache *)

(** What the cache holds for a key, expired or not. *)
Definition lookup_entry c (key : gostring) : option (entry V) := shard_of c key !! key.

(** The shards exist, are not overfull, and hold only keys that hash to them. *)
Record cache_ok c : Prop := {
  ok_count : length (shards c) = shardCount;
  ok_per : 1 <= perShard c;
  ok_size : Forall (fun m => size m <= perShard c) (shards c);
  ok_place i m k : shards c !! i = Some m -> is_Some (m !! k) -> shardFor k = i;
}.
End Operations.

Section Facts.
Context `{GoMaps} {V : Type}.
Implicit Types (c : Cache V) (m : shard V).

Lemma shardFor_lt k : shardFor k < shardCount.
Proof.
  unfold shardFor. pose proof (Z.mod_pos_bound (maphash_String k) (Z.of_nat shardCount) ltac:(reflexivity)). lia.
Qed.

(** ** One shard, all shards *)
Lemma lookup_update_shard c i f k :
  cache_ok c ->
  shard_of (update_shard c i f) k = if bool_decide (shardFor k = i) then f (shard_of c k) else shard_of c k.
Proof.
  intros Hc. unfold shard_of, update_shard, set_shards. cbn [shards].
  assert (Hk : is_Some (shards c !! shardFor k)) by (apply lookup_lt_is_Some; rewrite (ok_count _ Hc); apply shardFor_lt).
  case_bool_decide as Hi.
  - subst i. rewrite list_lookup_alter_eq. destruct Hk as [m ->]. done.
  - by rewrite list_lookup_alter_ne by done.
Qed.

(** A step on one shard that keeps the size bound and only adds keys of that shard. *)
Definition shard_step (per : nat) (i : nat) (f : shard V -> shard V) : Prop :=
  forall m, size m <= per ->
    size (f m) <= per /\ forall k, is_Some (f m !! k) -> is_Some (m !! k) \/ shardFor k = i.

Lemma update_shard_ok c i f : cache_ok c -> shard_step (perShard c) i f -> cache_ok (update_shard c i f).
Proof.
  intros [Hn Hp Hs Hk] Hf. constructor; cbn [update_shard set_shards shards perShard].
  - by rewrite length_alter.
  - done.
  - apply Forall_lookup. intros j m Hj. rewrite Forall_lookup in Hs.
    destruct (decide (i = j)) as [->|Hne].
    + rewrite list_lookup_alter_eq in Hj. destruct (shards c !! j) as [m'|] eqn:E; [|done].
      injection Hj as <-. apply Hf. by eapply Hs.
    + rewrite list_lookup_alter_ne in Hj by done. by eapply Hs.
  - intros j m k Hj Hm. destruct (decide (i = j)) as [->|Hne].
    + rewrite list_lookup_alter_eq in Hj. destruct (shards c !! j) as [m'|] eqn:E; [|done].
      injection Hj as <-. rewrite Forall_lookup in Hs.
      destruct (proj2 (Hf m' (Hs j m' E)) k Hm); [by eapply Hk|done].
    + rewrite list_lookup_alter_ne in Hj by done. by eapply Hk.
Qed.

Lemma shrink_step per i f : (forall m, f m ⊆ m) -> shard_step per i f.
Proof.
  intros Hf m Hm. split.
  - pose proof (map_subseteq_size _ _ (Hf m)). lia.
  - intros k [e He]. left. exists e. by eapply lookup_weaken.
Qed.

Lemma perShard_each n i f c : perShard (each_shard n i f c) = perShard c.
Proof. revert i c. induction n as [|n IH]; intros i c; [done|]. cbn [each_shard]. by rewrite IH. Qed.

Lemma each_shard_ok n i f c : (forall m, f m ⊆ m) -> cache_ok c -> cache_ok (each_shard n i f c).
Proof.
  intros Hf. revert i c. induction n as [|n IH]; intros i c Hc; [done|]. cbn [each_shard].
  apply IH, update_shard_ok; [done|]. by apply shrink_step.
Qed.

Lemma lookup_each_shard n i f c k :
  (forall m, f m ⊆ m) -> cache_ok c ->
  shard_of (each_shard n i f c) k =
  if bool_decide (i <= shardFor k < i + n) then f (shard_of c k) else shard_of c k.
Proof.
  intros Hf. revert i c. induction n as [|n IH]; intros i c Hc; cbn [each_shard].
  - by rewrite bool_decide_eq_false_2 by lia.
  - rewrite IH by (by apply update_shard_ok, shrink_step). rewrite lookup_update_shard by done.
    repeat case_bool_decide; try done; lia.
Qed.

Lemma lookup_all_shards f c k :
  (forall m, f m ⊆ m) -> cache_ok c -> shard_of (each_shard shardCount 0 f c) k = f (shard_of c k).
Proof.
  intros Hf Hc. rewrite lookup_each_shard by done. pose proof (shardFor_lt k).
  by rewrite bool_decide_eq_true_2 by lia.
Qed.

(** ** Eviction *)
Lemma evict_loop_subseteq per ks m : evict_loop per ks m ⊆ m.
Proof.
  revert m. induction ks as [|k ks IH]; intros m; cbn [evict_loop]; [done|].
  case_bool_decide; [done|]. etrans; [apply IH|apply delete_subseteq].
Qed.

Lemma evict_subseteq per now m : evict per now m ⊆ m.
Proof. unfold evict. etrans; [apply evict_loop_subseteq|apply map_filter_subseteq]. Qed.

Lemma evict_loop_size per ks m :
  1 <= per -> (forall k, is_Some (m !! k) -> k ∈ ks) -> size (evict_loop per ks m) < per.
Proof.
  intros Hp. revert m. induction ks as [|k ks IH]; intros m Hk; cbn [evict_loop].
  - assert (m = ∅) as ->; [|rewrite map_size_empty; lia]. apply map_eq. intros k. rewrite lookup_empty.
    destruct (m !! k) eqn:E; [|done]. exfalso. by apply (not_elem_of_nil k), Hk.
  - case_bool_decide; [done|]. apply IH. intros k' Hk'. rewrite lookup_delete_is_Some in Hk'.
    destruct Hk' as [Hne Hk']. specialize (Hk k' Hk'). apply elem_of_cons in Hk as [-> |?]; done.
Qed.

Lemma evict_size `{!GoMapsLaws} per now m : 1 <= per -> size (evict per now m) < per.
Proof.
  intros Hp. apply evict_loop_size; [done|]. intros k [e He]. rewrite range_order_perm.
  apply list_elem_of_fmap. exists (k, e). split; [done|]. by apply elem_of_map_to_list.
Qed.

(** ** The operations keep the shape *)
Lemma counters_ok c (e h ms : Z) :
  cache_ok c -> cache_ok (mkCache (shards c) (perShard c) (ttl c) e h ms).
Proof. intros [Hn Hp Hs Hk]. by constructor. Qed.

Lemma New_ok maxEntries t : cache_ok (New V maxEntries t).
Proof.
  constructor; cbn [New shards perShard].
  - by rewrite length_replicate.
  - destruct (Z.ltb_spec (Z.quot maxEntries (Z.of_nat shardCount)) 1); lia.
  - apply Forall_replicate. rewrite map_size_empty. lia.
  - intros i m k Hi [e He]. apply lookup_replicate in Hi as [-> _]. by rewrite lookup_empty in He.
Qed.

Lemma Set_locked_ok `{!GoMapsLaws} c key g v ep now : cache_ok c -> cache_ok (Set_locked c key g v ep now).
Proof.
  intros Hc. unfold Set_locked. case_bool_decide; [done|]. apply update_shard_ok; [done|].
  intros m Hm. pose proof (ok_per _ Hc) as Hp. split.
  - destruct (m !! key) as [e|] eqn:E; [rewrite map_size_insert_Some by eauto; lia|].
    case_bool_decide.
    + pose proof (evict_size (perShard c) now m Hp). rewrite map_size_insert.
      destruct (evict _ _ _ !! key); cbn; lia.
    + rewrite map_size_insert_None by done. lia.
  - intros k Hk. destruct (decide (k = key)) as [-> |Hne]; [by right|left].
    rewrite lookup_insert_ne in Hk by done. destruct (m !! key); [done|]. case_bool_decide; [|done].
    destruct Hk as [e He]. exists e. eapply lookup_weaken; [exact He|apply evict_subseteq].
Qed.

Lemma delete_group_subseteq g m : delete_group_shard g m ⊆ m.
Proof. apply map_filter_subseteq. Qed.

Lemma Clear_subseteq m : (fun _ : shard V => (∅ : shard V)) m ⊆ m.
Proof. apply map_empty_subseteq. Qed.

Inductive cache_op :=
| OpGet (key : gostring) (now : Z)
| OpSet (key g : gostring) (v : V) (ep now : Z)
| OpDelete (key : gostring)
| OpDeleteGroup (g : gostring)
| OpClear.

Definition cache_run (o : cache_op) c : Cache V :=
  match o with
  | OpGet key now => snd (Get c key now)
  | OpSet key g v ep now => Set_ c key g v ep now
  | OpDelete key => Delete c key
  | OpDeleteGroup g => DeleteGroup c g
  | OpClear => Clear c
  end.

Lemma cache_run_ok `{!GoMapsLaws} o c : cache_ok c -> cache_ok (cache_run o c).
Proof.
  intros Hc. destruct o; cbn [cache_run].
  - unfold Get. destruct (_ !! key) as [e|]; [destruct (_ <? _)%Z|]; by apply counters_ok.
  - unfold Set_. case_bool_decide; [done|]. by apply Set_locked_ok.
  - apply update_shard_ok; [by apply counters_ok|]. apply shrink_step. intros m. apply delete_subseteq.
  - apply each_shard_ok; [apply delete_group_subseteq|by apply counters_ok].
  - apply each_shard_ok; [apply Clear_subseteq|by apply counters_ok].
Qed.

Lemma perShard_run o c : perShard (cache_run o c) = perShard c.
Proof.
  destruct o; cbn [cache_run].
  - unfold Get. destruct (_ !! key) as [e|]; [destruct (_ <? _)%Z|]; done.
  - unfold Set_, Set_locked. by repeat case_bool_decide.
  - done.
  - unfold DeleteGroup. by rewrite perShard_each.
  - unfold Clear. by rewrite perShard_each.
Qed.

Lemma Len_bound c : cache_ok c -> Len c <= shardCount * perShard c.
Proof.
  intros [Hn _ Hs _]. unfold Len. rewrite <- Hn. clear Hn. induction Hs as [|m l Hm Hs IH]; cbn; lia.
Qed.

(** ** What the operations do to the contents *)
Lemma lookup_Set_key c key g v ep now :
  cache_ok c -> epoch c = ep ->
  lookup_entry (Set_ c key g v ep now) key =
  Some (mkEntry v g (if (0 <? ttl c)%Z then i64 (now + ttl c) else (2 ^ 63 - 1)%Z)).
Proof.
  intros Hc He. unfold Set_, Set_locked. rewrite !bool_decide_eq_false_2 by (intros ?; done).
  unfold lookup_entry. rewrite lookup_update_shard, bool_decide_eq_true_2 by done. apply lookup_insert_eq.
Qed.

Lemma lookup_Set_other c key g v ep now k e :
  cache_ok c -> k <> key ->
  lookup_entry (Set_locked c key g v ep now) k = Some e -> lookup_entry c k = Some e.
Proof.
  intros Hc Hk. unfold Set_locked. case_bool_decide; [done|]. unfold lookup_entry.
  rewrite lookup_update_shard by done. case_bool_decide as Hs; [|done].
  rewrite lookup_insert_ne by done. destruct (_ !! key); [done|]. case_bool_decide; [|done].
  intros He. eapply lookup_weaken; [exact He|apply evict_subseteq].
Qed.

Lemma lookup_Delete c key k :
  cache_ok c ->
  lookup_entry (Delete c key) k = if bool_decide (k = key) then None else lookup_entry c k.
Proof.
  intros Hc. unfold lookup_entry, Delete, delete_locked.
  rewrite lookup_update_shard by (by apply counters_ok). change (shard_of (add_epoch c) k) with (shard_of c k).
  case_bool_decide as Hs; case_bool_decide as Hk; subst.
  - apply lookup_delete_eq.
  - by rewrite lookup_delete_ne by done.
  - done.
  - done.
Qed.

Lemma lookup_DeleteGroup c g k :
  cache_ok c ->
  lookup_entry (DeleteGroup c g) k =
  match lookup_entry c k with
  | Some e => if bool_decide (group e = g) then None else Some e
  | None => None
  end.
Proof.
  intros Hc. unfold lookup_entry, DeleteGroup.
  rewrite lookup_all_shards by (apply delete_group_subseteq || by apply counters_ok).
  change (shard_of (add_epoch c) k) with (shard_of c k). unfold delete_group_shard.
  destruct (shard_of c k !! k) as [e|] eqn:E.
  - case_bool_decide as Hg.
    + apply map_lookup_filter_None. right. intros e' He. rewrite E in He. injection He as <-.
      cbn. intros Hn. by apply Hn.
    + by apply map_lookup_filter_Some.
  - apply map_lookup_filter_None. by left.
Qed.

Lemma lookup_Clear c k : cache_ok c -> lookup_entry (Clear c) k = None.
Proof.
  intros Hc. unfold lookup_entry, Clear.
  rewrite lookup_all_shards by (apply Clear_subseteq || by apply counters_ok). apply lookup_empty.
Qed.
End Facts.


(** The contents of a cache after each operation.  [Set] under the current epoch stores
    the value and disturbs other keys at most by evicting them; under an outdated epoch it
    does nothing.  [Delete], [DeleteGroup] and [Clear] remove exactly the key, the group and
    everything.  [Get] answers from the contents. *)
Theorem Cache_contents `{GoMaps} {V} (c : Cache V) key g v ep now :
  cache_ok c ->
  (ep <> epoch c -> Set_ c key g v ep now = c) /\
  (ep = epoch c -> exists e, value e = v /\ group e = g /\ lookup_entry (Set_ c key g v ep now) key = Some e) /\
  (forall k e, k <> key -> lookup_entry (Set_ c key g v ep now) k = Some e -> lookup_entry c k = Some e) /\
  (forall k, lookup_entry (Delete c key) k = if bool_decide (k = key) then None else lookup_entry c k) /\
  (forall k e, lookup_entry (DeleteGroup c g) k = Some e <-> lookup_entry c k = Some e /\ group e <> g) /\
  (forall k, lookup_entry (Clear c) k = None) /\
  (fst (Get c key now) = Some v <-> exists e, lookup_entry c key = Some e /\ value e = v /\ (now < expires e)%Z).
Proof.
  intros Hc. split; [|split; [|split; [|split; [|split; [|split]]]]].
  - intros He. unfold Set_. by rewrite bool_decide_eq_true_2.
  - intros ->. eexists. split; [|split]; [| |by apply lookup_Set_key]; done.
  - intros k e Hk. unfold Set_. case_bool_decide; [done|]. by apply lookup_Set_other.
  - intros k. by apply lookup_Delete.
  - intros k e. rewrite lookup_DeleteGroup by done. destruct (lookup_entry c k) as [e'|]; [|naive_solver].
    case_bool_decide; naive_solver.
  - intros k. by apply lookup_Clear.
  - unfold Get, lookup_entry. destruct (shard_of c key !! key) as [e|]; [|naive_solver].
    destruct (Z.ltb_spec now (expires e)); naive_solver lia.
Qed.

(** ** A concrete hash and iteration order *)
Definition maps_ref : GoMaps := Build_GoMaps (fun k => Z.of_nat (length k)) (fun ks => ks).

Lemma maps_ref_laws : @GoMapsLaws maps_ref.
Proof. by constructor. Qed.


Lemma Cache_contents_witness :
  exists e, value e = 7%nat /\ group e = lit "g" /\
    @lookup_entry maps_ref nat (@Set_ maps_ref nat (New nat 100 0) (lit "a") (lit "g") 7%nat 0 0) (lit "a") = Some e.
Proof.
  exact (proj1 (proj2 (@Cache_contents maps_ref nat (New nat 100 0) (lit "a") (lit "g") 7%nat 0 0
    (@New_ok maps_ref nat 100 0))) eq_refl).
Defined.

(** With a bound below 64 every shard still holds one entry: two names with a bound of one. *)
Lemma max_entries_exceeded :
  let c := New nat 1 0 in
  Len (@Set_ maps_ref nat (@Set_ maps_ref nat c (lit "a") [] 1 0 0) (lit "ab") [] 2 0 0) = 2.
Proof. vm_compute. reflexivity. Qed.
