(* ===== verification/CacheConcurrency.v ===== *)
(** * Concurrent loads and invalidations (src/internal/cache/cache.go)

    Readers and writers of one cache as a step relation.  A reader that misses takes the
    epoch, reads the source, and stores what it read; a writer changes the source and then
    runs an invalidation.  The steps are the atomic actions of the code: a load or an
    increment of the atomic epoch, and a critical section under the lock of one shard.  Any
    number of readers and writers interleave in any order. *)

From Stdlib Require Import ZArith Lia Ascii String.
From stdpp Require Import base list strings gmap.
From S2P Require Import Prelude GoStrings Cache.

Section Concurrency.
Context `{GoMaps} {V : Type}.

(** The group under which a key is stored. *)
Variable group_of : gostring -> gostring.

(** ** Invalidation as a program of atomic actions *)
Inductive action :=
| ABump
| ADelete (key : gostring)
| ADeleteGroup (i : nat) (g : gostring)
| AClear (i : nat).

Definition act (a : action) (c : Cache V) : Cache V :=
  match a with
  | ABump => add_epoch c
  | ADelete key => delete_locked c key
  | ADeleteGroup i g => update_shard c i (delete_group_shard g)
  | AClear i => update_shard c i (fun _ => ∅)
  end.

Definition acts (l : list action) (c : Cache V) : Cache V := foldl (fun c a => act a c) c l.

Definition Delete_actions (key : gostring) : list action := [ABump; ADelete key].
Definition DeleteGroup_actions (g : gostring) : list action :=
  ABump :: ((fun i => ADeleteGroup i g) <$> seq 0 shardCount).
Definition Clear_actions : list action := ABump :: (AClear <$> seq 0 shardCount).

Lemma each_shard_acts n i f (mk : nat -> action) c :
  (forall i c, act (mk i) c = update_shard c i f) ->
  each_shard n i f c = acts (mk <$> seq i n) c.
Proof.
  intros Hmk. revert i c. induction n as [|n IH]; intros i c; [done|].
  cbn [each_shard seq]. rewrite fmap_cons. unfold acts. cbn [foldl]. rewrite Hmk. apply IH.
Qed.

(** Run without interruption, the actions are the operations of the cache. *)
Lemma Delete_acts key c : acts (Delete_actions key) c = Delete c key.
Proof. done. Qed.

Lemma DeleteGroup_acts g c : acts (DeleteGroup_actions g) c = DeleteGroup c g.
Proof. unfold DeleteGroup. by rewrite (each_shard_acts _ _ _ (fun i => ADeleteGroup i g)). Qed.

Lemma Clear_acts c : acts Clear_actions c = Clear c.
Proof. unfold Clear. by rewrite (each_shard_acts _ _ _ AClear). Qed.

(** ** The step relation *)

(** A reader that missed: it holds the epoch, then also the value it read. *)
Inductive load :=
| Started (key : gostring) (ep : Z)
| Fetched (key : gostring) (ep : Z) (v : V).

(** The source may have more than one right value for a key: rows come in any order. *)
Record world := mkWorld {
  cache : Cache V;
  source : gostring -> V -> Prop;
  loads : list load;
  invalidations : list (list action);
}.

(** Which entries an action removes, and which keys an invalidation still has to cover: an
    epoch increment and a removal behind it. *)
Definition removes (a : action) (k : gostring) : Prop :=
  match a with
  | ABump => False
  | ADelete key => k = key
  | ADeleteGroup i g => shardFor k = i /\ group_of k = g
  | AClear i => shardFor k = i
  end.

Definition pending (l : list action) (k : gostring) : Prop := exists a, a ∈ l /\ removes a k.

Inductive covers : list action -> gostring -> Prop :=
| covers_bump l k : pending l k -> covers (ABump :: l) k
| covers_later a l k : covers l k -> covers (a :: l) k.

Inductive step : world -> world -> Prop :=
| step_get c src ls iv k now :
    step (mkWorld c src ls iv) (mkWorld (snd (Get c k now)) src ls iv)
| step_start c src ls iv k :
    step (mkWorld c src ls iv) (mkWorld c src (Started k (Epoch c) :: ls) iv)
| step_fetch c src l1 l2 iv k ep v :
    src k v ->
    step (mkWorld c src (l1 ++ Started k ep :: l2) iv) (mkWorld c src (l1 ++ Fetched k ep v :: l2) iv)
| step_end c src l1 ld l2 iv :
    (* a failed read, or the first epoch check of Set *)
    step (mkWorld c src (l1 ++ ld :: l2) iv) (mkWorld c src (l1 ++ l2) iv)
| step_store c src l1 l2 iv k ep v now :
    step (mkWorld c src (l1 ++ Fetched k ep v :: l2) iv)
         (mkWorld (Set_locked c k (group_of k) v ep now) src (l1 ++ l2) iv)
| step_commit c src src' ls iv l :
    (forall k, (forall v, src k v -> src' k v) \/ covers l k) ->
    step (mkWorld c src ls iv) (mkWorld c src' ls (l :: iv))
| step_act c src ls i1 a l i2 :
    (epoch c + 1 < 2 ^ 64)%Z ->
    step (mkWorld c src ls (i1 ++ (a :: l) :: i2)) (mkWorld (act a c) src ls (i1 ++ l :: i2))
| step_done c src ls i1 i2 :
    step (mkWorld c src ls (i1 ++ [] :: i2)) (mkWorld c src ls (i1 ++ i2)).

Inductive reaches : world -> Prop :=
| reaches_new maxEntries ttl src : reaches (mkWorld (New V maxEntries ttl) src [] [])
| reaches_step w w' : reaches w -> step w w' -> reaches w'.

(** ** The invariant *)
Definition load_ok (w : world) (ld : load) : Prop :=
  match ld with
  | Started _ ep => (ep <= epoch (cache w))%Z
  | Fetched k ep v =>
    (ep <= epoch (cache w))%Z /\
    (source w k v \/ (ep < epoch (cache w))%Z \/ exists l, l ∈ invalidations w /\ covers l k)
  end.

Record world_ok (w : world) : Prop := {
  w_cache : cache_ok (cache w);
  w_epoch : (0 <= epoch (cache w))%Z;
  w_entries k e : lookup_entry (cache w) k = Some e ->
    group e = group_of k /\
    (source w k (value e) \/ exists l, l ∈ invalidations w /\ pending l k);
  w_loads : Forall (load_ok w) (loads w);
}.

Lemma act_ok a c : cache_ok c -> cache_ok (act a c).
Proof.
  intros Hc. destruct a; cbn [act].
  - by apply counters_ok.
  - apply update_shard_ok; [done|]. apply shrink_step. intros m. apply delete_subseteq.
  - apply update_shard_ok; [done|]. apply shrink_step. intros m. apply delete_group_subseteq.
  - apply update_shard_ok; [done|]. apply shrink_step. intros m. apply map_empty_subseteq.
Qed.

(** An action takes away what it removes and adds nothing. *)
Lemma act_entries a c k e :
  cache_ok c -> lookup_entry (act a c) k = Some e -> group e = group_of k ->
  lookup_entry c k = Some e /\ ~ removes a k.
Proof.
  intros Hc He Hg. unfold lookup_entry in *. destruct a; cbn [act removes] in *.
  - split; [exact He|by intros []].
  - unfold delete_locked in He. rewrite lookup_update_shard in He by done. case_bool_decide as Hs.
    + destruct (decide (k = key)) as [-> |Hne]; [by rewrite lookup_delete_eq in He|].
      by rewrite lookup_delete_ne in He by done.
    + split; [done|]. by intros ->.
  - rewrite lookup_update_shard in He by done. case_bool_decide as Hs; [|naive_solver].
    apply map_lookup_filter_Some in He as [He Hn]. cbn in Hn. split; [done|]. naive_solver.
  - rewrite lookup_update_shard in He by done. case_bool_decide as Hs; [|naive_solver].
    by rewrite lookup_empty in He.
Qed.

Lemma act_epoch a c :
  (0 <= epoch c)%Z -> (epoch c + 1 < 2 ^ 64)%Z ->
  (epoch c <= epoch (act a c))%Z /\ (a = ABump -> epoch c < epoch (act a c))%Z.
Proof.
  intros H0 H1. destruct a; cbn; try (split; [lia|done]).
  unfold u64. rewrite Z.mod_small by lia. split; lia.
Qed.

Lemma pending_cons a l k : pending (a :: l) k -> ~ removes a k -> pending l k.
Proof. intros (b & [-> |Hb]%elem_of_cons & Hr) Hn; [done|]. by exists b. Qed.

Lemma covers_pending l k : covers l k -> pending l k.
Proof.
  induction 1 as [l k (a & Ha & Hr)|a l k _ (b & Hb & Hr)].
  - exists a. split; [by right|done].
  - exists b. split; [by right|done].
Qed.

(** An element survives when another one is replaced. *)
Lemma elem_replace {A} (x y z : A) l1 l2 :
  x ∈ l1 ++ y :: l2 -> x = y \/ x ∈ l1 ++ z :: l2.
Proof. rewrite !elem_of_app, !elem_of_cons. tauto. Qed.

Lemma Forall_load_ok w w' ls :
  (forall ld, load_ok w ld -> load_ok w' ld) -> Forall (load_ok w) ls -> Forall (load_ok w') ls.
Proof. intros Hi Hl. eapply Forall_impl; [exact Hl|done]. Qed.

(** A running invalidation moves on by one action. *)
Lemma step_act_ok c src ls i1 a l i2 :
  (epoch c + 1 < 2 ^ 64)%Z ->
  world_ok (mkWorld c src ls (i1 ++ (a :: l) :: i2)) -> world_ok (mkWorld (act a c) src ls (i1 ++ l :: i2)).
Proof.
  intros Hlt [Hc H0 He Hl]. cbn [cache source loads invalidations] in *.
  destruct (act_epoch a c H0 Hlt) as [Hmono Hbump].
  constructor; cbn [cache source loads invalidations].
  - by apply act_ok.
  - lia.
  - intros k e Hk.
    assert (Hg : group e = group_of k).
    { eapply (He k e). unfold lookup_entry in *. destruct a; cbn [act] in Hk; [done|..];
        unfold delete_locked in Hk; rewrite lookup_update_shard in Hk by done; case_bool_decide; try done.
      - by apply lookup_delete_Some in Hk as [_ ?].
      - by apply map_lookup_filter_Some in Hk as [? _]. }
    apply act_entries in Hk as [Hk Hn]; [|done..]. split; [done|].
    destruct (He k e Hk) as [_ [?|(l' & Hl' & Hp)]]; [by left|right].
    apply (elem_replace _ _ l) in Hl' as [-> |Hl']; [|by exists l'].
    exists l. split; [rewrite elem_of_app; right; left|]. by eapply pending_cons.
  - eapply Forall_load_ok; [|exact Hl]. intros [k ep|k ep v]; cbn.
    + lia.
    + intros [Hep Hv]. split; [lia|]. destruct Hv as [?|[?|(l' & Hl' & Hcv)]]; [by left|right; left; lia|].
      apply (elem_replace _ _ l) in Hl' as [-> |Hl']; [|by right; right; exists l'].
      inversion Hcv as [? ? Hp|? ? ? Hcv']; subst; right.
      * left. specialize (Hbump eq_refl). lia.
      * right. exists l. split; [rewrite elem_of_app; right; left|done].
Qed.

(** A reader stores what it read. *)
Lemma step_store_ok `{!GoMapsLaws} c src l1 l2 iv k ep v now :
  world_ok (mkWorld c src (l1 ++ Fetched k ep v :: l2) iv) ->
  world_ok (mkWorld (Set_locked c k (group_of k) v ep now) src (l1 ++ l2) iv).
Proof.
  intros [Hc Hpos He Hl]. cbn [cache source loads invalidations] in *.
  assert (Hep : epoch (Set_locked c k (group_of k) v ep now) = epoch c).
  { unfold Set_locked. by case_bool_decide. }
  rewrite Forall_app, Forall_cons in Hl. destruct Hl as (Hl1 & [Hle Hv] & Hl2). cbn in Hle, Hv.
  constructor; cbn [cache source loads invalidations].
  - by apply Set_locked_ok.
  - by rewrite Hep.
  - intros k' e' Hk. destruct (decide (epoch c = ep)) as [Heq|Hne].
    + destruct (decide (k' = k)) as [-> |Hk'].
      * pose proof (lookup_Set_key c k (group_of k) v ep now Hc Heq) as Hs. unfold Set_ in Hs.
        rewrite bool_decide_eq_false_2 in Hs by (intros ?; done). rewrite Hk in Hs.
        injection Hs as ->. split; [done|]. cbn. destruct Hv as [?|[?|(l & Hin & Hcv)]]; [by left|lia|].
        right. exists l. split; [done|]. by apply covers_pending.
      * apply (He k' e'). by eapply lookup_Set_other.
    + apply (He k' e'). unfold Set_locked in Hk. by rewrite bool_decide_eq_true_2 in Hk.
  - apply Forall_app. split; (eapply Forall_load_ok; [|eassumption]); intros [|]; cbn; by rewrite Hep.
Qed.

Lemma step_ok `{!GoMapsLaws} w w' : step w w' -> world_ok w -> world_ok w'.
Proof.
  destruct 1 as [c src ls iv k now|c src ls iv k|c src l1 l2 iv k ep v Hv|c src l1 ld l2 iv
    |c src l1 l2 iv k ep v now|c src src' ls iv l Hcov|c src ls i1 a l i2 Hlt|c src ls i1 i2]; intros Hw.
  5: by eapply step_store_ok.
  6: by apply step_act_ok.
  all: destruct Hw as [Hc Hpos He Hl]; cbn [cache source loads invalidations] in *.
  - assert (exists h m, snd (Get c k now) = mkCache (shards c) (perShard c) (ttl c) (epoch c) h m) as (h & m & ->).
    { unfold Get. destruct (_ !! k) as [e|]; [destruct (_ <? _)%Z|]; eexists _, _; done. }
    constructor; cbn; [by apply counters_ok|done|exact He|exact Hl].
  - constructor; cbn; [done..|]. constructor; [cbn; unfold Epoch; lia|done].
  - constructor; cbn; [done..|]. rewrite Forall_app, Forall_cons in *. cbn in *. naive_solver.
  - constructor; cbn; [done..|]. rewrite Forall_app, Forall_cons in *. naive_solver.
  - constructor; cbn; [done|done| |].
    + intros k e Hk. destruct (He k e Hk) as [Hg Hv]. split; [done|].
      destruct (Hcov k) as [Hsub|Hk']; [|right; exists l; split; [left|by apply covers_pending]].
      destruct Hv as [?|(l' & ? & ?)]; [left; by apply Hsub|]. right. exists l'. split; [by right|done].
    + eapply Forall_load_ok; [|exact Hl]. intros [k ep|k ep v]; cbn; [done|].
      intros [Hep Hv]. split; [done|]. destruct (Hcov k) as [Hsub|Hk'].
      * destruct Hv as [?|[?|(l' & ? & ?)]]; [left; by apply Hsub|by right; left|].
        right. right. exists l'. split; [by right|done].
      * right. right. exists l. split; [left|done].
  - assert (Hin : forall (P : list action -> Prop), ~ P [] ->
      (exists l, l ∈ i1 ++ [] :: i2 /\ P l) -> exists l, l ∈ i1 ++ i2 /\ P l).
    { intros P Hn (l & Hl' & HP). exists l. split; [|done].
      rewrite elem_of_app, elem_of_cons in Hl'. rewrite elem_of_app. naive_solver. }
    constructor; cbn; [done|done| |].
    + intros k e Hk. destruct (He k e Hk) as [Hg Hv]. split; [done|].
      destruct Hv as [?|Hp]; [by left|right]. apply (Hin (fun l => pending l k)); [|done].
      by intros (a & Ha%not_elem_of_nil & _).
    + eapply Forall_load_ok; [|exact Hl]. intros [k ep|k ep v]; cbn; [done|].
      intros [Hep Hv]. split; [done|]. destruct Hv as [?|[?|Hp]]; [by left|by right; left|right; right].
      apply (Hin (fun l => covers l k)); [|done]. by inversion 1.
Qed.

(** Only what the pending invalidations cover matters. *)
Lemma world_ok_weaken c src ls iv iv' :
  (forall l k, l ∈ iv -> pending l k -> exists l', l' ∈ iv' /\ pending l' k) ->
  (forall l k, l ∈ iv -> covers l k -> exists l', l' ∈ iv' /\ covers l' k) ->
  world_ok (mkWorld c src ls iv) -> world_ok (mkWorld c src ls iv').
Proof.
  intros Hp Hcv [Hc H0 He Hl]. constructor; cbn [cache source loads invalidations] in *; [done|done| |].
  - intros k e Hk. destruct (He k e Hk) as [Hg [?|(l & Hin & Hpk)]]; (split; [done|]); [by left|right; eauto].
  - eapply Forall_load_ok; [|exact Hl]. intros [k ep|k ep v]; cbn; [done|].
    intros [Hep [?|[?|(l & Hin & Hck)]]]; (split; [done|]); [by left|by right; left|right; right; eauto].
Qed.

Lemma New_world_ok maxEntries t src : world_ok (mkWorld (New V maxEntries t) src [] []).
Proof.
  constructor; cbn; [apply New_ok|done| |constructor].
  intros k e Hk. unfold lookup_entry, shard_of in Hk. cbn [shards New] in Hk.
  rewrite lookup_replicate_2 in Hk by apply shardFor_lt. cbn in Hk. by rewrite lookup_empty in Hk.
Qed.

Lemma reaches_ok `{!GoMapsLaws} w : reaches w -> world_ok w.
Proof.
  induction 1 as [maxEntries t src|w w' _ IH Hs]; [apply New_world_ok|by eapply step_ok].
Qed.

(** C12. No stale entry survives an invalidation, however loads and invalidations interleave:
    in every reachable state a cached value is a current value of the source, unless an
    invalidation that will still remove it is running; so once the running invalidations
    have finished, [Get] only returns current values. *)
Theorem Cache_coherent `{!GoMapsLaws} w k now v :
  reaches w -> fst (Get (cache w) k now) = Some v ->
  source w k v \/ exists l, l ∈ invalidations w /\ pending l k.
Proof.
  intros Hw Hg. destruct (reaches_ok w Hw) as [_ _ He _]. unfold Get in Hg.
  destruct (shard_of (cache w) k !! k) as [e|] eqn:E; [|done].
  destruct (now <? expires e)%Z; [|done]. injection Hg as <-. by apply (He k e).
Qed.
End Concurrency.

(** A run: a reader and a writer that changes the value the reader has already read. *)
Definition ref_source (v : nat) : gostring -> nat -> Prop :=
  fun k x => x = if bool_decide (k = lit "k") then v else 0.

Section Run.
#[local] Existing Instance maps_ref.

Let key := lit "k".
Let c1 := add_epoch (New nat 64 0).
(** The reader stores the old value after the epoch went up: nothing happens. *)
Let c2 := Set_locked c1 key [] 1 0 5.
Let c3 := delete_locked c2 key.
(** A second reader stores the new value. *)
Let c4 := Set_locked c3 key [] 2 1 5.

Definition ref_world : world := mkWorld c4 (ref_source 2) [] [].

Lemma ref_world_reached : reaches (fun _ => []) ref_world.
Proof.
  unfold ref_world. eapply reaches_step; [|apply (step_store (fun _ => []) c3 (ref_source 2) [] [] [] key 1 2 5)].
  eapply reaches_step; [|apply (step_fetch (fun _ => []) c3 (ref_source 2) [] [] [] key 1 2); reflexivity].
  eapply reaches_step; [|apply (step_start (fun _ => []) c3 (ref_source 2) [] [] key)].
  eapply reaches_step; [|apply (step_done (fun _ => []) c3 (ref_source 2) [] [] [])].
  eapply reaches_step; [|apply (step_act (fun _ => []) c2 (ref_source 2) [] [] (ADelete key) [] []); vm_compute; done].
  eapply reaches_step; [|apply (step_store (fun _ => []) c1 (ref_source 2) [] [] [[ADelete key]] key 0 1 5)].
  eapply reaches_step; [|apply (step_act (fun _ => []) (New nat 64 0) (ref_source 2) [Fetched key 0 1] [] ABump [ADelete key] []); done].
  eapply reaches_step; [|apply (step_commit (fun _ => []) (New nat 64 0) (ref_source 1) (ref_source 2) [Fetched key 0 1] [] (Delete_actions key))].
  2: { intros k. unfold ref_source. case_bool_decide; [right|left; by intros v ->]. constructor.
       exists (ADelete key). split; [left|done]. }
  eapply reaches_step; [|apply (step_fetch (fun _ => []) (New nat 64 0) (ref_source 1) [] [] [] key 0 1); reflexivity].
  eapply reaches_step; [|apply (step_start (fun _ => []) (New nat 64 0) (ref_source 1) [] [] key)].
  apply reaches_new.
Qed.
End Run.

Lemma Cache_coherent_witness :
  source ref_world (lit "k") 2 \/
  exists l, l ∈ invalidations ref_world /\ @pending maps_ref (fun _ => []) l (lit "k").
Proof.
  refine (@Cache_coherent maps_ref nat (fun _ => []) maps_ref_laws ref_world (lit "k") 7 2 ref_world_reached _).
  vm_compute. reflexivity.
Defined.
