(* ===== verification/Resolver.v ===== *)
(** * The resolver interface (src/internal/store/store.go) and the store behind it

    [Resolver] is the Go interface, with its state passed explicitly; [ResolverSpec] is what
    its callers rely on.  The handler is verified against the specification, which the store
    meets here and the cached resolver meets in CachedResolver. *)

From Stdlib Require Import ZArith Lia Ascii String.
From stdpp Require Import base list strings.
From S2P Require Import Prelude GoStrings Message WireNames Names RData RDataCorrect Store StoreCorrect StoreQueries.

Class Resolver (S : Type) := {
  FindZone : gostring -> st S storeError Zone;
  LookupName : gostring -> gostring -> st S storeError NameSet;
}.

Definition nul : ascii := zb 0.

Lemma below_length x n : below x n -> length x < length n.
Proof. intros [w ->]. rewrite !length_app. cbn. lia. Qed.

Lemma at_or_below_antisym x y : at_or_below x y -> at_or_below y x -> x = y.
Proof.
  intros [->|Hxy%below_length]; [done|]. intros [->|Hyx%below_length]; [done|lia].
Qed.

(** What a resolver in a state of [R] answers: a zone or none for a name, and the records at
    a name of a zone.  Zone names are PostgreSQL text and hold no zero byte. *)
Class ResolverSpec (S : Type) `{Resolver S} (R : S -> Prop)
    (zone_of : gostring -> option Zone -> Prop) (names_of : gostring -> gostring -> NameSet -> Prop) : Prop := {
  FindZone_keeps q s : R s -> R (snd (FindZone q s));
  FindZone_answers q s : R s ->
    match fst (FindZone q s) with
    | Ok z => zone_of q (Some z)
    | Err ErrNotFound => zone_of q None
    | Err _ => True
    | _ => False
    end;
  LookupName_keeps z n s : R s -> nul ∉ z -> R (snd (LookupName z n s));
  LookupName_answers z n s : R s -> nul ∉ z ->
    match fst (LookupName z n s) with
    | Ok set => names_of z n set
    | Err _ => True
    | _ => False
    end;
  zone_of_text q z : zone_of q (Some z) -> nul ∉ zName z;
}.

(** ** The store as a resolver *)

(** A connection: the tables and what each of the calls will meet. *)
Record Conn := mkConn { db : DB; envs : nat -> Env; calls : nat }.

Definition next_call (c : Conn) : Conn := mkConn (db c) (envs c) (S (calls c)).

Section StoreResolver.
Context `{GoUnicode} `{Postgres} (s : Store).

#[global] Instance StoreResolver : Resolver Conn := {
  FindZone q := fun c => (Store.FindZone (envs c (calls c)) q (db c), next_call c);
  LookupName z n := fun c => (Store.LookupName s (envs c (calls c)) z n (db c), next_call c);
}.

(** A connection to tables with the contents [d], all of whose calls meet an environment with
    the property [P]. *)
Definition serves (P : Env -> Prop) (d : DB) (c : Conn) : Prop :=
  db c = d /\ forall n, env_ok (envs c n) /\ P (envs c n).

Definition store_zone_of (d : DB) (q : gostring) (r : option Zone) : Prop :=
  match r with
  | Some z => deepest_zone d (NormalizeZone q) z
  | None => forall z, z ∈ zones d -> zName z <> [] -> ~ at_or_below (zName z) (NormalizeZone q)
  end.

(** The records at a name.  Above the apex a zone has none, and what an answer says about
    children is left open: the caches do not keep it up to date, and no search of a name in
    the zone asks for it. *)
Definition store_names_of (d : DB) (z n : gostring) (set : NameSet) : Prop :=
  (~ below n z -> lookup_answer s d z n set) /\ (below n z -> Records set = []).

(** PostgreSQL text holds no zero byte. *)
Definition text_ok (d : DB) : Prop := Forall (fun z => nul ∉ zName z) (zones d).

Lemma no_records_above d z n set :
  keys_ok d -> lookup_answer s d z n set -> below n z -> Records set = [].
Proof.
  intros Hk [(rows & Hp & Hf) _] Hb. assert (Hnil : filter (at_name z n) (records d) = []).
  { destruct (filter _ _) as [|r l] eqn:E; [done|]. exfalso.
    assert (Hr : r ∈ filter (at_name z n) (records d)) by (rewrite E; left).
    apply list_elem_of_filter in Hr as [[Hz Hn] Hr]. pose proof (ok_in_zone _ Hk) as Hin.
    rewrite Forall_forall in Hin. specialize (Hin r Hr). rewrite Hz, Hn in Hin.
    apply below_length in Hb. destruct Hin as [-> |Hin%below_length]; lia. }
  rewrite Hnil in Hp. apply Permutation_nil_r in Hp. subst rows. by inversion Hf.
Qed.

Lemma store_resolver_spec `{!PostgresLaws} P d :
  db_ok d -> text_ok d -> encoder_total s ->
  ResolverSpec Conn (serves P d) (store_zone_of d) (store_names_of d).
Proof.
  intros [Hk _] Htext Henc. constructor.
  - by intros q c [<- He].
  - intros q c [<- He]. cbn. pose proof (FindZone_spec (envs c (calls c)) q (db c) (proj1 (He _))) as Hf.
    destruct (Store.FindZone _ _ _) as [z|[]| |]; done.
  - by intros z n c [<- He].
  - intros z n c [<- He] _. cbn.
    pose proof (LookupName_answer s (envs c (calls c)) z n (db c) (proj1 (He _)) Henc (ok_rev _ Hk)) as Hl.
    destruct (Store.LookupName _ _ _ _ _) as [set| | |]; try done.
    split; [done|]. intros Hb. by eapply no_records_above.
  - intros q z (Hz & _). unfold text_ok in Htext. rewrite Forall_forall in Htext. by apply Htext.
Qed.

(** Without faults the store only fails to find a zone. *)
Lemma store_reliable `{!PostgresLaws} d c :
  db_ok d -> encoder_total s -> serves no_fault d c ->
  (forall q e, fst (FindZone q c) = Err e -> e = ErrNotFound) /\ (forall z n e, fst (LookupName z n c) <> Err e).
Proof.
  intros [Hk _] Henc [<- He]. destruct (He (calls c)) as [Ho Hf].
  assert (Hx : forall x, ~ statement_error (envs c (calls c)) x).
  { intros x (n & err & Hn & _). by rewrite Hf in Hn. }
  split.
  - intros q e. cbn. pose proof (FindZone_spec (envs c (calls c)) q (db c) Ho) as Hs.
    destruct (Store.FindZone _ _ _) as [z|[]| |]; intros [= <-]; try done; by apply Hx in Hs.
  - intros z n e. cbn. pose proof (LookupName_answer s (envs c (calls c)) z n (db c) Ho Henc (ok_rev _ Hk)) as Hs.
    destruct (Store.LookupName _ _ _ _ _) as [set|x| |]; try done. by apply Hx in Hs.
Qed.
End StoreResolver.
