(* ===== verification/CachedResolver.v ===== *)
(** * The cached resolver (src/internal/store/cached.go)

    Two caches in front of any resolver.  [clock] gives the successive results of
    [time.Now().UnixNano()].  A [singleflight] group runs the function it is given; with one
    call at a time there is no other call to share a result with. *)

From Stdlib Require Import ZArith Lia Ascii String.
From stdpp Require Import base list strings gmap.
From S2P Require Import Prelude GoStrings Message WireNames Names RData RDataCorrect Store StoreCorrect StoreQueries.
From S2P Require Import Cache Resolver.

Record CachedResolver (S : Type) := mkCached {
  next : S;
  zones : Cache (option Zone);
  names : Cache NameSet;
  clock : nat -> Z;
  ticks : nat;
}.
Arguments mkCached {S} next zones names clock ticks.
Arguments next {S} c.
Arguments zones {S} c.
Arguments names {S} c.
Arguments clock {S} c.
Arguments ticks {S} c.

Section CachedResolver.
Context `{GoMaps} {S : Type} `{Resolver S}.
Implicit Types c : CachedResolver S.

Definition NewCachedResolver (next : S) (maxEntries ttl : Z) (clock : nat -> Z) : CachedResolver S :=
  mkCached next (New (option Zone) (Z.quot maxEntries 8 + 64) ttl) (New NameSet maxEntries ttl) clock 0.

Definition set_next c (s : S) : CachedResolver S := mkCached s (zones c) (names c) (clock c) (ticks c).
Definition set_zones c (z : Cache (option Zone)) : CachedResolver S :=
  mkCached (next c) z (names c) (clock c) (ticks c).
Definition set_names c (n : Cache NameSet) : CachedResolver S :=
  mkCached (next c) (zones c) n (clock c) (ticks c).

Definition time_now c : Z * CachedResolver S :=
  (clock c (ticks c), mkCached (next c) (zones c) (names c) (clock c) (Datatypes.S (ticks c))).

(** [zoneResult] is the zone or nil. *)
Definition cached_FindZone (qname : gostring) : st (CachedResolver S) storeError Zone := fun c =>
  let (now, c) := time_now c in
  let (hit, zs) := Get (zones c) qname now in
  let c := set_zones c zs in
  match hit with
  | Some None => (Err ErrNotFound, c)
  | Some (Some z) => (Ok z, c)
  | None =>
    let ep := Epoch (zones c) in
    let (r, s) := FindZone qname (next c) in
    let c := set_next c s in
    let store res c :=
      let (now, c) := time_now c in set_zones c (Set_ (zones c) qname [] res ep now) in
    match r with
    | Ok z => (Ok z, store (Some z) c)
    | Err ErrNotFound => (Err ErrNotFound, store None c)
    | r => (r, c)
    end
  end.

Definition names_key (zone name : gostring) : gostring := zone ++ [nul] ++ name.

Definition cached_LookupName (zone name : gostring) : st (CachedResolver S) storeError NameSet := fun c =>
  let key := names_key zone name in
  let (now, c) := time_now c in
  let (hit, ns) := Get (names c) key now in
  let c := set_names c ns in
  match hit with
  | Some set => (Ok set, c)
  | None =>
    let ep := Epoch (names c) in
    let (r, s) := LookupName zone name (next c) in
    let c := set_next c s in
    match r with
    | Ok set =>
      let (now, c) := time_now c in
      (Ok set, set_names c (Set_ (names c) key zone set ep now))
    | r => (r, c)
    end
  end.

#[global] Instance CachedResolver_Resolver : Resolver (CachedResolver S) := {
  FindZone := cached_FindZone;
  LookupName := cached_LookupName;
}.

(** The loop of [Invalidate]; every turn but the last drops at least a byte of [name]. *)
Fixpoint Invalidate_loop (fuel : nat) (zone name : gostring) (ns : Cache NameSet)
    : go storeError (Cache NameSet) :=
  match fuel with
  | 0 => NoFuel
  | Datatypes.S fuel' =>
    let ns := Delete ns (names_key zone name) in
    if bool_decide (name = zone) then Ok ns
    else
      match IndexByte name "."%char with
      | None => Ok ns
      | Some i => Invalidate_loop fuel' zone (drop (i + 1) name) ns
      end
  end.

Definition Invalidate (zone name : gostring) c : go storeError (CachedResolver S) :=
  let c := set_zones c (Clear (zones c)) in
  if bool_decide (name = []) then Ok (set_names c (DeleteGroup (names c) zone))
  else
    let! ns := Invalidate_loop (length name + 1) zone name (names c) in
    Ok (set_names c ns).

Definition InvalidateAll c : CachedResolver S :=
  let c := set_zones c (Clear (zones c)) in set_names c (Clear (names c)).

Definition cached_Stats c : Z * Z * nat :=
  let (zh, zm) := Stats (zones c) in
  let (nh, nm) := Stats (names c) in
  (u64 (zh + nh), u64 (zm + nm), Len (zones c) + Len (names c)).
End CachedResolver.
