(* ===== verification/CachedResolverCorrect.v ===== *)
(** * Correctness of the cached resolver

    The caches are transparent: in front of a resolver that answers from fixed data the
    cached resolver answers from the same data; and the invalidation that follows a change
    removes every entry the change outdated. *)

From Stdlib Require Import ZArith Lia Ascii String.
From stdpp Require Import base list strings gmap.
From S2P Require Import Prelude GoStrings Message WireNames Names RData RDataCorrect Store StoreCorrect StoreQueries.
From S2P Require Import Cache Resolver CachedResolver.

(** ** Keys *)
Lemma names_key_inj z1 n1 z2 n2 :
  nul ∉ z1 -> nul ∉ z2 -> names_key z1 n1 = names_key z2 n2 -> z1 = z2 /\ n1 = n2.
Proof.
  intros H1 H2 He. unfold names_key in He. cbn [app] in He.
  pose proof (IndexByte_app z1 nul n1 H1) as E1. rewrite He, IndexByte_app in E1 by done.
  injection E1 as Hl. apply app_inj_1 in He; [|done]. destruct He as [-> [= ->]]. done.
Qed.

(** ** Transparency *)
Section Transparency.
Context `{GoMapsLaws} {S : Type} `{Resolver S}.
Context (R : S -> Prop) (zone_of : gostring -> option Zone -> Prop)
  (names_of : gostring -> gostring -> NameSet -> Prop).

(** What the two caches hold is what the resolver behind them would answer. *)
Definition zones_agree (zs : Cache (option Zone)) : Prop :=
  forall q e, lookup_entry zs q = Some e -> zone_of q (value e).

Definition names_agree (ns : Cache NameSet) : Prop :=
  forall z n e, nul ∉ z -> lookup_entry ns (names_key z n) = Some e ->
  names_of z n (value e) /\ group e = z.

Record cached_ok (c : CachedResolver S) : Prop := {
  c_next : R (next c);
  c_zones : cache_ok (zones c);
  c_names : cache_ok (names c);
  c_zones_agree : zones_agree (zones c);
  c_names_agree : names_agree (names c);
}.

Lemma Get_state {V} (c : Cache V) k now :
  exists h m, snd (Get c k now) = mkCache (shards c) (perShard c) (ttl c) (epoch c) h m.
Proof. unfold Get. destruct (_ !! k) as [e|]; [destruct (_ <? _)%Z|]; eexists _, _; done. Qed.

Lemma Get_value {V} (c : Cache V) k now v :
  fst (Get c k now) = Some v -> exists e, lookup_entry c k = Some e /\ value e = v.
Proof.
  unfold Get, lookup_entry. destruct (_ !! k) as [e|]; [|done].
  destruct (_ <? _)%Z; [|done]. intros [= <-]. by exists e.
Qed.

Lemma Set_ok {V} (c : Cache V) k g v ep now : cache_ok c -> cache_ok (Set_ c k g v ep now).
Proof. intros Hc. unfold Set_. case_bool_decide; [done|]. by apply Set_locked_ok. Qed.

Lemma lookup_Set {V} (c : Cache V) k g v ep now k' e :
  cache_ok c -> lookup_entry (Set_ c k g v ep now) k' = Some e ->
  lookup_entry c k' = Some e \/ k' = k /\ value e = v /\ group e = g.
Proof.
  intros Hc He. unfold Set_ in He. case_bool_decide as Hep; [by left|].
  destruct (decide (k' = k)) as [-> |Hk]; [|left; by eapply lookup_Set_other].
  right. pose proof (lookup_Set_key c k g v ep now Hc) as Hs. unfold Set_ in Hs.
  rewrite bool_decide_eq_false_2 in Hs by (intros ?; done).
  specialize (Hs Hep). rewrite He in Hs. by injection Hs as ->.
Qed.

Lemma zones_agree_Set zs q r ep now :
  cache_ok zs -> zones_agree zs -> zone_of q r -> zones_agree (Set_ zs q [] r ep now).
Proof.
  intros Hc Ha Hq q' e He. apply lookup_Set in He as [He|(-> & -> & _)]; [by apply Ha|done|done].
Qed.

Lemma names_agree_Set ns z n set ep now :
  cache_ok ns -> names_agree ns -> nul ∉ z -> names_of z n set ->
  names_agree (Set_ ns (names_key z n) z set ep now).
Proof.
  intros Hc Ha Hz Hn z' n' e Hz' He. apply lookup_Set in He as [He|(Hk & -> & ->)]; [by apply Ha| |done].
  apply names_key_inj in Hk as [-> ->]; done.
Qed.

Lemma cached_resolver_spec :
  ResolverSpec S R zone_of names_of -> ResolverSpec (CachedResolver S) cached_ok zone_of names_of.
Proof.
  intros Hspec.
  assert (HF : forall q c, cached_ok c -> cached_ok (snd (cached_FindZone q c)) /\
    match fst (cached_FindZone q c) with
    | Ok z => zone_of q (Some z) | Err ErrNotFound => zone_of q None | Err _ => True | _ => False end).
  { intros q c [Hn Hz Hns Hza Hna]. unfold cached_FindZone, time_now. cbn [zones].
    destruct (Get_state (zones c) q (clock c (ticks c))) as (h & m & Hst).
    pose proof (Get_value (zones c) q (clock c (ticks c))) as Hv.
    destruct (Get (zones c) q _) as [[r|] zs]; cbn [fst snd] in *; subst zs.
    - destruct (Hv r eq_refl) as (e & He & <-). pose proof (Hza q e He) as Hq.
      destruct (value e); (split; [by constructor; [|apply counters_ok|..]|done]).
    - cbn [set_zones next]. pose proof (FindZone_keeps q (next c) Hn) as Hk.
      pose proof (FindZone_answers q (next c) Hn) as Ha.
      destruct (FindZone q (next c)) as [[z|[]| |] s]; cbn in Hk, Ha |- *; try done.
      all: split; [|done]. all: constructor; try done; try by apply counters_ok.
      all: cbn. all: try by apply Set_ok, counters_ok. all: by apply zones_agree_Set; [apply counters_ok|..]. }
  assert (HL : forall z n c, cached_ok c -> nul ∉ z ->
    cached_ok (snd (cached_LookupName z n c)) /\
    match fst (cached_LookupName z n c) with Ok set => names_of z n set | Err _ => True | _ => False end).
  { intros z n c [Hn Hz Hns Hza Hna] Hnul. unfold cached_LookupName, time_now. cbn [names].
    destruct (Get_state (names c) (names_key z n) (clock c (ticks c))) as (h & m & Hst).
    pose proof (Get_value (names c) (names_key z n) (clock c (ticks c))) as Hv.
    destruct (Get (names c) _ _) as [[r|] ns]; cbn [fst snd] in *; subst ns.
    - destruct (Hv r eq_refl) as (e & He & <-). destruct (Hna z n e Hnul He) as [Hs _].
      split; [by constructor; [| |apply counters_ok|..]|done].
    - cbn [set_names next]. pose proof (LookupName_keeps z n (next c) Hn Hnul) as Hk.
      pose proof (LookupName_answers z n (next c) Hn Hnul) as Ha.
      destruct (LookupName z n (next c)) as [[set|x| |] s]; cbn in Hk, Ha |- *; try done.
      all: split; [|done]. all: constructor; try done; try by apply counters_ok.
      all: cbn. all: try by apply Set_ok, counters_ok. all: by apply names_agree_Set; [apply counters_ok|..]. }
  constructor.
  - intros. by apply HF.
  - intros. by apply HF.
  - intros. by apply HL.
  - intros. by apply HL.
  - apply zone_of_text.
Qed.
End Transparency.

(** The caches make no errors of their own. *)
Lemma cached_FindZone_error `{GoMaps} {S} `{Resolver S} q (c : CachedResolver S) e :
  fst (cached_FindZone q c) = Err e -> e = ErrNotFound \/ fst (FindZone q (next c)) = Err e.
Proof.
  unfold cached_FindZone, time_now. cbn [zones].
  destruct (Get (zones c) q _) as [[[z|]|] zs]; [done|by intros [= <-]; left|]. cbn [set_zones next].
  destruct (FindZone q (next c)) as [[z|[]| |] s]; cbn [fst]; intros [= <-]; [by left|by right..].
Qed.

Lemma cached_LookupName_error `{GoMaps} {S} `{Resolver S} z n (c : CachedResolver S) e :
  fst (cached_LookupName z n c) = Err e -> fst (LookupName z n (next c)) = Err e.
Proof.
  unfold cached_LookupName, time_now. cbn [names].
  destruct (Get (names c) _ _) as [[set|] ns]; [done|]. cbn [set_names next].
  by destruct (LookupName z n (next c)) as [[set|x| |] s].
Qed.

(** C33. Caching is transparent: if the resolver behind the caches answers from fixed data, the
    cached resolver answers every query from the same data (a cached "no such zone"
    included), and stays in that state. *)
Theorem CachedResolver_refines `{GoMapsLaws} {S} `{Resolver S} R zone_of names_of :
  ResolverSpec S R zone_of names_of ->
  ResolverSpec (CachedResolver S) (cached_ok R zone_of names_of) zone_of names_of.
Proof. apply cached_resolver_spec. Qed.

(** ** Invalidation *)
(** The keys between a name and its zone are deleted, and nothing is added. *)
Lemma Invalidate_loop_spec `{GoMaps} fuel zone name ns :
  length name < fuel -> cache_ok ns ->
  exists ns', Invalidate_loop fuel zone name ns = Ok ns' /\ cache_ok ns' /\
    forall k e, lookup_entry ns' k = Some e -> lookup_entry ns k = Some e /\
      (at_or_below zone name -> forall x, at_or_below x name -> at_or_below zone x -> k <> names_key zone x).
Proof.
  revert name ns. induction fuel as [|fuel IH]; intros name ns Hf Hc; [lia|]. cbn [Invalidate_loop].
  assert (Hok : cache_ok (Delete ns (names_key zone name))).
  { apply update_shard_ok; [by apply counters_ok|]. apply shrink_step. intros m. apply delete_subseteq. }
  assert (Hdel : forall k e, lookup_entry (Delete ns (names_key zone name)) k = Some e ->
    lookup_entry ns k = Some e /\ k <> names_key zone name).
  { intros k e. rewrite lookup_Delete by done. by case_bool_decide. }
  case_bool_decide as Hz.
  - subst name. eexists. split; [done|]. split; [done|]. intros k e [Hk Hn]%Hdel. split; [done|].
    intros _ x Hx Hzx. by rewrite (at_or_below_antisym x zone Hx Hzx).
  - destruct (IndexByte name "."%char) as [i|] eqn:Hi.
    + apply IndexByte_Some in Hi as (l & r & -> & <- & Hl). rewrite drop_past.
      rewrite length_app in Hf. cbn in Hf.
      destruct (IH r (Delete ns (names_key zone (l ++ "."%char :: r))) ltac:(lia) Hok) as (ns' & Hr & Hns & Hk).
      exists ns'. split; [done|]. split; [done|]. intros k e He.
      destruct (Hk k e He) as [He' Hr']. destruct (Hdel k e He') as [He'' Hne]. split; [done|].
      intros [?|Hb] x Hx Hzx; [done|]. apply below_step in Hb; [|done].
      destruct Hx as [<-|Hx]; [done|]. apply below_step in Hx; [|done].
      apply Hr'; [destruct Hb as [->|?]; [by left|by right]| |done].
      destruct Hx as [->|?]; [by left|by right].
    + apply IndexByte_None in Hi. eexists. split; [done|]. split; [done|].
      intros k e [Hk Hn]%Hdel. split; [done|]. intros _ x [<-|Hx] _; [done|].
      by apply below_no_dot in Hx.
Qed.

Lemma filter_narrow {A} (P Q : A -> Prop) `{forall x, Decision (P x)} `{forall x, Decision (Q x)} (l : list A) :
  (forall x, P x -> Q x) -> filter P l = filter P (filter Q l).
Proof.
  intros HPQ. rewrite list_filter_filter. apply list_filter_iff. intros x. split; [|by intros []].
  intros Hx. by split; [|apply HPQ].
Qed.

(** Rows outside [Q] do not matter for a name. *)
Lemma lookup_answer_transfer s d d' z n set (Q : recordRow -> Prop) `{forall r, Decision (Q r)} :
  filter Q (records d') = filter Q (records d) ->
  (forall r, rowZone r = z -> at_or_below n (rowName r) -> Q r) ->
  lookup_answer s d z n set -> lookup_answer s d' z n set.
Proof.
  intros Heq HQ [Hrec Hch]. split.
  - rewrite (filter_narrow _ Q), Heq, <- (filter_narrow _ Q); [done|..];
      intros r [Hz Hn]; apply HQ; [done|by left|done|by left].
  - rewrite Hch. unfold has_child.
    assert (Hin : forall r, rowZone r = z -> below n (rowName r) -> r ∈ records d <-> r ∈ records d').
    { intros r Hz Hb. assert (HQr : Q r) by (apply HQ; [done|by right]).
      pose proof (list_elem_of_filter Q (records d) r) as E1. pose proof (list_elem_of_filter Q (records d') r) as E2.
      rewrite Heq in E2. tauto. }
    split; intros [? (r & Hr & Hz & Hb)]; (split; [done|]); exists r; split; try done; by apply (Hin r Hz Hb).
Qed.

(** What a notification says has changed: one name, or all of a zone. *)
Definition outside (zone name : gostring) (r : recordRow) : Prop :=
  if bool_decide (name = []) then rowZone r <> zone else ~ at_name zone name r.

#[export] Instance outside_dec zone name r : Decision (outside zone name r).
Proof. unfold outside. destruct (bool_decide (name = [])); apply _. Defined.

Section Invalidation.
Context `{GoUnicode} `{Postgres} `{GoMapsLaws} (s : Store) (P : Env -> Prop).

Definition now_serves (d : DB) (c : CachedResolver Conn) : CachedResolver Conn :=
  set_next c (mkConn d (envs (next c)) (calls (next c))).

Lemma Invalidate_ok zone name d d' c :
  filter (outside zone name) (records d') = filter (outside zone name) (records d) ->
  (name = [] \/ at_or_below zone name) ->
  cached_ok (serves P d) (store_zone_of d) (store_names_of s d) c ->
  exists c', Invalidate zone name (now_serves d' c) = Ok c' /\
    cached_ok (serves P d') (store_zone_of d') (store_names_of s d') c'.
Proof.
  intros Hrows Hname [Hn Hz Hns Hza Hna]. unfold Invalidate, now_serves.
  assert (Hclear : cache_ok (Clear (zones c))).
  { apply each_shard_ok; [apply Clear_subseteq|by apply counters_ok]. }
  assert (Hagree : zones_agree (store_zone_of d') (Clear (zones c))).
  { intros q e He. by rewrite lookup_Clear in He. }
  unfold outside in Hrows. case_bool_decide as Hne.
  - eexists. split; [done|]. constructor; cbn [next zones names set_names set_zones set_next];
      [by destruct Hn as [_ ?]|done| |done|].
    + apply each_shard_ok; [apply delete_group_subseteq|by apply counters_ok].
    + intros z n e Hnul He. rewrite lookup_DeleteGroup in He by done.
      destruct (lookup_entry (names c) (names_key z n)) as [e'|] eqn:E; [|done].
      case_bool_decide as Hg; [done|]. injection He as <-. destruct (Hna z n e' Hnul E) as [[Hl Hab] Hgr].
      split; [|done]. split; [|done]. intros Hb. eapply lookup_answer_transfer; [exact Hrows| |exact (Hl Hb)].
      intros r Hrz _. unfold outside. rewrite bool_decide_eq_true_2 by done. congruence.
  - destruct Hname as [?|Hname]; [done|]. cbn [names set_zones set_next].
    destruct (Invalidate_loop_spec (length name + 1) zone name (names c) ltac:(lia) Hns) as (ns' & -> & Hns' & Hk).
    cbn [go_bind]. eexists. split; [done|]. constructor; cbn [next zones names set_names set_zones set_next];
      [by destruct Hn as [_ ?]|done|done|done|].
    intros z n e Hnul He. destruct (Hk _ _ He) as [He' Hdel]. destruct (Hna z n e Hnul He') as [[Hl Hab] Hgr].
    split; [|done]. split; [|done]. intros Hb. eapply lookup_answer_transfer; [exact Hrows| |exact (Hl Hb)].
    intros r Hrz Hrn. unfold outside. rewrite bool_decide_eq_false_2 by done. intros [Hz1 Hn1].
    assert (Hnn : at_or_below n name) by congruence.
    apply (Hdel Hname n Hnn); [|congruence].
    destruct (ancestors_chain name zone n Hname Hnn) as [->|[?|?]]; [by left|by right|].
    exfalso. apply Hb. congruence.
Qed.

(** What the API announces after each operation: the zone, and the name of a record change. *)
Definition change_of (o : op) : gostring * gostring :=
  match o with
  | CreateZoneOp z | UpdateZoneOp z => (NormalizeZone (zName z), [])
  | DeleteZoneOp n => (NormalizeZone n, [])
  | CreateRecordOp r => (NormalizeZone (rZone r), NormalizeName (NormalizeZone (rZone r)) (rName r))
  | DeleteRecordOp z n _ _ => (NormalizeZone z, NormalizeName (NormalizeZone z) n)
  end.

Lemma CreateZone_records e z d : records (snd (CreateZone e z d)) = records d.
Proof.
  unfold CreateZone. case_bool_decide; [done|]. set (ins := if bool_decide _ then _ else _).
  assert (Hr : records (snd (autocommit e ins d)) = records d).
  { unfold autocommit, ins. case_bool_decide; destruct (fault e 0); try done. by destruct (commit_applied e). }
  destruct (autocommit e ins d) as [r d1]. cbn in Hr |- *.
  destruct (scanZone r) as [|[]| |]; try done. by destruct (isPgCode _ _).
Qed.

Lemma UpdateZone_records e z d : records (snd (UpdateZone e z d)) = records d.
Proof.
  unfold UpdateZone. set (upd := go_bind _ _).
  assert (Hr : records (snd (autocommit e upd d)) = records d); [|by destruct (autocommit e upd d)].
  destruct upd as [[row d']| | |] eqn:E; [|by unfold autocommit; destruct (fault e 0)|done..].
  unfold upd in E. apply go_bind_Ok in E as ([zs hit] & _ & E).
  apply go_bind_Ok in E as (row' & _ & [= <- <-]). unfold autocommit.
  destruct (fault e 0); [|done]. by destruct (commit_applied e).
Qed.

(** A successful operation changes records only where its announcement says. *)
Lemma run_outside e o d d' :
  run s e o d = (Ok tt, d') ->
  filter (outside (fst (change_of o)) (snd (change_of o))) (records d') =
  filter (outside (fst (change_of o)) (snd (change_of o))) (records d).
Proof.
  intros Hrun. assert (Hd : d' = snd (run s e o d)) by (by rewrite Hrun).
  assert (Hnarrow : forall zone name, changes_only zone name d d' ->
    filter (outside zone name) (records d') = filter (outside zone name) (records d)).
  { intros zone name Hc. unfold changes_only in Hc.
    rewrite (filter_narrow _ (fun r => ~ at_name zone name r)), Hc, <- (filter_narrow _ (fun r => ~ at_name zone name r));
      [done|..]; intros r; unfold outside; case_bool_decide; try done; by intros ? []. }
  destruct o; cbn [run change_of fst snd] in *; rewrite ?snd_bind_ret in Hd.
  - by rewrite Hd, CreateZone_records.
  - by rewrite Hd, UpdateZone_records.
  - unfold DeleteZone, autocommit in Hrun. destruct (fault e 0); [done|].
    case_bool_decide; [done|]. injection Hrun as <-. cbn [records].
    rewrite list_filter_filter. apply list_filter_iff. intros r. unfold outside.
    rewrite bool_decide_eq_true_2 by done. tauto.
  - apply Hnarrow. apply st_bind_Ok in Hrun as (out & d1 & Hc & [= <-]).
    apply CreateRecord_Ok in Hc as (_ & d1' & row & d3 & Hr1 & _ & Hu & _ & ->).
    unfold changes_only. cbn [records set_records]. rewrite align_ttl_changes_only, <- Hr1.
    by apply upsert_changes_only in Hu.
  - apply Hnarrow. apply DeleteRecord_Ok in Hrun as (_ & Hr & _). unfold changes_only.
    rewrite Hr, list_filter_filter. apply list_filter_iff. intros r. split; [by intros []|].
    intros Hn. split; [done|]. intros [[Ha _] _]. done.
Qed.

Lemma Invalidate_keeps e o d d' c :
  run s e o d = (Ok tt, d') ->
  cached_ok (serves P d) (store_zone_of d) (store_names_of s d) c ->
  exists c', Invalidate (fst (change_of o)) (snd (change_of o)) (now_serves d' c) = Ok c' /\
    cached_ok (serves P d') (store_zone_of d') (store_names_of s d') c'.
Proof.
  intros Hrun Hc. eapply Invalidate_ok; [by eapply run_outside| |exact Hc].
  destruct o; cbn; [by left..|right|right]; apply NormalizeName_in_zone.
Qed.
End Invalidation.

(** ** Concrete runs *)
Section Witness.
#[local] Existing Instance unicode_id.
#[local] Existing Instance pg_ref.
#[local] Existing Instance pg_ref_laws.
#[local] Existing Instance maps_ref.
#[local] Existing Instance maps_ref_laws.

Definition ref_conn : Conn := mkConn ref_db (fun _ => env0) 0.
Definition ref_cached : CachedResolver Conn := NewCachedResolver ref_conn 1000 0 (fun n => Z.of_nat n).

Lemma ref_serves : serves no_fault ref_db ref_conn.
Proof. by split. Qed.

Lemma ref_text_ok : text_ok ref_db.
Proof.
  assert (H : forallb (fun z => forallb (fun c => negb (bool_decide (c = nul))) (zName z)) (Store.zones ref_db) = true)
    by (vm_compute; reflexivity).
  apply forallb_Forall in H. eapply Forall_impl; [exact H|]. cbn beta. intros z Hz%forallb_Forall Hin.
  rewrite Forall_forall in Hz. specialize (Hz nul Hin). by rewrite bool_decide_eq_true_2 in Hz.
Qed.

Lemma New_lookup {V} maxEntries t k : lookup_entry (New V maxEntries t) k = None.
Proof.
  unfold lookup_entry, shard_of. cbn [shards New].
  rewrite lookup_replicate_2 by apply shardFor_lt. cbn. by rewrite lookup_empty.
Qed.

Lemma ref_cached_ok {S} (R : S -> Prop) zone_of names_of s m t clk :
  R s -> cached_ok R zone_of names_of (NewCachedResolver s m t clk).
Proof.
  intros HR. constructor; cbn [next zones names NewCachedResolver]; [done|apply New_ok..| |].
  - intros q e He. by rewrite New_lookup in He.
  - intros z n e _ He. by rewrite New_lookup in He.
Qed.

Lemma CachedResolver_refines_witness :
  ResolverSpec (CachedResolver Conn) (H := CachedResolver_Resolver (H0 := StoreResolver ref_store))
    (cached_ok (serves no_fault ref_db) (store_zone_of ref_db) (store_names_of ref_store ref_db))
    (store_zone_of ref_db) (store_names_of ref_store ref_db).
Proof.
  refine (@CachedResolver_refines maps_ref maps_ref_laws Conn (StoreResolver ref_store) (serves no_fault ref_db)
    (store_zone_of ref_db) (store_names_of ref_store ref_db) _).
  exact (store_resolver_spec ref_store no_fault ref_db ref_db_ok ref_text_ok ref_store_total).
Defined.

Definition ref_delete : op := DeleteRecordOp (lit "example.com") (lit "a.deep") (lit "MX") (lit "10 www.example.com.").

End Witness.
