(* ===== verification/Handler.v ===== *)
(** * The query handler (src/internal/dns/handler.go)

    Every method of [Handler], over any resolver.  The state of a call is the resolver, the
    rotation counter and the response under construction, which the methods mutate; a method
    that returns an error leaves the response as it was at that point. *)

From Stdlib Require Import ZArith Lia Ascii String.
From stdpp Require Import base list strings.
From S2P Require Import Prelude GoStrings Message RData Store Resolver.

Definition maxChain : nat := 8.
Definition maxAdditional : nat := 16.
Definition typeIXFR : Z := 251.

Inductive handlerError :=
| StoreErr (e : storeError)
| SOAErr (e : packNameError).

Record Handler (S : Type) := mkHandler { resolver : S; rotate : Z; resp : Message }.
Arguments mkHandler {S} resolver rotate resp.
Arguments resolver {S} h.
Arguments rotate {S} h.
Arguments resp {S} h.

(** The result of [lookup]; a nil [cut] is the empty list. *)
Record match_ := mkMatch {
  mRecords : list Record_;
  mExists : bool;
  cutName : gostring;
  cut : list Record_;
  dname : option Record_;
  dnameAt : gostring;
}.

Definition no_match : match_ := mkMatch [] false [] [] None [].

Section Handler.
Context `{GoUnicode} {S : Type} `{Resolver S}.

Abbreviation M A := (st (Handler S) handlerError A).

(** ** Pure helpers *)

Definition filterType (records : list Record_) (qtype : Z) : list Record_ :=
  filter (fun r => TypeCode (rType r) = qtype) records.

Definition inZone (name zone : gostring) : bool :=
  bool_decide (name = zone) || HasSuffix name (lit "." ++ zone).

(** nil is the empty list; [BuildRData] always returns (RDataCorrect). *)
Definition wireOf (r : Record_) : bytes :=
  if bool_decide (rWire r <> []) then rWire r
  else
    match rWireErr r with
    | Some _ => []
    | None =>
      match BuildRData (TypeCode (rType r)) (rRData r) with
      | Ok wire => wire
      | _ => []
      end
    end.

Definition appendRR (section : list RR) (owner : gostring) (r : Record_) : list RR :=
  let typ := TypeCode (rType r) in
  let wire := wireOf r in
  if (typ =? 0)%Z || bool_decide (wire = []) then section
  else section ++ [mkRR owner typ ClassIN (u32 (rTTL r)) wire].

Definition soaRR (zone : Zone) : go packNameError RR :=
  let admin := Replace1 (zAdminEmail zone) "@"%char "."%char in
  let! rdata :=
    BuildSOA (zPrimaryNS zone) admin (u32 (zSerial zone)) (u32 (zRefresh zone)) (u32 (zRetry zone))
      (u32 (zExpire zone)) (u32 (zMinTTL zone)) in
  Ok (mkRR (zName zone) TypeSOA ClassIN (u32 (zMinTTL zone)) rdata).

(** ** Calls on the state *)
Definition set_resp (f : Message -> Message) : M unit :=
  fun h => (Ok tt, mkHandler (resolver h) (rotate h) (f (resp h))).

Definition call {A} (f : st S storeError A) : st (Handler S) storeError A :=
  fun h => let (r, s) := f (resolver h) in (r, mkHandler s (rotate h) (resp h)).

Definition lift {A} (c : st (Handler S) storeError A) : M A :=
  fun h => let (r, h') := c h in (go_wrap StoreErr r, h').

Definition add_answers (rrs : list RR) : M unit :=
  set_resp (fun m => set_Answers m (Answers m ++ rrs)).

(** The loop of [appendSet], [k] of the [n] turns left. *)
Fixpoint appendSet_loop (k i : nat) (start : Z) (section : list RR) (owner : gostring)
    (records : list Record_) : go handlerError (list RR) :=
  match k with
  | 0 => Ok section
  | Datatypes.S k' =>
    let! r := index records (Z.to_nat ((start + Z.of_nat i) mod Z.of_nat (length records))) in
    appendSet_loop k' (Datatypes.S i) start (appendRR section owner r) owner records
  end.

(** [appendSet] on the section [section]; the counter is a uint32 and a remainder by zero
    panics. *)
Definition appendSet (section : list RR) (owner : gostring) (records : list Record_) : M (list RR) :=
  fun h =>
    let n := length records in
    if bool_decide (n = 0) then (Ok section, h)
    else if bool_decide (1 < n) then
      let rot := u32 (rotate h + 1) in
      let h := mkHandler (resolver h) rot (resp h) in
      if (u32 (Z.of_nat n) =? 0)%Z then (Panic, h)
      else (appendSet_loop n 0 (rot mod u32 (Z.of_nat n)) section owner records, h)
    else (appendSet_loop n 0 0 section owner records, h).

Definition append_answers (owner : gostring) (records : list Record_) : M unit := fun h =>
  (do! l := appendSet (Answers (resp h)) owner records in set_resp (fun m => set_Answers m l)) h.

Definition zoneFor (name : gostring) : M (option Zone) := fun h =>
  match call (FindZone name) h with
  | (Ok z, h') => (Ok (Some z), h')
  | (Err ErrNotFound, h') => (Ok None, h')
  | (Err e, h') => (Err (StoreErr e), h')
  | (Panic, h') => (Panic, h')
  | (NoFuel, h') => (NoFuel, h')
  end.

Definition negative_resp (zone : Zone) (exists_ : bool) (m : Message) : go packNameError Message :=
  let m := if negb exists_ then SetRcode m RcodeNXDomain else m in
  match soaRR zone with
  | Ok soa =>
    let soa :=
      if (u32 (zMinTTL zone) <? rrTTL soa)%Z
      then mkRR (rrName soa) (rrType soa) (rrClass soa) (u32 (zMinTTL zone)) (rrData soa) else soa in
    Ok (set_Authority m (Authority m ++ [soa]))
  | Err _ => Ok m
  | Panic => Panic
  | NoFuel => NoFuel
  end.

Definition negative (zone : Zone) (exists_ : bool) : M unit := fun h =>
  match negative_resp zone exists_ (resp h) with
  | Ok m => (Ok tt, mkHandler (resolver h) (rotate h) m)
  | Err e => (Err (SOAErr e), h)
  | Panic => (Panic, h)
  | NoFuel => (NoFuel, h)
  end.

(** ** Glue *)

(** The inner loop of [addGlue]. *)
Definition append_addresses (section : list RR) (target : gostring) (records : list Record_) : list RR :=
  foldl (fun section a =>
    if bool_decide (rType a = lit "A") || bool_decide (rType a = lit "AAAA")
    then appendRR section target a else section) section records.

Fixpoint addGlue_loop (zone : Zone) (records : list Record_) (seen : list gostring) : M unit :=
  match records with
  | [] => st_ret (Ok tt)
  | r :: records' =>
    if bool_decide (maxAdditional <= length seen) then st_ret (Ok tt)
    else
      let target := ToLower (RDataNames (TypeCode (rType r)) (wireOf r)) in
      if bool_decide (target = []) || negb (inZone target (zName zone)) then addGlue_loop zone records' seen
      else if bool_decide (target ∈ seen) then addGlue_loop zone records' seen
      else
        let seen := seen ++ [target] in
        fun h =>
          match call (LookupName (zName zone) target) h with
          | (Ok set, h') =>
            (do! _ := set_resp (fun m => set_Additional m (append_addresses (Additional m) target (Records set))) in
             addGlue_loop zone records' seen) h'
          | (Err _, h') => addGlue_loop zone records' seen h'
          | (Panic, h') => (Panic, h')
          | (NoFuel, h') => (NoFuel, h')
          end
  end.

Definition addGlue (zone : Zone) (records : list Record_) : M unit := addGlue_loop zone records [].

Definition addAdditional (zone : Zone) (qtype : Z) (records : list Record_) : M unit :=
  if bool_decide (qtype ∈ [TypeMX; TypeNS; TypeSRV]) then addGlue zone records else st_ret (Ok tt).

(** ** Looking a name up *)

(** The walk of [lookup] towards the apex: a match at an ancestor, or the ancestor to try a
    wildcard at.  Every turn drops at least a byte of [encloser]. *)
Fixpoint encloser_loop (fuel : nat) (zone : Zone) (encloser : gostring) : M (match_ + gostring) :=
  if bool_decide (encloser = zName zone) then st_ret (Ok (inr encloser))
  else
    match fuel with
    | 0 => st_ret NoFuel
    | Datatypes.S fuel' =>
      match IndexByte encloser "."%char with
      | None => st_ret (Ok (inr encloser))
      | Some i =>
        let encloser := drop (i + 1) encloser in
        do! aset := lift (call (LookupName (zName zone) encloser)) in
        let stop :=
          if bool_decide (encloser <> zName zone) then
            match filterType (Records aset) TypeNS with
            | (_ :: _) as ns => Some (mkMatch [] false encloser ns None [])
            | [] =>
              match filterType (Records aset) TypeDNAME with
              | dn :: _ => Some (mkMatch [] false [] [] (Some dn) encloser)
              | [] => None
              end
            end
          else None in
        match stop with
        | Some m => st_ret (Ok (inl m))
        | None =>
          if Exists aset || bool_decide (encloser = zName zone) then st_ret (Ok (inr encloser))
          else encloser_loop fuel' zone encloser
        end
      end
    end.

Definition lookup_name (zone : Zone) (name : gostring) (qtype : Z) : M match_ :=
  do! set := lift (call (LookupName (zName zone) name)) in
  if bool_decide (0 < length (Records set)) then
    let ns := filterType (Records set) TypeNS in
    if bool_decide (name <> zName zone) && negb (qtype =? TypeDS)%Z && bool_decide (0 < length ns)
    then st_ret (Ok (mkMatch [] false name ns None []))
    else st_ret (Ok (mkMatch (Records set) true [] [] None []))
  else if HasChildren set || bool_decide (name = zName zone) then
    st_ret (Ok (mkMatch [] true [] [] None []))
  else
    do! r := encloser_loop (length name + 1) zone name in
    match r with
    | inl m => st_ret (Ok m)
    | inr encloser =>
      do! wset := lift (call (LookupName (zName zone) (lit "*." ++ encloser))) in
      if bool_decide (0 < length (Records wset))
      then st_ret (Ok (mkMatch (Records wset) true [] [] None []))
      else st_ret (Ok no_match)
    end.

(** ** Resolution *)

(** The turns of the loop of [resolve]: the next zone, name and owner, or the end. *)
Definition turn_result : Type := option (Zone * gostring * gostring).

Definition follow_to (name : gostring) : M turn_result :=
  do! nz := zoneFor name in
  match nz with
  | None => st_ret (Ok None)
  | Some z => st_ret (Ok (Some (z, name, name)))
  end.

Definition referral (zone : Zone) (m : match_) : M turn_result :=
  do! _ := set_resp (fun msg => set_Flags msg (Z.ldiff (mFlags msg) FlagAA)) in
  do! _ := set_resp (fun msg =>
    set_Authority msg (foldl (fun l r => appendRR l (cutName m) r) (Authority msg) (cut m))) in
  do! _ := addGlue zone (cut m) in
  st_ret (Ok None).

Definition follow_dname (m : match_) (dn : Record_) (name owner : gostring) : M turn_result :=
  do! _ := set_resp (fun msg => set_Answers msg (appendRR (Answers msg) (dnameAt m) dn)) in
  let target := RDataNames TypeDNAME (wireOf dn) in
  if bool_decide (target = []) then st_ret (Ok None)
  else
    let next := TrimSuffix name (lit "." ++ dnameAt m) ++ lit "." ++ ToLower target in
    if bool_decide (253 < length next) then
      do! _ := set_resp (fun msg => SetRcode msg RcodeServerFailure) in
      st_ret (Ok None)
    else
      match PackName [] next with
      | (_, Some _) => st_ret (Ok None)
      | (cname, None) =>
        do! _ := add_answers [mkRR owner TypeCNAME ClassIN (u32 (rTTL dn)) cname] in
        follow_to next
      end.

Definition answer (zone : Zone) (name owner : gostring) (qtype : Z) (m : match_) : M turn_result :=
  let apex := bool_decide (name = zName zone) in
  let records := mRecords m in
  if (qtype =? TypeANY)%Z then
    do! _ :=
      (if apex then
         match soaRR zone with
         | Ok soa => add_answers [soa]
         | Err _ => st_ret (Ok tt)
         | Panic => st_ret Panic
         | NoFuel => st_ret NoFuel
         end
       else st_ret (Ok tt)) in
    do! _ := append_answers owner records in
    fun h =>
      if bool_decide (length (Answers (resp h)) = 0)
      then (do! _ := negative zone (mExists m || apex) in st_ret (Ok None)) h
      else (Ok None, h)
  else if apex && (qtype =? TypeSOA)%Z then
    do! soa := st_ret (go_wrap SOAErr (soaRR zone)) in
    do! _ := add_answers [soa] in
    st_ret (Ok None)
  else
    let matched := filterType records qtype in
    if bool_decide (0 < length matched) then
      do! _ := append_answers owner matched in
      do! _ := addAdditional zone qtype matched in
      st_ret (Ok None)
    else
      match (if negb (qtype =? TypeCNAME)%Z then filterType records TypeCNAME else []) with
      | (c0 :: _) as cnames =>
        do! _ := append_answers owner cnames in
        let target := ToLower (RDataNames TypeCNAME (wireOf c0)) in
        if bool_decide (target = []) then st_ret (Ok None) else follow_to target
      | [] =>
        do! _ := negative zone (bool_decide (0 < length records) || mExists m || apex) in
        st_ret (Ok None)
      end.

(** One turn of the loop. *)
Definition turn (zone : Zone) (name owner : gostring) (qtype : Z) : M turn_result :=
  do! m := lookup_name zone name qtype in
  if bool_decide (cut m <> []) then referral zone m
  else
    match dname m with
    | Some dn => follow_dname m dn name owner
    | None => answer zone name owner qtype m
    end.

(** [hops <= maxChain], with [k] turns left. *)
Fixpoint resolve_loop (k : nat) (zone : Zone) (name owner : gostring) (qtype : Z) : M unit :=
  match k with
  | 0 => st_ret (Ok tt)
  | Datatypes.S k' =>
    do! r := turn zone name owner qtype in
    match r with
    | None => st_ret (Ok tt)
    | Some (zone, name, owner) => resolve_loop k' zone name owner qtype
    end
  end.

Definition resolve (zone : Zone) (name owner : gostring) (qtype : Z) : M unit :=
  resolve_loop (maxChain + 1) zone name owner qtype.

(** [Handle] on the request [req]; the counter and the resolver live on. *)
Definition Handle (req : Message) : st (S * Z) handlerError Message := fun '(s, rot) =>
  let resp0 := NewResponse req in
  let reply m := (Ok m, (s, rot)) in
  if negb (Opcode req =? 0)%Z then reply (SetRcode resp0 RcodeNotImplemented)
  else
    match Questions req with
    | [q] =>
      if negb (qClass q =? ClassIN)%Z && negb (qClass q =? ClassANY)%Z then reply (SetRcode resp0 RcodeRefused)
      else if (qType q =? TypeOPT)%Z then reply (SetRcode resp0 RcodeFormatError)
      else if bool_decide (qType q ∈ [TypeAXFR; typeIXFR]) then reply (SetRcode resp0 RcodeRefused)
      else
        let qname := ToLower (TrimSuffix (qName q) (lit ".")) in
        if bool_decide (qname = []) then reply (SetRcode resp0 RcodeRefused)
        else
          match FindZone qname s with
          | (Err ErrNotFound, s) => (Ok (SetRcode resp0 RcodeRefused), (s, rot))
          | (Err _, s) => (Ok (SetRcode resp0 RcodeServerFailure), (s, rot))
          | (Panic, s) => (Panic, (s, rot))
          | (NoFuel, s) => (NoFuel, (s, rot))
          | (Ok zone, s) =>
            let resp1 := set_Flags resp0 (Z.lor (mFlags resp0) FlagAA) in
            match resolve zone qname (TrimSuffix (qName q) (lit ".")) (qType q) (mkHandler s rot resp1) with
            | (Ok _, h) => (Ok (resp h), (resolver h, rotate h))
            | (Err _, h) =>
              let m := set_Additional (set_Authority (set_Answers (resp h) []) []) [] in
              let m := set_Flags m (Z.ldiff (mFlags m) FlagAA) in
              (Ok (SetRcode m RcodeServerFailure), (resolver h, rotate h))
            | (Panic, h) => (Panic, (resolver h, rotate h))
            | (NoFuel, h) => (NoFuel, (resolver h, rotate h))
            end
          end
    | _ => reply (SetRcode resp0 RcodeFormatError)
    end.
End Handler.
