(* ===== verification/HandlerCorrect.v ===== *)
(** * Correctness of the query handler

    Proved against the resolver specification, so for the store and for the cached resolver
    alike: every query is answered, the response keeps the frame of the query, nothing in it
    is made up, and the search for a name follows the closest-encloser rules of DNS. *)

From Stdlib Require Import ZArith Lia Ascii String.
From stdpp Require Import base list strings.
From S2P Require Import Prelude GoStrings Message WireNames MessageCodec Names RData RDataCorrect Store StoreCorrect.
From S2P Require Import StoreQueries Resolver Handler.

(** ** The frame of a response *)

(** Everything the handler leaves alone: all of the message but the record sections, the
    AA bit (10) and the response code (bits 0 to 3). *)
Definition framed (m0 m : Message) : Prop :=
  ID (header m) = ID (header m0) /\ Questions m = Questions m0 /\ EDNS0 m = EDNS0 m0 /\
  EDNS0DO m = EDNS0DO m0 /\ EDNS0Size m = EDNS0Size m0 /\
  forall i, (4 <= i)%Z -> i <> 10%Z -> Z.testbit (mFlags m) i = Z.testbit (mFlags m0) i.

Lemma framed_refl m : framed m m.
Proof. by repeat split. Qed.

Lemma framed_flags m0 m f :
  framed m0 m ->
  (forall i, (4 <= i)%Z -> i <> 10%Z -> Z.testbit f i = Z.testbit (mFlags m) i) -> framed m0 (set_Flags m f).
Proof.
  intros (H1 & H2 & H3 & H4 & H5 & H6) Hf. repeat split; try done.
  intros i Hi Hn. cbn. by rewrite Hf, H6.
Qed.

Lemma FlagAA_bit i : i <> 10%Z -> Z.testbit FlagAA i = false.
Proof. intros Hi. change FlagAA with (2 ^ 10)%Z. apply Z.pow2_bits_false. lia. Qed.

Lemma framed_set_AA m0 m : framed m0 m -> framed m0 (set_Flags m (Z.lor (mFlags m) FlagAA)).
Proof. intros H. apply framed_flags; [done|]. intros i _ Hi. by rewrite Z.lor_spec, FlagAA_bit, orb_false_r. Qed.

Lemma framed_clear_AA m0 m : framed m0 m -> framed m0 (set_Flags m (Z.ldiff (mFlags m) FlagAA)).
Proof. intros H. apply framed_flags; [done|]. intros i _ Hi. by rewrite Z.ldiff_spec, FlagAA_bit, andb_true_r. Qed.

Lemma framed_SetRcode m0 m r : framed m0 m -> framed m0 (SetRcode m r).
Proof.
  intros H. apply framed_flags; [done|]. intros i Hi _.
  pose proof (land_range 4 15 r ltac:(lia) ltac:(lia)) as Hr. rewrite (Z.land_comm 15) in Hr.
  rewrite Z.lor_spec, Z.ldiff_spec. unfold u16. rewrite Z.mod_small by lia.
  change 15%Z with (Z.ones 4) at 1. rewrite Z.ones_spec_high by lia.
  rewrite (pow2_bits_above (Z.land r 15) 4 i) by lia. by rewrite andb_true_r, orb_false_r.
Qed.

Lemma Rcode_bits m f : (forall i, (i < 4)%Z -> Z.testbit f i = Z.testbit (mFlags m) i) -> Rcode (set_Flags m f) = Rcode m.
Proof.
  intros Hf. unfold Rcode. cbn. apply Z.bits_inj'. intros i Hi. rewrite !Z.land_spec.
  destruct (decide (i < 4)%Z); [by rewrite Hf|]. change 15%Z with (Z.ones 4).
  rewrite Z.ones_spec_high by lia. by rewrite !andb_false_r.
Qed.

Lemma Rcode_set_AA m : Rcode (set_Flags m (Z.lor (mFlags m) FlagAA)) = Rcode m.
Proof. apply Rcode_bits. intros i Hi. by rewrite Z.lor_spec, FlagAA_bit, orb_false_r by lia. Qed.

Lemma Rcode_clear_AA m : Rcode (set_Flags m (Z.ldiff (mFlags m) FlagAA)) = Rcode m.
Proof. apply Rcode_bits. intros i Hi. by rewrite Z.ldiff_spec, FlagAA_bit, andb_true_r by lia. Qed.

(** The response codes a search can end with. *)
Definition search_rcode (m : Message) : Prop :=
  Rcode m ∈ [RcodeNoError; RcodeServerFailure; RcodeNXDomain].

Definition sections (m : Message) : list RR := Answers m ++ Authority m ++ Additional m.

(** The ancestors of [q] that a search in [z] visits: up to the apex, where [q] is in the zone. *)
Definition visits (z q x : gostring) : Prop :=
  at_or_below x q /\ (at_or_below z q -> at_or_below z x).

(** What the handler needs of a resolver: the specification of its calls; that [Exists] of an
    answer says whether the zone has something at or below the name; and that no name has
    2^32 records. *)
Class SearchSpec (S : Type) `{Resolver S} (R : S -> Prop)
    (zone_of : gostring -> option Zone -> Prop) (names_of : gostring -> gostring -> NameSet -> Prop)
    (ex : gostring -> gostring -> Prop) : Prop := {
  search_resolver :: ResolverSpec S R zone_of names_of;
  small_sets z n set : names_of z n set -> (Z.of_nat (length (Records set)) < 2 ^ 32)%Z;
  names_exists z n set : names_of z n set -> at_or_below z n -> Exists set = true <-> ex z n;
}.

Section Correct.
Context `{GoUnicode} {S : Type} `{Resolver S}.
Context (R : S -> Prop) (zone_of : gostring -> option Zone -> Prop) (names_of : gostring -> gostring -> NameSet -> Prop)
  (ex : gostring -> gostring -> Prop).
Context `{!SearchSpec S R zone_of names_of ex}.

(** ** Where the records of a response come from *)
Definition stored (r : Record_) : Prop := exists z n set, names_of z n set /\ r ∈ Records set.

Inductive sound (rr : RR) : Prop :=
| sound_record r : stored r -> rrType rr = TypeCode (rType r) -> rrData rr = wireOf r ->
    rrTTL rr = u32 (rTTL r) -> rrClass rr = ClassIN -> sound rr
| sound_soa q z : zone_of q (Some z) -> soaRR z = Ok rr -> sound rr
| sound_dname dn owner name cname : stored dn -> PackName [] name = (cname, None) ->
    rr = mkRR owner TypeCNAME ClassIN (u32 (rTTL dn)) cname -> sound rr.

Lemma appendRR_sound l owner r : Forall sound l -> stored r -> Forall sound (appendRR l owner r).
Proof.
  intros Hl Hr. unfold appendRR. destruct (_ || _); [done|]. apply Forall_snoc; [done|].
  by eapply sound_record.
Qed.

(** ** The invariant of a call *)
Definition handler_ok (req : Message) (h : Handler S) : Prop :=
  R (resolver h) /\ framed (NewResponse req) (resp h) /\ Forall sound (sections (resp h)) /\
  search_rcode (resp h).

(** Why a method fails: a call to the resolver did, or the SOA of a zone cannot be encoded. *)
Definition cause (e : handlerError) : Prop :=
  match e with
  | StoreErr e =>
    (exists n s, R s /\ fst (FindZone n s) = Err e /\ e <> ErrNotFound) \/
    (exists z n s, R s /\ fst (LookupName z n s) = Err e)
  | SOAErr e => exists q zone, zone_of q (Some zone) /\ soaRR zone = Err e
  end.

(** A method that returns, keeps the invariant, and gives a result with [Q]. *)
Definition keeps {A} (c : st (Handler S) handlerError A) (Q : A -> Prop) : Prop :=
  forall req h, handler_ok req h ->
  match c h with
  | (Ok a, h') => handler_ok req h' /\ Q a
  | (Err e, h') => handler_ok req h' /\ cause e
  | _ => False
  end.

Lemma keeps_ret {A} (a : A) (Q : A -> Prop) : Q a -> keeps (st_ret (Ok a)) Q.
Proof. by intros HQ req h Hh. Qed.

Lemma keeps_bind {A B} (c : st (Handler S) handlerError A) (k : A -> st (Handler S) handlerError B) P Q :
  keeps c P -> (forall a, P a -> keeps (k a) Q) -> keeps (st_bind c k) Q.
Proof.
  intros Hc Hk req h Hh. unfold st_bind. specialize (Hc req h Hh).
  destruct (c h) as [[a| | |] h']; try done. destruct Hc as [Hh' Ha]. by apply Hk.
Qed.

Lemma keeps_weaken {A} (c : st (Handler S) handlerError A) (P Q : A -> Prop) :
  keeps c P -> (forall a, P a -> Q a) -> keeps c Q.
Proof.
  intros Hc HPQ req h Hh. specialize (Hc req h Hh). destruct (c h) as [[a| | |] h']; naive_solver.
Qed.

Lemma keeps_set_resp f :
  (forall m0 m, framed m0 m -> framed m0 (f m)) ->
  (forall m, Forall sound (sections m) -> Forall sound (sections (f m))) ->
  (forall m, search_rcode m -> search_rcode (f m)) ->
  keeps (set_resp f) (fun _ => True).
Proof.
  intros Hf Hs Hc req h (HR & Hfr & Hso & Hrc). cbn. split; [|done]. split; [done|].
  split; [by apply Hf|]. split; [by apply Hs|by apply Hc].
Qed.

Lemma keeps_LookupName z n :
  nul ∉ z -> keeps (lift (call (LookupName z n))) (names_of z n).
Proof.
  intros Hz req h (HR & Hh). unfold lift, call. pose proof (LookupName_keeps z n (resolver h) HR Hz) as Hk.
  pose proof (LookupName_answers z n (resolver h) HR Hz) as Ha.
  destruct (LookupName z n (resolver h)) as [[set|e| |] s] eqn:E; cbn in *; try done.
  split; [done|]. right. exists z, n, (resolver h). by rewrite E.
Qed.

Lemma keeps_zoneFor q :
  keeps (zoneFor q) (fun r => match r with Some z => zone_of q (Some z) | None => True end).
Proof.
  intros req h (HR & Hh). unfold zoneFor, call. pose proof (FindZone_keeps q (resolver h) HR) as Hk.
  pose proof (FindZone_answers q (resolver h) HR) as Ha.
  destruct (FindZone q (resolver h)) as [[z|e| |] s] eqn:E; cbn in *; try done.
  destruct e; (split; [done|]; try done); left; exists q, (resolver h); by rewrite E.
Qed.

Lemma zone_text q z : zone_of q (Some z) -> nul ∉ zName z.
Proof. apply zone_of_text. Qed.

(** *** Appending records *)
Lemma sections_Answers m l :
  Forall sound (sections m) -> Forall sound l -> Forall sound (sections (set_Answers m l)).
Proof. unfold sections. cbn. rewrite !Forall_app. naive_solver. Qed.

Lemma sections_Authority m l :
  Forall sound (sections m) -> Forall sound l -> Forall sound (sections (set_Authority m l)).
Proof. unfold sections. cbn. rewrite !Forall_app. naive_solver. Qed.

Lemma sections_Additional m l :
  Forall sound (sections m) -> Forall sound l -> Forall sound (sections (set_Additional m l)).
Proof. unfold sections. cbn. rewrite !Forall_app. naive_solver. Qed.

Lemma sections_split m :
  Forall sound (sections m) -> Forall sound (Answers m) /\ Forall sound (Authority m) /\ Forall sound (Additional m).
Proof. unfold sections. by rewrite !Forall_app. Qed.

Lemma keeps_add_answers rrs : Forall sound rrs -> keeps (add_answers rrs) (fun _ => True).
Proof.
  intros Hr. apply keeps_set_resp; [intros m0 m Hm; exact Hm| |done].
  intros m Hm. apply sections_Answers; [done|]. apply Forall_app. by split; [apply sections_split|].
Qed.

(** The loop of [appendSet] stays inside the slice. *)
Lemma appendSet_loop_sound k i start l owner records :
  0 < length records -> Forall stored records -> Forall sound l ->
  exists l', appendSet_loop k i start l owner records = Ok l' /\ Forall sound l'.
Proof.
  intros Hn Hr. revert i l. induction k as [|k IH]; intros i l Hl; cbn [appendSet_loop]; [by exists l|].
  assert (Hi : Z.to_nat ((start + Z.of_nat i) mod Z.of_nat (length records)) < length records).
  { pose proof (Z.mod_pos_bound (start + Z.of_nat i) (Z.of_nat (length records)) ltac:(lia)). lia. }
  destruct (index_lt (E := handlerError) records _ Hi) as (r & Hx & ->). cbn [go_bind]. apply IH.
  apply appendRR_sound; [done|]. rewrite Forall_forall in Hr. apply Hr. by eapply list_elem_of_lookup_2.
Qed.

Definition small (records : list Record_) : Prop := (Z.of_nat (length records) < 2 ^ 32)%Z.

Lemma keeps_append_answers owner records :
  Forall stored records -> small records -> keeps (append_answers owner records) (fun _ => True).
Proof.
  intros Hr Hsm req h (HR & Hf & Hs & Hrc). unfold append_answers, appendSet, st_bind.
  destruct (sections_split _ Hs) as [Ha _].
  assert (Hdone : forall rot l, Forall sound l -> handler_ok req (mkHandler (resolver h) rot (set_Answers (resp h) l))).
  { intros rot l Hl. split; [done|]. split; [done|]. split; [by apply sections_Answers|done]. }
  case_bool_decide as Hn0; [cbn; split; [by apply Hdone|done]|]. case_bool_decide as Hn1.
  - destruct (Z.eqb_spec (u32 (Z.of_nat (length records))) 0) as [E|E].
    + unfold u32, small in *. rewrite Z.mod_small in E by lia. lia.
    + destruct (appendSet_loop_sound (length records) 0 (u32 (rotate h + 1) mod u32 (Z.of_nat (length records)))
        (Answers (resp h)) owner records ltac:(lia) Hr Ha) as (l & -> & Hl). cbn. split; [by apply Hdone|done].
  - destruct (appendSet_loop_sound (length records) 0 0 (Answers (resp h)) owner records ltac:(lia) Hr Ha)
      as (l & -> & Hl). cbn. split; [by apply Hdone|done].
Qed.

Lemma soaRR_returns z : exists r, soaRR z = r /\ match r with Ok _ | Err _ => True | _ => False end.
Proof.
  eexists. split; [done|]. unfold soaRR, BuildSOA.
  destruct (PackName [] _) as [b [e|]]; [done|]. by destruct (PackName b _) as [b' [e|]].
Qed.

Lemma negative_keeps q z b : zone_of q (Some z) -> keeps (negative z b) (fun _ => True).
Proof.
  intros Hz req h (HR & Hf & Hs & Hrc). unfold negative, negative_resp.
  destruct (soaRR_returns z) as (r & Hr & Hok). rewrite Hr.
  set (m := if negb b then SetRcode (resp h) RcodeNXDomain else resp h).
  assert (Hfm : framed (NewResponse req) m) by (unfold m; destruct b; [done|by apply framed_SetRcode]).
  assert (Hsm : Forall sound (sections m)) by (unfold m; by destruct b).
  assert (Hrm : search_rcode m).
  { unfold m. destruct b; [done|]. unfold search_rcode. cbn [negb]. rewrite Rcode_SetRcode. right. right. left. }
  destruct r as [soa|e| |]; try done. cbn. split; [|done]. split; [done|]. split; [done|]. split; [|done].
  apply sections_Authority; [done|]. apply Forall_snoc; [by apply sections_split|].
  assert (Htt : rrTTL soa = u32 (zMinTTL z)).
  { unfold soaRR in Hr. apply go_bind_Ok in Hr as (rd & _ & [= <-]). done. }
  rewrite Htt, Z.ltb_irrefl. by eapply sound_soa.
Qed.

(** *** Glue *)
Lemma append_addresses_sound l target records :
  Forall sound l -> Forall stored records -> Forall sound (append_addresses l target records).
Proof.
  unfold append_addresses. intros Hl Hr. revert l Hl.
  induction Hr as [|r records Hr0 Hr IH]; intros l Hl; [done|]. cbn [foldl]. apply IH.
  destruct (_ || _); [|done]. by apply appendRR_sound.
Qed.

Lemma stored_set z n set : names_of z n set -> Forall stored (Records set).
Proof. intros Hn. apply Forall_forall. intros r Hr. by exists z, n, set. Qed.

Lemma inZone_at_or_below x z : inZone x z = true <-> at_or_below z x.
Proof.
  unfold inZone, at_or_below, below. rewrite orb_true_iff, bool_decide_eq_true, HasSuffix_true. done.
Qed.

Lemma addGlue_loop_keeps z records seen :
  nul ∉ zName z -> keeps (addGlue_loop z records seen) (fun _ => True).
Proof.
  intros Hz. revert seen. induction records as [|r records IH]; intros seen; cbn [addGlue_loop]; [by apply keeps_ret|].
  case_bool_decide; [by apply keeps_ret|]. destruct (_ || negb _) eqn:Ht; [apply IH|].
  apply orb_false_iff in Ht as [_ Ht%negb_false_iff%inZone_at_or_below]. case_bool_decide; [apply IH|].
  set (target := ToLower _) in *. intros req h (HR & Hf & Hs & Hrc). unfold call.
  pose proof (LookupName_keeps _ target (resolver h) HR Hz) as Hk.
  pose proof (LookupName_answers _ target (resolver h) HR Hz) as Ha.
  destruct (LookupName _ target (resolver h)) as [[set|e| |] s]; cbn [fst snd] in *; try done.
  - unfold st_bind. cbn. apply IH. split; [done|]. split; [done|]. split; [|done]. apply sections_Additional; [done|].
    apply append_addresses_sound; [by apply sections_split|by eapply stored_set].
  - by apply IH.
Qed.

(** ** The search for a name *)

(** The closest encloser of a name: its deepest proper ancestor that exists, or the apex. *)
Definition closest_encloser (z n ce : gostring) : Prop :=
  below ce n /\ at_or_below z ce /\ (ce = z \/ ex z ce) /\
  forall x, below x n -> below ce x -> ~ ex z x.

(** What a search must find (RFC 1034, 4.3.2): the records at the name, or a referral if the
    name is a zone cut; an empty non-terminal; else, at the closest encloser, a referral, a
    DNAME, the wildcard below it, or nothing. *)
Inductive lookup_spec (z n : gostring) (qtype : Z) : match_ -> Prop :=
| found_cut set : names_of z n set -> n <> z -> qtype <> TypeDS ->
    filterType (Records set) TypeNS <> [] ->
    lookup_spec z n qtype (mkMatch [] false n (filterType (Records set) TypeNS) None [])
| found_records set : names_of z n set -> Records set <> [] ->
    (n = z \/ qtype = TypeDS \/ filterType (Records set) TypeNS = []) ->
    lookup_spec z n qtype (mkMatch (Records set) true [] [] None [])
| found_empty set : names_of z n set -> Records set = [] -> n = z \/ ex z n ->
    lookup_spec z n qtype (mkMatch [] true [] [] None [])
| encloser_cut ce set : ~ ex z n -> closest_encloser z n ce -> ce <> z -> names_of z ce set ->
    filterType (Records set) TypeNS <> [] ->
    lookup_spec z n qtype (mkMatch [] false ce (filterType (Records set) TypeNS) None [])
| encloser_dname ce set dn l : ~ ex z n -> closest_encloser z n ce -> ce <> z -> names_of z ce set ->
    filterType (Records set) TypeNS = [] -> filterType (Records set) TypeDNAME = dn :: l ->
    lookup_spec z n qtype (mkMatch [] false [] [] (Some dn) ce)
| wildcard ce wset : ~ ex z n -> closest_encloser z n ce ->
    (ce = z \/ exists set, names_of z ce set /\ filterType (Records set) TypeNS = [] /\
       filterType (Records set) TypeDNAME = []) ->
    names_of z (lit "*." ++ ce) wset -> Records wset <> [] ->
    lookup_spec z n qtype (mkMatch (Records wset) true [] [] None [])
| nothing ce wset : ~ ex z n -> closest_encloser z n ce ->
    (ce = z \/ exists set, names_of z ce set /\ filterType (Records set) TypeNS = [] /\
       filterType (Records set) TypeDNAME = []) ->
    names_of z (lit "*." ++ ce) wset -> Records wset = [] ->
    lookup_spec z n qtype no_match.

(** The records of a match come from the resolver. *)
Definition match_ok (m : match_) : Prop :=
  Forall stored (mRecords m) /\ small (mRecords m) /\ Forall stored (cut m) /\
  (forall dn, dname m = Some dn -> stored dn) /\ (mRecords m <> [] -> mExists m = true).

Lemma stored_filter z n set t : names_of z n set -> Forall stored (filterType (Records set) t).
Proof. intros Hn. apply Forall_filter_rows. by eapply stored_set. Qed.

Lemma match_ok_records z n set : names_of z n set -> match_ok (mkMatch (Records set) true [] [] None []).
Proof.
  intros Hn. split; [by eapply stored_set|]. split; [by eapply small_sets|]. split; [done|]. by split.
Qed.

Lemma match_ok_cut z n set x : names_of z n set -> match_ok (mkMatch [] false x (filterType (Records set) TypeNS) None []).
Proof. intros Hn. split; [done|]. split; [done|]. split; [by eapply stored_filter|]. by split. Qed.

Lemma match_ok_nothing b : match_ok (mkMatch [] b [] [] None []).
Proof. by repeat split. Qed.

Lemma Exists_records set : Records set <> [] -> Exists set = true.
Proof. unfold Exists. by destruct (Records set). Qed.

Lemma filterType_nonempty set t : filterType (Records set) t <> [] -> Records set <> [].
Proof. by destruct (Records set). Qed.

(** One step of the walk. *)
Lemma visits_step z q l r :
  "."%char ∉ l -> visits z q (l ++ "."%char :: r) -> l ++ "."%char :: r <> z -> visits z q r.
Proof.
  intros Hl [Ha Hz] Hne. split.
  - assert (Hr : below r (l ++ "."%char :: r)) by (by exists l).
    destruct Ha as [->|Ha]; right; [done|]. by eapply below_trans.
  - intros Hq. destruct (Hz Hq) as [?|Hb]; [done|]. apply below_step in Hb as [->|?]; [by left|by right|done].
Qed.

(** The outcome of the walk above [n]. *)
Definition walk_ok (z n : gostring) (r : match_ + gostring) : Prop :=
  match r with
  | inl m => match_ok m /\ (at_or_below z n -> ~ ex z n -> forall qtype, lookup_spec z n qtype m)
  | inr ce => visits z n ce /\ (at_or_below z n -> closest_encloser z n ce /\
      (ce = z \/ exists set, names_of z ce set /\ filterType (Records set) TypeNS = [] /\
         filterType (Records set) TypeDNAME = []))
  end.

(** A stop of the walk at the ancestor [e], where nothing between [e] and [n] exists. *)
Lemma walk_encloser z n e :
  below e n -> (at_or_below z n -> at_or_below z e) -> (e = z \/ ex z e) ->
  (forall x, below x n -> below e x -> ~ ex z x) -> at_or_below z n -> closest_encloser z n e.
Proof. intros. split; [done|]. split; [auto|]. by split. Qed.

(** Between [r] and a name one label below it there is nothing. *)
Lemma no_name_between n l r x :
  "."%char ∉ l -> at_or_below (l ++ "."%char :: r) n -> at_or_below x n -> below r x ->
  at_or_below (l ++ "."%char :: r) x.
Proof.
  intros Hl He Hx Hr. destruct (ancestors_chain n x (l ++ "."%char :: r) Hx He) as [->|[Hb|Hb]].
  - by left.
  - exfalso. assert (Hlen : length r < length x) by (destruct Hr as [w ->]; rewrite !length_app; cbn; lia).
    apply below_step in Hb as [->|[w ->]]; [lia| |done]. rewrite !length_app in Hlen. cbn in Hlen. lia.
  - by right.
Qed.

Lemma encloser_loop_keeps fuel zone n e :
  zone_of n (Some zone) -> length e < fuel -> visits (zName zone) n e -> e <> zName zone ->
  (at_or_below (zName zone) n -> forall x, below x n -> at_or_below e x -> ~ ex (zName zone) x) ->
  keeps (encloser_loop fuel zone e) (walk_ok (zName zone) n).
Proof.
  intros Hzone. pose proof (zone_text _ _ Hzone) as Hnul. set (z := zName zone) in *. revert e.
  induction fuel as [|fuel IH]; intros e Hf Hv Hne Hex; [lia|]. cbn [encloser_loop]. fold z.
  rewrite bool_decide_eq_false_2 by done. destruct (IndexByte e "."%char) as [i|] eqn:Hi.
  2: { apply keeps_ret. split; [done|]. intros Hq. apply IndexByte_None in Hi. exfalso.
       destruct (proj2 Hv Hq) as [?|Hb]; [done|]. by apply below_no_dot in Hb. }
  apply IndexByte_Some in Hi as (l & r & -> & <- & Hl). rewrite drop_past.
  pose proof (visits_step _ _ _ _ Hl Hv Hne) as Hvr.
  assert (Hrn : below r n).
  { assert (Hr : below r (l ++ "."%char :: r)) by (by exists l).
    destruct Hv as [[->|Ha] _]; [done|]. by eapply below_trans. }
  assert (Hgap : at_or_below z n -> forall x, below x n -> below r x -> ~ ex z x).
  { intros Hq x Hx Hr. apply Hex; [done..|]. apply (no_name_between n); [done|apply Hv|by right|done]. }
  eapply keeps_bind; [by apply keeps_LookupName|]. intros aset Haset.
  pose proof (fun Hq => names_exists _ _ _ Haset (proj2 Hvr Hq)) as Hexr.
  rewrite length_app in Hf. cbn in Hf. case_bool_decide as Hrz.
  - destruct (filterType (Records aset) TypeNS) as [|ns nss] eqn:Ens.
    + destruct (filterType (Records aset) TypeDNAME) as [|dn dns] eqn:Edn.
      * destruct (Exists aset) eqn:Eex; cbn [orb].
        -- apply keeps_ret. split; [done|]. intros Hq. split; [|right; by exists aset].
           apply walk_encloser; [done|apply Hvr|right; by apply Hexr|by apply Hgap|done].
        -- rewrite bool_decide_eq_false_2 by done. apply IH; [lia|done|done|].
           intros Hq x Hx [->|Hb]; [|by apply Hgap]. intros Hxx%Hexr; [congruence|done].
      * apply keeps_ret. assert (Hst : stored dn).
        { pose proof (stored_filter _ _ _ TypeDNAME Haset) as Hs. rewrite Edn in Hs. by apply Forall_cons in Hs as [? _]. }
        split; [split; [done|]; split; [done|]; split; [done|]; split; [by intros dn' [= <-]|done]|].
        intros Hq Hnx qtype. eapply encloser_dname; [done| |done|exact Haset|done|exact Edn].
        apply walk_encloser; [done|apply Hvr| |by apply Hgap|done]. right. apply Hexr; [done|].
        apply Exists_records, (filterType_nonempty _ TypeDNAME). by rewrite Edn.
    + rewrite <- Ens. apply keeps_ret. split; [by eapply match_ok_cut|]. intros Hq Hnx qtype.
      assert (HNS : filterType (Records aset) TypeNS <> []) by (by rewrite Ens).
      eapply encloser_cut; [done| |done|exact Haset|exact HNS].
      apply walk_encloser; [done|apply Hvr| |by apply Hgap|done]. right. apply Hexr; [done|].
      by apply Exists_records, (filterType_nonempty _ TypeNS).
  - assert (Erz : r = z) by (by destruct (decide (r = z))).
    rewrite (bool_decide_eq_true_2 (r = z)), orb_true_r by done. apply keeps_ret.
    split; [done|]. intros Hq. split; [|by left].
    apply walk_encloser; [done|apply Hvr|by left|by apply Hgap|done].
Qed.

Lemma lookup_name_keeps zone n qtype :
  zone_of n (Some zone) ->
  keeps (lookup_name zone n qtype)
    (fun m => match_ok m /\ (at_or_below (zName zone) n -> lookup_spec (zName zone) n qtype m)).
Proof.
  intros Hzone. pose proof (zone_text _ _ Hzone) as Hnul. unfold lookup_name. set (z := zName zone) in *.
  assert (Hv : visits z n n) by (split; [by left|done]).
  eapply keeps_bind; [by apply keeps_LookupName|]. intros set Hset.
  case_bool_decide as Hlen.
  - assert (Hne : Records set <> []) by (by destruct (Records set); [cbn in Hlen; lia|]).
    destruct (_ && _ && _) eqn:Ec; apply keeps_ret.
    + apply andb_true_iff in Ec as [[Hnz%bool_decide_eq_true Hds]%andb_true_iff Hns%bool_decide_eq_true].
      apply negb_true_iff, Z.eqb_neq in Hds. split; [by eapply match_ok_cut|]. intros _.
      apply found_cut; [done..|]. by destruct (filterType _ _); [cbn in Hns; lia|].
    + split; [by eapply match_ok_records|]. intros _. apply found_records; [done..|].
      rewrite !andb_false_iff, !bool_decide_eq_false, negb_false_iff, Z.eqb_eq in Ec.
      destruct Ec as [[Hz|?]|Hns]; [left; by destruct (decide (n = z))|by right; left|right; right].
      destruct (filterType _ _); [done|cbn in Hns; lia].
  - assert (Hnil : Records set = []) by (by destruct (Records set); [|cbn in Hlen; lia]).
    assert (Hch : HasChildren set = Exists set) by (unfold Exists; by rewrite Hnil).
    destruct (HasChildren set) eqn:Ech; cbn [orb].
    + apply keeps_ret. split; [apply match_ok_nothing|]. intros Hq. eapply found_empty; [done|done|].
      right. by eapply names_exists.
    + case_bool_decide as Hnz.
      * apply keeps_ret. split; [apply match_ok_nothing|]. intros _. eapply found_empty; [done|done|by left].
      * assert (Hnx : at_or_below z n -> ~ ex z n)
          by (intros Hq Hx; apply (names_exists _ _ _ Hset Hq) in Hx; congruence).
        eapply keeps_bind.
        { apply (encloser_loop_keeps _ zone n n); [done|lia|done|done|].
          intros _ x Hx Hnn. exfalso. destruct Hx as [w ->]. destruct Hnn as [E|[w' E]];
            apply (f_equal length) in E; rewrite !length_app in E; cbn in E; lia. }
        intros [m|ce]; cbn [walk_ok].
        -- intros [Hm Hs]. apply keeps_ret. split; [done|]. intros Hq. by apply Hs; [|apply Hnx].
        -- intros [Hvc Hce]. eapply keeps_bind; [by apply keeps_LookupName|].
           intros wset Hw. case_bool_decide as Hwl; apply keeps_ret.
           ++ split; [by eapply match_ok_records|]. intros Hq. destruct (Hce Hq) as [Hc1 Hc2].
              eapply wildcard; try done; [by apply Hnx|]. by destruct (Records wset); [cbn in Hwl; lia|].
           ++ split; [apply match_ok_nothing|]. intros Hq. destruct (Hce Hq) as [Hc1 Hc2].
              eapply nothing; try done; [by apply Hnx|]. by destruct (Records wset); [|cbn in Hwl; lia].
Qed.

(** ** Resolution *)

(** The next turn starts in the zone of the name it looks for. *)
Definition next_ok (r : turn_result) : Prop :=
  match r with Some (zone, name, _) => zone_of name (Some zone) | None => True end.

Lemma follow_to_keeps name : keeps (follow_to name) next_ok.
Proof.
  eapply keeps_bind; [apply keeps_zoneFor|]. intros [z|] Hz; by apply keeps_ret.
Qed.

Lemma appendRR_all_sound l owner records :
  Forall sound l -> Forall stored records -> Forall sound (foldl (fun l r => appendRR l owner r) l records).
Proof.
  intros Hl Hr. revert l Hl. induction Hr as [|r records Hr0 Hr IH]; intros l Hl; [done|].
  apply IH. by apply appendRR_sound.
Qed.

Lemma referral_keeps zone m : nul ∉ zName zone -> match_ok m -> keeps (referral zone m) next_ok.
Proof.
  intros Hz (_ & _ & Hcut & _). eapply keeps_bind; [apply keeps_set_resp; [apply framed_clear_AA|done|]|].
  { intros msg. unfold search_rcode. by rewrite Rcode_clear_AA. }
  intros _ _. eapply keeps_bind.
  { apply keeps_set_resp; [intros m0 msg Hm; exact Hm| |done]. intros msg Hm. apply sections_Authority; [done|].
    apply appendRR_all_sound; [by apply sections_split|done]. }
  intros _ _. eapply keeps_bind; [by apply addGlue_loop_keeps|]. intros _ _. by apply keeps_ret.
Qed.

Lemma follow_dname_keeps m dn name owner :
  stored dn -> keeps (follow_dname m dn name owner) next_ok.
Proof.
  intros Hdn. eapply keeps_bind.
  { apply keeps_set_resp; [intros m0 msg Hm; exact Hm| |done]. intros msg Hm. apply sections_Answers; [done|].
    apply appendRR_sound; [by apply sections_split|done]. }
  intros _ _. cbv zeta. case_bool_decide; [by apply keeps_ret|]. case_bool_decide.
  - eapply keeps_bind; [apply keeps_set_resp; [intros m0 msg; apply framed_SetRcode|done|]|].
    { intros msg _. unfold search_rcode. rewrite Rcode_SetRcode. right. left. }
    intros _ _. by apply keeps_ret.
  - destruct (PackName [] _) as [cname [e|]] eqn:Hp; [by apply keeps_ret|].
    eapply keeps_bind; [|intros _ _; apply follow_to_keeps]. apply keeps_add_answers.
    constructor; [|constructor]. by eapply sound_dname.
Qed.

Lemma small_filter records t : small records -> small (filterType records t).
Proof.
  unfold small, filterType. intros Hs. pose proof (length_filter (fun r => TypeCode (rType r) = t) records). lia.
Qed.

Lemma keeps_soa q zone : zone_of q (Some zone) ->
  keeps (match soaRR zone with
         | Ok soa => add_answers [soa]
         | Err _ => st_ret (Ok tt)
         | Panic => st_ret Panic
         | NoFuel => st_ret NoFuel
         end) (fun _ => True).
Proof.
  intros Hz. destruct (soaRR_returns zone) as (r & Hr & Hok). rewrite Hr.
  destruct r as [soa|e| |]; [|by apply keeps_ret|done..].
  apply keeps_add_answers. constructor; [|constructor]. by eapply sound_soa.
Qed.

Lemma answer_keeps zone name owner qtype m :
  zone_of name (Some zone) -> match_ok m -> keeps (answer zone name owner qtype m) next_ok.
Proof.
  intros Hz (Hrec & Hsm & _). unfold answer. destruct (qtype =? TypeANY)%Z; [|destruct (_ && _)].
  - eapply keeps_bind; [case_bool_decide; [by eapply keeps_soa|by apply (keeps_ret _ (fun _ => True))]|].
    intros _ _. eapply keeps_bind; [by apply keeps_append_answers|]. intros _ _ req h Hh.
    case_bool_decide; [|by split].
    assert (Hneg : keeps (do! _ := negative zone (mExists m || bool_decide (name = zName zone)) in st_ret (Ok None)) next_ok)
      by (eapply keeps_bind; [by eapply negative_keeps|]; intros _ _; by apply keeps_ret).
    by apply Hneg.
  - eapply keeps_bind with (P := sound).
    + intros req h Hh. destruct (soaRR_returns zone) as (r & Hr & Hok). cbn. rewrite Hr.
      destruct r as [soa|e| |]; try done; (split; [done|]); [by eapply sound_soa|]. by exists name, zone.
    + intros soa Hs. eapply keeps_bind; [apply keeps_add_answers; by constructor|]. intros _ _. by apply keeps_ret.
  - assert (Hf : forall t, Forall stored (filterType (mRecords m) t)) by (intros; by apply Forall_filter_rows).
    case_bool_decide.
    + eapply keeps_bind; [by apply keeps_append_answers, small_filter|]. intros _ _.
      eapply keeps_bind; [|intros _ _; by apply keeps_ret]. unfold addAdditional.
      case_bool_decide; [apply addGlue_loop_keeps; by eapply zone_text|by apply (keeps_ret _ (fun _ => True))].
    + destruct (if negb _ then _ else _) as [|c0 cs] eqn:Ec.
      * eapply keeps_bind; [by eapply negative_keeps|]. intros _ _. by apply keeps_ret.
      * assert (Hcs : Forall stored (c0 :: cs) /\ small (c0 :: cs)).
        { destruct (negb _); [|done]. rewrite <- Ec. split; [apply Hf|by apply small_filter]. }
        eapply keeps_bind; [by apply keeps_append_answers; apply Hcs|]. intros _ _.
        cbv zeta. case_bool_decide; [by apply keeps_ret|]. apply follow_to_keeps.
Qed.

Lemma turn_keeps zone name owner qtype :
  zone_of name (Some zone) -> keeps (turn zone name owner qtype) next_ok.
Proof.
  intros Hz. eapply keeps_bind; [by apply lookup_name_keeps|]. intros m [Hm _].
  case_bool_decide; [apply referral_keeps; [by eapply zone_text|done]|].
  destruct (dname m) as [dn|] eqn:Hd; [|by apply answer_keeps]. apply follow_dname_keeps. by apply Hm.
Qed.

Lemma resolve_loop_keeps k zone name owner qtype :
  zone_of name (Some zone) -> keeps (resolve_loop k zone name owner qtype) (fun _ => True).
Proof.
  revert zone name owner. induction k as [|k IH]; intros zone name owner Hz; [by apply keeps_ret|].
  cbn [resolve_loop]. eapply keeps_bind; [by apply turn_keeps|].
  intros [[[z n] o]|] Hn; [by apply IH|by apply keeps_ret].
Qed.

Lemma NewResponse_sections req : sections (NewResponse req) = [].
Proof. unfold NewResponse. by destruct (EDNS0 req). Qed.

(** The outcome of [Handle]. *)
Definition answered (req : Message) (m : Message) : Prop :=
  framed (NewResponse req) m /\ Forall sound (sections m).

Lemma answered_rcode req r : answered req (SetRcode (NewResponse req) r).
Proof.
  split; [apply framed_SetRcode, framed_refl|].
  change (sections (SetRcode (NewResponse req) r)) with (sections (NewResponse req)). by rewrite NewResponse_sections.
Qed.

(** The state in which [resolve] starts. *)
Lemma start_ok req s rot :
  R s -> handler_ok req (mkHandler s rot (set_Flags (NewResponse req) (Z.lor (mFlags (NewResponse req)) FlagAA))).
Proof.
  intros HR. split; [done|]. split; [apply framed_set_AA, framed_refl|]. cbn [resp]. split.
  - change (sections (set_Flags _ _)) with (sections (NewResponse req)). by rewrite NewResponse_sections.
  - unfold search_rcode. rewrite Rcode_set_AA, NewResponse_Rcode. left.
Qed.

Lemma Handle_answered req s rot :
  R s -> exists m s' rot', Handle req (s, rot) = (Ok m, (s', rot')) /\ R s' /\ answered req m.
Proof.
  intros HR. unfold Handle.
  assert (Hearly : forall s' r, R s' -> exists m s'' rot',
    (Ok (SetRcode (NewResponse req) r), (s', rot)) = (@Ok handlerError _ m, (s'', rot')) /\ R s'' /\ answered req m).
  { intros s' r HR'. eexists _, _, _. split; [done|]. split; [done|]. apply answered_rcode. }
  destruct (negb _); [by apply Hearly|].
  destruct (Questions req) as [|q [|q' qs]]; [by apply Hearly| |by apply Hearly].
  destruct (negb _ && _); [by apply Hearly|]. destruct (qType q =? TypeOPT)%Z; [by apply Hearly|].
  case_bool_decide; [by apply Hearly|]. set (qname := ToLower _). case_bool_decide; [by apply Hearly|].
  pose proof (FindZone_keeps qname s HR) as Hk. pose proof (FindZone_answers qname s HR) as Ha.
  destruct (FindZone qname s) as [[zone|x| |] s1]; cbn [fst snd] in *; try done.
  2: { destruct x; by apply Hearly. }
  pose proof (resolve_loop_keeps (maxChain + 1) zone qname (TrimSuffix (qName q) (lit ".")) (qType q) Ha req
    _ (start_ok req s1 rot Hk)) as Hr.
  fold (resolve zone qname (TrimSuffix (qName q) (lit ".")) (qType q)) in Hr.
  destruct (resolve zone qname _ _ _) as [[[]|e| |] h]; cbn [fst snd]; [| |done..].
  - destruct Hr as [(? & ? & ? & _) _]. by eexists _, _, _.
  - destruct Hr as [(HR' & Hf & _) _]. eexists _, _, _. split; [done|]. split; [done|]. split; [|constructor].
    apply framed_SetRcode, framed_clear_AA. exact Hf.
Qed.
End Correct.
