(* ===== verification/HandlerAnswers.v ===== *)
(** * What the handler answers

    The branches of [Handle], the rotation of record sets, glue, negative answers, and the
    properties of HandlerCorrect for the store and the cached resolver. *)

From Stdlib Require Import ZArith Lia Ascii String.
From stdpp Require Import base list strings.
From S2P Require Import Prelude GoStrings Message WireNames MessageCodec Names RData RDataCorrect Store StoreCorrect.
From S2P Require Import StoreQueries Cache Resolver CachedResolver CachedResolverCorrect Handler HandlerCorrect.

(** ** Rotation *)
Section Rotation.
Context `{GoUnicode} {S : Type} `{Resolver S}.

(** What one record contributes to a section. *)
Definition served (owner : gostring) (r : Record_) : list RR := appendRR [] owner r.

Lemma appendRR_served l owner r : appendRR l owner r = l ++ served owner r.
Proof. unfold served, appendRR. destruct (_ || _); [by rewrite app_nil_r|done]. Qed.

Definition rotated {A} (k : nat) (l : list A) : list A := drop k l ++ take k l.

Lemma rotated_perm {A} k (l : list A) : rotated k l ≡ₚ l.
Proof. unfold rotated. by rewrite Permutation_app_comm, take_drop. Qed.

Lemma lookup_rotated {A} k (l : list A) i :
  k < length l -> i < length l -> rotated k l !! i = l !! ((k + i) mod length l).
Proof.
  intros Hk Hi. unfold rotated. destruct (decide (k + i < length l)).
  - rewrite lookup_app_l by (rewrite length_drop; lia). by rewrite lookup_drop, Nat.mod_small.
  - rewrite lookup_app_r by (rewrite length_drop; lia). rewrite length_drop, lookup_take_lt by lia.
    assert ((k + i) mod length l = k + i - length l) as -> by (symmetry; apply (Nat.mod_unique _ _ 1); lia).
    f_equal. lia.
Qed.

Lemma appendSet_loop_rotated records owner start k i l :
  start < length records -> i + k = length records ->
  appendSet_loop k i (Z.of_nat start) l owner records =
  Ok (l ++ mjoin (served owner <$> drop i (rotated start records))).
Proof.
  intros Hs. revert i l. induction k as [|k IH]; intros i l Hi; cbn [appendSet_loop].
  - rewrite drop_ge; [by rewrite app_nil_r|]. rewrite (Permutation_length (rotated_perm start records)). lia.
  - rewrite <- Nat2Z.inj_add, <- Nat2Z.inj_mod, Nat2Z.id.
    assert (Hlt : (start + i) mod length records < length records) by (apply Nat.mod_upper_bound; lia).
    destruct (index_lt (E := handlerError) records _ Hlt) as (r & Hr & ->). cbn [go_bind].
    rewrite <- lookup_rotated in Hr by lia. rewrite IH by lia.
    rewrite (drop_lookup_cons _ _ _ Hr), fmap_cons, mjoin_cons, appendRR_served. by rewrite <- app_assoc.
Qed.

Lemma appendSet_spec section owner records (h : Handler S) :
  (Z.of_nat (length records) < 2 ^ 32)%Z ->
  exists start h', appendSet section owner records h =
    (Ok (section ++ mjoin (served owner <$> rotated start records)), h') /\
  resp h' = resp h /\ resolver h' = resolver h /\
  (length records <= 1 -> start = 0 /\ rotate h' = rotate h) /\
  (1 < length records -> rotate h' = u32 (rotate h + 1) /\
     Z.of_nat start = (rotate h' mod Z.of_nat (length records))%Z).
Proof.
  intros Hn. unfold appendSet. case_bool_decide as H1; [|case_bool_decide as H2].
  - apply nil_length_inv in H1 as ->. exists 0, h. rewrite app_nil_r.
    split; [done|]. split; [done|]. split; [done|]. split; [done|]. cbn. lia.
  - set (rot := u32 (rotate h + 1)). unfold u32. rewrite (Z.mod_small (Z.of_nat (length records))) by lia.
    pose proof (Z.mod_pos_bound rot (Z.of_nat (length records)) ltac:(lia)) as Hm.
    rewrite (proj2 (Z.eqb_neq _ _)) by lia. exists (Z.to_nat (rot mod Z.of_nat (length records))), (mkHandler (resolver h) rot (resp h)).
    rewrite <- (Z2Nat.id (rot mod _)) at 1 by lia. rewrite appendSet_loop_rotated by lia.
    rewrite drop_0. split; [done|]. split; [done|]. split; [done|]. split; [lia|].
    intros _. split; [done|]. cbn. lia.
  - exists 0, h. change 0%Z with (Z.of_nat 0). rewrite appendSet_loop_rotated by lia.
    rewrite drop_0. split; [done|]. split; [done|]. split; [done|]. split; [done|]. lia.
Qed.

(** [appendSet] appends every servable record of the set exactly once, starting at a
    position that moves by one with every call: the counter modulo the size of the set. *)
Theorem appendSet_rotates section owner records (h : Handler S) :
  (Z.of_nat (length records) < 2 ^ 32)%Z ->
  exists start h', appendSet section owner records h =
    (Ok (section ++ mjoin (served owner <$> rotated start records)), h') /\
  resp h' = resp h /\ resolver h' = resolver h /\
  (length records <= 1 -> start = 0 /\ rotate h' = rotate h) /\
  (1 < length records -> rotate h' = u32 (rotate h + 1) /\
     Z.of_nat start = (rotate h' mod Z.of_nat (length records))%Z).
Proof. apply appendSet_spec. Qed.

End Rotation.

(** ** Negative answers *)
Section Negative.
Context `{GoUnicode} {S : Type} `{Resolver S}.

(** A method that only asks the resolver. *)
Definition quiet {A} (c : st (Handler S) handlerError A) : Prop := forall h, resp (snd (c h)) = resp h.

Lemma quiet_ret {A} (c : go handlerError A) : quiet (st_ret c).
Proof. by intros h. Qed.

Lemma quiet_bind {A B} (c : st (Handler S) handlerError A) (k : A -> st (Handler S) handlerError B) :
  quiet c -> (forall a, quiet (k a)) -> quiet (st_bind c k).
Proof.
  intros Hc Hk h. unfold st_bind. specialize (Hc h). destruct (c h) as [[a| | |] h1]; cbn in *; [|done..].
  by rewrite Hk.
Qed.

Lemma quiet_call {A} (f : st S storeError A) : quiet (lift (call f)).
Proof. intros h. unfold lift, call. by destruct (f (resolver h)). Qed.

Lemma quiet_zoneFor q : quiet (zoneFor q).
Proof. intros h. unfold zoneFor, call. destruct (FindZone q (resolver h)) as [[|[]| |] s]; done. Qed.

Lemma quiet_follow_to q : quiet (follow_to q).
Proof. apply quiet_bind; [apply quiet_zoneFor|]. intros [z|]; apply quiet_ret. Qed.

Lemma quiet_encloser_loop fuel zone e : quiet (encloser_loop fuel zone e).
Proof.
  revert e. induction fuel as [|fuel IH]; intros e; cbn [encloser_loop].
  { case_bool_decide; apply quiet_ret. }
  case_bool_decide; [apply quiet_ret|]. destruct (IndexByte e _); [|apply quiet_ret]. apply quiet_bind; [apply quiet_call|]. intros aset.
  cbv zeta. destruct (if bool_decide _ then _ else None); [apply quiet_ret|].
  destruct (_ || _); [apply quiet_ret|apply IH].
Qed.

Lemma quiet_lookup_name zone n qtype : quiet (lookup_name zone n qtype).
Proof.
  apply quiet_bind; [apply quiet_call|]. intros set. cbv zeta.
  case_bool_decide; [match goal with |- context [if ?b then _ else _] => destruct b end; apply quiet_ret|].
  destruct (_ || _); [apply quiet_ret|]. apply quiet_bind; [apply quiet_encloser_loop|]. intros [m|ce]; [apply quiet_ret|].
  apply quiet_bind; [apply quiet_call|]. intros wset. case_bool_decide; apply quiet_ret.
Qed.

(** A method that keeps the response code and only adds answers. *)
Definition calm {A} (c : st (Handler S) handlerError A) : Prop :=
  forall h, Rcode (resp (snd (c h))) = Rcode (resp h) /\
  Answers (resp h) `prefix_of` Answers (resp (snd (c h))).

Lemma calm_ret {A} (c : go handlerError A) : calm (st_ret c).
Proof. by intros h. Qed.

Lemma calm_bind {A B} (c : st (Handler S) handlerError A) (k : A -> st (Handler S) handlerError B) :
  calm c -> (forall a, calm (k a)) -> calm (st_bind c k).
Proof.
  intros Hc Hk h. unfold st_bind. specialize (Hc h). destruct (c h) as [[a| | |] h1]; cbn in *; [|done..].
  destruct (Hk a h1) as [E1 E2]. split; [by rewrite E1; apply Hc|]. destruct Hc as [_ Hc]. by etrans.
Qed.

Lemma quiet_calm {A} (c : st (Handler S) handlerError A) : quiet c -> calm c.
Proof. intros Hc h. by rewrite (Hc h). Qed.

Lemma calm_follow_to q : calm (follow_to q).
Proof. apply quiet_calm, quiet_follow_to. Qed.

Lemma calm_lookup_name zone n qtype : calm (lookup_name zone n qtype).
Proof. apply quiet_calm, quiet_lookup_name. Qed.

Lemma calm_set_resp f :
  (forall m, Rcode (f m) = Rcode m /\ Answers m `prefix_of` Answers (f m)) -> calm (set_resp f).
Proof. intros Hf h. apply Hf. Qed.

Lemma calm_add_answers rrs : calm (add_answers rrs).
Proof. apply calm_set_resp. intros m. cbn. split; [done|by apply prefix_app_r]. Qed.

Lemma appendSet_loop_prefix k i start l owner records l' :
  appendSet_loop k i start l owner records = Ok l' -> l `prefix_of` l'.
Proof.
  revert i l. induction k as [|k IH]; intros i l; cbn [appendSet_loop]; [by intros [= <-]|].
  rewrite go_bind_Ok. intros (r & _ & Hl%IH). rewrite appendRR_served in Hl. by apply prefix_app_l in Hl.
Qed.

Lemma calm_append_answers owner records : calm (append_answers owner records).
Proof.
  intros h. unfold append_answers, appendSet, st_bind.
  assert (Hl : forall k start rot, let r := appendSet_loop k 0 start (Answers (resp h)) owner records in
    let h' := snd (match r with
      | Ok a => set_resp (fun m => set_Answers m a) (mkHandler (resolver h) rot (resp h))
      | Err e => (Err e, mkHandler (resolver h) rot (resp h))
      | Panic => (Panic, mkHandler (resolver h) rot (resp h))
      | NoFuel => (NoFuel, mkHandler (resolver h) rot (resp h)) end) in
    Rcode (resp h') = Rcode (resp h) /\ Answers (resp h) `prefix_of` Answers (resp h')).
  { intros k start rot. destruct (appendSet_loop _ _ _ _ _ _) as [l| | |] eqn:E; [|done..].
    by apply appendSet_loop_prefix in E. }
  case_bool_decide; [done|]. case_bool_decide.
  - destruct (_ =? 0)%Z; [done|]. apply Hl.
  - destruct h. apply Hl.
Qed.

Lemma calm_addGlue_loop zone records seen : calm (addGlue_loop zone records seen).
Proof.
  revert seen. induction records as [|r records IH]; intros seen; cbn [addGlue_loop]; [apply calm_ret|].
  case_bool_decide; [apply calm_ret|]. destruct (_ || _); [apply IH|]. case_bool_decide; [apply IH|].
  intros h. unfold call. destruct (LookupName _ _ (resolver h)) as [[set|e| |] s];
    [|exact (IH _ (mkHandler s (rotate h) (resp h)))|done..].
  exact (IH _ (mkHandler s (rotate h) (set_Additional (resp h) _))).
Qed.

Lemma calm_addAdditional zone qtype records : calm (addAdditional zone qtype records).
Proof. unfold addAdditional. case_bool_decide; [apply calm_addGlue_loop|apply calm_ret]. Qed.

Lemma calm_referral zone m : calm (referral zone m).
Proof.
  apply calm_bind; [apply calm_set_resp; intros msg; by rewrite Rcode_clear_AA|]. intros _.
  apply calm_bind; [by apply calm_set_resp|]. intros _.
  apply calm_bind; [apply calm_addGlue_loop|]. intros _. apply calm_ret.
Qed.

(** A method that only adds answers. *)
Definition adds {A} (c : st (Handler S) handlerError A) : Prop :=
  forall h, Answers (resp h) `prefix_of` Answers (resp (snd (c h))).

Lemma calm_adds {A} (c : st (Handler S) handlerError A) : calm c -> adds c.
Proof. intros Hc h. apply Hc. Qed.

Lemma adds_bind {A B} (c : st (Handler S) handlerError A) (k : A -> st (Handler S) handlerError B) :
  adds c -> (forall a, adds (k a)) -> adds (st_bind c k).
Proof.
  intros Hc Hk h. unfold st_bind. specialize (Hc h). destruct (c h) as [[a| | |] h1]; cbn in *; [|done..].
  specialize (Hk a h1). by etrans.
Qed.

Lemma adds_negative zone b : adds (negative zone b).
Proof.
  intros h. unfold negative, negative_resp. destruct b; cbn [negb]; destruct (soaRR zone); done.
Qed.

Create HintDb adds.
Hint Resolve calm_adds calm_ret calm_add_answers calm_append_answers calm_follow_to calm_addAdditional
  calm_lookup_name calm_referral adds_negative : adds.

Lemma follow_dname_prefix m dn n owner (h : Handler S) :
  Answers (resp h) ++ served (dnameAt m) dn `prefix_of` Answers (resp (snd (follow_dname m dn n owner h))).
Proof.
  unfold follow_dname, st_bind at 1. cbn -[TrimSuffix PackName RDataNames].
  match goal with |- _ `prefix_of` Answers (resp (?c ?h1).2) => enough (Hc : adds c) end.
  { etrans; [|apply Hc]. cbn. by rewrite appendRR_served. }
  case_bool_decide; [auto with adds|]. case_bool_decide.
  - apply adds_bind; [by intros h1|auto with adds].
  - destruct (PackName [] _) as [cname [e|]]; [auto with adds|]. apply adds_bind; auto with adds.
Qed.

Lemma adds_follow_dname m dn n owner : adds (follow_dname m dn n owner).
Proof. intros h. etrans; [|apply follow_dname_prefix]. by apply prefix_app_r. Qed.

Lemma adds_answer zone n owner qtype m : adds (answer zone n owner qtype m).
Proof.
  unfold answer. destruct (qtype =? TypeANY)%Z; [|destruct (_ && _)].
  - apply adds_bind; [destruct (bool_decide (n = zName zone)); [destruct (soaRR zone)|]; auto with adds|]. intros _.
    apply adds_bind; [auto with adds|]. intros _ h. destruct (bool_decide _); [|done].
    apply (adds_bind (negative zone _)); auto with adds.
  - apply adds_bind; [by intros h|]. intros soa. apply adds_bind; auto with adds.
  - case_bool_decide.
    + apply adds_bind; [auto with adds|]. intros _. apply adds_bind; auto with adds.
    + destruct (if negb _ then _ else _) as [|c0 cs]; (apply adds_bind; [auto with adds|]); intros _; [auto with adds|].
      cbv zeta. case_bool_decide; auto with adds.
Qed.

Lemma adds_resolve_loop k zone n owner qtype : adds (resolve_loop k zone n owner qtype).
Proof.
  revert zone n owner. induction k as [|k IH]; intros zone n owner; cbn [resolve_loop]; [auto with adds|].
  apply adds_bind; [|intros [[[z n'] o]|]; [apply IH|auto with adds]].
  apply adds_bind; [auto with adds|]. intros m. case_bool_decide; [auto with adds|].
  destruct (dname m); [apply adds_follow_dname|apply adds_answer].
Qed.
End Negative.

Section Denial.
Context `{GoUnicode} {S : Type} `{Resolver S}.
Context (R : S -> Prop) (zone_of : gostring -> option Zone -> Prop) (names_of : gostring -> gostring -> NameSet -> Prop)
  (ex : gostring -> gostring -> Prop).
Context `{!SearchSpec S R zone_of names_of ex}.

(** The evidence for "no such name": nothing at or below the name, and no wildcard at its
    closest encloser. *)
Definition denied (zone : Zone) (n : gostring) : Prop :=
  n <> zName zone /\
  (at_or_below (zName zone) n -> ~ ex (zName zone) n /\
     exists ce wset, closest_encloser ex (zName zone) n ce /\
       names_of (zName zone) (lit "*." ++ ce) wset /\ Records wset = []).

(** A search that finds nothing at all. *)
Lemma lookup_denied zone n qtype m :
  (at_or_below (zName zone) n -> lookup_spec names_of ex (zName zone) n qtype m) ->
  mExists m = false -> cut m = [] -> dname m = None -> n <> zName zone -> denied zone n.
Proof.
  intros Hs He Hc Hd Hn. split; [done|]. intros Ha. specialize (Hs Ha). inversion Hs; subst; cbn in *; try done.
  split; [done|]. by exists ce, wset.
Qed.

Lemma mjoin_served_nonempty owner records c0 start :
  c0 ∈ records -> served owner c0 <> [] -> mjoin (served owner <$> rotated start records) <> [].
Proof.
  intros Hc Hs. assert (Hin : c0 ∈ rotated start records) by (by rewrite rotated_perm).
  apply list_elem_of_split in Hin as (l1 & l2 & ->). rewrite fmap_app, fmap_cons.
  rewrite join_app, mjoin_cons. intros [_ [E _]%app_nil]%app_nil. done.
Qed.

Lemma ToLower_nil : ToLower [] = [].
Proof. done. Qed.

(** A CNAME that leads somewhere is in the answer. *)
Lemma served_cname owner c0 :
  TypeCode (rType c0) = TypeCNAME -> ToLower (RDataNames TypeCNAME (wireOf c0)) <> [] -> served owner c0 <> [].
Proof.
  intros Ht Hn. unfold served, appendRR. rewrite Ht. cbn [orb]. case_bool_decide as Hw; [|done].
  rewrite Hw in Hn. by destruct Hn.
Qed.

Lemma append_answers_nonempty owner records c0 (h h' : Handler S) :
  small records -> c0 ∈ records -> served owner c0 <> [] ->
  append_answers owner records h = (Ok tt, h') -> Answers (resp h') <> [].
Proof.
  intros Hsm Hc Hs. unfold append_answers, st_bind.
  destruct (appendSet_spec (Answers (resp h)) owner records h Hsm) as (start & h1 & -> & _).
  cbn. intros [= <-]. cbn. intros [_ E]%app_nil. by apply (mjoin_served_nonempty owner records c0 start).
Qed.

(** What a turn that started without answers can end with. *)
Definition turn_end (zone : Zone) (n : gostring) (r : turn_result) (h' : Handler S) : Prop :=
  (r <> None -> Answers (resp h') <> []) /\
  (r = None -> Rcode (resp h') = RcodeNXDomain -> denied zone n).

Lemma calm_no_nxdomain {A} (c : st (Handler S) handlerError A) h :
  calm c -> Rcode (resp h) = RcodeNoError -> Rcode (resp (snd (c h))) <> RcodeNXDomain.
Proof. intros Hc Hr. rewrite (proj1 (Hc h)), Hr. done. Qed.

Lemma calm_nonempty {A} (c : st (Handler S) handlerError A) h :
  calm c -> Answers (resp h) <> [] -> Answers (resp (snd (c h))) <> [].
Proof.
  intros Hc Hr He. pose proof (proj2 (Hc h)) as Hl. rewrite He in Hl. by apply prefix_nil_inv in Hl.
Qed.

Lemma follow_dname_end zone n m dn owner (h : Handler S) r h' :
  Rcode (resp h) = RcodeNoError -> follow_dname m dn n owner h = (Ok r, h') -> turn_end zone n r h'.
Proof.
  intros Hr0. unfold follow_dname. rewrite st_bind_Ok. intros ([] & h1 & [= <-] & Hk). cbv zeta in Hk.
  set (nx := TrimSuffix n _ ++ _) in Hk.
  set (h1 := mkHandler _ _ _) in Hk. assert (Hr1 : Rcode (resp h1) = RcodeNoError) by done.
  case_bool_decide; [injection Hk as <- <-; split; [done|]; by rewrite Hr1|]. case_bool_decide.
  - apply st_bind_Ok in Hk as ([] & h2 & [= <-] & [= <- <-]). split; [done|]. intros _. cbn [resp].
    by rewrite Rcode_SetRcode.
  - destruct (PackName [] _) as [cname [e|]]; [injection Hk as <- <-; split; [done|]; by rewrite Hr1|].
    apply st_bind_Ok in Hk as ([] & h2 & [= <-] & Hk). set (h2 := mkHandler _ _ _) in Hk.
    assert (Hn : Answers (resp h2) <> []) by (cbn; by intros [_ ?]%app_nil).
    split; intros ?.
    + pose proof (calm_nonempty _ _ (calm_follow_to nx) Hn) as Hn'. by rewrite Hk in Hn'.
    + pose proof (calm_no_nxdomain _ h2 (calm_follow_to nx) Hr1) as Hn'. by rewrite Hk in Hn'.
Qed.

Lemma negative_end zone b (h h' : Handler S) :
  Rcode (resp h) = RcodeNoError -> negative zone b h = (Ok tt, h') ->
  Rcode (resp h') = RcodeNXDomain -> b = false.
Proof.
  intros Hr. unfold negative, negative_resp. destruct b; [|done]. cbn [negb].
  destruct (soaRR zone); intros [= <-]; cbn [resp]; rewrite ?Hr; try done.
  change (Rcode (set_Authority (resp h) _)) with (Rcode (resp h)). by rewrite Hr.
Qed.

Lemma calm_Rcode {A} (c : st (Handler S) handlerError A) h r h' :
  calm c -> c h = (r, h') -> Rcode (resp h) = RcodeNoError -> Rcode (resp h') = RcodeNoError.
Proof. intros Hc E Hr. pose proof (proj1 (Hc h)) as Hx. rewrite E in Hx. cbn in Hx. by rewrite Hx. Qed.

(** A last step that does not touch the response code. *)
Lemma calm_end {A} (c : st (Handler S) handlerError A) zone n h r h' :
  calm c -> Rcode (resp h) = RcodeNoError ->
  (do! _ := c in st_ret (Ok None)) h = (Ok r, h') -> turn_end zone n r h'.
Proof.
  intros Hc Hr. rewrite st_bind_Ok. intros (a & h2 & Hcc & [= <- <-]). split; [done|].
  intros _. by rewrite (calm_Rcode _ _ _ _ Hc Hcc Hr).
Qed.

Section AnswerEnd.
Context (zone : Zone) (n owner : gostring) (qtype : Z) (m : match_).
Hypothesis m_ok : match_ok names_of m.
Hypothesis m_spec : at_or_below (zName zone) n -> lookup_spec names_of ex (zName zone) n qtype m.
Hypothesis m_cut : cut m = [].
Hypothesis m_dname : dname m = None.

Lemma negative_step b h r h' :
  Rcode (resp h) = RcodeNoError -> (b = false -> mExists m = false /\ n <> zName zone) ->
  (do! _ := negative zone b in st_ret (Ok None)) h = (Ok r, h') -> turn_end zone n r h'.
Proof.
  intros Hr1 Hb. rewrite st_bind_Ok. intros ([] & h2 & Hng & [= <- <-]). split; [done|].
  intros _ Hnx. destruct (Hb (negative_end _ _ _ _ Hr1 Hng Hnx)). by eapply lookup_denied.
Qed.

Lemma calm_apex_soa (b : bool) :
  calm (S := S) (if b then match soaRR zone with
                    | Ok soa => add_answers [soa]
                    | Err _ => st_ret (Ok tt)
                    | Panic => st_ret Panic
                    | NoFuel => st_ret NoFuel
                    end
        else st_ret (Ok tt)).
Proof. destruct b; [destruct (soaRR zone); [apply calm_add_answers|apply calm_ret..]|apply calm_ret]. Qed.

(** The CNAME branch: the target is followed only with an answer given. *)
Lemma cname_end c0 cs h r h' :
  filterType (mRecords m) TypeCNAME = c0 :: cs -> Rcode (resp h) = RcodeNoError ->
  (do! _ := append_answers owner (c0 :: cs) in
   if bool_decide (ToLower (RDataNames TypeCNAME (wireOf c0)) = []) then st_ret (Ok None)
   else follow_to (ToLower (RDataNames TypeCNAME (wireOf c0)))) h = (Ok r, h') -> turn_end zone n r h'.
Proof.
  intros Ec Hr0. destruct m_ok as (_ & Hsm & _). rewrite st_bind_Ok. intros ([] & h1 & Hs1 & Hk).
  pose proof (calm_Rcode _ _ _ _ (calm_append_answers owner (c0 :: cs)) Hs1 Hr0) as Hr1.
  case_bool_decide as Ht; [injection Hk as <- <-; split; [done|]; by rewrite Hr1|].
  assert (Hc0 : c0 ∈ filterType (mRecords m) TypeCNAME) by (rewrite Ec; left).
  apply list_elem_of_filter in Hc0 as [Htc _].
  assert (Hn1 : Answers (resp h1) <> []).
  { eapply (append_answers_nonempty owner (c0 :: cs) c0 h); [|left|by apply served_cname|exact Hs1].
    rewrite <- Ec. by apply small_filter. }
  split; intros ?.
  - pose proof (calm_nonempty _ _ (calm_follow_to (ToLower (RDataNames TypeCNAME (wireOf c0)))) Hn1) as Hx.
    by rewrite Hk in Hx.
  - by rewrite (calm_Rcode _ _ _ _ (calm_follow_to _) Hk Hr1).
Qed.

Lemma answer_end h r h' :
  Rcode (resp h) = RcodeNoError -> answer zone n owner qtype m h = (Ok r, h') -> turn_end zone n r h'.
Proof.
  intros Hr0. unfold answer. destruct (qtype =? TypeANY)%Z; [|destruct (_ && _)].
  - rewrite st_bind_Ok. intros ([] & h1 & Hs1 & Hk). apply st_bind_Ok in Hk as ([] & h2 & Hs2 & Hk).
    pose proof (calm_Rcode _ _ _ _ (calm_apex_soa _) Hs1 Hr0) as Hr1.
    pose proof (calm_Rcode _ _ _ _ (calm_append_answers owner (mRecords m)) Hs2 Hr1) as Hr2.
    destruct (bool_decide (length (Answers (resp h2)) = 0)); [|injection Hk as <- <-; split; [done|]; by rewrite Hr2].
    eapply (negative_step _ h2); [done| |exact Hk]. by intros [? ?%bool_decide_eq_false]%orb_false_iff.
  - rewrite st_bind_Ok. intros (soa & h1 & [= Hs <-] & Hk).
    by eapply (calm_end (add_answers [soa])); [apply calm_add_answers|..].
  - case_bool_decide as Hm.
    + rewrite st_bind_Ok. intros ([] & h1 & Hs1 & Hk).
      pose proof (calm_Rcode _ _ _ _ (calm_append_answers _ _) Hs1 Hr0) as Hr1.
      by eapply (calm_end (addAdditional _ _ _)); [apply calm_addAdditional|..].
    + destruct (if negb _ then _ else _) as [|c0 cs] eqn:Ec.
      * intros Hk. eapply (negative_step _ h); [done| |exact Hk].
        by intros [[_ ?]%orb_false_iff ?%bool_decide_eq_false]%orb_false_iff.
      * destruct (negb _); [|done]. by apply cname_end.
Qed.
End AnswerEnd.

Lemma turn_first req zone n owner qtype h r h' :
  zone_of n (Some zone) -> handler_ok R zone_of names_of req h -> Rcode (resp h) = RcodeNoError ->
  turn zone n owner qtype h = (Ok r, h') -> turn_end zone n r h'.
Proof.
  intros Hz Hh Hr0. unfold turn. rewrite st_bind_Ok. intros (m & h1 & Hl & Hk).
  pose proof (lookup_name_keeps R zone_of names_of ex zone n qtype Hz req h Hh) as Hkeep.
  rewrite Hl in Hkeep. destruct Hkeep as [_ [Hm Hspec]].
  pose proof (calm_Rcode _ _ _ _ (calm_lookup_name zone n qtype) Hl Hr0) as Hr1.
  case_bool_decide as Hcut.
  - apply st_bind_Ok in Hk as ([] & h2 & H2 & Hk). apply st_bind_Ok in Hk as ([] & h3 & H3 & Hk).
    assert (Hr3 : Rcode (resp h3) = RcodeNoError).
    { injection H3 as <-. injection H2 as <-. cbn [resp].
      change (Rcode (set_Authority ?a _)) with (Rcode a). by rewrite Rcode_clear_AA. }
    by eapply (calm_end (addGlue zone (cut m))); [apply calm_addGlue_loop|..].
  - assert (Hc : cut m = []) by (by destruct (decide (cut m = []))).
    destruct (dname m) as [dn|] eqn:Hd; [by eapply follow_dname_end|]. by eapply answer_end.
Qed.

Lemma resolve_nxdomain req zone n owner qtype h h' :
  zone_of n (Some zone) -> handler_ok R zone_of names_of req h -> Rcode (resp h) = RcodeNoError ->
  resolve zone n owner qtype h = (Ok tt, h') ->
  Rcode (resp h') = RcodeNXDomain -> Answers (resp h') = [] -> denied zone n.
Proof.
  intros Hz Hh Hr0 Hres Hnx Ha. unfold resolve in Hres.
  change (maxChain + 1) with (Datatypes.S maxChain) in Hres. cbn [resolve_loop] in Hres.
  apply st_bind_Ok in Hres as (r & h1 & Ht & Hk). eapply turn_first in Ht as [Hsome Hnone]; [|done..].
  destruct r as [[[z1 n1] o1]|]; [|injection Hk as <-; by apply Hnone].
  exfalso. specialize (Hsome ltac:(done)). pose proof (adds_resolve_loop maxChain z1 n1 o1 qtype h1) as Hl.
  rewrite Hk in Hl. cbn [snd] in Hl. rewrite Ha in Hl. by apply prefix_nil_inv in Hl.
Qed.

(** The name a query asks for. *)
Definition query_name (q : Question) : gostring := ToLower (TrimSuffix (qName q) (lit ".")).

(** C5. An NXDOMAIN without answers denies the query name itself, and rightly so: the name is
    not the apex, the zone has no record at it or below it, and none at the wildcard of its
    closest encloser. *)
Theorem Handle_nxdomain_sound req s rot m st' q :
  R s -> Handle req (s, rot) = (Ok m, st') -> Questions req = [q] ->
  Rcode m = RcodeNXDomain -> Answers m = [] ->
  exists zone, zone_of (query_name q) (Some zone) /\ denied zone (query_name q).
Proof.
  intros HR Hh Hq Hnx Ha. unfold Handle in Hh. rewrite Hq in Hh.
  assert (Hearly : forall r (x : S * Z), (r =? 3)%Z = false -> (0 <= r < 16)%Z ->
    (@Ok handlerError _ (SetRcode (NewResponse req) r), x) = (Ok m, st') -> False).
  { intros r x Hr Hr16 [= <- _]. rewrite Rcode_SetRcode in Hnx. change 15%Z with (Z.ones 4) in Hnx.
    rewrite Z.land_ones, Z.mod_small in Hnx by lia. rewrite Hnx in Hr. done. }
  repeat match type of Hh with
  | (if ?b then _ else _) = _ => destruct b eqn:?; [by apply Hearly in Hh|]
  end.
  fold (query_name q) in Hh. pose proof (FindZone_keeps (query_name q) s HR) as Hk.
  pose proof (FindZone_answers (query_name q) s HR) as Hz.
  destruct (FindZone (query_name q) s) as [[zone|x| |] s1]; cbn [fst snd] in *; [|destruct x; by apply Hearly in Hh|done..].
  exists zone. split; [done|].
  set (h0 := mkHandler _ _ _) in Hh. assert (Hh0 : handler_ok R zone_of names_of req h0) by (by apply start_ok).
  assert (Hr0 : Rcode (resp h0) = RcodeNoError) by (cbn [resp h0]; by rewrite Rcode_set_AA, NewResponse_Rcode).
  destruct (resolve zone _ _ _ h0) as [[[]|e| |] h] eqn:Hres; [| |done..].
  - injection Hh as <- <-. by eapply resolve_nxdomain.
  - injection Hh as <- <-. by rewrite Rcode_SetRcode in Hnx.
Qed.
End Denial.

(** ** Glue *)
Section Glue.
Context `{GoUnicode} {S : Type} `{Resolver S}.

(** The names a record set points to. *)
Definition target_of (r : Record_) : gostring := ToLower (RDataNames (TypeCode (rType r)) (wireOf r)).

Definition glue_rr (targets : list gostring) (rr : RR) : Prop :=
  rrName rr ∈ targets /\ (rrType rr = TypeA \/ rrType rr = TypeAAAA).

Lemma append_addresses_glue l target records targets :
  target ∈ targets ->
  exists l', append_addresses l target records = l ++ l' /\ Forall (glue_rr targets) l'.
Proof.
  intros Ht. unfold append_addresses. revert l. induction records as [|r records IH]; intros l; cbn [foldl].
  - exists []. by rewrite app_nil_r.
  - destruct (_ || _) eqn:Hty; [|apply IH].
    destruct (IH (appendRR l target r)) as (l' & -> & Hl'). exists (served target r ++ l').
    split; [by rewrite appendRR_served, <- app_assoc|]. apply Forall_app. split; [|done].
    unfold served, appendRR. destruct (_ || bool_decide (wireOf r = [])); [constructor|].
    constructor; [|constructor]. split; [done|]. cbn.
    apply orb_true_iff in Hty as [E%bool_decide_eq_true|E%bool_decide_eq_true]; rewrite E; [left|right]; reflexivity.
Qed.

Lemma glue_weaken t1 t2 l : t1 ⊆ t2 -> Forall (glue_rr t1) l -> Forall (glue_rr t2) l.
Proof. intros Hs Hl. eapply Forall_impl; [exact Hl|]. intros rr [Hn Ht]. split; [by apply Hs|done]. Qed.

Lemma addGlue_loop_glue zone records seen (h h' : Handler S) :
  addGlue_loop zone records seen h = (Ok tt, h') -> NoDup seen -> length seen <= maxAdditional ->
  exists new l, NoDup (seen ++ new) /\ length (seen ++ new) <= maxAdditional /\
    Forall (fun t => inZone t (zName zone) = true /\ exists r, r ∈ records /\ t = target_of r) new /\
    Additional (resp h') = Additional (resp h) ++ l /\ Forall (glue_rr (seen ++ new)) l.
Proof.
  revert seen h. induction records as [|r records IH]; intros seen h; cbn [addGlue_loop].
  { intros [= <-] Hn Hl. exists [], []. rewrite !app_nil_r. by repeat split. }
  assert (Hskip : forall seen h1, addGlue_loop zone records seen h1 = (Ok tt, h') -> NoDup seen ->
    length seen <= maxAdditional -> exists new l, NoDup (seen ++ new) /\ length (seen ++ new) <= maxAdditional /\
    Forall (fun t => inZone t (zName zone) = true /\ exists r', r' ∈ r :: records /\ t = target_of r') new /\
    Additional (resp h') = Additional (resp h1) ++ l /\ Forall (glue_rr (seen ++ new)) l).
  { intros seen1 h1 E Hn Hl. destruct (IH seen1 h1 E Hn Hl) as (new & l & ? & ? & Hf & ? & ?). exists new, l.
    repeat split; try done. eapply Forall_impl; [exact Hf|]. intros t (? & r' & ? & ?). split; [done|].
    exists r'. split; [by right|done]. }
  case_bool_decide as Hmax; [intros [= <-] Hn Hl; exists [], []; rewrite !app_nil_r; by repeat split|].
  generalize (eq_refl (target_of r)). unfold target_of at 2.
  generalize (ToLower (RDataNames (TypeCode (rType r)) (wireOf r))). intros t Et.
  destruct (_ || negb _) eqn:Ht; [apply Hskip|].
  apply orb_false_iff in Ht as [_ Ht%negb_false_iff]. case_bool_decide as Hseen; [apply Hskip|].
  intros Hk Hn Hl. unfold call in Hk.
  assert (Hn' : NoDup (seen ++ [t])).
  { apply NoDup_app. split; [done|]. split; [|apply NoDup_singleton]. by intros x Hx ->%list_elem_of_singleton. }
  assert (Hl' : length (seen ++ [t]) <= maxAdditional) by (rewrite length_app; cbn; lia).
  assert (Hhead : forall new, Forall (fun t => inZone t (zName zone) = true /\ exists r', r' ∈ r :: records /\ t = target_of r') new ->
    Forall (fun t => inZone t (zName zone) = true /\ exists r', r' ∈ r :: records /\ t = target_of r') (t :: new)).
  { intros new Hf. constructor; [|done]. split; [done|]. exists r. split; [left|done]. }
  destruct (LookupName (zName zone) t (resolver h)) as [[set|e| |] s]; [| |done..].
  - apply st_bind_Ok in Hk as ([] & h1 & [= <-] & Hk).
    destruct (append_addresses_glue (Additional (resp h)) t (Records set) (seen ++ [t]))
      as (l1 & El1 & Hl1); [rewrite elem_of_app; right; left|].
    destruct (Hskip _ _ Hk Hn' Hl') as (new & l & Hn2 & Hl2 & Hf & Ha & Hg). exists (t :: new), (l1 ++ l).
    rewrite <- app_assoc in Hn2, Hl2, Hg. split; [done|]. split; [done|]. split; [by apply Hhead|].
    cbn [resp] in Ha. cbn in Ha. rewrite El1, <- app_assoc in Ha. split; [done|]. apply Forall_app. split; [|done].
    eapply glue_weaken; [|exact Hl1]. intros x Hx. rewrite elem_of_app in *.
    destruct Hx as [?|Hx%list_elem_of_singleton]; [by left|subst x; right; left].
  - destruct (Hskip _ _ Hk Hn' Hl') as (new & l & Hn2 & Hl2 & Hf & Ha & Hg). exists (t :: new), l.
    rewrite <- app_assoc in Hn2, Hl2, Hg. split; [done|]. split; [done|]. split; [by apply Hhead|done].
Qed.

(** Glue is bounded and in bailiwick: [addGlue] adds only A and AAAA records, owned by at
    most sixteen different names, each inside the zone and each the target of one of the
    records the glue is for. *)
Theorem addGlue_bounded zone records (h h' : Handler S) :
  addGlue zone records h = (Ok tt, h') ->
  exists targets l, NoDup targets /\ length targets <= maxAdditional /\
    Forall (fun t => inZone t (zName zone) = true /\ exists r, r ∈ records /\ t = target_of r) targets /\
    Additional (resp h') = Additional (resp h) ++ l /\ Forall (glue_rr targets) l.
Proof.
  intros Hg. apply (addGlue_loop_glue zone records []) in Hg; [done|apply NoDup_nil_2|cbn; lia].
Qed.
End Glue.
