(* ===== verification/HandlerResponses.v ===== *)
(** * The responses of the handler

    What [Handle] puts into a response, branch by branch, against the specification of the
    search; and the handler over the store and over the cached resolver. *)

From Stdlib Require Import ZArith Lia Ascii String.
From stdpp Require Import base list strings.
From S2P Require Import Prelude GoStrings Message WireNames MessageCodec Names RData RDataCorrect Store StoreCorrect.
From S2P Require Import StoreQueries Cache Resolver CachedResolver CachedResolverCorrect Handler HandlerCorrect HandlerAnswers.

(** The AA bit. *)
Definition authoritative (m : Message) : bool := Z.testbit (mFlags m) 10.

Lemma authoritative_set m : authoritative (set_Flags m (Z.lor (mFlags m) FlagAA)) = true.
Proof. change (Z.testbit (Z.lor (mFlags m) FlagAA) 10 = true). rewrite Z.lor_spec. apply orb_true_r. Qed.

Lemma authoritative_clear m : authoritative (set_Flags m (Z.ldiff (mFlags m) FlagAA)) = false.
Proof. change (Z.testbit (Z.ldiff (mFlags m) FlagAA) 10 = false). rewrite Z.ldiff_spec. apply andb_false_r. Qed.

Lemma authoritative_SetRcode m r : authoritative (SetRcode m r) = authoritative m.
Proof.
  change (Z.testbit (Z.lor (Z.ldiff (mFlags m) 15) (u16 (Z.land r 15))) 10 = authoritative m).
  rewrite Z.lor_spec, Z.ldiff_spec.
  pose proof (land_range 4 15 r ltac:(lia) ltac:(lia)) as Hr. rewrite (Z.land_comm 15) in Hr.
  unfold u16. rewrite (Z.mod_small (Z.land r 15)) by lia. change (Z.testbit 15 10) with false.
  rewrite (pow2_bits_above (Z.land r 15) 4 10) by lia. by rewrite andb_true_r, orb_false_r.
Qed.

Section Responses.
Context `{GoUnicode} {S : Type} `{Resolver S}.

(** The response to a query [q] that is answered from the match [lm] of its name in [zone].
    A chain adds to the answers of its first link. *)
Inductive responds (zone : Zone) (q : Question) (lm : match_) (m : Message) : Prop :=
| responds_referral :
    cut lm <> [] -> Rcode m = RcodeNoError -> authoritative m = false -> Answers m = [] ->
    Authority m = mjoin (served (cutName lm) <$> cut lm) -> responds zone q lm m
| responds_dname dn rest :
    cut lm = [] -> dname lm = Some dn -> Answers m = served (dnameAt lm) dn ++ rest -> responds zone q lm m
| responds_any start (soa : list RR) :
    cut lm = [] -> dname lm = None -> qType q = TypeANY -> authoritative m = true -> Rcode m = RcodeNoError ->
    (soa = [] \/ query_name q = zName zone /\ exists rr, soaRR zone = Ok rr /\ soa = [rr]) ->
    Answers m = soa ++ mjoin (served (TrimSuffix (qName q) (lit ".")) <$> rotated start (mRecords lm)) ->
    Answers m <> [] -> Authority m = [] -> responds zone q lm m
| responds_soa rr :
    cut lm = [] -> dname lm = None -> qType q = TypeSOA -> query_name q = zName zone -> soaRR zone = Ok rr ->
    authoritative m = true -> Rcode m = RcodeNoError -> Answers m = [rr] -> Authority m = [] -> responds zone q lm m
| responds_records start :
    cut lm = [] -> dname lm = None -> filterType (mRecords lm) (qType q) <> [] -> qType q <> TypeANY ->
    authoritative m = true -> Rcode m = RcodeNoError -> Authority m = [] ->
    Answers m = mjoin (served (TrimSuffix (qName q) (lit ".")) <$> rotated start (filterType (mRecords lm) (qType q))) ->
    responds zone q lm m
| responds_cname start rest :
    cut lm = [] -> dname lm = None -> filterType (mRecords lm) (qType q) = [] -> qType q <> TypeCNAME ->
    filterType (mRecords lm) TypeCNAME <> [] ->
    Answers m =
      mjoin (served (TrimSuffix (qName q) (lit ".")) <$> rotated start (filterType (mRecords lm) TypeCNAME)) ++ rest ->
    responds zone q lm m
| responds_negative :
    cut lm = [] -> dname lm = None -> authoritative m = true -> Answers m = [] -> Additional m = [] ->
    Authority m = match soaRR zone with Ok soa => [soa] | _ => [] end ->
    Rcode m = (if bool_decide (0 < length (mRecords lm)) || mExists lm || bool_decide (query_name q = zName zone)
               then RcodeNoError else RcodeNXDomain) ->
    responds zone q lm m.

(** Glue only touches the additional section. *)
Lemma addGlue_loop_resp zone records seen (h : Handler S) :
  exists l, resp (snd (addGlue_loop zone records seen h)) = set_Additional (resp h) l.
Proof.
  revert seen h. induction records as [|r records IH]; intros seen h; cbn [addGlue_loop].
  { exists (Additional (resp h)). by destruct h as [? ? []]. }
  case_bool_decide; [exists (Additional (resp h)); by destruct h as [? ? []]|].
  destruct (_ || _); [apply IH|]. case_bool_decide; [apply IH|]. unfold call.
  destruct (LookupName _ _ (resolver h)) as [[set|e| |] s]; cbn;
    [|exact (IH _ (mkHandler s (rotate h) (resp h)))|exists (Additional (resp h)); by destruct h as [? ? []]..].
  destruct (IH (seen ++ [ToLower (RDataNames (TypeCode (rType r)) (wireOf r))])
    (mkHandler s (rotate h) (set_Additional (resp h) (append_addresses (Additional (resp h))
       (ToLower (RDataNames (TypeCode (rType r)) (wireOf r))) (Records set))))) as [l Hl].
  exists l. etrans; [exact Hl|done].
Qed.

Lemma append_answers_resp owner records (h h' : Handler S) :
  small records -> append_answers owner records h = (Ok tt, h') ->
  exists start, resp h' = set_Answers (resp h) (Answers (resp h) ++ mjoin (served owner <$> rotated start records)).
Proof.
  intros Hsm. unfold append_answers, st_bind.
  destruct (appendSet_spec (Answers (resp h)) owner records h Hsm) as (start & h1 & -> & Hr & _).
  cbn. intros [= <-]. cbn. rewrite Hr. by exists start.
Qed.

Lemma negative_resp_eq zone b (h h' : Handler S) :
  negative zone b h = (Ok tt, h') ->
  resp h' = set_Authority (if b then resp h else SetRcode (resp h) RcodeNXDomain)
    (Authority (resp h) ++ match soaRR zone with Ok soa => [soa] | _ => [] end).
Proof.
  unfold negative, negative_resp. destruct (soaRR zone) as [soa|e| |] eqn:Hs; destruct b; cbn [negb]; intros [= <-]; cbn [resp];
    rewrite ?app_nil_r; try by destruct (resp h).
  - f_equal. f_equal. f_equal. unfold soaRR in Hs. apply go_bind_Ok in Hs as (rd & _ & [= <-]). cbn. by rewrite Z.ltb_irrefl.
  - f_equal. f_equal. f_equal. unfold soaRR in Hs. apply go_bind_Ok in Hs as (rd & _ & [= <-]). cbn. by rewrite Z.ltb_irrefl.
Qed.

(** The response [resolve] starts with. *)
Definition fresh (m : Message) : Prop :=
  Answers m = [] /\ Authority m = [] /\ Additional m = [] /\ authoritative m = true /\ Rcode m = RcodeNoError.

Section FirstTurn.
Context (zone : Zone) (q : Question) (lm : match_).
Hypothesis lm_small : small (mRecords lm).
Let n := query_name q.
Let owner := TrimSuffix (qName q) (lit ".").

(** The first turn decides the response: alone, or as the first link of a chain. *)
Definition decides (r : turn_result) (h' : Handler S) : Prop :=
  forall m, match r with Some _ => Answers (resp h') `prefix_of` Answers m | None => m = resp h' end -> responds zone q lm m.

Lemma referral_decides (h : Handler S) r h' :
  cut lm <> [] -> fresh (resp h) -> referral zone lm h = (Ok r, h') -> decides r h'.
Proof.
  intros Hc (Ha & Hau & _ & _ & Hrc). unfold referral. rewrite st_bind_Ok. intros ([] & h1 & [= <-] & Hk).
  apply st_bind_Ok in Hk as ([] & h2 & [= <-] & Hk). apply st_bind_Ok in Hk as ([] & h3 & Hg & [= <- <-]).
  intros m ->. match type of Hg with _ ?h2 = _ => destruct (addGlue_loop_resp zone (cut lm) [] h2) as [l Hl] end.
  unfold addGlue in Hg. rewrite Hg in Hl. cbn [snd] in Hl. rewrite Hl. apply responds_referral; [done| |apply authoritative_clear|done|].
  - cbn [resp]. etrans; [apply (Rcode_clear_AA (resp h))|done].
  - cbn. rewrite Hau. clear. rewrite <- (app_nil_l (mjoin _)). generalize (@nil RR).
    induction (cut lm) as [|c cs IH]; intros l; cbn; [by rewrite app_nil_r|].
    by rewrite IH, appendRR_served, <- app_assoc.
Qed.

Lemma follow_dname_decides dn (h : Handler S) r h' :
  cut lm = [] -> dname lm = Some dn -> fresh (resp h) -> follow_dname lm dn n owner h = (Ok r, h') -> decides r h'.
Proof.
  intros Hc Hd (Ha & _) Hk m Hm.
  assert (Hp : served (dnameAt lm) dn `prefix_of` Answers (resp h')).
  { pose proof (follow_dname_prefix lm dn n owner h) as Hp. by rewrite Hk, Ha in Hp. }
  assert (Hp' : served (dnameAt lm) dn `prefix_of` Answers m) by (destruct r; [by etrans|by subst m]).
  destruct Hp' as [rest Hrest]. by eapply responds_dname.
Qed.

Lemma negative_decides b (h : Handler S) r h' :
  cut lm = [] -> dname lm = None -> fresh (resp h) ->
  b = bool_decide (0 < length (mRecords lm)) || mExists lm || bool_decide (n = zName zone) ->
  (do! _ := negative zone b in st_ret (Ok None)) h = (Ok r, h') -> decides r h'.
Proof.
  intros Hc Hd (Ha & Hau & Had & HAA & Hrc) Hb. rewrite st_bind_Ok. intros ([] & h1 & Hn%negative_resp_eq & [= <- <-]).
  intros m ->. rewrite Hn. apply responds_negative; [done|done|..]; try fold n; rewrite <- ?Hb; destruct b; try done.
  - etrans; [|exact HAA]. exact (authoritative_SetRcode (resp h) RcodeNXDomain).
  - cbn. by rewrite Hau.
  - cbn. by rewrite Hau.
  - etrans; [exact (Rcode_SetRcode (resp h) RcodeNXDomain)|done].
Qed.

Lemma any_decides (h : Handler S) r h' :
  cut lm = [] -> dname lm = None -> fresh (resp h) -> qType q = TypeANY ->
  (mRecords lm <> [] -> mExists lm = true) ->
  answer zone n owner (qType q) lm h = (Ok r, h') -> decides r h'.
Proof.
  intros Hc Hd Hf Hq Hex. unfold answer. rewrite Hq, Z.eqb_refl, st_bind_Ok. intros ([] & h1 & H1 & Hk).
  assert (Hsoa : exists soa, resp h1 = set_Answers (resp h) (Answers (resp h) ++ soa) /\
    (soa = [] \/ n = zName zone /\ exists rr, soaRR zone = Ok rr /\ soa = [rr])).
  { case_bool_decide as Hz; [destruct (soaRR zone) as [rr|e| |] eqn:Hs; [|..]|].
    all: try done.
    - injection H1 as <-. exists [rr]. split; [done|]. right. split; [done|]. by exists rr.
    - injection H1 as <-. exists []. rewrite app_nil_r. split; [by destruct (resp h)|by left].
    - injection H1 as <-. exists []. rewrite app_nil_r. split; [by destruct (resp h)|by left]. }
  destruct Hsoa as (soa & Hh1 & Hsoa). apply st_bind_Ok in Hk as ([] & h2 & H2 & Hk).
  apply append_answers_resp in H2 as (start & Hh2); [|done]. rewrite Hh1 in Hh2. cbn in Hh2.
  destruct Hf as (Ha & Hau & Had & HAA & Hrc). rewrite Ha in Hh2. cbn in Hh2.
  destruct (bool_decide (length (Answers (resp h2)) = 0)) eqn:Hlen.
  - apply bool_decide_eq_true in Hlen. apply nil_length_inv in Hlen.
    eapply (negative_decides _ h2); [done|done| |  |exact Hk].
    + split; [done|]. by rewrite Hh2.
    + destruct (mRecords lm) eqn:Hr; [done|]. by rewrite Hex.
  - apply bool_decide_eq_false in Hlen. injection Hk as <- <-. intros m ->.
    eapply (responds_any _ _ _ _ start soa); try done; rewrite Hh2; try done. cbn. rewrite Hh2 in Hlen. by destruct (soa ++ _).
Qed.

Lemma cname_decides c0 cs (h : Handler S) r h' :
  cut lm = [] -> dname lm = None -> fresh (resp h) -> filterType (mRecords lm) (qType q) = [] ->
  qType q <> TypeCNAME -> filterType (mRecords lm) TypeCNAME = c0 :: cs ->
  (do! _ := append_answers owner (c0 :: cs) in
   if bool_decide (ToLower (RDataNames TypeCNAME (wireOf c0)) = []) then st_ret (Ok None)
   else follow_to (ToLower (RDataNames TypeCNAME (wireOf c0)))) h = (Ok r, h') -> decides r h'.
Proof.
  intros Hc Hd (Ha & _) Hnil Eq Ec. rewrite st_bind_Ok. intros ([] & h1 & H1 & Hk).
  apply append_answers_resp in H1 as (start & Hh1); [|rewrite <- Ec; by apply small_filter].
  rewrite Ha in Hh1. cbn in Hh1.
  assert (Hh' : resp h' = resp h1).
  { match type of Hk with ?c h1 = _ => assert (Hc1 : quiet c); [|specialize (Hc1 h1); by rewrite Hk in Hc1] end.
    case_bool_decide; [apply quiet_ret|apply quiet_follow_to]. }
  intros m Hm'. assert (Hp : Answers (resp h1) `prefix_of` Answers m)
    by (rewrite <- Hh'; destruct r; [done|by subst m]).
  rewrite Hh1, <- Ec in Hp. destruct Hp as [rest Hrest]. eapply (responds_cname _ _ _ _ start rest); try done.
  by rewrite Ec.
Qed.

Lemma answer_decides (h : Handler S) r h' :
  cut lm = [] -> dname lm = None -> fresh (resp h) -> (mRecords lm <> [] -> mExists lm = true) ->
  answer zone n owner (qType q) lm h = (Ok r, h') -> decides r h'.
Proof.
  intros Hc Hd Hf Hex. destruct (Z.eq_dec (qType q) TypeANY) as [Hq|Hq]; [by apply any_decides|].
  pose proof Hf as (Ha & Hau & Had & HAA & Hrc). unfold answer. rewrite (proj2 (Z.eqb_neq _ _) Hq).
  destruct (bool_decide (n = zName zone) && (qType q =? TypeSOA)%Z) eqn:Es;
    [|destruct (bool_decide (0 < length (filterType (mRecords lm) (qType q)))) eqn:Hm].
  - apply andb_true_iff in Es as [Hz%bool_decide_eq_true Ht%Z.eqb_eq].
    rewrite st_bind_Ok. intros (rr & h1 & [= Hs <-] & Hk). apply st_bind_Ok in Hk as ([] & h2 & [= <-] & [= <- <-]).
    destruct (soaRR zone) as [soa| | |] eqn:Hsoa; try done. injection Hs as ->. intros m ->.
    eapply (responds_soa _ _ _ _ rr); try done. cbn. by rewrite Ha.
  - apply bool_decide_eq_true in Hm. rewrite st_bind_Ok. intros ([] & h1 & H1 & Hk).
    apply st_bind_Ok in Hk as ([] & h2 & H2 & [= <- <-]). apply append_answers_resp in H1 as (start & Hh1); [|by apply small_filter]. rewrite Ha in Hh1. cbn in Hh1.
    assert (exists l, resp h2 = set_Additional (resp h1) l) as [l Hl].
    { unfold addAdditional in H2. case_bool_decide.
      - destruct (addGlue_loop_resp zone (filterType (mRecords lm) (qType q)) [] h1) as [l Hl].
        unfold addGlue in H2. rewrite H2 in Hl. by exists l.
      - injection H2 as <-. exists (Additional (resp h1)). by destruct (resp h1). }
    intros m ->. rewrite Hl, Hh1. eapply (responds_records _ _ _ _ start); try done.
    by destruct (filterType _ _); [cbn in Hm; lia|].
  - apply bool_decide_eq_false in Hm.
    assert (Hnil : filterType (mRecords lm) (qType q) = []) by (by destruct (filterType _ _); [|cbn in Hm; lia]).
    destruct (if negb _ then _ else _) as [|c0 cs] eqn:Ec; [by apply negative_decides|].
    destruct (qType q =? TypeCNAME)%Z eqn:Eq; [done|]. apply Z.eqb_neq in Eq. by apply cname_decides.
Qed.
End FirstTurn.
End Responses.

(** ** The handler over any resolver *)
Section Outcome.
Context `{GoUnicode} {S : Type} `{Resolver S}.
Context (R : S -> Prop) (zone_of : gostring -> option Zone -> Prop) (names_of : gostring -> gostring -> NameSet -> Prop)
  (ex : gostring -> gostring -> Prop).
Context `{!SearchSpec S R zone_of names_of ex}.

(** A query the handler looks up: a standard query with one question, in class IN or ANY, not
    for the root, and not of a type that is refused. *)
Definition plain (req : Message) (q : Question) : Prop :=
  Opcode req = 0%Z /\ Questions req = [q] /\ (qClass q = ClassIN \/ qClass q = ClassANY) /\
  qType q <> TypeOPT /\ (qType q ∉ [TypeAXFR; typeIXFR]) /\ query_name q <> [].

(** [Handle] on such a query. *)
Lemma Handle_plain req q s rot :
  plain req q ->
  Handle req (s, rot) =
  match FindZone (query_name q) s with
  | (Err ErrNotFound, s) => (Ok (SetRcode (NewResponse req) RcodeRefused), (s, rot))
  | (Err _, s) => (Ok (SetRcode (NewResponse req) RcodeServerFailure), (s, rot))
  | (Panic, s) => (Panic, (s, rot))
  | (NoFuel, s) => (NoFuel, (s, rot))
  | (Ok zone, s) =>
    let resp1 := set_Flags (NewResponse req) (Z.lor (mFlags (NewResponse req)) FlagAA) in
    match resolve zone (query_name q) (TrimSuffix (qName q) (lit ".")) (qType q) (mkHandler s rot resp1) with
    | (Ok _, h) => (Ok (resp h), (resolver h, rotate h))
    | (Err _, h) =>
      let m := set_Additional (set_Authority (set_Answers (resp h) []) []) [] in
      let m := set_Flags m (Z.ldiff (mFlags m) FlagAA) in
      (Ok (SetRcode m RcodeServerFailure), (resolver h, rotate h))
    | (Panic, h) => (Panic, (resolver h, rotate h))
    | (NoFuel, h) => (NoFuel, (resolver h, rotate h))
    end
  end.
Proof.
  intros (Ho & Hq & Hc & Ht & Hx & Hn). unfold Handle. rewrite Ho, Hq. cbn [negb Z.eqb].
  rewrite (proj2 (Z.eqb_neq _ _) Ht), (bool_decide_eq_false_2 _ Hx).
  rewrite (bool_decide_eq_false_2 (ToLower _ = [])) by exact Hn.
  destruct Hc as [-> | ->]; reflexivity.
Qed.

Lemma start_fresh req (s : S) rot :
  fresh (resp (mkHandler s rot (set_Flags (NewResponse req) (Z.lor (mFlags (NewResponse req)) FlagAA)))).
Proof.
  pose proof (NewResponse_sections req) as Hs. unfold sections in Hs. apply app_nil in Hs as [Ha [Hau Had]%app_nil].
  split; [done|]. split; [done|]. split; [done|]. split; [apply authoritative_set|].
  cbn [resp]. by rewrite Rcode_set_AA, NewResponse_Rcode.
Qed.

(** What the response to [q] must be: a refusal, or the response to what the search finds. *)
Definition right_answer (q : Question) (m : Message) : Prop :=
  (Rcode m = RcodeRefused /\ sections m = [] /\ zone_of (query_name q) None) \/
  exists zone lm, zone_of (query_name q) (Some zone) /\
    (at_or_below (zName zone) (query_name q) ->
      lookup_spec names_of ex (zName zone) (query_name q) (qType q) lm) /\
    responds zone q lm m.

(** The same, or SERVFAIL and nothing else because the resolver failed. *)
Definition right_response (q : Question) (m : Message) : Prop :=
  (Rcode m = RcodeServerFailure /\ sections m = [] /\ exists e, cause R zone_of e) \/ right_answer q m.

(** The first turn, and the chain behind it. *)
Lemma resolve_responds req zone q (h h' : Handler S) :
  zone_of (query_name q) (Some zone) -> handler_ok R zone_of names_of req h -> fresh (resp h) ->
  resolve zone (query_name q) (TrimSuffix (qName q) (lit ".")) (qType q) h = (Ok tt, h') ->
  exists lm, (at_or_below (zName zone) (query_name q) ->
      lookup_spec names_of ex (zName zone) (query_name q) (qType q) lm) /\ responds zone q lm (resp h').
Proof.
  intros Hz Hh Hf. unfold resolve. change (maxChain + 1) with (Datatypes.S maxChain). cbn [resolve_loop].
  rewrite st_bind_Ok. intros (r & h1 & Ht & Hk). unfold turn in Ht. apply st_bind_Ok in Ht as (lm & h0 & Hl & Ht).
  pose proof (lookup_name_keeps R zone_of names_of ex zone _ (qType q) Hz req h Hh) as Hkeep.
  rewrite Hl in Hkeep. destruct Hkeep as [_ [(_ & Hsm & _ & _ & Hex) Hspec]].
  exists lm. split; [done|].
  pose proof (quiet_lookup_name zone (query_name q) (qType q) h) as Hquiet. rewrite Hl in Hquiet. cbn in Hquiet.
  rewrite <- Hquiet in Hf. assert (Hd : decides zone q lm r h1).
  { case_bool_decide as Hcut; [by eapply referral_decides|].
    assert (Hc : cut lm = []) by (by destruct (decide (cut lm = []))).
    destruct (dname lm) as [dn|] eqn:Hdn; [by eapply follow_dname_decides|by eapply answer_decides]. }
  apply Hd. destruct r as [[[z1 n1] o1]|]; [|by injection Hk as <-].
  pose proof (adds_resolve_loop maxChain z1 n1 o1 (qType q) h1) as Hp. by rewrite Hk in Hp.
Qed.

(** C7. Every query is answered: [Handle] returns a message, whatever the resolver's state,
    without panicking and in bounded time; the message keeps the ID, the question, the EDNS
    fields and all flags of the response frame but AA and the response code. *)
Theorem Handle_total req s rot :
  R s -> exists m s' rot', Handle req (s, rot) = (Ok m, (s', rot')) /\ R s' /\ framed (NewResponse req) m.
Proof.
  intros HR. destruct (Handle_answered R zone_of names_of ex req s rot HR) as (m & s' & rot' & ? & ? & ? & _).
  by exists m, s', rot'.
Qed.



Lemma Handle_right req s rot m st' q :
  R s -> plain req q -> Handle req (s, rot) = (Ok m, st') -> right_response q m.
Proof.
  intros HR Hp. unfold right_response, right_answer. rewrite (Handle_plain req q s rot Hp). pose proof (FindZone_keeps (query_name q) s HR) as Hk.
  pose proof (FindZone_answers (query_name q) s HR) as Hz.
  destruct (FindZone (query_name q) s) as [[zone|x| |] s1] eqn:Ez; cbn [fst snd] in *; try done.
  2: { assert (Hx : x <> ErrNotFound -> exists e, cause R zone_of e).
       { intros Hx. exists (StoreErr x). left. exists (query_name q), s. by rewrite Ez. }
       destruct x; intros [= <- _]; rewrite Rcode_SetRcode; [right; left|left..]; (split; [done|]);
         (split; [apply NewResponse_sections|auto]). }
  cbv zeta. set (h0 := mkHandler _ _ _). assert (Hh0 : handler_ok R zone_of names_of req h0) by (by apply start_ok).
  destruct (resolve zone _ _ _ h0) as [[[]|e| |] h] eqn:Hres; [| |done..]; intros [= <- _].
  2: { left. rewrite Rcode_SetRcode. split; [done|]. split; [done|]. exists e. unfold resolve in Hres.
       pose proof (resolve_loop_keeps R zone_of names_of ex (maxChain + 1) zone _
         (TrimSuffix (qName q) (lit ".")) (qType q) Hz req h0 Hh0) as Hl. rewrite Hres in Hl. apply Hl. }
  right. right. exists zone. destruct (resolve_responds req zone q h0 h) as (lm & ? & ?);
    [done|done|apply start_fresh|done|]. by exists lm.
Qed.

End Outcome.

(** ** The handler over the store, with and without caches *)
Section StoreBehind.
Context `{GoUnicode} `{PostgresLaws} (s : Store).

Definition store_exists (d : DB) (z n : gostring) : Prop :=
  exists r, r ∈ records d /\ rowZone r = z /\ at_or_below n (rowName r).

Definition few_records (d : DB) : Prop := (Z.of_nat (length (records d)) < 2 ^ 32)%Z.

(** The SOA parameters of every zone can be encoded. *)
Definition soa_ok (d : DB) : Prop := Forall (fun z => match soaRR z with Ok _ => True | _ => False end) (Store.zones d).

Lemma search_of_resolver {S} `{Resolver S} (R : S -> Prop) d :
  ResolverSpec S R (store_zone_of d) (store_names_of s d) -> few_records d ->
  SearchSpec S R (store_zone_of d) (store_names_of s d) (store_exists d).
Proof.
  intros Hspec Hfew. constructor; [done|..].
  - intros z n set [Hl Ha]. destruct (decide (Records set = [])) as [-> |Hne]; [done|].
    destruct Hl as [(rows & Hp & Hf) _]; [by intros Hb%Ha|]. apply Forall2_length in Hf.
    rewrite (Permutation_length Hp) in Hf. rewrite <- Hf.
    pose proof (length_filter (at_name z n) (records d)). unfold few_records in Hfew. lia.
  - intros z n set [Hl _] Hin. apply (lookup_answer_Exists s). apply Hl.
    intros Hb%below_length. destruct Hin as [-> |Hin%below_length]; lia.
Qed.

Lemma store_search_spec P d :
  db_ok d -> text_ok d -> encoder_total s -> few_records d ->
  SearchSpec Conn (H := StoreResolver s) (serves P d) (store_zone_of d) (store_names_of s d) (store_exists d).
Proof. intros. by apply search_of_resolver; [apply store_resolver_spec|]. Qed.

Context `{GoMapsLaws}.

Lemma cached_search_spec P d :
  db_ok d -> text_ok d -> encoder_total s -> few_records d ->
  SearchSpec (CachedResolver Conn) (H := CachedResolver_Resolver (H0 := StoreResolver s))
    (cached_ok (serves P d) (store_zone_of d) (store_names_of s d))
    (store_zone_of d) (store_names_of s d) (store_exists d).
Proof. intros. by apply search_of_resolver; [apply cached_resolver_spec, store_resolver_spec|]. Qed.

(** Without faults the cached resolver in front of the store gives no cause for SERVFAIL. *)
Lemma cached_no_cause d e :
  db_ok d -> encoder_total s -> soa_ok d ->
  ~ cause (H0 := CachedResolver_Resolver (H0 := StoreResolver s))
      (cached_ok (serves no_fault d) (store_zone_of d) (store_names_of s d)) (store_zone_of d) e.
Proof.
  intros Hd Henc Hsoa. destruct e as [e|e]; cbn [cause].
  - intros [(n & c & Hc & He & Hne)|(z & n & c & Hc & He)];
      destruct (store_reliable s d (next c) Hd Henc (c_next _ _ _ _ Hc)) as [Hf Hl].
    + apply cached_FindZone_error in He as [?|He]; [done|]. by apply Hf in He.
    + apply cached_LookupName_error in He. by apply Hl in He.
  - intros (q & z & (Hz & _) & He). unfold soa_ok in Hsoa. rewrite Forall_forall in Hsoa.
    specialize (Hsoa z Hz). by rewrite He in Hsoa.
Qed.

(** Caches that agree with the tables give every query the answer that the tables prescribe. *)
Lemma cached_right d c rot req q :
  db_ok d -> text_ok d -> encoder_total s -> few_records d -> soa_ok d ->
  cached_ok (serves no_fault d) (store_zone_of d) (store_names_of s d) c -> plain req q ->
  exists m st', Handle (H0 := CachedResolver_Resolver (H0 := StoreResolver s)) req (c, rot) = (Ok m, st') /\
    right_answer (store_zone_of d) (store_names_of s d) (store_exists d) q m.
Proof.
  intros Hd Ht Henc Hfew Hsoa Hc Hp. pose proof (cached_search_spec no_fault d Hd Ht Henc Hfew) as Hspec.
  destruct (Handle_answered (SearchSpec0 := Hspec) _ _ _ _ req c rot Hc) as (m & s' & rot' & Hh & _). exists m, (s', rot').
  split; [done|]. destruct (Handle_right (SearchSpec0 := Hspec) _ _ _ _ req c rot m (s', rot') q Hc Hp Hh) as [(_ & _ & x & Hx)|?]; [|done].
  by apply cached_no_cause in Hx.
Qed.

(** Reads see writes, through the caches: after a successful operation on the store and the
    invalidation the API announces for it, the handler in front of the cached resolver gives
    every query the answer that the new contents of the tables prescribe, and no failure of
    its own as long as the database has none. *)
Lemma write_visible e o d d' c rot :
  reachable s d -> run s e o d = (Ok tt, d') ->
  text_ok d' -> encoder_total s -> few_records d' -> soa_ok d' ->
  cached_ok (serves no_fault d) (store_zone_of d) (store_names_of s d) c ->
  exists c', Invalidate (fst (change_of o)) (snd (change_of o)) (now_serves d' c) = Ok c' /\
    forall req q, plain req q ->
      exists m st', Handle (H0 := CachedResolver_Resolver (H0 := StoreResolver s)) req (c', rot) = (Ok m, st') /\
        right_answer (store_zone_of d') (store_names_of s d') (store_exists d') q m.
Proof.
  intros Hr Hrun Ht Henc Hfew Hsoa Hc.
  assert (Hd' : db_ok d').
  { replace d' with (snd (run s e o d)) by (by rewrite Hrun). by apply (reachable_db_ok s), reachable_step. }
  destruct (Invalidate_keeps s no_fault e o d d' c Hrun Hc) as (c' & Hi & Hc'). exists c'. split; [done|].
  intros req q Hp. by apply cached_right.
Qed.
End StoreBehind.
