(* ===== verification/HandlerRuns.v ===== *)
(** * The handler at work

    Concrete runs of the handler over the reference database: the properties of the handler
    applied to them, and the responses that differ from what the protocol asks for. *)

From Stdlib Require Import ZArith Lia Ascii String.
From stdpp Require Import base list strings.
From S2P Require Import Prelude GoStrings Message WireNames MessageCodec Names RData RDataCorrect Store StoreCorrect.
From S2P Require Import StoreQueries Cache Resolver CachedResolver CachedResolverCorrect Handler HandlerCorrect HandlerAnswers.
From S2P Require Import HandlerResponses.

#[local] Existing Instance unicode_id.
#[local] Existing Instance pg_ref.
#[local] Existing Instance pg_ref_laws.
#[local] Existing Instance maps_ref.
#[local] Existing Instance maps_ref_laws.

(** A query with recursion desired. *)
Definition query (name : gostring) (qtype : Z) : Message :=
  mkMessage (mkHeader 4711 FlagRD 1 0 0 0) [mkQuestion name qtype ClassIN] [] [] [] false false 0.

#[local] Instance ref_resolver : Resolver Conn := StoreResolver ref_store.

Lemma ref_few_records : few_records ref_db.
Proof. refine (bool_decide_unpack _ _). vm_compute. exact I. Qed.

Lemma ref_search :
  SearchSpec Conn (serves no_fault ref_db) (store_zone_of ref_db) (store_names_of ref_store ref_db) (store_exists ref_db).
Proof. exact (store_search_spec ref_store no_fault ref_db ref_db_ok ref_text_ok ref_store_total ref_few_records). Qed.
#[local] Existing Instance ref_search.

Lemma query_plain name qtype :
  qtype <> TypeOPT -> qtype ∉ [TypeAXFR; typeIXFR] -> ToLower (TrimSuffix name (lit ".")) <> [] ->
  plain (query name qtype) (mkQuestion name qtype ClassIN).
Proof. intros. split; [done|]. split; [done|]. split; [by left|]. done. Qed.

Abbreviation run_query name qtype := (Handle (query name qtype) (ref_conn, 0%Z)).

(** ** The properties on concrete queries *)
Lemma Handle_total_witness :
  exists m s' rot', Handle (query (lit "www.Example.com") TypeA) (ref_conn, 0%Z) = (Ok m, (s', rot')) /\
    serves no_fault ref_db s' /\ framed (NewResponse (query (lit "www.Example.com") TypeA)) m.
Proof.
  exact (Handle_total (serves no_fault ref_db) (store_zone_of ref_db) (store_names_of ref_store ref_db)
    (store_exists ref_db) (query (lit "www.Example.com") TypeA) ref_conn 0 ref_serves).
Defined.

(** The message of a run that returns one. *)
Definition message_of (r : go handlerError Message * (Conn * Z)) : Message :=
  match fst r with Ok m => m | _ => query [] 0 end.

Lemma run_query_Ok name qtype :
  match fst (run_query name qtype) with Ok _ => True | _ => False end ->
  run_query name qtype = (Ok (message_of (run_query name qtype)), snd (run_query name qtype)).
Proof. unfold message_of. by destruct (run_query name qtype) as [[m| | |] st']. Qed.



(** The response itself: both addresses, rotated, under the name as it was asked. *)
Example run_www :
  let m := message_of (run_query (lit "WWW.example.com") TypeA) in
  Rcode m = RcodeNoError /\ authoritative m = true /\
  Answers m = [mkRR (lit "WWW.example.com") TypeA ClassIN 60 [zb 192; zb 0; zb 2; zb 2];
               mkRR (lit "WWW.example.com") TypeA ClassIN 60 [zb 192; zb 0; zb 2; zb 1]].
Proof. vm_compute. done. Qed.

Lemma Handle_nxdomain_sound_witness :
  exists zone, store_zone_of ref_db (lit "b.deep.example.com") (Some zone) /\
    denied (store_names_of ref_store ref_db) (store_exists ref_db) zone (lit "b.deep.example.com").
Proof.
  refine (Handle_nxdomain_sound (serves no_fault ref_db) (store_zone_of ref_db) (store_names_of ref_store ref_db)
    (store_exists ref_db) (query (lit "b.deep.example.com") TypeA) ref_conn 0 _ _
    (mkQuestion (lit "b.deep.example.com") TypeA ClassIN) ref_serves
    (run_query_Ok (lit "b.deep.example.com") TypeA _) eq_refl _ _); vm_compute; done.
Defined.

(** The start of a call on [ref_conn]. *)
Definition ref_start (req : Message) : Handler Conn :=
  mkHandler ref_conn 0 (set_Flags (NewResponse req) (Z.lor (mFlags (NewResponse req)) FlagAA)).

Definition ref_zone : Zone :=
  mkZone (lit "example.com") (lit "ns1.example.com.") (lit "admin@example.com") 1700000003 3600 900 604800 300 1000000 1000000.

Lemma ref_zone_of n :
  fst (FindZone n ref_conn) = Ok ref_zone -> store_zone_of ref_db n (Some ref_zone).
Proof.
  intros Hf. pose proof (FindZone_answers (R := serves no_fault ref_db) (zone_of := store_zone_of ref_db)
    (names_of := store_names_of ref_store ref_db) n ref_conn ref_serves) as Ha. by rewrite Hf in Ha.
Qed.


Definition ref_address (rdata : gostring) (wire : bytes) : Record_ :=
  mkRecord 1 (lit "example.com") (lit "www.example.com") (lit "A") 60 rdata 0 wire None.

Definition ref_set : list Record_ :=
  [ref_address (lit "192.0.2.1") [zb 192; zb 0; zb 2; zb 1]; ref_address (lit "192.0.2.2") [zb 192; zb 0; zb 2; zb 2]].

Lemma appendSet_rotates_witness :
  exists start h', appendSet [] (lit "www.example.com") ref_set (ref_start (query (lit "www.example.com") TypeA)) =
    (Ok ([] ++ mjoin (served (lit "www.example.com") <$> rotated start ref_set)), h') /\ rotate h' = 1%Z /\ start = 1.
Proof.
  destruct (appendSet_rotates [] (lit "www.example.com") ref_set (ref_start (query (lit "www.example.com") TypeA)))
    as (start & h' & Hs & _ & _ & _ & Hr); [done|].
  exists start, h'. split; [exact Hs|]. destruct Hr as [Hrot Hst]; [cbn; lia|]. split; [exact Hrot|].
  rewrite Hrot in Hst. change (Z.of_nat start = 1%Z) in Hst. lia.
Defined.

Definition ref_mx : list Record_ :=
  [mkRecord 3 (lit "example.com") (lit "a.deep.example.com") (lit "MX") 300 (lit "10 www.example.com.") 0
     (match BuildRData TypeMX (lit "10 www.example.com.") with Ok w => w | _ => [] end) None].

Lemma addGlue_bounded_witness :
  let h := ref_start (query (lit "a.deep.example.com") TypeMX) in
  let h' := snd (addGlue ref_zone ref_mx h) in
  exists targets l, NoDup targets /\ length targets <= maxAdditional /\
    Forall (fun t => inZone t (lit "example.com") = true /\ exists r, r ∈ ref_mx /\ t = target_of r) targets /\
    Additional (resp h') = Additional (resp h) ++ l /\ Forall (glue_rr targets) l.
Proof.
  intros h h'. refine (addGlue_bounded ref_zone ref_mx h h' _).
  refine (pair_snd (addGlue ref_zone ref_mx h) _ _). vm_compute. reflexivity.
Defined.

(** ** Where the responses differ from the protocol *)

(** A zone with a delegation and glue below it, a DNAME at a name and one at the apex. *)
Definition cut_ops : list op :=
  let rec zone name type rdata := mkRecord 0 zone name type 300 rdata 0 [] None in
  let zone n := CreateZoneOp (mkZone n (lit "ns1.example.com.") (lit "admin@example.com") 0 3600 900 604800 300 0 0) in
  [ zone (lit "example.com"); zone (lit "old.org");
    CreateRecordOp (rec (lit "example.com") (lit "sub") (lit "NS") (lit "ns.sub.example.com."));
    CreateRecordOp (rec (lit "example.com") (lit "ns.sub") (lit "A") (lit "192.0.2.53"));
    CreateRecordOp (rec (lit "old.org") (lit "@") (lit "DNAME") (lit "example.com.")) ].

Definition cut_db : DB := foldl (fun d o => snd (run ref_store env0 o d)) (mkDB [] [] 1) cut_ops.

Abbreviation cut_query name qtype :=
  (message_of (Handle (query name qtype) (mkConn cut_db (fun _ => env0) 0, 0%Z))).

(** Names below a zone cut belong to the child zone, and a query for one should get the
    referral.  The records at the name are looked at first, so glue is served with AA set. *)
Theorem glue_served_as_authoritative :
  let m := cut_query (lit "ns.sub.example.com") TypeA in
  authoritative m = true /\ Rcode m = RcodeNoError /\
  Answers m = [mkRR (lit "ns.sub.example.com") TypeA ClassIN 300 [zb 192; zb 0; zb 2; zb 53]] /\ Authority m = [] /\
  authoritative (cut_query (lit "x.sub.example.com") TypeA) = false.
Proof. vm_compute. done. Qed.

(** A DNAME at the apex redirects nothing: the walk looks for DNAME only strictly below it. *)
Theorem apex_dname_ignored :
  let m := cut_query (lit "www.old.org") TypeA in Rcode m = RcodeNXDomain /\ Answers m = [].
Proof. vm_compute. done. Qed.

(** A query name that ends in a space is not in the zone, but [FindZone] trims it: the answer is
    an authoritative NXDOMAIN, and not REFUSED. *)
Theorem space_trimmed_for_zone :
  let m := cut_query (lit "example.com ") TypeA in
  Rcode m = RcodeNXDomain /\ authoritative m = true /\
  ~ at_or_below (lit "example.com") (ToLower (lit "example.com ")).
Proof.
  split; [vm_compute; done|]. split; [vm_compute; done|]. rewrite <- inZone_at_or_below. vm_compute. done.
Qed.
