(* ===== verification/Server.v ===== *)
(** * The DNS server (src/internal/dns/server.go)

    What the server sends for a datagram and on a TCP connection, over any resolver, and the
    machine of buffers, jobs and connection slots that its goroutines run.  Sockets are lists
    of bytes: a datagram is what the read returned, a connection is the input that arrives
    before the idle deadline and a verdict for every write. *)

From Stdlib Require Import ZArith Lia Ascii String.
From stdpp Require Import base list strings.
From S2P Require Import Prelude GoStrings Message Store Resolver Handler.

Definition bufSize : nat := 4096.
Definition maxTCPConns : nat := 4096.

(** The answer to a message that does not parse; out of range on less than three bytes. *)
Definition formErr {E} (req : bytes) : go E bytes :=
  let! id := slice req 0 2 in
  let! b := index req 2 in
  Ok (id ++ [zb (Z.lor 0x80 (Z.land (bz b) 0x79)); zb RcodeFormatError] ++ replicate 8 (zb 0)).

(** [data[2]&0x80 == 0] *)
Definition is_query {E} (data : bytes) : go E bool :=
  let! b := index data 2 in Ok (Z.land (bz b) 0x80 =? 0)%Z.

Section Server.
Context `{GoUnicode} {S : Type} `{Resolver S}.

(** The resolver and the handler's counter, which all goroutines share. *)
Abbreviation M A := (st (S * Z) handlerError A).

(** ** Datagrams *)

(** [serveUDP] on the datagram [data]: what it writes, if anything.  The response is built in
    the buffer that held the request; it takes nothing from there but the questions, whose
    names [ParseMessage] copied. *)
Definition serveUDP (data : bytes) : M (option bytes) := fun w =>
  match ParseMessage data with
  | Err _ =>
    (if bool_decide (12 <= length data) then
       let! q := is_query data in
       if q then let! out := formErr data in Ok (Some out) else Ok None
     else Ok None, w)
  | Ok req =>
    if negb (Z.land (mFlags req) FlagQR =? 0)%Z then (Ok None, w)
    else
      match Handle req w with
      | (Ok resp, w) =>
        (match PackUDP resp with
         | Ok out => Ok (Some out)
         | Err _ => Ok None
         | Panic => Panic
         | NoFuel => NoFuel
         end, w)
      | (Err e, w) => (Err e, w)
      | (Panic, w) => (Panic, w)
      | (NoFuel, w) => (NoFuel, w)
      end
  | Panic => (Panic, w)
  | NoFuel => (NoFuel, w)
  end.

(** ** Connections *)
Record TCPConn := mkTCP { input : bytes; output : list bytes; accepts : nat -> bool }.

(** [io.ReadFull]; [None] is any error. *)
Definition ReadFull (n : nat) (c : TCPConn) : option (bytes * TCPConn) :=
  if bool_decide (n <= length (input c))
  then Some (take n (input c), mkTCP (drop n (input c)) (output c) (accepts c))
  else None.

Definition frame (msg : bytes) : bytes := put16 (u16 (Z.of_nat (length msg))) ++ msg.

(** A write that fails may have sent a part; the connection is closed then. *)
Definition writeTCP (c : TCPConn) (msg : bytes) : bool * TCPConn :=
  if accepts c (length (output c))
  then (true, mkTCP (input c) (output c ++ [frame msg]) (accepts c))
  else (false, c).

(** What one message of a connection is answered with; [None] closes the connection. *)
Definition serveTCP (data : bytes) : M (option bytes) := fun w =>
  match ParseMessage data with
  | Err _ =>
    (let! q := is_query data in
     if q then let! out := formErr data in Ok (Some out) else Ok None, w)
  | Ok req =>
    if negb (Z.land (mFlags req) FlagQR =? 0)%Z then (Ok None, w)
    else
      match Handle req w with
      | (Ok resp, w) =>
        (match snd (Pack resp) with
         | Ok out => if (65535 <? Z.of_nat (length out))%Z then Ok None else Ok (Some out)
         | Err _ => Ok None
         | Panic => Panic
         | NoFuel => NoFuel
         end, w)
      | (Err e, w) => (Err e, w)
      | (Panic, w) => (Panic, w)
      | (NoFuel, w) => (NoFuel, w)
      end
  | Panic => (Panic, w)
  | NoFuel => (NoFuel, w)
  end.

(** Every turn that goes on has read at least two bytes. *)
Fixpoint tcpConnLoop (fuel : nat) (c : TCPConn) : M TCPConn :=
  match fuel with
  | 0 => st_ret NoFuel
  | Datatypes.S fuel' =>
    match ReadFull 2 c with
    | None => st_ret (Ok c)
    | Some (lenBuf, c) =>
      do! msgLen := st_ret (get16 lenBuf) in
      if (msgLen <? 12)%Z then st_ret (Ok c)
      else
        match ReadFull (Z.to_nat msgLen) c with
        | None => st_ret (Ok c)
        | Some (data, c) =>
          do! r := serveTCP data in
          match r with
          | None => st_ret (Ok c)
          | Some out =>
            let (ok, c) := writeTCP c out in
            if ok then tcpConnLoop fuel' c else st_ret (Ok c)
          end
        end
    end
  end.
End Server.

(** ** Buffers, jobs and slots *)

(** A buffer, by its identity. *)
Definition buffer : Type := nat.

Record job := mkJob { buf : buffer; payload : bytes }.

(** The state of the goroutines: the pool, the buffer of the reader, the queue of jobs, the
    jobs of the workers, the slots taken for connections, and the buffers of the connections. *)
Record pool_state := mkPool {
  workers : nat;
  pool : list buffer;
  reading : option buffer;
  jobs : list job;
  serving : list job;
  tcpSlots : nat;
  conns : list buffer;
  fresh_buffer : buffer;
}.

Definition NewServer (workers : nat) : pool_state :=
  let workers := if bool_decide (workers < 1) then 1 else workers in
  mkPool workers [] None [] [] 0 [] 0.

(** [pool.Get]: any pooled buffer, or a new one. *)
Inductive pool_Get : pool_state -> buffer -> pool_state -> Prop :=
| Get_pooled w l1 b l2 r js sv n cs f :
    pool_Get (mkPool w (l1 ++ b :: l2) r js sv n cs f) b (mkPool w (l1 ++ l2) r js sv n cs f)
| Get_new w p r js sv n cs f :
    pool_Get (mkPool w p r js sv n cs f) f (mkPool w p r js sv n cs (S f)).

Definition pool_Put (b : buffer) (s : pool_state) : pool_state :=
  mkPool (workers s) (b :: pool s) (reading s) (jobs s) (serving s) (tcpSlots s) (conns s) (fresh_buffer s).

Inductive pool_step : pool_state -> pool_state -> Prop :=
(* sync.Pool may forget a buffer at any time *)
| step_forget w l1 b l2 r js sv n cs f :
    pool_step (mkPool w (l1 ++ b :: l2) r js sv n cs f) (mkPool w (l1 ++ l2) r js sv n cs f)
(* udpReadLoop *)
| step_get w p js sv n cs f b p' f' :
    pool_Get (mkPool w p None js sv n cs f) b (mkPool w p' None js sv n cs f') ->
    pool_step (mkPool w p None js sv n cs f) (mkPool w p' (Some b) js sv n cs f')
| step_read_error w p b js sv n cs f :
    pool_step (mkPool w p (Some b) js sv n cs f) (pool_Put b (mkPool w p None js sv n cs f))
| step_enqueue w p b js sv n cs f datagram :
    length js < w * 16 ->
    pool_step (mkPool w p (Some b) js sv n cs f)
      (mkPool w p None (js ++ [mkJob b (take bufSize datagram)]) sv n cs f)
| step_drop w p b js sv n cs f :
    length js = w * 16 ->
    pool_step (mkPool w p (Some b) js sv n cs f) (pool_Put b (mkPool w p None js sv n cs f))
(* a worker *)
| step_serve w p r j js sv n cs f :
    length sv < w -> pool_step (mkPool w p r (j :: js) sv n cs f) (mkPool w p r js (j :: sv) n cs f)
| step_served w p r js sv1 j sv2 n cs f :
    pool_step (mkPool w p r js (sv1 ++ j :: sv2) n cs f) (pool_Put (buf j) (mkPool w p r js (sv1 ++ sv2) n cs f))
(* tcpAcceptLoop takes a slot for a connection, tcpConnLoop a buffer; the connection gives
   back first the buffer and then the slot *)
| step_accept w p r js sv n cs f :
    n < maxTCPConns -> pool_step (mkPool w p r js sv n cs f) (mkPool w p r js sv (S n) cs f)
| step_open w p r js sv n cs f b p' f' :
    length cs < n -> pool_Get (mkPool w p r js sv n cs f) b (mkPool w p' r js sv n cs f') ->
    pool_step (mkPool w p r js sv n cs f) (mkPool w p' r js sv n (b :: cs) f')
| step_close w p r js sv n cs1 b cs2 f :
    pool_step (mkPool w p r js sv n (cs1 ++ b :: cs2) f) (pool_Put b (mkPool w p r js sv n (cs1 ++ cs2) f))
| step_release w p r js sv n cs f :
    length cs < S n -> pool_step (mkPool w p r js sv (S n) cs f) (mkPool w p r js sv n cs f).
