(* ===== verification/ServerCorrect.v ===== *)
(** * Correctness of the server

    No datagram and no stream makes the server panic or hang; it answers queries only, with
    responses that carry the query's ID; responses to ordinary queries keep to the UDP limit;
    TCP answers come in order, correctly framed; buffers are never shared between jobs. *)

From Stdlib Require Import ZArith Lia Ascii String.
From stdpp Require Import base list strings relations.
From S2P Require Import Prelude GoStrings Message WireNames MessageCodec Names RData RDataCorrect Store StoreCorrect.
From S2P Require Import StoreQueries Resolver CachedResolverCorrect Handler HandlerCorrect HandlerAnswers HandlerResponses HandlerRuns Server.

(** ** Buffers *)

(** Every place a buffer can be in. *)
Definition owned (s : pool_state) : list buffer :=
  pool s ++ match reading s with Some b => [b] | None => [] end ++
  (buf <$> jobs s) ++ (buf <$> serving s) ++ conns s.

Record pool_ok (s : pool_state) : Prop := {
  ok_exclusive : NoDup (owned s);
  ok_fresh : Forall (fun b => b < fresh_buffer s) (owned s);
  ok_jobs : length (jobs s) <= workers s * 16;
  ok_payload : Forall (fun j => length (payload j) <= bufSize) (jobs s ++ serving s);
  ok_serving : length (serving s) <= workers s;
  ok_conns : length (conns s) <= tcpSlots s <= maxTCPConns;
}.

Lemma Get_owned w p r js sv n cs f b p' f' :
  pool_Get (mkPool w p r js sv n cs f) b (mkPool w p' r js sv n cs f') ->
  (b :: p' ≡ₚ p /\ f' = f) \/ (b = f /\ p' = p /\ f' = S f).
Proof.
  intros Hg. inversion Hg; subst; [left|by right]. split; [|done]. apply Permutation_middle.
Qed.

(** Owning one buffer more: one from the pool, or a new one. *)
Lemma Get_ok rest p f b p' f' :
  (b :: p' ≡ₚ p /\ f' = f) \/ (b = f /\ p' = p /\ f' = S f) ->
  NoDup (p ++ rest) -> Forall (fun b => b < f) (p ++ rest) ->
  NoDup (b :: p' ++ rest) /\ Forall (fun b => b < f') (b :: p' ++ rest).
Proof.
  intros [[Hp ->]|(-> & -> & ->)] Hn Hf.
  - change (b :: p' ++ rest) with ((b :: p') ++ rest). by rewrite Hp.
  - split.
    + constructor; [|done]. intros Hin. rewrite Forall_forall in Hf. specialize (Hf f Hin). lia.
    + constructor; [lia|]. eapply Forall_impl; [exact Hf|]. cbn. lia.
Qed.

(** A state that owns the same buffers. *)
Definition same_owned (s s' : pool_state) : Prop := owned s' ≡ₚ owned s /\ fresh_buffer s' = fresh_buffer s.

Lemma same_owned_ok s s' :
  same_owned s s' -> NoDup (owned s) -> Forall (fun b => b < fresh_buffer s) (owned s) ->
  NoDup (owned s') /\ Forall (fun b => b < fresh_buffer s') (owned s').
Proof. intros [Hp Hf]. by rewrite Hp, Hf. Qed.

Ltac same_buffers :=
  apply same_owned_ok; split; [unfold owned; cbn; rewrite ?fmap_app; cbn; solve_Permutation|done].

Lemma pool_step_owned s s' :
  pool_step s s' -> NoDup (owned s) -> Forall (fun b => b < fresh_buffer s) (owned s) ->
  NoDup (owned s') /\ Forall (fun b => b < fresh_buffer s') (owned s').
Proof.
  destruct 1; try same_buffers.
  - unfold owned. cbn. rewrite <- !app_assoc. cbn. rewrite <- Permutation_middle. intros Hn Hf.
    split; [by apply NoDup_cons in Hn as []|by apply Forall_cons in Hf as []].
  - unfold owned. cbn. rewrite <- Permutation_middle. apply Get_ok. by eapply Get_owned.
  - unfold owned. cbn. intros Hn Hf.
    destruct (Get_ok (match r with Some b => [b] | None => [] end ++ (buf <$> js) ++ (buf <$> sv) ++ cs) p f b p' f')
      as [Hn' Hf']; [by eapply Get_owned|done..|].
    assert (Hp : p' ++ match r with Some b => [b] | None => [] end ++ (buf <$> js) ++ (buf <$> sv) ++ b :: cs ≡ₚ
      b :: p' ++ match r with Some b => [b] | None => [] end ++ (buf <$> js) ++ (buf <$> sv) ++ cs) by solve_Permutation.
    by rewrite Hp.
Qed.

Lemma pool_step_ok s s' : pool_ok s -> pool_step s s' -> pool_ok s'.
Proof.
  intros [He Hf Hj Hp Hs Hc] Hstep. destruct (pool_step_owned s s' Hstep He Hf) as [He' Hf'].
  constructor; [done|done|..]; clear -Hstep Hj Hp Hs Hc; destruct Hstep; cbn in *;
    rewrite ?length_app in *; cbn in *; try lia; try done;
    repeat rewrite ?Forall_app, ?Forall_cons in *; try tauto.
  split; [|tauto]. split; [tauto|]. split; [|constructor]. cbn. rewrite length_take. apply Nat.le_min_l.
Qed.

(** C25. Buffers and slots: in every state the goroutines can reach from the start, no buffer is
    in two places at once (the pool, the reader, the queue, a worker, a connection), so that
    no job or connection can see another's bytes; the queue holds at most sixteen jobs per
    worker, each of at most a buffer's size; and at most 4096 connections are open. *)
Theorem Server_buffers_exclusive w s : rtc pool_step (NewServer w) s -> pool_ok s.
Proof.
  intros Hr. assert (Hinit : pool_ok (NewServer w)).
  { unfold NewServer. constructor; cbn; try done; try lia; constructor. }
  remember (NewServer w) as s0 eqn:E. clear E. induction Hr as [|s s1 s2 Hstep _ IH]; [done|].
  apply IH. by eapply pool_step_ok.
Qed.

(** ** Headers *)

(** The QR bit of a message in wire form. *)
Definition QR (b : bytes) : bool :=
  match b !! 2 with Some c => Z.testbit (bz c) 7 | None => false end.

Lemma testbit_high_byte v : Z.testbit (bz (zb (Z.shiftr v 8))) 7 = Z.testbit v 15.
Proof.
  rewrite bz_zb. change 256%Z with (2 ^ 8)%Z. rewrite Z.mod_pow2_bits_low by lia. by rewrite Z.shiftr_spec by lia.
Qed.

Lemma QR_put16 pre v suf : length pre = 2 -> QR (pre ++ put16 v ++ suf) = Z.testbit v 15.
Proof.
  intros Hp. unfold QR. rewrite lookup_app_r by lia. rewrite Hp. apply testbit_high_byte.
Qed.

Lemma uint16_at_bytes {E} data i v :
  @uint16_at E data i = Ok v -> take 2 (drop i data) = put16 v /\ i + 2 <= length data.
Proof.
  unfold uint16_at. rewrite go_bind_Ok. intros (s & Hs & Hg). apply slice_Ok_inv in Hs as (Hl & -> & Hlen).
  replace (i + 2 - i) with 2 in * by lia. split; [|lia]. symmetry. by eapply put16_get16.
Qed.

Lemma filterOPT_header rrs acc m : header (filterOPT rrs acc m) = header m.
Proof. revert acc m. induction rrs as [|rr rrs IH]; intros acc m; cbn; [done|]. destruct (_ =? _)%Z; by rewrite IH. Qed.

Lemma ParseMessage_header data req :
  ParseMessage data = Ok req ->
  12 <= length data /\ exists rest, data = put16 (ID (header req)) ++ put16 (mFlags req) ++ rest.
Proof.
  unfold ParseMessage. case_bool_decide as Hl; [done|]. intros Hp.
  apply go_bind_Ok in Hp as (id & Hid & Hp). apply go_bind_Ok in Hp as (fl & Hfl & Hp).
  do 4 apply go_bind_Ok in Hp as (? & _ & Hp). destruct (_ <? _)%Z; [done|].
  do 4 apply go_bind_Ok in Hp as ([] & _ & Hp). injection Hp as <-. unfold mFlags. rewrite filterOPT_header. cbn [header ID Flags].
  split; [lia|]. apply uint16_at_bytes in Hid as [Hid _], Hfl as [Hfl _]. rewrite drop_0 in Hid.
  exists (drop 4 data). rewrite <- Hid, <- Hfl. change (drop 4 data) with (drop (2 + 2) data).
  by rewrite <- drop_drop, !take_drop.
Qed.

(** Testing a bit with a mask. *)
Lemma mask_bit f k : (0 <= k)%Z -> (Z.land f (2 ^ k) =? 0)%Z = negb (Z.testbit f k).
Proof.
  intros Hk. destruct (Z.testbit f k) eqn:E; cbn [negb].
  - apply Z.eqb_neq. intros H0. apply (f_equal (fun z => Z.testbit z k)) in H0.
    rewrite Z.land_spec, Z.pow2_bits_true, Z.bits_0, E in H0 by lia. done.
  - apply Z.eqb_eq. apply Z.bits_inj'. intros i Hi. rewrite Z.land_spec, Z.bits_0.
    destruct (Z.eq_dec i k) as [-> |Hne]; [by rewrite E|].
    by rewrite Z.pow2_bits_false, andb_false_r by lia.
Qed.

Lemma is_query_QR {E} data : 3 <= length data -> @is_query E data = Ok (negb (QR data)).
Proof.
  intros Hl. unfold is_query. destruct (index_lt (E := E) data 2 ltac:(lia)) as (c & Hc & ->). cbn [go_bind].
  unfold QR. rewrite Hc. f_equal. apply (mask_bit _ 7). lia.
Qed.

Lemma formErr_header {E} data :
  3 <= length data -> exists out, @formErr E data = Ok out /\ take 2 out = take 2 data /\ length out = 12 /\ QR out = true.
Proof.
  intros Hl. unfold formErr. rewrite slice_Ok by lia. cbn [go_bind Nat.sub]. rewrite drop_0.
  destruct (index_lt (E := E) data 2 ltac:(lia)) as (c & Hc & ->). cbn [go_bind].
  eexists. split; [done|]. assert (H2 : length (take 2 data) = 2) by (rewrite length_take; lia).
  split; [by rewrite take_app_le, take_take by lia|]. split; [rewrite length_app, H2; done|].
  unfold QR. rewrite lookup_app_r by lia. rewrite H2. cbn [Nat.sub lookup list_lookup app]. rewrite bz_zb.
  change 256%Z with (2 ^ 8)%Z. rewrite Z.mod_pow2_bits_low by lia. by rewrite Z.lor_spec.
Qed.

(** What the packers write starts with the ID and the flags. *)
Lemma pack_bytes_header m :
  exists rest, pack_bytes m = put16 (ID (header m)) ++ put16 (mFlags m) ++ rest /\ 12 <= length (pack_bytes m).
Proof.
  eexists. split; [unfold pack_bytes, header_bytes; cbn [header count_sections set_header ID Flags]; by rewrite <- !app_assoc|].
  unfold pack_bytes. rewrite length_app, length_header_bytes. lia.
Qed.

Lemma PackUDP_header m out :
  PackUDP m = Ok out ->
  take 2 out = put16 (ID (header m)) /\ QR out = Z.testbit (mFlags m) 15 /\ 12 <= length out.
Proof.
  rewrite PackUDP_bytes. destruct (_ && _); [|done].
  assert (Hp : forall m', ID (header m') = ID (header m) -> Z.testbit (mFlags m') 15 = Z.testbit (mFlags m) 15 ->
    take 2 (pack_bytes m') = put16 (ID (header m)) /\ QR (pack_bytes m') = Z.testbit (mFlags m) 15 /\
    12 <= length (pack_bytes m')).
  { intros m' Hid Hf. destruct (pack_bytes_header m') as (rest & E & Hl). rewrite <- Hid, <- Hf. split; [|split; [|done]].
    - by rewrite E.
    - rewrite E. by apply QR_put16. }
  destruct (fits m); [|destruct (fits (set_Additional m []))]; intros [= <-]; apply Hp; try done.
  change (mFlags (truncated m)) with (Z.lor (mFlags m) FlagTC). rewrite Z.lor_spec. apply orb_false_r.
Qed.

Lemma PackUDP_size m out :
  length (Questions m) <= 1 -> PackUDP m = Ok out -> (Z.of_nat (length out) <= UDPSize m)%Z.
Proof.
  intros Hq. rewrite PackUDP_bytes. destruct (_ && _); [|done]. pose proof (UDPSize_range m) as Hs.
  unfold MaxUDPMessageSize in Hs. destruct (fits m) eqn:Hf; [|destruct (fits (set_Additional m [])) eqn:Hf'].
  - intros [= <-]. by apply Z.leb_le in Hf.
  - intros [= <-]. by apply Z.leb_le in Hf'.
  - intros [= <-]. pose proof (length_pack_bytes_truncated m Hq). lia.
Qed.

Lemma PackUDP_returns m : returns (PackUDP m).
Proof. rewrite PackUDP_bytes. destruct (_ && _); [|done]. destruct (fits m); [done|]. by destruct (fits _). Qed.

(** ** Datagrams and messages *)
Lemma response_QR req m : framed (NewResponse req) m -> Z.testbit (mFlags m) 15 = true.
Proof.
  intros (_ & _ & _ & _ & _ & Hf). rewrite Hf, NewResponse_flags by lia. rewrite !Z.lor_spec, orb_true_iff. left. done.
Qed.

Section Serving.
Context `{GoUnicode} {S : Type} `{Resolver S}.
Context (R : S -> Prop) (zone_of : gostring -> option Zone -> Prop)
  (names_of : gostring -> gostring -> NameSet -> Prop) (ex : gostring -> gostring -> Prop).
Context `{!SearchSpec S R zone_of names_of ex}.

(** What may be sent for [data]: a response, to a query, with the query's ID. *)
Definition reply_ok (data out : bytes) : Prop :=
  12 <= length data /\ QR data = false /\ 12 <= length out /\ QR out = true /\ take 2 out = take 2 data.

Lemma reply_formErr {E} data :
  12 <= length data -> QR data = false -> exists out, @formErr E data = Ok out /\ reply_ok data out /\ length out = 12.
Proof.
  intros Hl Hq. destruct (formErr_header (E := E) data ltac:(lia)) as (out & Ho & H2 & Hlo & Hqo).
  exists out. split; [done|]. split; [|done]. split; [done|]. split; [done|]. split; [lia|done].
Qed.

(** A message with the header of the response to [req]. *)
Lemma reply_response data req m out :
  ParseMessage data = Ok req -> Z.testbit (mFlags req) 15 = false -> framed (NewResponse req) m ->
  take 2 out = put16 (ID (header m)) -> QR out = Z.testbit (mFlags m) 15 -> 12 <= length out ->
  reply_ok data out.
Proof.
  intros Hp Hq Hf H2 Hqo Hl. destruct (ParseMessage_header data req Hp) as (Hd & rest & Ed).
  split; [done|]. split; [rewrite Ed; by rewrite QR_put16|]. split; [done|].
  split; [by rewrite Hqo, (response_QR req)|]. rewrite H2. destruct Hf as (Hid & _). rewrite Hid.
  assert (ID (header (NewResponse req)) = ID (header req)) as ->.
  { unfold NewResponse. by destruct (EDNS0 req). }
  by rewrite Ed.
Qed.

Lemma serveUDP_spec data w :
  R (fst w) -> exists r w', serveUDP data w = (Ok r, w') /\ R (fst w') /\
    match r with
    | Some out => reply_ok data out /\
        ((Z.of_nat (length out) <= MaxEDNSUDPSize)%Z \/
         exists req, ParseMessage data = Ok req /\ length (Questions req) <> 1)
    | None => True
    end.
Proof.
  intros HR. destruct w as [s rot]. cbn in HR. unfold serveUDP.
  pose proof (ParseMessage_returns data) as Hret. destruct (ParseMessage data) as [req|e| |] eqn:Hp; [|clear Hret|done..].
  2: { case_bool_decide as Hl; [|by eexists _, _]. rewrite is_query_QR by lia. cbn [go_bind].
       destruct (QR data) eqn:Hq; cbn [negb]; [by eexists _, _|].
       destruct (reply_formErr (E := handlerError) data Hl Hq) as (out & -> & Ho & Hlo). cbn [go_bind].
       eexists _, _. split; [done|]. split; [done|]. split; [done|]. left. unfold MaxEDNSUDPSize. lia. }
  change FlagQR with (2 ^ 15)%Z. rewrite mask_bit, negb_involutive by lia.
  destruct (Z.testbit (mFlags req) 15) eqn:Hq; [by eexists _, _|].
  destruct (Handle_answered R zone_of names_of ex req s rot HR) as (m & s' & rot' & -> & HR' & Hf & _).
  pose proof (PackUDP_returns m) as Hpr. destruct (PackUDP m) as [out|e| |] eqn:Ho; [|by eexists _, _|done..].
  eexists _, _. split; [done|]. split; [done|]. pose proof Ho as (H2 & Hqo & Hlo)%PackUDP_header.
  split; [by eapply reply_response|]. destruct (decide (length (Questions req) = 1)) as [H1|H1]; [left|right; by exists req].
  assert (Hqs : Questions m = Questions req).
  { destruct Hf as (_ & Hqs & _). rewrite Hqs. unfold NewResponse. by destruct (EDNS0 req). }
  apply PackUDP_size in Ho; [|rewrite Hqs; lia]. pose proof (UDPSize_range m). lia.
Qed.

(** C8. No datagram makes the server panic or hang, and what it sends is safe: it answers only
    messages with the QR bit clear and always with the bit set, so two servers can never
    keep answering each other; the response carries the ID of the query; and the response to
    a query with one question, or to a message that does not parse, has at most 1232 bytes. *)
Theorem serveUDP_safe data w :
  R (fst w) -> exists r w', serveUDP data w = (Ok r, w') /\ R (fst w') /\
    match r with
    | Some out => reply_ok data out /\
        ((Z.of_nat (length out) <= MaxEDNSUDPSize)%Z \/
         exists req, ParseMessage data = Ok req /\ length (Questions req) <> 1)
    | None => True
    end.
Proof. apply serveUDP_spec. Qed.

Lemma Pack_header m out :
  snd (Pack m) = Ok out ->
  take 2 out = put16 (ID (header m)) /\ QR out = Z.testbit (mFlags m) 15 /\ 12 <= length out.
Proof.
  rewrite Pack_bytes. cbn [snd]. destruct (_ && _); [|done]. intros [= <-].
  destruct (pack_bytes_header m) as (rest & E & Hl). rewrite E at 1 2. split; [done|]. split; [by apply QR_put16|done].
Qed.

Lemma serveTCP_spec data w :
  R (fst w) -> 12 <= length data -> exists r w', serveTCP data w = (Ok r, w') /\ R (fst w') /\
    match r with
    | Some out => reply_ok data out /\ (Z.of_nat (length out) < 2 ^ 16)%Z
    | None => True
    end.
Proof.
  intros HR Hl. destruct w as [s rot]. cbn in HR. unfold serveTCP.
  pose proof (ParseMessage_returns data) as Hret. destruct (ParseMessage data) as [req|e| |] eqn:Hp; [|clear Hret|done..].
  2: { rewrite is_query_QR by lia. cbn [go_bind].
       destruct (QR data) eqn:Hq; cbn [negb]; [by eexists _, _|].
       destruct (reply_formErr (E := handlerError) data Hl Hq) as (out & -> & Ho & Hlo). cbn [go_bind].
       eexists _, _. split; [done|]. split; [done|]. split; [done|]. lia. }
  change FlagQR with (2 ^ 15)%Z. rewrite mask_bit, negb_involutive by lia.
  destruct (Z.testbit (mFlags req) 15) eqn:Hq; [by eexists _, _|].
  destruct (Handle_answered R zone_of names_of ex req s rot HR) as (m & s' & rot' & -> & HR' & Hf & _).
  destruct (snd (Pack m)) as [out|e| |] eqn:Ho.
  - destruct (Z.ltb_spec 65535 (Z.of_nat (length out))); [by eexists _, _|].
    eexists _, _. split; [done|]. split; [done|]. apply Pack_header in Ho as (H2 & Hqo & Hlo).
    split; [by eapply reply_response|lia].
  - by eexists _, _.
  - rewrite Pack_bytes in Ho. cbn in Ho. by destruct (_ && _).
  - rewrite Pack_bytes in Ho. cbn in Ho. by destruct (_ && _).
Qed.

(** ** Connections *)
Lemma ReadFull_app n b rest out acc :
  length b = n -> ReadFull n (mkTCP (b ++ rest) out acc) = Some (b, mkTCP rest out acc).
Proof.
  intros <-. unfold ReadFull. cbn [input output accepts]. rewrite bool_decide_eq_true_2 by (rewrite length_app; lia).
  by rewrite take_app_length, drop_app_length.
Qed.

Lemma ReadFull_shrinks n c b c' :
  ReadFull n c = Some (b, c') ->
  length b = n /\ length (input c) = n + length (input c') /\ output c' = output c.
Proof.
  unfold ReadFull. case_bool_decide; [|done]. intros [= <- <-]. cbn. rewrite length_take, length_drop. split_and!; [lia..|done].
Qed.

(** A frame the server may write. *)
Definition frame_ok (f : bytes) : Prop :=
  exists data out, f = frame out /\ reply_ok data out /\ (Z.of_nat (length out) < 2 ^ 16)%Z.

Lemma tcpConnLoop_spec fuel c w :
  R (fst w) -> length (input c) < fuel ->
  exists c' w' frames, tcpConnLoop fuel c w = (Ok c', w') /\ R (fst w') /\
    output c' = output c ++ frames /\ Forall frame_ok frames.
Proof.
  revert c w. induction fuel as [|fuel IH]; intros c w HR Hf; [lia|]. cbn [tcpConnLoop].
  assert (Hdone : forall c' w', R (fst w') -> output c' = output c -> exists c1 w1 frames,
    @st_ret (S * Z) handlerError _ (Ok c') w' = (Ok c1, w1) /\ R (fst w1) /\ output c1 = output c ++ frames /\
    Forall frame_ok frames).
  { intros c' w' HR' Ho. exists c', w', []. by rewrite app_nil_r. }
  destruct (ReadFull 2 c) as [[lenBuf c1]|] eqn:E1; [|by apply Hdone].
  apply ReadFull_shrinks in E1 as (Hl1 & Hi1 & Ho1). destruct lenBuf as [|a [|b [|]]]; try done.
  rewrite get16_cons. unfold st_bind at 1. cbn [st_ret]. set (n := (bz b + bz a * 256)%Z).
  destruct (Z.ltb_spec n 12); [by apply Hdone|].
  destruct (ReadFull (Z.to_nat n) c1) as [[data c2]|] eqn:E2; [|by apply Hdone].
  apply ReadFull_shrinks in E2 as (Hl2 & Hi2 & Ho2).
  destruct (serveTCP_spec data w HR ltac:(lia)) as (r & w1 & Hs & HR1 & Hr). unfold st_bind. rewrite Hs.
  destruct r as [out|]; [|apply Hdone; [done|congruence]]. unfold writeTCP.
  destruct (accepts c2 (length (output c2))); [|apply Hdone; [done|congruence]].
  destruct (IH (mkTCP (input c2) (output c2 ++ [frame out]) (accepts c2)) w1 HR1 ltac:(cbn; lia))
    as (c' & w' & frames & Ht & HR' & Ho & Hfr).
  exists c', w', (frame out :: frames). split; [done|]. split; [done|]. split.
  - rewrite Ho. cbn. rewrite <- app_assoc. cbn. congruence.
  - constructor; [|done]. by exists data, out; destruct Hr.
Qed.

(** C24. Whatever arrives on a connection, in whatever pieces and with whatever failing writes,
    its loop comes to an end without a panic, within as many turns as there are bytes; and
    all it writes are framed responses to queries. *)
Theorem tcpConnLoop_total input acc w :
  R (fst w) ->
  exists c' w', tcpConnLoop (length input + 1) (mkTCP input [] acc) w = (Ok c', w') /\ R (fst w') /\
    Forall frame_ok (output c').
Proof.
  intros HR. destruct (tcpConnLoop_spec (length input + 1) (mkTCP input [] acc) w HR ltac:(cbn; lia))
    as (c' & w' & frames & ? & ? & Ho & ?). exists c', w'. rewrite Ho. done.
Qed.

(** The answers to a sequence of messages, up to the first that closes the connection. *)
Fixpoint serve_all (msgs : list bytes) : st (S * Z) handlerError (list bytes) :=
  match msgs with
  | [] => st_ret (Ok [])
  | data :: msgs' =>
    do! r := serveTCP data in
    match r with
    | None => st_ret (Ok [])
    | Some out => do! outs := serve_all msgs' in st_ret (Ok (out :: outs))
    end
  end.

Definition sized (data : bytes) : Prop := 12 <= length data /\ (Z.of_nat (length data) < 2 ^ 16)%Z.

Lemma get16_frame {E} (data : bytes) :
  sized data -> @get16 E (put16 (u16 (Z.of_nat (length data)))) = Ok (Z.of_nat (length data)).
Proof.
  intros [_ Hs]. rewrite <- (app_nil_r (put16 _)), get16_put16. unfold u16. by rewrite Z.mod_mod, Z.mod_small by lia.
Qed.

Lemma tcpConnLoop_serve_all fuel msgs pre acc w :
  R (fst w) -> Forall sized msgs -> (forall n, acc n = true) -> length (mjoin (frame <$> msgs)) < fuel ->
  exists outs rest w', serve_all msgs w = (Ok outs, w') /\
    tcpConnLoop fuel (mkTCP (mjoin (frame <$> msgs)) pre acc) w = (Ok (mkTCP rest (pre ++ (frame <$> outs)) acc), w') /\
    (length outs = length msgs -> rest = []) /\ Forall (fun out => (Z.of_nat (length out) < 2 ^ 16)%Z) outs.
Proof.
  intros HR Hs Hacc. revert msgs pre w HR Hs. induction fuel as [|fuel IH]; intros msgs pre w HR Hs Hf; [lia|].
  destruct Hs as [|data msgs Hd Hs].
  { exists [], [], w. cbn. by rewrite app_nil_r. }
  rewrite fmap_cons, mjoin_cons in *. unfold frame at 1 in Hf. unfold frame at 1. rewrite <- app_assoc in *.
  cbn [tcpConnLoop serve_all]. rewrite ReadFull_app by done. unfold st_bind. rewrite get16_frame by done. cbn [st_ret].
  pose proof Hd as [Hd12 _]. rewrite (proj2 (Z.ltb_ge (Z.of_nat (length data)) 12)) by lia. rewrite ReadFull_app by lia.
  destruct (serveTCP_spec data w HR (proj1 Hd)) as (r & w1 & -> & HR1 & Hr).
  destruct r as [out|]; [|exists [], (mjoin (frame <$> msgs)), w1; cbn; by rewrite app_nil_r].
  unfold writeTCP. cbn [input output accepts]. rewrite Hacc.
  rewrite !length_app in Hf. cbn [length put16] in Hf.
  destruct (IH msgs (pre ++ [frame out]) w1 HR1 Hs ltac:(lia)) as (outs & rest & w' & Ho & Ht & Hrest & Hsz).
  exists (out :: outs), rest, w'. rewrite Ho. split; [done|]. rewrite Ht, fmap_cons, <- app_assoc. split; [done|].
  split; [cbn; intros [= ?]; by apply Hrest|]. constructor; [apply Hr|done].
Qed.

(** A client that reads frames off a stream. *)
Fixpoint read_frames (fuel : nat) (c : TCPConn) : list bytes :=
  match fuel with
  | 0 => []
  | Datatypes.S fuel' =>
    match ReadFull 2 c with
    | None => []
    | Some (lenBuf, c) =>
      match @get16 handlerError lenBuf with
      | Ok n =>
        match ReadFull (Z.to_nat n) c with
        | None => []
        | Some (msg, c) => msg :: read_frames fuel' c
        end
      | _ => []
      end
    end
  end.

Lemma read_frames_frame outs out acc :
  Forall (fun o => (Z.of_nat (length o) < 2 ^ 16)%Z) outs ->
  read_frames (length outs + 1) (mkTCP (mjoin (frame <$> outs)) out acc) = outs.
Proof.
  induction 1 as [|o outs Ho _ IH]; [done|]. rewrite fmap_cons, mjoin_cons. unfold frame at 1. rewrite <- app_assoc.
  cbn [length Nat.add read_frames]. rewrite ReadFull_app by done.
  rewrite <- (app_nil_r (put16 _)), get16_put16. unfold u16. rewrite Z.mod_mod, Z.mod_small by lia.
  rewrite ReadFull_app by lia. by rewrite IH.
Qed.

(** C23. Queries pipelined on a connection are answered in order, one frame each: the bytes the
    server writes are the frames of the answers that the messages get one after the other
    (up to the first that ends the connection), and a client that reads them frame by frame
    gets exactly these answers. *)
Theorem tcpConnLoop_in_order msgs acc w :
  R (fst w) -> Forall sized msgs -> (forall n, acc n = true) ->
  let stream := mjoin (frame <$> msgs) in
  exists outs rest w', serve_all msgs w = (Ok outs, w') /\
    tcpConnLoop (length stream + 1) (mkTCP stream [] acc) w = (Ok (mkTCP rest (frame <$> outs) acc), w') /\
    (length outs = length msgs -> rest = []) /\
    read_frames (length outs + 1) (mkTCP (mjoin (frame <$> outs)) [] acc) = outs.
Proof.
  intros HR Hs Hacc stream.
  destruct (tcpConnLoop_serve_all (length stream + 1) msgs [] acc w HR Hs Hacc ltac:(unfold stream; lia))
    as (outs & rest & w' & Ho & Ht & Hrest & Hsz).
  exists outs, rest, w'. split; [done|]. split; [done|]. split; [done|]. by apply read_frames_frame.
Qed.
End Serving.

(** ** Concrete datagrams *)
Section Witness.
#[local] Existing Instance unicode_id.
#[local] Existing Instance pg_ref.
#[local] Existing Instance pg_ref_laws.
#[local] Existing Instance ref_resolver.
#[local] Existing Instance ref_search.

Lemma Server_buffers_exclusive_witness :
  pool_ok (mkPool 1 [] None [mkJob 0 (lit "query")] [] 0 [] 1).
Proof.
  apply (Server_buffers_exclusive 0). change (NewServer 0) with (mkPool 1 [] None [] [] 0 [] 0).
  eapply rtc_l; [eapply step_get; apply Get_new|].
  eapply rtc_l; [apply (step_enqueue _ _ _ _ _ _ _ _ (lit "query")); cbn; lia|]. apply rtc_refl.
Defined.

Definition query_bytes (name : gostring) (qtype : Z) : bytes :=
  match snd (Pack (query name qtype)) with Ok b => b | _ => [] end.

Lemma serveUDP_safe_witness :
  exists r w', serveUDP (query_bytes (lit "www.example.com") TypeA) (ref_conn, 0%Z) = (Ok r, w') /\
    serves no_fault ref_db (fst w') /\
    match r with
    | Some out => reply_ok (query_bytes (lit "www.example.com") TypeA) out /\
        ((Z.of_nat (length out) <= MaxEDNSUDPSize)%Z \/
         exists req, ParseMessage (query_bytes (lit "www.example.com") TypeA) = Ok req /\ length (Questions req) <> 1)
    | None => True
    end.
Proof.
  exact (serveUDP_safe (serves no_fault ref_db) (store_zone_of ref_db) (store_names_of ref_store ref_db)
    (store_exists ref_db) (query_bytes (lit "www.example.com") TypeA) (ref_conn, 0%Z) ref_serves).
Defined.

Lemma tcpConnLoop_total_witness :
  let input := frame (query_bytes (lit "www.example.com") TypeA) ++ [zb 0] in
  exists c' w', tcpConnLoop (length input + 1) (mkTCP input [] (fun n => false)) (ref_conn, 0%Z) = (Ok c', w') /\
    serves no_fault ref_db (fst w') /\ Forall frame_ok (output c').
Proof.
  intros input. exact (tcpConnLoop_total (serves no_fault ref_db) (store_zone_of ref_db)
    (store_names_of ref_store ref_db) (store_exists ref_db) input (fun n => false) (ref_conn, 0%Z) ref_serves).
Defined.

Definition pipelined : list bytes :=
  [query_bytes (lit "www.example.com") TypeA; query_bytes (lit "nope.example.com") TypeA].

Lemma tcpConnLoop_in_order_witness :
  let stream := mjoin (frame <$> pipelined) in
  exists outs rest w', serve_all pipelined (ref_conn, 0%Z) = (Ok outs, w') /\
    tcpConnLoop (length stream + 1) (mkTCP stream [] (fun _ => true)) (ref_conn, 0%Z) =
      (Ok (mkTCP rest (frame <$> outs) (fun _ => true)), w') /\
    (length outs = length pipelined -> rest = []) /\
    read_frames (length outs + 1) (mkTCP (mjoin (frame <$> outs)) [] (fun _ => true)) = outs.
Proof.
  refine (tcpConnLoop_in_order (serves no_fault ref_db) (store_zone_of ref_db) (store_names_of ref_store ref_db)
    (store_exists ref_db) pipelined (fun _ => true) (ref_conn, 0%Z) ref_serves _ (fun _ => eq_refl)).
  unfold sized. refine (bool_decide_unpack _ _). vm_compute. exact I.
Defined.
End Witness.

(** ** Where a response exceeds the limit *)

(** A name of 255 bytes, and pointers to it. *)
Definition long_name : bytes :=
  mjoin (replicate 3 (zb 63 :: replicate 63 "a"%char)) ++ (zb 61 :: replicate 61 "a"%char) ++ [zb 0].

Definition many_questions (n : nat) : bytes :=
  put16 1 ++ put16 0 ++ put16 (Z.of_nat n) ++ replicate 6 (zb 0) ++
  long_name ++ put16 TypeA ++ put16 ClassIN ++
  mjoin (replicate (n - 1) ([zb 0xC0; zb 12] ++ put16 TypeA ++ put16 ClassIN)).

(** FORMERR and NOTIMP responses repeat all questions of the request, with their names written
    out, and [PackUDP] sends the questions whatever their size: a datagram of 505 bytes is
    answered with one of 10372, more than twenty times its size and eight times the limit. *)
Theorem serveUDP_amplifies `{GoUnicode} {S} `{Resolver S} (w : S * Z) :
  let data := many_questions 40 in
  length data = 505 /\
  exists out, serveUDP data w = (Ok (Some out), w) /\ Z.of_nat (length out) = 10372%Z.
Proof.
  split; [vm_compute; reflexivity|]. destruct w as [s rot].
  assert (Hrun : match ParseMessage (many_questions 40) with
    | Ok req =>
      bool_decide (Opcode req = 0%Z) && bool_decide (length (Questions req) = 40) && bool_decide (mFlags req = 0%Z) &&
      match PackUDP (SetRcode (NewResponse req) RcodeFormatError) with
      | Ok out => bool_decide (Z.of_nat (length out) = 10372%Z)
      | _ => false
      end
    | _ => false
    end = true) by (vm_compute; reflexivity).
  unfold serveUDP. destruct (ParseMessage (many_questions 40)) as [req| | |]; [|done..].
  apply andb_true_iff in Hrun as [[[Ho%bool_decide_eq_true Hl%bool_decide_eq_true]%andb_true_iff
    Hf%bool_decide_eq_true]%andb_true_iff Hout].
  destruct (PackUDP (SetRcode _ _)) as [out| | |] eqn:Ep; [|done..]. apply bool_decide_eq_true in Hout.
  exists out. split; [|done]. rewrite Hf. cbn [Z.land negb Z.eqb]. unfold Handle. rewrite Ho. cbn [negb Z.eqb].
  destruct (Questions req) as [|q [|q' qs]]; [done|done|]. by rewrite Ep.
Qed.
