(* ===== verification/Lifecycle.v ===== *)
(** * Starting, serving and shutting down (src/internal/dns/server.go, Listen and Serve)

    The goroutines of [Serve] as a state machine: the main goroutine, the UDP reader, the TCP
    acceptor, the workers and the connections, with the context, the two sockets and the
    channel of jobs between them.  What a goroutine does with a datagram or a connection is
    the subject of Server; here only who waits for whom matters. *)

From Stdlib Require Import ZArith Lia Ascii String.
From stdpp Require Import base list strings relations.
From S2P Require Import Prelude GoStrings Server.

(** ** Listen *)
Inductive listenError := ResolveFailed | ListenUDPFailed | ListenTCPFailed.

(** The sockets of a server that are open. *)
Record sockets := mkSockets { udpOpen : bool; tcpOpen : bool }.

(** [resolves], [udp] and [tcp]: whether [ResolveUDPAddr], [ListenUDP] and [net.Listen] succeed. *)
Definition Listen (resolves udp tcp : bool) : st sockets listenError unit := fun k =>
  if negb resolves then (Err ResolveFailed, k)
  else if negb udp then (Err ListenUDPFailed, k)
  else
    let k := mkSockets true (tcpOpen k) in
    if negb tcp then (Err ListenTCPFailed, mkSockets false (tcpOpen k))
    else (Ok tt, mkSockets (udpOpen k) true).

(** The first statement of [Serve]: listen unless that has been done. *)
Definition Serve_listen (listened resolves udp tcp : bool) : st sockets listenError unit :=
  if listened then st_ret (Ok tt) else Listen resolves udp tcp.

(** ** The goroutines *)

(** Where the main goroutine of [Serve] is, statement by statement after [<-ctx.Done()]. *)
Inductive main_pc :=
| MServing | MCloseUDP | MCloseTCP | MWaitReaders | MCloseJobs | MWaitWorkers | MWaitConns | MReturned.

Inductive reader_pc :=
| RReading
| RSending (j : nat)   (* a datagram was read and is offered to the channel *)
| RDone.

Inductive worker_pc := WIdle | WServing (j : nat) | WDone.

#[export] Instance worker_pc_eq_dec : EqDecision worker_pc.
Proof. solve_decision. Defined.

(** A connection goroutine, and whether [context.AfterFunc] has closed its connection. *)
Inductive conn_pc := COpen | CClosed.

(** Jobs are numbered; [enqueued], [started] and [finished] record them in order. *)
Record server := mkServer {
  ctxDone : bool;
  sock : sockets;
  main : main_pc;
  reader : reader_pc;
  acceptor : bool;        (* still running *)
  queue : list nat;
  queueClosed : bool;
  pcs : list worker_pc;
  conns : list conn_pc;
  panicked : bool;
  enqueued : list nat;
  started : list nat;
  finished : list nat;
}.

(** [New], [Listen] and the go statements of [Serve]. *)
Definition serve (w : nat) : server :=
  let w := if bool_decide (w < 1) then 1 else w in
  mkServer false (mkSockets true true) MServing RReading true [] false (replicate w WIdle) [] false [] [] [].

Definition capacity (s : server) : nat := length (pcs s) * 16.

Definition set_main (s : server) pc := mkServer (ctxDone s) (sock s) pc (reader s) (acceptor s) (queue s) (queueClosed s)
  (pcs s) (conns s) (panicked s) (enqueued s) (started s) (finished s).
Definition set_sock (s : server) k := mkServer (ctxDone s) k (main s) (reader s) (acceptor s) (queue s) (queueClosed s)
  (pcs s) (conns s) (panicked s) (enqueued s) (started s) (finished s).
Definition set_reader (s : server) r := mkServer (ctxDone s) (sock s) (main s) r (acceptor s) (queue s) (queueClosed s)
  (pcs s) (conns s) (panicked s) (enqueued s) (started s) (finished s).
Definition set_conns (s : server) cs := mkServer (ctxDone s) (sock s) (main s) (reader s) (acceptor s) (queue s)
  (queueClosed s) (pcs s) cs (panicked s) (enqueued s) (started s) (finished s).
Definition set_worker (s : server) i p := mkServer (ctxDone s) (sock s) (main s) (reader s) (acceptor s) (queue s)
  (queueClosed s) (<[i := p]> (pcs s)) (conns s) (panicked s) (enqueued s) (started s) (finished s).

(** What the goroutines do by themselves. *)
Inductive inner : server -> server -> Prop :=
(* the main goroutine after cancellation *)
| m_woken s : main s = MServing -> ctxDone s = true -> inner s (set_main s MCloseUDP)
| m_close_udp s : main s = MCloseUDP -> inner s (set_main (set_sock s (mkSockets false (tcpOpen (sock s)))) MCloseTCP)
| m_close_tcp s : main s = MCloseTCP -> inner s (set_main (set_sock s (mkSockets (udpOpen (sock s)) false)) MWaitReaders)
| m_readers s : main s = MWaitReaders -> reader s = RDone -> acceptor s = false -> inner s (set_main s MCloseJobs)
| m_close_jobs s :
    main s = MCloseJobs ->
    inner s (mkServer (ctxDone s) (sock s) MWaitWorkers (reader s) (acceptor s) (queue s) true (pcs s) (conns s)
      (panicked s) (enqueued s) (started s) (finished s))
| m_workers s : main s = MWaitWorkers -> Forall (fun p => p = WDone) (pcs s) -> inner s (set_main s MWaitConns)
| m_conns s : main s = MWaitConns -> conns s = [] -> inner s (set_main s MReturned)
(* udpReadLoop: an error of the closed socket ends it; the select sends or drops *)
| r_closed s : reader s = RReading -> udpOpen (sock s) = false -> inner s (set_reader s RDone)
| r_send s j :
    reader s = RSending j -> queueClosed s = false -> length (queue s) < capacity s ->
    inner s (mkServer (ctxDone s) (sock s) (main s) RReading (acceptor s) (queue s ++ [j]) (queueClosed s) (pcs s) (conns s)
      (panicked s) (enqueued s ++ [j]) (started s) (finished s))
| r_drop s j :
    reader s = RSending j -> queueClosed s = false -> capacity s <= length (queue s) -> inner s (set_reader s RReading)
| r_panic s j :
    (* a send on a closed channel panics *)
    reader s = RSending j -> queueClosed s = true ->
    inner s (mkServer (ctxDone s) (sock s) (main s) (reader s) (acceptor s) (queue s) (queueClosed s) (pcs s) (conns s)
      true (enqueued s) (started s) (finished s))
(* tcpAcceptLoop *)
| a_closed s :
    acceptor s = true -> tcpOpen (sock s) = false ->
    inner s (mkServer (ctxDone s) (sock s) (main s) (reader s) false (queue s) (queueClosed s) (pcs s) (conns s)
      (panicked s) (enqueued s) (started s) (finished s))
(* a worker ranges over the channel *)
| w_take s i j q :
    pcs s !! i = Some WIdle -> queue s = j :: q ->
    inner s (mkServer (ctxDone s) (sock s) (main s) (reader s) (acceptor s) q (queueClosed s) (<[i := WServing j]> (pcs s))
      (conns s) (panicked s) (enqueued s) (started s ++ [j]) (finished s))
| w_served s i j :
    pcs s !! i = Some (WServing j) ->
    inner s (mkServer (ctxDone s) (sock s) (main s) (reader s) (acceptor s) (queue s) (queueClosed s) (<[i := WIdle]> (pcs s))
      (conns s) (panicked s) (enqueued s) (started s) (finished s ++ [j]))
| w_closed s i :
    pcs s !! i = Some WIdle -> queue s = [] -> queueClosed s = true -> inner s (set_worker s i WDone)
(* a connection: AfterFunc closes it, and then its loop ends *)
| c_cancel s cs1 cs2 :
    conns s = cs1 ++ COpen :: cs2 -> ctxDone s = true -> inner s (set_conns s (cs1 ++ CClosed :: cs2))
| c_ended s cs1 cs2 : conns s = cs1 ++ CClosed :: cs2 -> inner s (set_conns s (cs1 ++ cs2)).

(** Everything that can happen: also what comes from outside. *)
Inductive serve_step : server -> server -> Prop :=
| s_inner s s' : inner s s' -> serve_step s s'
| s_cancel s :
    serve_step s (mkServer true (sock s) (main s) (reader s) (acceptor s) (queue s) (queueClosed s) (pcs s) (conns s)
      (panicked s) (enqueued s) (started s) (finished s))
| s_datagram s j :
    reader s = RReading -> udpOpen (sock s) = true -> serve_step s (set_reader s (RSending j))
| s_read_error s :
    (* an error with the context cancelled ends the loop, another one does not *)
    reader s = RReading -> serve_step s (if ctxDone s then set_reader s RDone else s)
| s_connection s :
    acceptor s = true -> tcpOpen (sock s) = true ->
    serve_step s (if bool_decide (length (conns s) < maxTCPConns) then set_conns s (conns s ++ [COpen]) else s)
| s_accept_error s :
    acceptor s = true ->
    serve_step s (if ctxDone s
      then mkServer (ctxDone s) (sock s) (main s) (reader s) false (queue s) (queueClosed s) (pcs s) (conns s)
             (panicked s) (enqueued s) (started s) (finished s)
      else s)
| s_conn_ends s cs1 c cs2 :
    (* the peer closes, is idle for too long, or sends what ends the loop *)
    conns s = cs1 ++ c :: cs2 -> serve_step s (set_conns s (cs1 ++ cs2)).
