(* ===== verification/LifecycleCorrect.v ===== *)
(** * Correctness of start and shutdown

    A failed start leaves no socket open.  The server never sends on a closed channel; when
    [Serve] returns, every goroutine it started has ended and every queued job was served;
    and after cancellation it does return. *)

From Stdlib Require Import ZArith Lia Ascii String.
From stdpp Require Import base list strings relations.
From S2P Require Import Prelude GoStrings Server Lifecycle.

(** A failed [Listen] leaves the sockets as they were, a successful one opens both. *)
Lemma Listen_spec resolves udp tcp k :
  udpOpen k = false ->
  Listen resolves udp tcp k = (Ok tt, mkSockets true true) \/ exists e, Listen resolves udp tcp k = (Err e, k).
Proof.
  destruct k as [u t]. cbn. intros ->. unfold Listen.
  destruct resolves; cbn; [|right; by eexists]. destruct udp; cbn; [|right; by eexists].
  destruct tcp; cbn; [by left|right; by eexists].
Qed.

(** ** The invariant *)
Definition phase (pc : main_pc) : nat :=
  match pc with
  | MServing => 0 | MCloseUDP => 1 | MCloseTCP => 2 | MWaitReaders => 3
  | MCloseJobs => 4 | MWaitWorkers => 5 | MWaitConns => 6 | MReturned => 7
  end.

Definition busy (p : worker_pc) : option nat := match p with WServing j => Some j | _ => None end.

Record serve_ok (s : server) : Prop := {
  o_cancel : 1 <= phase (main s) -> ctxDone s = true;
  o_udp : 2 <= phase (main s) -> udpOpen (sock s) = false;
  o_tcp : 3 <= phase (main s) -> tcpOpen (sock s) = false;
  o_readers : 4 <= phase (main s) -> reader s = RDone /\ acceptor s = false;
  o_closed : queueClosed s = true <-> 5 <= phase (main s);
  o_exited : WDone ∈ pcs s -> queueClosed s = true /\ queue s = [];
  o_workers : 6 <= phase (main s) -> Forall (fun p => p = WDone) (pcs s);
  o_conns : 7 <= phase (main s) -> conns s = [];
  o_some : pcs s <> [];
  o_panic : panicked s = false;
  o_queue : length (queue s) <= capacity s;
  o_slots : length (conns s) <= maxTCPConns;
  o_fifo : enqueued s = started s ++ queue s;
  o_busy : started s ≡ₚ finished s ++ omap busy (pcs s);
}.

Lemma serve_start_ok w : serve_ok (serve w).
Proof.
  unfold serve. set (n := if bool_decide (w < 1) then 1 else w).
  assert (Hn : 1 <= n) by (unfold n; case_bool_decide; lia).
  constructor; cbn; try done; try apply Nat.le_0_l; try (intros; lia).
  - intros Hin%elem_of_replicate. by destruct Hin.
  - intros Hl%(f_equal length). rewrite length_replicate in Hl. cbn in Hl. lia.
  - clear. by induction n.
Qed.

(** A worker changes what it is doing. *)
Lemma omap_update {A B} (f : A -> option B) (l : list A) i x x' :
  l !! i = Some x ->
  (match f x with Some y => [y] | None => [] end) ++ omap f (<[i := x']> l) ≡ₚ
  (match f x' with Some y => [y] | None => [] end) ++ omap f l.
Proof.
  revert i. induction l as [|y l IH]; intros [|i] Hi; simplify_eq/=.
  - destruct (f x), (f x'); cbn; solve_Permutation.
  - specialize (IH i Hi). destruct (f y) as [b|]; [|done]. rewrite <- !Permutation_middle. by rewrite IH.
Qed.

Lemma elem_of_worker (l : list worker_pc) i p p' :
  p ∈ <[i := p']> l -> p = p' \/ p ∈ l.
Proof.
  intros (k & Hk)%list_elem_of_lookup. destruct (decide (k = i /\ i < length l)) as [[-> Hl]|Hn].
  - rewrite list_lookup_insert_eq in Hk by done. left. congruence.
  - right. eapply (list_elem_of_lookup_2 _ k). destruct (decide (k = i)) as [-> |Hki].
    + by rewrite list_insert_ge in Hk by lia.
    + by rewrite list_lookup_insert_ne in Hk by done.
Qed.

Lemma insert_not_nil {A} (l : list A) i x : l <> [] -> <[i := x]> l <> [].
Proof. destruct l; [done|]. by destruct i. Qed.

Lemma Forall_lookup_done (l : list worker_pc) i p :
  Forall (fun p => p = WDone) l -> l !! i = Some p -> p = WDone.
Proof. intros Hl Hi. rewrite Forall_forall in Hl. apply Hl. by eapply list_elem_of_lookup_2. Qed.

Ltac serve_solve Ho :=
  destruct Ho as [Oca Ou Ot Ord Ocl Oex Owk Ocs Oso Opa Oqu Osl Off Obu];
  constructor; unfold capacity in *; cbn in *; rewrite ?length_insert, ?length_app in *; cbn in *; try done; try lia.

Lemma worker_step_ok s i j :
  serve_ok s ->
  (forall q, pcs s !! i = Some WIdle -> queue s = j :: q ->
    serve_ok (mkServer (ctxDone s) (sock s) (main s) (reader s) (acceptor s) q (queueClosed s) (<[i := WServing j]> (pcs s))
      (conns s) (panicked s) (enqueued s) (started s ++ [j]) (finished s))) /\
  (pcs s !! i = Some (WServing j) ->
    serve_ok (mkServer (ctxDone s) (sock s) (main s) (reader s) (acceptor s) (queue s) (queueClosed s) (<[i := WIdle]> (pcs s))
      (conns s) (panicked s) (enqueued s) (started s) (finished s ++ [j]))) /\
  (pcs s !! i = Some WIdle -> queue s = [] -> queueClosed s = true -> serve_ok (set_worker s i WDone)).
Proof.
  intros Ho. split; [|split].
  - intros q Hi Hq. serve_solve Ho.
    + intros [? |Hin]%elem_of_worker; [done|]. apply Oex in Hin as [_ Hin]. congruence.
    + intros Hp. by pose proof (Forall_lookup_done _ _ _ (Owk Hp) Hi).
    + by apply insert_not_nil.
    + rewrite Hq in Oqu. cbn in Oqu. lia.
    + by rewrite Off, Hq, <- app_assoc.
    + pose proof (omap_update busy (pcs s) i WIdle (WServing j) Hi) as Hom. cbn in Hom. rewrite Hom, Obu. solve_Permutation.
  - intros Hi. serve_solve Ho.
    + intros [? |Hin]%elem_of_worker; [done|by apply Oex].
    + intros Hp. by pose proof (Forall_lookup_done _ _ _ (Owk Hp) Hi).
    + by apply insert_not_nil.
    + pose proof (omap_update busy (pcs s) i (WServing j) WIdle Hi) as Hom. cbn in Hom. rewrite Obu, <- Hom. solve_Permutation.
  - intros Hi Hq Hc. serve_solve Ho.
    + intros Hp. by pose proof (Forall_lookup_done _ _ _ (Owk Hp) Hi).
    + by apply insert_not_nil.
    + pose proof (omap_update busy (pcs s) i WIdle WDone Hi) as Hom. cbn in Hom. by rewrite Hom.
Qed.

Lemma inner_ok s s' : inner s s' -> serve_ok s -> serve_ok s'.
Proof.
  destruct 1 as [s Hm Hc|s Hm|s Hm|s Hm Hr Ha|s Hm|s Hm Hw|s Hm Hc|s Hr Hu|s j Hr Hc Hl|s j Hr Hc Hl|s j Hr Hc|s Ha Ht
    |s i j q Hi Hq|s i j Hi|s i Hi Hq Hc|s cs1 cs2 Hcs Hd|s cs1 cs2 Hcs]; intros Ho.
  13, 14, 15: by apply worker_step_ok.
  all: serve_solve Ho; rewrite ?Hm in *; cbn in *; try (rewrite Ocl; lia);
    try (intros; first [apply Oca; lia | apply Ou; lia | apply Ot; lia | apply Ord; lia | apply Owk; lia]).
  - intros Hin. split; [done|]. by apply Oex.
  - intros Hp. by destruct (Ord Hp).
  - intros Hp. destruct (Ord Hp). congruence.
  - intros Hin. destruct (Oex Hin). congruence.
  - by rewrite Off, app_assoc.
  - intros Hp. destruct (Ord Hp). congruence.
  - apply Ocl in Hc. destruct (Ord ltac:(lia)). congruence.
  - intros Hp. by destruct (Ord Hp).
  - intros Hp. rewrite (Ocs Hp) in Hcs. by destruct cs1.
  - rewrite Hcs, length_app in Osl. cbn in Osl. lia.
  - intros Hp. rewrite (Ocs Hp) in Hcs. by destruct cs1.
  - rewrite Hcs, length_app in Osl. cbn in Osl. lia.
Qed.

Lemma serve_step_ok s s' : serve_step s s' -> serve_ok s -> serve_ok s'.
Proof.
  destruct 1 as [s s' Hs|s|s j Hr Hu|s Hr|s Ha Ht|s Ha|s cs1 c cs2 Hcs]; intros Ho.
  - by eapply inner_ok.
  - serve_solve Ho.
  - serve_solve Ho. intros Hp. destruct (Ord Hp). congruence.
  - destruct (ctxDone s); [|done]. serve_solve Ho. intros Hp. by destruct (Ord Hp).
  - case_bool_decide as Hl; [|done]. serve_solve Ho. intros Hp. destruct (Ord ltac:(lia)). congruence.
  - destruct (ctxDone s) eqn:Hd; [|done]. serve_solve Ho. intros Hp. by destruct (Ord Hp).
  - serve_solve Ho.
    + intros Hp. rewrite (Ocs Hp) in Hcs. by destruct cs1.
    + rewrite Hcs, length_app in Osl. cbn in Osl. lia.
Qed.

Lemma serve_reach_ok w s : rtc serve_step (serve w) s -> serve_ok s.
Proof.
  intros Hr. pose proof (serve_start_ok w) as Ho. revert Ho. generalize (serve w) Hr. clear.
  induction 1 as [|s1 s2 s3 Hs _ IH]; [done|]. intros Ho. by eapply IH, serve_step_ok.
Qed.

(** C14. Whatever arrives and whenever the context is cancelled, no goroutine sends on the closed
    channel, the queue and the connections keep to their bounds, and jobs are taken in the
    order in which they were queued.  When [Serve] returns, both sockets are closed, the
    reader, the acceptor, the workers and the connections have all ended, and every job that
    was queued has been served, once. *)
Theorem Serve_shutdown w s :
  rtc serve_step (serve w) s ->
  panicked s = false /\ length (queue s) <= capacity s /\ length (conns s) <= maxTCPConns /\
  enqueued s = started s ++ queue s /\
  (main s = MReturned ->
    sock s = mkSockets false false /\ reader s = RDone /\ acceptor s = false /\ queue s = [] /\
    Forall (fun p => p = WDone) (pcs s) /\ conns s = [] /\ finished s ≡ₚ enqueued s).
Proof.
  intros Hr. destruct (serve_reach_ok w s Hr) as [Oca Ou Ot Ord Ocl Oex Owk Ocs Oso Opa Oqu Osl Off Obu].
  do 4 (split; [done|]). intros Hm. rewrite Hm in *. cbn in *.
  specialize (Ou ltac:(lia)). specialize (Ot ltac:(lia)). destruct (Ord ltac:(lia)) as [Hrd Hac].
  specialize (Owk ltac:(lia)). specialize (Ocs ltac:(lia)).
  assert (Hq : queue s = []).
  { apply Oex. destruct (pcs s) as [|p l]; [done|]. apply Forall_cons in Owk as [-> _]. left. }
  split; [destruct (sock s); cbn in *; by subst|]. do 5 (split; [done|]).
  rewrite Off, Hq, app_nil_r, Obu.
  assert (omap busy (pcs s) = []) as ->; [|by rewrite app_nil_r].
  clear -Owk. induction Owk as [|p l -> _ IH]; [done|]. exact IH.
Qed.

(** ** Shutdown ends *)

(** The work of the goroutines until all have ended. *)
Definition reader_work (r : reader_pc) : nat := match r with RReading => 1 | RSending _ => 6 | RDone => 0 end.
Definition worker_work (p : worker_pc) : nat := match p with WIdle => 1 | WServing _ => 3 | WDone => 0 end.
Definition conn_work (c : conn_pc) : nat := match c with COpen => 2 | CClosed => 1 end.

Definition work (s : server) : nat :=
  (7 - phase (main s)) + reader_work (reader s) + (if acceptor s then 1 else 0) + 3 * length (queue s) +
  sum_list_with worker_work (pcs s) + sum_list_with conn_work (conns s).

Lemma sum_worker (l : list worker_pc) i p p' :
  l !! i = Some p -> sum_list_with worker_work (<[i := p']> l) + worker_work p = sum_list_with worker_work l + worker_work p'.
Proof.
  revert i. induction l as [|y l IH]; intros [|i] Hi; simplify_eq/=; [lia|]. specialize (IH i Hi). lia.
Qed.

Lemma inner_work s s' : serve_ok s -> inner s s' -> work s' < work s.
Proof.
  intros Ho. destruct 1 as [s Hm Hc|s Hm|s Hm|s Hm Hr Ha|s Hm|s Hm Hw|s Hm Hc|s Hr Hu|s j Hr Hc Hl|s j Hr Hc Hl|s j Hr Hc|s Ha Ht
    |s i j q Hi Hq|s i j Hi|s i Hi Hq Hc|s cs1 cs2 Hcs Hd|s cs1 cs2 Hcs]; unfold work; cbn;
    rewrite ?length_app, ?Hm, ?Hr; cbn; try lia.
  - apply (o_closed s Ho) in Hc. destruct (o_readers s Ho ltac:(lia)). congruence.
  - rewrite Ha. lia.
  - pose proof (sum_worker _ i _ (WServing j) Hi) as Hs. cbn in Hs. rewrite Hq. cbn. lia.
  - pose proof (sum_worker _ i _ WIdle Hi) as Hs. cbn in Hs. lia.
  - pose proof (sum_worker _ i _ WDone Hi) as Hs. cbn in Hs. lia.
  - rewrite Hcs, !sum_list_with_app. cbn. lia.
  - rewrite Hcs, !sum_list_with_app. cbn. lia.
Qed.

(** A worker that has not ended can go on once the channel is closed. *)
Lemma worker_progress s :
  queueClosed s = true -> (exists s', inner s s') \/ Forall (fun p => p = WDone) (pcs s).
Proof.
  intros Hc. assert (Hi : forall i p, pcs s !! i = Some p -> p = WDone \/ exists s', inner s s').
  { intros i [|j|] Hi; [right..|by left].
    - destruct (queue s) as [|j q] eqn:Hq; eexists; [by eapply w_closed|by eapply w_take].
    - eexists. by eapply w_served. }
  destruct (decide (Forall (fun p => p = WDone) (pcs s))) as [?|Hn]; [by right|left].
  apply not_Forall_Exists in Hn; [|apply _]. apply Exists_exists in Hn as (p & (i & Hp)%list_elem_of_lookup & Hne).
  by destruct (Hi i p Hp).
Qed.

(** After cancellation some goroutine can always go on until [Serve] has returned. *)
Lemma serve_progress s : serve_ok s -> ctxDone s = true -> main s = MReturned \/ exists s', inner s s'.
Proof.
  intros Ho Hd. destruct (main s) eqn:Hm; [right..|by left].
  - eexists. by eapply m_woken.
  - eexists. by eapply m_close_udp.
  - eexists. by eapply m_close_tcp.
  - pose proof (o_udp s Ho) as Hu. pose proof (o_tcp s Ho) as Ht. pose proof (o_closed s Ho) as Hc. rewrite Hm in Hu, Ht, Hc. cbn in *.
    destruct (reader s) as [|j|] eqn:Hr.
    + eexists. eapply r_closed; [done|]. apply Hu. lia.
    + destruct (queueClosed s) eqn:Hq; [lia|].
      destruct (decide (length (queue s) < capacity s)); eexists; [by eapply r_send|eapply r_drop; [done..|lia]].
    + destruct (acceptor s) eqn:Ha; eexists; [eapply a_closed; [done|apply Ht; lia]|by eapply m_readers].
  - eexists. by eapply m_close_jobs.
  - assert (Hc : queueClosed s = true) by (apply (o_closed s Ho); rewrite Hm; cbn; lia).
    destruct (worker_progress s Hc) as [?|Hw]; [done|]. eexists. by eapply m_workers.
  - destruct (conns s) as [|[|] cs] eqn:Hcs; eexists; [by eapply m_conns|by eapply (c_cancel s [])|by eapply (c_ended s [])].
Qed.

Lemma inner_ctx s s' : inner s s' -> ctxDone s' = ctxDone s.
Proof. by destruct 1. Qed.

(** Shutdown ends: once the context is cancelled, the goroutines together take at most
    [work s] more steps of their own in whatever order they run, and as long as [Serve] has
    not returned one of them can go on.  (Handling a datagram ends by the totality of
    [serveUDP].) *)
Theorem Serve_returns w s :
  rtc serve_step (serve w) s -> ctxDone s = true ->
  (forall n s', nsteps inner n s s' -> n <= work s) /\
  (forall s', rtc inner s s' -> main s' = MReturned \/ exists s'', inner s' s'').
Proof.
  intros Ho%serve_reach_ok Hd. split.
  - intros n s' Hn. assert (Hle : n + work s' <= work s); [|lia].
    induction Hn as [s|n s s1 s' Hs _ IH]; [lia|]. pose proof (inner_work s s1 Ho Hs).
    specialize (IH (inner_ok _ _ Hs Ho) (eq_trans (inner_ctx _ _ Hs) Hd)). lia.
  - intros s' Hr. induction Hr as [s|s s1 s' Hs _ IH]; [by apply serve_progress|].
    apply IH; [by eapply inner_ok|by rewrite (inner_ctx _ _ Hs)].
Qed.

(** ** Concrete runs *)

(** A job is queued, the context is cancelled while it waits, and [Serve] returns. *)
Definition cancelled : server :=
  mkServer true (mkSockets true true) MServing RReading true [7] false [WIdle] [] false [7] [] [].

Lemma cancelled_reached : rtc serve_step (serve 0) cancelled.
Proof.
  eapply rtc_l; [apply (s_datagram _ 7); done|]. eapply rtc_l; [eapply s_inner, (r_send _ 7); [done..|vm_compute; lia]|].
  eapply rtc_l; [apply s_cancel|]. apply rtc_refl.
Qed.

Definition returned : server :=
  mkServer true (mkSockets false false) MReturned RDone false [] true [WDone] [] false [7] [7] [7].

Lemma returned_reached : rtc inner cancelled returned.
Proof.
  eapply rtc_l; [by apply m_woken|]; cbn. eapply rtc_l; [by apply m_close_udp|]; cbn. eapply rtc_l; [by apply m_close_tcp|]; cbn.
  eapply rtc_l; [by apply r_closed|]; cbn. eapply rtc_l; [by apply a_closed|]; cbn. eapply rtc_l; [by apply m_readers|]; cbn.
  eapply rtc_l; [by apply m_close_jobs|]; cbn. eapply rtc_l; [by apply (w_take _ 0 7 [])|]; cbn. eapply rtc_l; [by apply (w_served _ 0 7)|]; cbn.
  eapply rtc_l; [by apply (w_closed _ 0)|]; cbn. eapply rtc_l; [apply m_workers; [done|by repeat constructor]|]; cbn.
  eapply rtc_l; [by apply m_conns|]; cbn. apply rtc_refl.
Qed.

Lemma rtc_inner s s' : rtc inner s s' -> rtc serve_step s s'.
Proof. induction 1 as [|s s1 s' Hs _ IH]; [done|]. eapply rtc_l; [by apply s_inner|done]. Qed.

Lemma shutdown_reached : rtc serve_step (serve 0) returned.
Proof. etrans; [apply cancelled_reached|apply rtc_inner, returned_reached]. Qed.

Lemma Serve_shutdown_witness :
  panicked returned = false /\ length (queue returned) <= capacity returned /\ length (conns returned) <= maxTCPConns /\
  enqueued returned = started returned ++ queue returned /\
  (main returned = MReturned ->
    sock returned = mkSockets false false /\ reader returned = RDone /\ acceptor returned = false /\ queue returned = [] /\
    Forall (fun p => p = WDone) (pcs returned) /\ conns returned = [] /\ finished returned ≡ₚ enqueued returned).
Proof. exact (Serve_shutdown 0 returned shutdown_reached). Defined.

Lemma Serve_returns_witness :
  main cancelled = MReturned \/ exists s'', inner cancelled s''.
Proof. exact (proj2 (Serve_returns 0 cancelled cancelled_reached eq_refl) cancelled (rtc_refl _ _)). Defined.
