(* ===== verification/Api.v ===== *)
(** * The management API (src/internal/api/service.go) and its wiring (src/cmd/sharddnsd/main.go)

    Every handler of [Service], over the store.  The state of a call is the tables and the
    announcements made so far; of an error only the code is modelled, its text is not.  A call
    that makes two store calls meets two environments. *)

From Stdlib Require Import ZArith Lia Ascii String.
From stdpp Require Import base list strings.
From S2P Require Import Prelude GoStrings Message Names RData Cache CachedResolver Store.

Definition defaultPageSize : Z := 100.
Definition maxPageSize : Z := 1000.
Definition defaultTTL : Z := 300.
Definition maxTTL : Z := 2 ^ 31 - 1.

Inductive Code :=
| CodeCanceled | CodeInvalidArgument | CodeDeadlineExceeded | CodeNotFound | CodeAlreadyExists
| CodeFailedPrecondition | CodeUnimplemented | CodeInternal | CodeUnavailable | CodeUnauthenticated.

(** ** Messages (src/proto/sharddns/v1/sharddns.proto) *)
Record ZoneMsg := mkZoneMsg {
  zmName : gostring; zmPrimaryNs : gostring; zmAdminEmail : gostring; zmSerial : Z;
  zmRefresh : Z; zmRetry : Z; zmExpire : Z; zmMinimumTtl : Z; zmCreatedAt : Z; zmUpdatedAt : Z;
}.

Record RecordMsg := mkRecordMsg {
  rmZone : gostring; rmName : gostring; rmType : gostring; rmTtl : Z; rmRdata : gostring; rmCreatedAt : Z;
}.

(** CreateZoneRequest and UpdateZoneRequest have the same fields. *)
Record ZoneRequest := mkZoneRequest {
  qzName : gostring; qzPrimaryNs : gostring; qzAdminEmail : gostring;
  qzRefresh : Z; qzRetry : Z; qzExpire : Z; qzMinimumTtl : Z;
}.

Record CreateRecordRequest := mkCreateRecordRequest {
  crZone : gostring; crName : gostring; crType : gostring; crTtl : Z; crRdata : gostring;
}.

Record DeleteRecordRequest := mkDeleteRecordRequest {
  drZone : gostring; drName : gostring; drType : gostring; drRdata : gostring;
}.

Inductive Kind := KIND_UNSPECIFIED | KIND_ZONE | KIND_RECORD.

(** [ChangeEvent]; the origin is added by the bus. *)
Record ChangeEvent := mkEvent { evKind : Kind; evZone : gostring; evName : gostring }.

(** ** State *)
Record world := mkWorld { tables : DB; announced : list ChangeEvent }.

Section Service.
Context `{GoUnicode} `{Postgres} (s : Store).

Abbreviation M A := (st world Code A).

Definition toError (conflictCode : Code) (err : storeError) : Code :=
  match err with
  | ErrNotFound => CodeNotFound
  | ErrConflict _ => conflictCode
  | DBError Canceled => CodeCanceled
  | DBError DeadlineExceeded => CodeDeadlineExceeded
  | _ => CodeInternal
  end.

Definition call {A} (code : storeError -> Code) (f : st DB storeError A) : M A := fun w =>
  let (r, d) := f (tables w) in (go_wrap code r, mkWorld d (announced w)).

Definition read {A} (code : storeError -> Code) (f : DB -> go storeError A) : M A := fun w =>
  (go_wrap code (f (tables w)), w).

Definition notify (kind : Kind) (zone name : gostring) : M unit := fun w =>
  (Ok tt, mkWorld (tables w) (announced w ++ [mkEvent kind zone name])).

Definition invalid {A} : M A := st_ret (Err CodeInvalidArgument).

(** ** Helpers *)
Definition validateSOA (z : Zone) : option Code :=
  let packs n := match PackName [] (ToLower n) with (_, None) => true | (_, Some _) => false end in
  if negb (packs (zPrimaryNS z)) then Some CodeInvalidArgument
  else if negb (packs (Replace1 (zAdminEmail z) "@"%char "."%char)) then Some CodeInvalidArgument
  else if (zRefresh z <? 0)%Z || (zRetry z <? 0)%Z || (zExpire z <? 0)%Z || (zMinTTL z <? 0)%Z
       then Some CodeInvalidArgument
  else None.

Definition pageSize (n : Z) : Z :=
  if (n <=? 0)%Z then defaultPageSize else if (maxPageSize <? n)%Z then maxPageSize else n.

Definition orString (v def : gostring) : gostring := if bool_decide (v = []) then def else v.

Definition orInt (v def : Z) : Z := if (v =? 0)%Z then def else v.

Definition zoneToProto (z : Zone) : ZoneMsg :=
  mkZoneMsg (zName z) (zPrimaryNS z) (zAdminEmail z) (zSerial z) (zRefresh z) (zRetry z) (zExpire z)
    (zMinTTL z) (zCreatedAt z) (zUpdatedAt z).

Definition recordToProto (r : Record_) : RecordMsg :=
  mkRecordMsg (rZone r) (rName r) (rType r) (rTTL r) (rRData r) (rCreatedAt r).

(** ** Zones *)
Definition api_CreateZone (e : Env) (m : ZoneRequest) : M ZoneMsg :=
  let name := NormalizeZone (qzName m) in
  match ValidateName name with
  | Some _ => invalid
  | None =>
    let z :=
      mkZone name (orString (qzPrimaryNs m) (lit "ns1." ++ name ++ lit "."))
        (orString (qzAdminEmail m) (lit "hostmaster." ++ name ++ lit ".")) 0
        (orInt (qzRefresh m) 3600) (orInt (qzRetry m) 900) (orInt (qzExpire m) 604800)
        (orInt (qzMinimumTtl m) 300) 0 0 in
    match validateSOA z with
    | Some c => st_ret (Err c)
    | None =>
      do! created := call (toError CodeAlreadyExists) (CreateZone e z) in
      do! _ := notify KIND_ZONE (zName created) [] in
      st_ret (Ok (zoneToProto created))
    end
  end.

Definition api_GetZone (e : Env) (name : gostring) : M ZoneMsg :=
  do! z := read (toError CodeInternal) (GetZone e name) in
  st_ret (Ok (zoneToProto z)).

Definition api_UpdateZone (e1 e2 : Env) (m : ZoneRequest) : M ZoneMsg :=
  do! z := read (toError CodeInternal) (GetZone e1 (qzName m)) in
  let z :=
    mkZone (zName z) (orString (qzPrimaryNs m) (zPrimaryNS z)) (orString (qzAdminEmail m) (zAdminEmail z))
      (zSerial z) (orInt (qzRefresh m) (zRefresh z)) (orInt (qzRetry m) (zRetry z))
      (orInt (qzExpire m) (zExpire z)) (orInt (qzMinimumTtl m) (zMinTTL z)) (zCreatedAt z) (zUpdatedAt z) in
  match validateSOA z with
  | Some c => st_ret (Err c)
  | None =>
    do! updated := call (toError CodeInternal) (UpdateZone e2 z) in
    do! _ := notify KIND_ZONE (zName updated) [] in
    st_ret (Ok (zoneToProto updated))
  end.

Definition api_DeleteZone (e : Env) (name : gostring) : M unit :=
  let name := NormalizeZone name in
  do! _ := call (toError CodeInternal) (DeleteZone e name) in
  notify KIND_ZONE name [].

Definition api_ListZones (e : Env) (size : Z) (token : gostring) : M (list ZoneMsg * gostring) :=
  do! r := read (toError CodeInternal) (ListZones e (pageSize size) token) in
  st_ret (Ok (zoneToProto <$> fst r, snd r)).

(** ** Records *)
Definition api_CreateRecord (e : Env) (m : CreateRecordRequest) : M RecordMsg :=
  let zone := NormalizeZone (crZone m) in
  if bool_decide (zone = []) || bool_decide (crName m = []) || bool_decide (crType m = []) then invalid
  else
    let rtype := NormalizeType (crType m) in
    let code := TypeCode rtype in
    if bool_decide (rtype = lit "SOA") then invalid
    else if negb (SupportedType code) then invalid
    else
      let name := NormalizeName zone (crName m) in
      match ValidateName name with
      | Some _ => invalid
      | None =>
        let rdata := TrimSpace (crRdata m) in
        match BuildRData code rdata with
        | Err _ => invalid
        | Panic => st_ret Panic
        | NoFuel => st_ret NoFuel
        | Ok _ =>
          let ttl := if (crTtl m =? 0)%Z then defaultTTL else crTtl m in
          if (ttl <? 0)%Z || (maxTTL <? ttl)%Z then invalid
          else
            do! rec := call (toError CodeFailedPrecondition)
              (CreateRecord s e (mkRecord 0 zone name rtype ttl rdata 0 [] None)) in
            do! _ := notify KIND_RECORD zone name in
            st_ret (Ok (recordToProto rec))
        end
      end.

Definition api_DeleteRecord (e : Env) (m : DeleteRecordRequest) : M unit :=
  let zone := NormalizeZone (drZone m) in
  let name := NormalizeName zone (drName m) in
  do! _ := call (toError CodeInternal) (DeleteRecord e zone name (drType m) (TrimSpace (drRdata m))) in
  notify KIND_RECORD zone name.

Definition api_ListRecords (e1 e2 : Env) (zone : gostring) (size : Z) (token : gostring)
    : M (list RecordMsg * gostring) :=
  if bool_decide (zone = []) then invalid
  else
    do! _ := read (toError CodeInternal) (GetZone e1 zone) in
    do! r := read (fun _ => CodeInvalidArgument) (ListRecords s e2 zone (pageSize size) token) in
    st_ret (Ok (recordToProto <$> fst r, snd r)).

Definition api_GetRecords (e : Env) (zone name rtype : gostring) : M (list RecordMsg) :=
  do! rs := read (toError CodeInternal) (GetRecords s e zone name rtype) in
  st_ret (Ok (recordToProto <$> rs)).
End Service.

(** ** Authentication *)

(** [NewAuthInterceptor] around a call: the Authorization header, empty if absent. *)
Definition authorize {S A} (token header : gostring) (next : st S Code A) : st S Code A :=
  if bool_decide (header = lit "Bearer " ++ token) then next else st_ret (Err CodeUnauthenticated).

(** [newAPIServer] installs the interceptor only for a non-empty token. *)
Definition guarded {S A} (token header : gostring) (next : st S Code A) : st S Code A :=
  if bool_decide (token <> []) then authorize token header next else next.

(** ** Announcements (src/cmd/sharddnsd/main.go) *)

(** What [notify] does with the local caches, and the subscriber with an event from elsewhere. *)
Definition invalidate_for `{GoMaps} {S} (ev : ChangeEvent) (c : CachedResolver S) : go storeError (CachedResolver S) :=
  match evKind ev with
  | KIND_ZONE => Invalidate (evZone ev) [] c
  | _ => Invalidate (evZone ev) (evName ev) c
  end.
