(* ===== verification/ApiCorrect.v ===== *)
(** * Correctness of the management API

    What the API accepts can be served: the tables hold only validated zones and records, by
    whatever calls and failures they came about.  A successful call announces what it changed,
    so that queries see it through the caches; a rejected one changes and announces nothing. *)

From Stdlib Require Import ZArith Lia Ascii String.
From stdpp Require Import base list strings.
From S2P Require Import Prelude GoStrings Message WireNames MessageCodec Names RData RDataCorrect.
From S2P Require Import Cache Resolver CachedResolver CachedResolverCorrect Handler HandlerCorrect HandlerAnswers.
From S2P Require Import HandlerResponses HandlerRuns Store StoreCorrect StoreQueries Api.

(** ** Normalising twice *)

(** The bytes of an accepted name. *)
Definition plain_byte (c : ascii) : bool := name_char c || bool_decide (c = "*"%char) || bool_decide (c = "."%char).

Lemma plain_byte_facts c :
  plain_byte c = true -> is_ascii c = true /\ lower_byte c = c /\ graphic c = true /\ c <> nul.
Proof. destruct c as [[] [] [] [] [] [] [] []]; vm_compute; by intros. Qed.

Lemma valid_plain name : ValidateName name = None -> Forall (fun c => plain_byte c = true) name.
Proof.
  intros (_ & _ & Hv)%ValidateName_valid. rewrite <- (Join_Split name "."%char).
  apply Forall_Join; [|by repeat constructor].
  assert (Hl : forall l, l = lit "*" \/ hostname_label l -> Forall (fun c => plain_byte c = true) l).
  { intros l [-> |(_ & Hf & _)]; [by repeat constructor|]. eapply Forall_impl; [exact Hf|].
    intros c Hc. unfold plain_byte. by rewrite Hc. }
  destruct (Split name "."%char) as [|l ls]; [done|]. destruct Hv as [Hv Hvs].
  constructor; [by apply Hl|]. eapply Forall_impl; [exact Hvs|]. intros x Hx. apply Hl. by right.
Qed.

(** Text of such bytes that does not end in a dot is a fixed point of [NormalizeZone]. *)
Lemma NormalizeZone_plain `{GoUnicode} s :
  Forall (fun c => plain_byte c = true) s -> s <> [] -> HasSuffix s (lit ".") = false ->
  NormalizeZone s = s.
Proof.
  intros Hs Hne Hd. unfold NormalizeZone.
  assert (TrimSpace s = s) as ->.
  { destruct s as [|c1 r1]; [done|]. destruct (exists_last (l := c1 :: r1)) as (r2 & c2 & E2); [done|].
    pose proof Hs as Hs2. rewrite E2 in Hs2. apply Forall_app in Hs2 as [_ [Hc2 _]%Forall_cons].
    apply Forall_cons in Hs as [Hc1 _].
    eapply TrimSpace_id; [done|exact E2|by apply plain_byte_facts|by apply plain_byte_facts]. }
  rewrite ToLower_id; [by apply TrimSuffix_no|].
  eapply Forall_impl; [exact Hs|]. intros c Hc%plain_byte_facts. tauto.
Qed.

Lemma HasSuffix_app_false s t c : t <> [] -> HasSuffix (s ++ t) [c] = false -> HasSuffix t [c] = false.
Proof.
  intros Ht. destruct (HasSuffix t [c]) eqn:E; [|done]. apply HasSuffix_true in E as [r ->].
  intros Hf. rewrite app_assoc in Hf. assert (HasSuffix ((s ++ r) ++ [c]) [c] = true); [|congruence].
  apply HasSuffix_true. by exists (s ++ r).
Qed.

Lemma valid_no_dot name : ValidateName name = None -> name <> [] /\ HasSuffix name (lit ".") = false.
Proof.
  intros (Hne & _ & Hv%valid_labels_Forall)%ValidateName_valid. split; [done|]. apply valid_no_trailing_dot.
  eapply Forall_impl; [exact Hv|]. by intros l [? _].
Qed.

Lemma valid_NormalizeZone `{GoUnicode} name : ValidateName name = None -> NormalizeZone name = name.
Proof. intros Hv. destruct (valid_no_dot name Hv). by apply NormalizeZone_plain; [apply valid_plain|..]. Qed.

(** The zone of an accepted name is normalised, too. *)
Lemma valid_zone `{GoUnicode} zone name :
  ValidateName name = None -> at_or_below zone name -> NormalizeZone zone = zone.
Proof.
  intros Hv [-> |[w Hw]]; [by apply valid_NormalizeZone|]. destruct (valid_no_dot name Hv) as [Hne Hd].
  pose proof (valid_plain name Hv) as Hp. rewrite Hw in *. destruct (decide (zone = [])) as [-> |Hz].
  - exfalso. rewrite app_nil_r in Hd. assert (HasSuffix (w ++ lit ".") (lit ".") = true); [|congruence].
    apply HasSuffix_true. by exists w.
  - apply Forall_app in Hp as [_ Hp]. apply Forall_app in Hp as [_ Hp].
    apply NormalizeZone_plain; [done|done|]. rewrite app_assoc in Hd. by eapply HasSuffix_app_false.
Qed.

Lemma valid_NormalizeName `{GoUnicode} zone name :
  ValidateName name = None -> at_or_below zone name -> NormalizeName zone name = name.
Proof.
  intros Hv Hin. unfold NormalizeName. fold (NormalizeZone name). rewrite (valid_NormalizeZone name Hv).
  destruct (valid_no_dot name Hv) as [Hne _]. rewrite (bool_decide_eq_false_2 (name = [])) by done.
  assert (name <> lit "@") by (by intros ->). rewrite (bool_decide_eq_false_2 (name = lit "@")) by done. cbn [orb].
  case_bool_decide as Hz; [done|]. destruct Hin as [?|[w Hw]]; [done|].
  by rewrite (proj2 (HasSuffix_true name (lit "." ++ zone))) by (by exists w).
Qed.

(** ** The check of the SOA *)
Lemma lower_dot c : lower_byte c = "."%char <-> c = "."%char.
Proof. destruct c as [[] [] [] [] [] [] [] []]; vm_compute; by split. Qed.

Lemma Split_lower t : Split (lower_byte <$> t) "."%char = (fun l : gostring => lower_byte <$> l) <$> Split t "."%char.
Proof.
  induction t as [|c t IH]; [done|]. rewrite fmap_cons. cbn [Split]. rewrite IH.
  destruct (decide (c = "."%char)) as [-> |Hc].
  - by rewrite !bool_decide_eq_true_2.
  - rewrite !bool_decide_eq_false_2 by (by rewrite ?lower_dot). by destruct (Split t "."%char).
Qed.

Lemma TrimSuffix_lower t : TrimSuffix (lower_byte <$> t) (lit ".") = lower_byte <$> TrimSuffix t (lit ".").
Proof.
  destruct (HasSuffix t (lit ".")) eqn:E.
  - apply HasSuffix_true in E as [r ->]. rewrite fmap_app. change (lower_byte <$> lit ".") with (lit ".").
    by rewrite !TrimSuffix_app.
  - rewrite (TrimSuffix_no _ _ E). apply TrimSuffix_no. destruct (HasSuffix (lower_byte <$> t) _) eqn:E'; [|done].
    apply HasSuffix_true in E' as [r Hr]. apply fmap_app_inv in Hr as (r1 & r2 & -> & Hr2 & ->).
    symmetry in Hr2. apply fmap_cons_inv in Hr2 as (c & l & Hc & Hl & ->). symmetry in Hl. apply fmap_nil_inv in Hl as ->.
    symmetry in Hc. apply lower_dot in Hc as ->. rewrite <- E. symmetry. apply HasSuffix_true. by exists r1.
Qed.

Lemma packable_lower t : packable (lower_byte <$> t) -> packable t.
Proof.
  rewrite !packable_iff. unfold labels_of. rewrite TrimSuffix_lower, length_fmap.
  destruct (TrimSuffix t (lit ".")) as [|c n]; [done|]. intros [Hf Hl]. split; [|done].
  rewrite fmap_cons, <- fmap_cons, Split_lower, Forall_fmap in Hf. eapply Forall_impl; [exact Hf|].
  intros l. unfold label_ok. cbn. by rewrite length_fmap.
Qed.

Lemma ascii_packs `{GoUnicode} t buf :
  forallb is_ascii t = true -> snd (PackName [] (ToLower t)) = None -> exists out, PackName buf t = (out, None).
Proof.
  intros Ha Hp. unfold ToLower in Hp. rewrite Ha in Hp. eexists. apply PackName_packable, packable_lower.
  destruct (decide (packable (lower_byte <$> t))) as [|Hn]; [done|].
  destruct (PackName_not_packable [] _ Hn) as (b & x & Hx). by rewrite Hx in Hp.
Qed.

Definition soa_ascii (z : Zone) : Prop :=
  forallb is_ascii (zPrimaryNS z) = true /\ forallb is_ascii (zAdminEmail z) = true.

Lemma Replace1_ascii t : forallb is_ascii t = true -> forallb is_ascii (Replace1 t "@"%char "."%char) = true.
Proof.
  intros Ht. unfold Replace1. destruct (IndexByte t "@"%char) as [i|]; [|done].
  rewrite <- (take_drop i t), forallb_app, andb_true_iff in Ht. destruct Ht as [H1 H2].
  rewrite forallb_app, H1. cbn. destruct (drop i t) as [|c r] eqn:E.
  - replace (drop (S i) t) with (@nil ascii); [done|]. symmetry. apply nil_length_inv.
    apply (f_equal length) in E. rewrite length_drop in *. cbn in E. lia.
  - replace (drop (S i) t) with r; [by apply andb_true_iff in H2 as [_ ?]|].
    replace (S i) with (i + 1) by lia. by rewrite <- drop_drop, E.
Qed.

(** An SOA of ASCII names that passed the check can be encoded. *)
Lemma validateSOA_encodes `{GoUnicode} z : validateSOA z = None -> soa_ascii z -> exists rr, soaRR z = Ok rr.
Proof.
  intros Hv [H1 H2]. unfold validateSOA in Hv.
  destruct (PackName [] (ToLower (zPrimaryNS z))) as [b1 [|]] eqn:E1; [done|]. cbn [negb] in Hv.
  destruct (PackName [] (ToLower (Replace1 _ _ _))) as [b2 [|]] eqn:E2; [done|].
  unfold soaRR, BuildSOA. destruct (ascii_packs (zPrimaryNS z) [] H1) as [o1 ->]; [by rewrite E1|].
  destruct (ascii_packs (Replace1 (zAdminEmail z) "@"%char "."%char) o1) as [o2 ->];
    [by apply Replace1_ascii|by rewrite E2|]. by eexists.
Qed.

(** ** What the tables hold *)

(** Upper case is its own upper case, in Go's Unicode tables too. *)
Class GoUnicodeLaws `{GoUnicode} : Prop := {
  ToUpper_idem s : ToUpper (ToUpper s) = ToUpper s;
}.

Section Content.
Context `{GoUnicode} `{Postgres}.

Definition zone_valid (z : Zone) : Prop := ValidateName (zName z) = None /\ validateSOA z = None.

(** A record as the API accepts it. *)
Definition row_valid (r : recordRow) : Prop :=
  ValidateName (rowName r) = None /\ rowType r <> lit "SOA" /\ SupportedType (TypeCode (rowType r)) = true /\
  (exists wire, BuildRData (TypeCode (rowType r)) (rowRData r) = Ok wire) /\ (0 <= rowTTL r <= maxTTL)%Z.

Definition content_ok (d : DB) : Prop := Forall zone_valid (zones d) /\ Forall row_valid (records d).

Lemma update_zones_Forall (Q : Zone -> Prop) name set zs zs' hit :
  (forall z z', Q z -> set z = Ok z' -> Q z') -> Forall Q zs -> update_zones name set zs = Ok (zs', hit) -> Forall Q zs'.
Proof.
  intros Hset. revert zs' hit. induction zs as [|z zs IH]; intros zs' hit Hz; cbn [update_zones]; [by intros [= <- <-]|].
  apply Forall_cons in Hz as [Hz Hzs]. case_bool_decide.
  - rewrite go_bind_Ok. intros (z' & Hz' & ((zs1 & hit1) & Hu & [= <- <-])%go_bind_Ok).
    constructor; [by eapply Hset|by eapply IH].
  - rewrite go_bind_Ok. intros ((zs1 & hit1) & Hu & [= <- <-]). constructor; [done|by eapply IH].
Qed.

(** The rows an update returns have the name it asked for. *)
Lemma update_zones_head name set zs zs' z hit :
  (forall z z', set z = Ok z' -> zName z' = zName z) -> update_zones name set zs = Ok (zs', z :: hit) -> zName z = name.
Proof.
  intros Hset. revert zs' z hit. induction zs as [|z0 zs IH]; intros zs' z hit; cbn [update_zones]; [done|].
  case_bool_decide as Hz.
  - rewrite go_bind_Ok. intros (z' & Hz' & ((zs1 & hit1) & Hu & [= <- <- <-])%go_bind_Ok). by rewrite (Hset _ _ Hz').
  - rewrite go_bind_Ok. intros ((zs1 & hit1) & Hu & [= <- ->]). by eapply IH.
Qed.

Lemma bumpSerial_valid e z z' : zone_valid z -> bumpSerial e z = Ok z' -> zone_valid z'.
Proof. unfold bumpSerial. destruct (_ <? _)%Z; [done|]. intros Hz [= <-]. exact Hz. Qed.

Lemma bump_content e name d r d' : content_ok d -> bump e name d = (r, d') -> content_ok d'.
Proof.
  intros [Hz Hr]. unfold bump. destruct (update_zones _ _ _) as [[zs hit]| | |] eqn:E; intros [= <- <-]; try done.
  split; [|done]. eapply update_zones_Forall; [|exact Hz|exact E]. apply bumpSerial_valid.
Qed.

Lemma transaction_content {A} e n (body : st DB storeError A) d :
  content_ok d -> (forall a d', body d = (Ok a, d') -> content_ok d') -> content_ok (snd (transaction e n body d)).
Proof.
  intros Hd Hb. unfold transaction. destruct (fault e 0); [done|].
  destruct (body d) as [[a| | |] d'] eqn:E; cbn; try done.
  destruct (fault e n); [|by eapply Hb]. destruct (commit_applied e); [by eapply Hb|done].
Qed.

Lemma autocommit_content {A} e (r : go dbError (A * DB)) d :
  content_ok d -> (forall a d', r = Ok (a, d') -> content_ok d') -> content_ok (snd (autocommit e r d)).
Proof.
  intros Hd Hr. unfold autocommit. destruct r as [[a d']|x| |]; [|by destruct (fault e 0)|done..].
  specialize (Hr a d' eq_refl). destruct (fault e 0); [|done]. by destruct (commit_applied e).
Qed.

Lemma CreateZone_content e z d : zone_valid z -> content_ok d -> content_ok (snd (CreateZone e z d)).
Proof.
  intros [Hv Hs] Hd. unfold CreateZone. rewrite (valid_NormalizeZone _ Hv). case_bool_decide; [done|].
  set (ins := if bool_decide _ then _ else _). assert (Hok : content_ok (snd (autocommit e ins d))).
  { apply autocommit_content; [done|]. intros a d'. unfold ins. case_bool_decide; [done|]. intros [= <- <-].
    destruct Hd as [Hz Hr]. split; [|done]. apply Forall_snoc; done. }
  destruct (autocommit e ins d) as [r d1]. cbn in Hok |- *.
  destruct (scanZone r) as [|[]| |]; try done. by destruct (isPgCode _ _).
Qed.

Lemma UpdateZone_content e z d : validateSOA z = None -> content_ok d -> content_ok (snd (UpdateZone e z d)).
Proof.
  intros Hs Hd. unfold UpdateZone. set (upd := go_bind _ _).
  assert (Hok : content_ok (snd (autocommit e upd d))); [|by destruct (autocommit e upd d)].
  apply autocommit_content; [done|]. intros a d'. unfold upd. rewrite go_bind_Ok.
  intros ((zs & hit) & Hu & (row & _ & [= <- <-])%go_bind_Ok). destruct Hd as [Hz Hr]. split; [|done].
  eapply update_zones_Forall; [|exact Hz|exact Hu]. intros z1 z2 [Hv _] Hb.
  eapply bumpSerial_valid; [|exact Hb]. by split.
Qed.

Lemma DeleteZone_content e name d : content_ok d -> content_ok (snd (DeleteZone e name d)).
Proof.
  intros [Hz Hr]. unfold DeleteZone. set (dels := Ok _).
  assert (Hok : content_ok (snd (autocommit e dels d))).
  2: { destruct (autocommit e dels d) as [[n| | |] d1]; try done. by destruct (bool_decide _). }
  apply autocommit_content; [done|]. intros a d' [= <- <-]. by split; apply Forall_filter_rows.
Qed.

Lemma DeleteRecord_content e zone name rtype rdata d :
  content_ok d -> content_ok (snd (DeleteRecord e zone name rtype rdata d)).
Proof.
  intros Hd. unfold DeleteRecord. apply transaction_content; [done|]. intros [] d3.
  rewrite st_bind_Ok. intros (tag & d1 & [= <- <-]%exec_Ok & H2). case_bool_decide; [done|].
  apply st_bind_Ok in H2 as (n & d2 & Hb%exec_Ok & [= <-]). eapply bump_content; [|exact Hb].
  destruct Hd as [Hz Hr]. split; [done|]. by apply Forall_filter_rows.
Qed.

Lemma set_ttl_valid r t : (0 <= t <= maxTTL)%Z -> row_valid r -> row_valid (set_ttl r t).
Proof. intros Ht (? & ? & ? & ? & _). done. Qed.

Lemma upsert_content e row d r d' :
  row_valid row -> content_ok d -> upsert e row d = (r, d') -> content_ok d'.
Proof.
  intros Hv [Hz Hr]. unfold upsert. destruct (_ <? _)%Z; [by intros [= <- <-]|].
  destruct (filter _ _) as [|old l]; intros [= <- <-]; (split; [done|]); cbn [records].
  - by apply Forall_snoc.
  - apply Forall_fmap. eapply Forall_impl; [exact Hr|]. intros x Hx. cbn. case_bool_decide; [|done].
    apply set_ttl_valid; [apply Hv|done].
Qed.

Lemma CreateRecord_content s e r d :
  let zone := NormalizeZone (rZone r) in
  let name := NormalizeName zone (rName r) in
  let rtype := NormalizeType (rType r) in
  row_valid (mkRow 0 zone name (reverseName name) rtype (rTTL r) (rRData r) 0) ->
  content_ok d -> content_ok (snd (CreateRecord s e r d)).
Proof.
  intros zone name rtype Hv Hd. unfold CreateRecord. fold zone. fold name. fold rtype.
  fold (cname_check e zone name rtype (rRData r)). apply transaction_content; [done|]. intros out d5.
  rewrite st_bind_Ok. intros (tag & d1 & Hb%exec_Ok & H2). case_bool_decide; [done|].
  apply st_bind_Ok in H2 as ([] & d2 & (-> & _)%cname_check_Ok & H3).
  apply st_bind_Ok in H3 as (row & d3 & Hu%exec_Ok & H4).
  apply st_bind_Ok in H4 as (out' & d4 & [= Hrec <-] & H5).
  apply st_bind_Ok in H5 as ([] & d4' & [= <-]%exec_Ok & [= <- <-]).
  apply bump_content in Hb; [|done]. apply upsert_content in Hu as [Hz Hr]; [|done..]. split; [done|].
  apply Forall_fmap. eapply Forall_impl; [exact Hr|]. intros x Hx. cbn. case_bool_decide; [|done].
  apply set_ttl_valid; [apply Hv|done].
Qed.
End Content.

(** ** The store always comes back *)
Section Returns.
Context `{GoUnicode} `{Postgres}.

Definition st_returns {E A} (c : st DB E A) : Prop := forall d, returns (fst (c d)).

Lemma st_returns_ret {E A} (r : go E A) : returns r -> st_returns (st_ret r).
Proof. by intros Hr d. Qed.

Lemma st_returns_bind {E A B} (c : st DB E A) (k : A -> st DB E B) :
  st_returns c -> (forall a, st_returns (k a)) -> st_returns (st_bind c k).
Proof.
  intros Hc Hk d. specialize (Hc d). unfold st_bind. destruct (c d) as [[a|x| |] d1]; try done. apply Hk.
Qed.

Lemma st_returns_exec {A} e n (f : st DB dbError A) : st_returns f -> st_returns (exec e n f).
Proof.
  intros Hf d. unfold exec. destruct (fault e n); [done|]. specialize (Hf d). by destruct (f d) as [[]].
Qed.

Lemma st_returns_transaction {A} e n (body : st DB storeError A) : st_returns body -> st_returns (transaction e n body).
Proof.
  intros Hb d. unfold transaction. destruct (fault e 0); [done|]. specialize (Hb d).
  destruct (body d) as [[a|x| |] d1]; try done. by destruct (fault e n).
Qed.

Lemma autocommit_returns {A} e (r : go dbError (A * DB)) d : returns r -> returns (fst (autocommit e r d)).
Proof. unfold autocommit. destruct r as [[a d']|x| |]; try done; by destruct (fault e 0). Qed.

Lemma update_zones_returns name set zs : (forall z, returns (set z)) -> returns (update_zones name set zs).
Proof.
  intros Hs. induction zs as [|z zs IH]; cbn [update_zones]; [done|]. specialize (Hs z).
  case_bool_decide; [destruct (set z); try done; cbn [go_bind]|];
    destruct (update_zones name set zs) as [[]| | |]; done.
Qed.

Lemma bumpSerial_returns e z : returns (bumpSerial e z).
Proof. unfold bumpSerial. by destruct (_ <? _)%Z. Qed.

Lemma scanZone_returns r : returns r -> returns (scanZone r).
Proof. by destruct r as [|[| | | |[]]| |]. Qed.

Lemma bump_returns e name : st_returns (bump e name).
Proof.
  intros d. unfold bump. pose proof (update_zones_returns name (bumpSerial e) (zones d) (bumpSerial_returns e)).
  by destruct (update_zones _ _ _) as [[]| | |].
Qed.

Lemma CreateZone_returns e z : st_returns (CreateZone e z).
Proof.
  intros d. unfold CreateZone. case_bool_decide; [done|]. set (ins := if bool_decide _ then _ else _).
  assert (Hr : returns (fst (autocommit e ins d))) by (apply autocommit_returns; unfold ins; by case_bool_decide).
  destruct (autocommit e ins d) as [r d1]. cbn in Hr |- *. apply scanZone_returns in Hr.
  destruct (scanZone r) as [|[]| |]; try done. by destruct (isPgCode _ _).
Qed.

Lemma UpdateZone_returns e z : st_returns (UpdateZone e z).
Proof.
  intros d. unfold UpdateZone. set (upd := go_bind _ _).
  assert (Hr : returns (fst (autocommit e upd d))).
  { apply autocommit_returns. unfold upd. set (set := fun old => _).
    pose proof (update_zones_returns (NormalizeZone (zName z)) set (zones d) (fun _ => bumpSerial_returns _ _)).
    destruct (update_zones _ _ _) as [[zs hit]| | |]; try done. by destruct hit. }
  destruct (autocommit e upd d) as [r d1]. by apply scanZone_returns.
Qed.

Lemma DeleteZone_returns e name : st_returns (DeleteZone e name).
Proof.
  intros d. unfold DeleteZone. set (dels := Ok _).
  assert (Hr : returns (fst (autocommit e dels d))) by by apply autocommit_returns.
  destruct (autocommit e dels d) as [[n| | |] d1]; try done. by destruct (bool_decide _).
Qed.

Lemma cname_check_returns e zone name rtype rdata : st_returns (cname_check e zone name rtype rdata).
Proof.
  unfold cname_check. repeat case_bool_decide; [by apply st_returns_ret|..];
    (apply st_returns_bind; [by apply st_returns_exec|]); intros []; by apply st_returns_ret.
Qed.

Lemma upsert_returns e row : st_returns (upsert e row).
Proof. intros d. unfold upsert. destruct (_ <? _)%Z; [done|]. by destruct (filter _ _). Qed.

Lemma CreateRecord_returns s e r : encoder_total s -> st_returns (CreateRecord s e r).
Proof.
  intros Henc. apply st_returns_transaction. apply st_returns_bind; [apply st_returns_exec, bump_returns|]. intros tag.
  case_bool_decide; [by apply st_returns_ret|]. apply st_returns_bind; [apply cname_check_returns|]. intros [].
  apply st_returns_bind; [apply st_returns_exec, upsert_returns|]. intros row.
  apply st_returns_bind; [apply st_returns_ret; by destruct (scanRecord_total s row Henc) as [? ->]|]. intros out.
  apply st_returns_bind; [by apply st_returns_exec|]. intros []. by apply st_returns_ret.
Qed.

Lemma DeleteRecord_returns e zone name rtype rdata : st_returns (DeleteRecord e zone name rtype rdata).
Proof.
  apply st_returns_transaction. apply st_returns_bind; [by apply st_returns_exec|]. intros tag.
  case_bool_decide; [by apply st_returns_ret|]. apply st_returns_bind; [apply st_returns_exec, bump_returns|].
  intros n. by apply st_returns_ret.
Qed.

(** *** Lists *)
Lemma page_returns {A} limit (tok : A -> gostring) rows : (1 <= limit)%Z -> returns (page limit tok rows).
Proof.
  intros Hl. unfold page. destruct (Z.ltb_spec limit (Z.of_nat (length rows))); [|done].
  rewrite (proj2 (Z.ltb_ge limit 0)), (proj2 (Z.ltb_ge (limit - 1) 0)) by lia.
  destruct (index_lt (E := storeError) (take (Z.to_nat limit) rows) (Z.to_nat (limit - 1))) as (x & _ & ->); [|done].
  rewrite length_take. lia.
Qed.

Lemma stmt_returns {A} e n (r : go dbError A) : returns r -> returns (stmt e n r).
Proof. intros Hr. unfold stmt. destruct (fault e n); [done|]. by destruct r. Qed.

Lemma limit_rows_returns {A} n (l : list A) : returns (limit_rows n l).
Proof. unfold limit_rows. by destruct (_ <? _)%Z. Qed.

Lemma collectRecords_returns s e n rows : encoder_total s -> returns (collectRecords s e n rows).
Proof.
  intros Henc. apply go_bind_returns; [by apply stmt_returns|]. intros rs _. by rewrite scanRecords_scan.
Qed.

Lemma ListZones_returns e limit after d : (1 <= limit)%Z -> returns (ListZones e limit after d).
Proof.
  intros Hl. apply go_bind_returns; [apply stmt_returns, limit_rows_returns|]. intros rows _.
  rewrite (proj2 (Z.ltb_ge limit 0)) by lia. apply go_bind_returns; [by apply stmt_returns|]. intros zs _.
  by apply page_returns.
Qed.

Lemma GetZone_returns e name d : returns (GetZone e name d).
Proof. apply scanZone_returns, stmt_returns. by destruct (filter _ _). Qed.

Lemma ListRecords_returns s e zone limit after d :
  encoder_total s -> (1 <= limit)%Z -> returns (ListRecords s e zone limit after d).
Proof.
  intros Henc Hl. apply go_bind_returns.
  { case_bool_decide; [done|]. destruct (ParseInt64 after); [|done]. by destruct (_ <? _)%Z. }
  intros id _. apply go_bind_returns; [apply stmt_returns, limit_rows_returns|]. intros rows _.
  apply go_bind_returns; [by apply collectRecords_returns|]. intros rs _. by apply page_returns.
Qed.

Lemma pageSize_range n : (1 <= pageSize n <= maxPageSize)%Z.
Proof.
  unfold pageSize, defaultPageSize, maxPageSize. destruct (Z.leb_spec n 0); [lia|]. destruct (Z.ltb_spec 1000 n); lia.
Qed.

Lemma read_returns {A} code (f : DB -> go storeError A) w : returns (f (tables w)) -> returns (fst (read code f w)).
Proof. unfold read. cbn. by destruct (f (tables w)). Qed.

(** No page size and no page token makes a list call panic: [pageSize] keeps the limit
    between 1 and 1000, which is what the slicing in the store relies on. *)
Theorem Api_lists_total s e1 e2 zone size token w :
  encoder_total s ->
  returns (fst (api_ListZones e1 size token w)) /\ returns (fst (api_ListRecords s e1 e2 zone size token w)).
Proof.
  intros Henc. pose proof (pageSize_range size) as [Hp _]. split.
  - unfold api_ListZones, st_bind. pose proof (read_returns (toError CodeInternal) _ w (ListZones_returns e1 (pageSize size) token (tables w) Hp)) as Hr.
    by destruct (read _ _ w) as [[| | |] w'].
  - unfold api_ListRecords. case_bool_decide; [done|]. unfold st_bind.
    pose proof (read_returns (toError CodeInternal) _ w (GetZone_returns e1 zone (tables w))) as Hg.
    destruct (read _ (GetZone e1 zone) w) as [[z| | |] w1] eqn:E1; try done.
    pose proof (read_returns (fun _ => CodeInvalidArgument) _ w1
      (ListRecords_returns s e2 zone (pageSize size) token (tables w1) Henc Hp)) as Hr.
    by destruct (read _ (ListRecords _ _ _ _ _) w1) as [[| | |] w2].
Qed.
End Returns.

(** ** Calls *)
Inductive api_op :=
| ApiCreateZone (m : ZoneRequest)
| ApiUpdateZone (m : ZoneRequest)
| ApiDeleteZone (name : gostring)
| ApiCreateRecord (m : CreateRecordRequest)
| ApiDeleteRecord (m : DeleteRecordRequest).

Section Calls.
Context `{GoUnicodeLaws} `{PostgresLaws} (s : Store).

Definition api_run (e1 e2 : Env) (o : api_op) : st world Code unit :=
  match o with
  | ApiCreateZone m => do! _ := api_CreateZone e1 m in st_ret (Ok tt)
  | ApiUpdateZone m => do! _ := api_UpdateZone e1 e2 m in st_ret (Ok tt)
  | ApiDeleteZone n => api_DeleteZone e1 n
  | ApiCreateRecord m => do! _ := api_CreateRecord s e1 m in st_ret (Ok tt)
  | ApiDeleteRecord m => api_DeleteRecord e1 m
  end.

(** The store operations the API makes of accepted requests. *)
Definition valid_op (o : op) : Prop :=
  match o with
  | CreateZoneOp z => zone_valid z
  | UpdateZoneOp z => validateSOA z = None
  | CreateRecordOp r =>
    let zone := NormalizeZone (rZone r) in
    let name := NormalizeName zone (rName r) in
    row_valid (mkRow 0 zone name (reverseName name) (NormalizeType (rType r)) (rTTL r) (rRData r) 0)
  | DeleteZoneOp _ | DeleteRecordOp _ _ _ _ => True
  end.

Lemma run_content e o d : valid_op o -> content_ok d -> content_ok (snd (run s e o d)).
Proof.
  intros Hv Hd. destruct o; cbn [run]; rewrite ?snd_bind_ret.
  - by apply CreateZone_content.
  - by apply UpdateZone_content.
  - by apply DeleteZone_content.
  - by apply CreateRecord_content.
  - by apply DeleteRecord_content.
Qed.

(** A deletion whose names are normalised by one pass. *)
Definition canonical (o : api_op) : Prop :=
  match o with
  | ApiDeleteZone n => NormalizeZone (NormalizeZone n) = NormalizeZone n
  | ApiDeleteRecord m =>
    let zone := NormalizeZone (drZone m) in
    let name := NormalizeName zone (drName m) in
    NormalizeZone zone = zone /\ NormalizeName zone name = name
  | _ => True
  end.

Definition event_change (ev : ChangeEvent) : gostring * gostring :=
  match evKind ev with KIND_ZONE => (evZone ev, []) | _ => (evZone ev, evName ev) end.

(** A call either does nothing, or makes one store operation; it announces the operation if
    and only if it succeeds. *)
Definition effect (e1 e2 : Env) (o : api_op) (w : world) (r : go Code unit) (w' : world) : Prop :=
  (w' = w /\ exists c, r = Err c) \/
  exists e so, (e = e1 \/ e = e2) /\ valid_op so /\ tables w' = snd (run s e so (tables w)) /\
    match r with
    | Ok _ => fst (run s e so (tables w)) = Ok tt /\
        exists ev, announced w' = announced w ++ [ev] /\ (canonical o -> event_change ev = change_of so)
    | Err _ => fst (run s e so (tables w)) <> Ok tt /\ announced w' = announced w
    | _ => False
    end.

(** One store operation and its announcement. *)
Lemma call_effect {A B} e1 e2 o so e w code (f : st DB storeError A) (ev : A -> ChangeEvent) (res : A -> B) r w' :
  e = e1 \/ e = e2 -> valid_op so -> (forall d, run s e so d = (do! _ := f in st_ret (Ok tt)) d) ->
  (forall d, returns (fst (f d))) ->
  (forall a d, f (tables w) = (Ok a, d) -> canonical o -> event_change (ev a) = change_of so) ->
  (do! _ := (do! a := call code f in
             do! _ := notify (evKind (ev a)) (evZone (ev a)) (evName (ev a)) in
             st_ret (Ok (res a))) in st_ret (Ok tt)) w = (r, w') ->
  effect e1 e2 o w r w'.
Proof.
  intros He Hv Hrun Hret Hev. unfold call, notify, st_bind. specialize (Hret (tables w)).
  destruct (f (tables w)) as [[a|x| |] d] eqn:E; cbn in *; try done; intros [= <- <-]; right; exists e, so;
    rewrite Hrun; unfold st_bind; rewrite E; cbn; (split; [done|]); (split; [done|]); (split; [done|]).
  - split; [done|]. exists (ev a). split; [by destruct (ev a)|]. by eapply Hev.
  - done.
Qed.

(** The types the API supports are stored under their own mnemonic. *)
Lemma known_type k c : assoc k typeCodes = Some c -> NormalizeType k = k.
Proof.
  assert (Hall : Forall (fun p => NormalizeType (fst p) = fst p) typeCodes) by (repeat constructor).
  induction Hall as [|[k' c'] l Hk _ IH]; cbn [assoc]; [done|]. case_bool_decide; [by subst|done].
Qed.

Lemma supported_type t :
  SupportedType (TypeCode (NormalizeType t)) = true -> NormalizeType (NormalizeType t) = NormalizeType t.
Proof.
  unfold NormalizeType at 1 3, TypeCode. rewrite ToUpper_idem. fold (NormalizeType t).
  destruct (assoc (NormalizeType t) typeCodes) as [c|] eqn:E; [|done]. intros _. by eapply known_type.
Qed.

Lemma accepted_record zone name rtype rdata ttl wire :
  ValidateName (NormalizeName zone name) = None -> NormalizeType rtype <> lit "SOA" ->
  SupportedType (TypeCode (NormalizeType rtype)) = true ->
  BuildRData (TypeCode (NormalizeType rtype)) rdata = Ok wire -> (0 <= ttl <= maxTTL)%Z ->
  let so := CreateRecordOp (mkRecord 0 zone (NormalizeName zone name) (NormalizeType rtype) ttl rdata 0 [] None) in
  valid_op so /\ change_of so = (zone, NormalizeName zone name).
Proof.
  intros Hv Hsoa Hsup Hb Ht. pose proof (NormalizeName_in_zone zone name) as Hin.
  pose proof (valid_zone zone _ Hv Hin) as Hz. pose proof (valid_NormalizeName zone _ Hv Hin) as Hn.
  cbn [valid_op change_of rZone rName rType rTTL rRData]. rewrite Hz, Hn, (supported_type _ Hsup). split; [|done].
  split; [done|]. split; [done|]. split; [done|]. split; [by exists wire|done].
Qed.

Lemma rejected e1 e2 o w c r w' : (@Err Code unit c, w) = (r, w') -> effect e1 e2 o w r w'.
Proof. intros [= <- <-]. left. split; [done|]. by exists c. Qed.

Lemma CreateZone_name e z d a d' : CreateZone e z d = (Ok a, d') -> zName a = NormalizeZone (zName z).
Proof.
  unfold CreateZone. case_bool_decide; [done|]. destruct (autocommit _ _ _) as [x d1] eqn:Ea.
  destruct (scanZone x) as [z'|[]| |] eqn:Ex; try done; [|by destruct (isPgCode _ _)].
  intros [= <- <-]. apply scanZone_Ok in Ex as ->. apply autocommit_Ok in Ea. case_bool_decide; [done|].
  by injection Ea as <- <-.
Qed.

Lemma UpdateZone_name e z d a d' : UpdateZone e z d = (Ok a, d') -> zName a = NormalizeZone (zName z).
Proof.
  unfold UpdateZone. destruct (autocommit _ _ _) as [y d1] eqn:Ea. intros [= Hy <-].
  apply scanZone_Ok in Hy as ->. apply autocommit_Ok in Ea.
  apply go_bind_Ok in Ea as ((zs & hit) & Hu & Ea). apply go_bind_Ok in Ea as (row & Hr & [= <- <-]).
  destruct hit as [|z1 hit]; [done|]. injection Hr as ->.
  eapply update_zones_head; [|exact Hu]. intros z2 z3 Hb%bumpSerial_name. exact Hb.
Qed.

Lemma create_zone_effect e1 e2 m w r w' : api_run e1 e2 (ApiCreateZone m) w = (r, w') -> effect e1 e2 (ApiCreateZone m) w r w'.
Proof.
  cbn [api_run]. unfold api_CreateZone. cbv zeta. destruct (ValidateName _) eqn:Hv; [apply rejected|].
  destruct (validateSOA _) eqn:Hs; [apply rejected|]. set (z := mkZone _ _ _ _ _ _ _ _ _ _) in *.
  apply (call_effect e1 e2 (ApiCreateZone m) (CreateZoneOp z) e1 w _ (CreateZone e1 z) (fun z => mkEvent KIND_ZONE (zName z) []));
    [by left|done|done|apply CreateZone_returns|].
  intros a d Hc%CreateZone_name _. unfold event_change. cbn [evKind evZone change_of]. by rewrite Hc.
Qed.

Lemma update_zone_effect e1 e2 m w r w' : api_run e1 e2 (ApiUpdateZone m) w = (r, w') -> effect e1 e2 (ApiUpdateZone m) w r w'.
Proof.
  cbn [api_run]. unfold api_UpdateZone, read. unfold st_bind at 1 2.
  pose proof (GetZone_returns e1 (qzName m) (tables w)) as Hg.
  destruct (GetZone e1 (qzName m) (tables w)) as [z0|x| |]; cbn [go_wrap]; [|apply rejected|done..].
  destruct (validateSOA _) eqn:Hs; [apply rejected|]. set (z := mkZone _ _ _ _ _ _ _ _ _ _) in *.
  apply (call_effect e1 e2 (ApiUpdateZone m) (UpdateZoneOp z) e2 w _ (UpdateZone e2 z) (fun z => mkEvent KIND_ZONE (zName z) []));
    [by right|done|done|apply UpdateZone_returns|].
  intros a d Hc%UpdateZone_name _. unfold event_change. cbn [evKind evZone change_of]. by rewrite Hc.
Qed.

(** A deletion and its announcement. *)
Lemma delete_effect e1 e2 o so e w code f kind zone name r w' :
  e = e1 \/ e = e2 -> valid_op so -> (forall d, run s e so d = f d) -> st_returns f ->
  (canonical o -> event_change (mkEvent kind zone name) = change_of so) ->
  (do! _ := call code f in notify kind zone name) w = (r, w') -> effect e1 e2 o w r w'.
Proof.
  intros He Hv Hrun Hret Hev. unfold call, notify, st_bind. specialize (Hret (tables w)).
  destruct (f (tables w)) as [[[]|x| |] d] eqn:E; cbn in *; try done; intros [= <- <-]; right; exists e, so;
    rewrite Hrun, E; cbn; (split; [done|]); (split; [done|]); (split; [done|]).
  - split; [done|]. by exists (mkEvent kind zone name).
  - done.
Qed.

Lemma api_run_effect e1 e2 o w r w' :
  encoder_total s -> api_run e1 e2 o w = (r, w') -> effect e1 e2 o w r w'.
Proof.
  intros Henc. destruct o as [m|m|n|m|m].
  - apply create_zone_effect.
  - apply update_zone_effect.
  - cbn [api_run]. unfold api_DeleteZone. cbv zeta. set (n1 := NormalizeZone n).
    apply (delete_effect e1 e2 _ (DeleteZoneOp n1) e1); [by left|done|done|apply DeleteZone_returns|].
    intros Hc. unfold event_change. cbn [evKind evZone change_of]. unfold n1. by rewrite Hc.
  - cbn [api_run]. unfold api_CreateRecord. cbv zeta. destruct (_ || _ || _); [apply rejected|].
    case_bool_decide as Hsoa; [apply rejected|]. destruct (SupportedType _) eqn:Hsup; cbn [negb]; [|apply rejected].
    destruct (ValidateName _) eqn:Hv; [apply rejected|].
    pose proof (BuildRData_returns (TypeCode (NormalizeType (crType m))) (TrimSpace (crRdata m))) as Hr.
    destruct (BuildRData _ _) as [wire|x| |] eqn:Hb; [|apply rejected|done..].
    set (ttl := if (crTtl m =? 0)%Z then _ else _). destruct (_ || _) eqn:Ht; [apply rejected|].
    apply orb_false_iff in Ht as [Ht1%Z.ltb_ge Ht2%Z.ltb_ge].
    destruct (accepted_record _ _ _ _ ttl _ Hv Hsoa Hsup Hb (conj Ht1 Ht2)) as [Hop Hch].
    set (rec := mkRecord _ _ _ _ _ _ _ _ _) in *.
    apply (call_effect e1 e2 (ApiCreateRecord m) (CreateRecordOp rec) e1 w _ (CreateRecord s e1 rec)
      (fun _ => mkEvent KIND_RECORD (NormalizeZone (crZone m)) (NormalizeName (NormalizeZone (crZone m)) (crName m))));
      [by left|done|done|by apply CreateRecord_returns|]. intros a d _ _. by rewrite Hch.
  - cbn [api_run]. unfold api_DeleteRecord. cbv zeta.
    set (z1 := NormalizeZone (drZone m)). set (n1 := NormalizeName z1 (drName m)).
    apply (delete_effect e1 e2 _ (DeleteRecordOp z1 n1 (drType m) (TrimSpace (drRdata m))) e1);
      [by left|done|done|apply DeleteRecord_returns|].
    intros [Hz Hn]. fold z1 in Hz, Hn. fold n1 in Hn. unfold event_change.
    cbn [evKind evZone evName change_of]. by rewrite Hz, Hn.
Qed.

(** ** The tables under the API *)

(** What any sequence of calls can make of empty tables, failures included. *)
Inductive api_reachable : DB -> Prop :=
| api_empty : api_reachable (mkDB [] [] 1)
| api_step e1 e2 o d : api_reachable d -> api_reachable (tables (snd (api_run e1 e2 o (mkWorld d [])))).

Lemma api_reachable_ok d : encoder_total s -> api_reachable d -> reachable s d /\ content_ok d.
Proof.
  intros Henc. induction 1 as [|e1 e2 o d _ [IHr IHc]].
  { split; [apply reachable_empty|by split]. }
  destruct (api_run e1 e2 o (mkWorld d [])) as [r w'] eqn:E.
  apply api_run_effect in E as [[-> _]|(e & so & _ & Hv & Ht & _)]; [done| |done]. cbn [snd]. rewrite Ht.
  split; [by apply reachable_step|by apply run_content].
Qed.

(** C9. The API lets in only what can be served: in tables that came about by API calls, with
    any failures, every zone has a valid name and an SOA that passed its check, and every
    record has a valid name, a supported type other than SOA, data that encode, and a TTL of
    at most 2^31 - 1. *)
Theorem Api_content d : encoder_total s -> api_reachable d -> content_ok d.
Proof. intros Henc Hd. by apply api_reachable_ok. Qed.


Lemma content_text d : content_ok d -> text_ok d.
Proof.
  intros [Hz _]. eapply Forall_impl; [exact Hz|]. intros z [Hv%valid_plain _] Hin.
  rewrite Forall_forall in Hv. by apply Hv, plain_byte_facts in Hin as (_ & _ & _ & ?).
Qed.

Lemma content_soa d : content_ok d -> Forall soa_ascii (zones d) -> soa_ok d.
Proof.
  intros [Hz _] Ha. unfold soa_ok. rewrite Forall_forall in *. intros z Hin.
  destruct (validateSOA_encodes z (proj2 (Hz z Hin)) (Ha z Hin)) as [rr ->]. done.
Qed.

Context `{GoMapsLaws}.

Lemma invalidate_for_change {S} ev (c : CachedResolver S) :
  invalidate_for ev c = Invalidate (fst (event_change ev)) (snd (event_change ev)) c.
Proof. unfold invalidate_for, event_change. by destruct (evKind ev). Qed.

End Calls.
