(* ===== verification/ApiRuns.v ===== *)
(** * The API at work

    Concrete calls: the properties of the API applied to them, and the calls after which the
    program does not do what it should. *)

From Stdlib Require Import ZArith Lia Ascii String.
From stdpp Require Import base list strings.
From S2P Require Import Prelude GoStrings Message WireNames MessageCodec Names RData RDataCorrect.
From S2P Require Import Cache CachedResolver Resolver CachedResolverCorrect Handler HandlerCorrect HandlerAnswers.
From S2P Require Import HandlerResponses HandlerRuns Store StoreCorrect StoreQueries Api ApiCorrect.

#[local] Existing Instance unicode_id.
#[local] Existing Instance pg_ref.
#[local] Existing Instance pg_ref_laws.
#[local] Existing Instance maps_ref.
#[local] Existing Instance maps_ref_laws.

Lemma upper_byte_facts c : is_ascii c = true -> is_ascii (upper_byte c) = true /\ upper_byte (upper_byte c) = upper_byte c.
Proof. destruct c as [[] [] [] [] [] [] [] []]; vm_compute; by intros. Qed.

Lemma unicode_id_laws : GoUnicodeLaws.
Proof.
  constructor. intros t. unfold ToUpper. destruct (forallb is_ascii t) eqn:E.
  - apply forallb_Forall in E.
    assert (forallb is_ascii (upper_byte <$> t) = true) as ->.
    { apply forallb_Forall. apply Forall_fmap. eapply Forall_impl; [exact E|]. intros c Hc. by apply upper_byte_facts. }
    induction E as [|c t Hc _ IH]; [done|]. rewrite !fmap_cons, IH. f_equal. by apply upper_byte_facts.
  - cbn. by rewrite E.
Qed.
#[local] Existing Instance unicode_id_laws.

(** A zone with two addresses at one name. *)
Definition api_ops : list api_op :=
  [ ApiCreateZone (mkZoneRequest (lit " Example.COM. ") [] (lit "admin@example.com") 0 0 0 60);
    ApiCreateRecord (mkCreateRecordRequest (lit "example.com") (lit "www") (lit "a") 0 (lit "192.0.2.1"));
    ApiCreateRecord (mkCreateRecordRequest (lit "example.com.") (lit "WWW.example.com") (lit "A") 60 (lit " 192.0.2.2 ")) ].

Definition api_db : DB :=
  foldl (fun d o => tables (snd (api_run ref_store env0 env0 o (mkWorld d [])))) (mkDB [] [] 1) api_ops.

Lemma api_db_reachable : api_reachable ref_store api_db.
Proof. unfold api_db, api_ops. cbn [foldl]. repeat apply api_step. apply api_empty. Qed.

Lemma api_db_contents :
  (fun r => (rowName r, rowType r, rowTTL r, rowRData r)) <$> records api_db =
  [ (lit "www.example.com", lit "A", 60%Z, lit "192.0.2.1"); (lit "www.example.com", lit "A", 60%Z, lit "192.0.2.2") ].
Proof. vm_compute. reflexivity. Qed.

Lemma Api_content_witness : content_ok api_db.
Proof. exact (Api_content ref_store api_db ref_store_total api_db_reachable). Defined.

Lemma Api_lists_total_witness :
  returns (fst (api_ListZones env0 (-5) (lit "x") (mkWorld api_db []))) /\
  returns (fst (api_ListRecords ref_store env0 env0 (lit "example.com") (-5) (lit "x") (mkWorld api_db []))).
Proof. exact (Api_lists_total ref_store env0 env0 (lit "example.com") (-5) (lit "x") (mkWorld api_db []) ref_store_total). Defined.

(** A CNAME where there are addresses is refused. *)
Definition bad_cname : api_op :=
  ApiCreateRecord (mkCreateRecordRequest (lit "example.com") (lit "www") (lit "CNAME") 60 (lit "example.org.")).


(** A deletion, and the caches in front of it. *)
Definition delete_www : api_op :=
  ApiDeleteRecord (mkDeleteRecordRequest (lit "Example.com.") (lit "www") (lit "A") (lit "192.0.2.1")).

Definition api_cached : CachedResolver Conn :=
  NewCachedResolver (mkConn api_db (fun _ => env0) 0) 1000 0 (fun n => Z.of_nat n).


(** ** Where the API goes wrong *)

Abbreviation lookup_www c :=
  (fst (cached_LookupName (H0 := StoreResolver ref_store) (lit "example.com") (lit "www.example.com") c)).

(** The caches after a query for the name. *)
Definition warm : CachedResolver Conn :=
  snd (cached_LookupName (H0 := StoreResolver ref_store) (lit "example.com") (lit "www.example.com") api_cached).

(** A deletion whose zone ends in two dots: the handler normalises the zone to "example.com."
    and announces that, while the store normalises once more and deletes in "example.com". *)
Definition delete_dots : api_op :=
  ApiDeleteRecord (mkDeleteRecordRequest (lit "example.com..") (lit "www") (lit "A") (lit "192.0.2.1")).

Definition after_dots : world := snd (api_run ref_store env0 env0 delete_dots (mkWorld api_db [])).

(** Normalising a second time changes a name, so a deletion can be announced for another zone
    than the one it changed: the record is gone from the tables, and the caches, which were
    invalidated for the announced zone, still serve it. *)
Theorem delete_announces_other_zone :
  fst (api_run ref_store env0 env0 delete_dots (mkWorld api_db [])) = Ok tt /\
  announced after_dots = [mkEvent KIND_RECORD (lit "example.com.") (lit "www.example.com.")] /\
  length (records (tables after_dots)) = 1 /\
  match announced after_dots with
  | [ev] =>
    match invalidate_for ev (now_serves (tables after_dots) warm) with
    | Ok c => match lookup_www c with Ok set => length (Records set) = 2 | _ => False end
    | _ => False
    end
  | _ => False
  end.
Proof. vm_compute. done. Qed.

(** Unicode tables that map the Kelvin sign (three bytes) to k. *)
Fixpoint kelvin_lower (t : gostring) : gostring :=
  match t with
  | a :: ((b :: c :: t'') as t') =>
    if bool_decide ([a; b; c] = rune3 0xE2 0x84 0xAA) then "k"%char :: kelvin_lower t'' else lower_byte a :: kelvin_lower t'
  | a :: t' => lower_byte a :: kelvin_lower t'
  | [] => []
  end.

Definition unicode_kelvin : GoUnicode := Build_GoUnicode kelvin_lower (fun t => t).

(** [validateSOA] checks the lower-cased names and [soaRR] encodes the names as they are: a name
    server whose label of 22 Kelvin signs is 22 bytes in lower case passes the check, and
    makes every SOA query of the zone fail. *)
Theorem validateSOA_accepts_unencodable :
  let z := mkZone (lit "example.com") (mjoin (replicate 22 (rune3 0xE2 0x84 0xAA)) ++ lit ".example.")
             (lit "admin@example.com") 1 3600 900 604800 300 0 0 in
  @validateSOA unicode_kelvin z = None /\ soaRR z = Err PackLabelTooLong.
Proof. vm_compute. done. Qed.
