(* ===== verification/Events.v ===== *)
(** * The event bus (src/internal/events/bus.go) and its wiring (src/cmd/sharddnsd/main.go)

    A bus publishes the changes of one instance and hands the changes of the others to a
    handler.  Protocol buffers and NATS are not part of the repository: the encoding is a
    parameter with the one law the code relies on, and what NATS does with a message is left
    to Cluster. *)

From Stdlib Require Import ZArith Lia Ascii String.
From stdpp Require Import base list strings gmap.
From S2P Require Import Prelude GoStrings Store Resolver Cache CachedResolver Api.

(** [ChangeEvent] as it is sent, with its origin. *)
Record BusEvent := mkBusEvent { evOrigin : gostring; evChange : ChangeEvent }.

(** [proto.Marshal] and [proto.Unmarshal] at [ChangeEvent]. *)
Class Proto := {
  Marshal : BusEvent -> option bytes;
  Unmarshal : bytes -> option BusEvent;
}.

Definition ascii_text (t : gostring) : Prop := Forall (fun c => is_ascii c = true) t.

(** Decoding inverts encoding, and strings of ASCII bytes, being valid UTF-8, are encodable. *)
Class ProtoLaws `{Proto} : Prop := {
  Unmarshal_Marshal ev b : Marshal ev = Some b -> Unmarshal b = Some ev;
  Marshal_ascii ev :
    ascii_text (evOrigin ev) -> ascii_text (evZone (evChange ev)) -> ascii_text (evName (evChange ev)) ->
    exists b, Marshal ev = Some b;
}.

(** ** encoding/hex *)
Definition hextable : gostring := lit "0123456789abcdef".

Definition hex_digit (n : Z) : ascii := default "0"%char (hextable !! Z.to_nat n).

Definition EncodeToString (b : bytes) : gostring :=
  flat_map (fun c => [hex_digit (Z.shiftr (bz c) 4); hex_digit (Z.land (bz c) 15)]) b.

(** ** The bus *)
Inductive natsStatus := CONNECTED | RECONNECTING | CLOSED.

#[export] Instance natsStatus_eq_dec : EqDecision natsStatus.
Proof. solve_decision. Defined.

Record Bus := mkBus { nc : natsStatus; subject : gostring; origin : gostring }.

Inductive busError := RandError | ConnectError.

(** [rand.Read] gives eight bytes or fails; [dial] is whether [nats.Connect] succeeds. *)
Definition Connect (id : option bytes) (dial : bool) (subj : gostring) : go busError Bus :=
  match id with
  | None => Err RandError
  | Some id => if dial then Ok (mkBus CONNECTED subj (EncodeToString id)) else Err ConnectError
  end.

Definition Healthy (b : Bus) : bool := bool_decide (nc b = CONNECTED).

Definition Close (b : Bus) : Bus := mkBus CLOSED (subject b) (origin b).

Section Bus.
Context `{Proto}.

(** What [Publish] hands to [nc.Publish], if the event can be encoded. *)
Definition Publish (b : Bus) (kind : Kind) (zone name : gostring) : option (gostring * bytes) :=
  match Marshal (mkBusEvent (origin b) (mkEvent kind zone name)) with
  | None => None
  | Some data => Some (subject b, data)
  end.

(** The callback [Subscribe] registers: the event it passes to the handler, if any. *)
Definition receive (b : Bus) (data : bytes) : option ChangeEvent :=
  match Unmarshal data with
  | None => None
  | Some ev => if bool_decide (evOrigin ev = origin b) then None else Some (evChange ev)
  end.

(** ** Wiring *)

(** [notify] of main.go: the local caches first, then the bus; either may be missing. *)
Definition daemon_notify `{GoMaps} {S} (cached : option (CachedResolver S)) (bus : option Bus)
    (kind : Kind) (zone name : gostring)
    : go storeError (option (CachedResolver S) * option (gostring * bytes)) :=
  let! cached_name :=
    match cached with
    | None => Ok (None, name)
    | Some c =>
      let name := match kind with KIND_ZONE => [] | _ => name end in
      let! c := Invalidate zone name c in Ok (Some c, name)
    end in
  Ok (fst cached_name, match bus with None => None | Some b => Publish b kind zone (snd cached_name) end).

(** The subscriber of main.go. *)
Definition on_message `{GoMaps} {S} (b : Bus) (data : bytes) (c : CachedResolver S)
    : go storeError (CachedResolver S) :=
  match receive b data with
  | None => Ok c
  | Some ev => invalidate_for ev c
  end.
End Bus.

(** ** Origins *)
Lemma hex_digit_inj a b : (0 <= a < 16)%Z -> (0 <= b < 16)%Z -> hex_digit a = hex_digit b -> a = b.
Proof.
  intros Ha Hb. assert (Hall : forall n, (n < 16)%nat -> hex_digit (Z.of_nat n) = hex_digit b -> Z.of_nat n = b).
  { assert (Hb' : exists m, (m < 16)%nat /\ b = Z.of_nat m) by (exists (Z.to_nat b); lia).
    destruct Hb' as (m & Hm & ->). clear - Hm. intros n Hn.
    do 16 (destruct n as [|n]; [do 16 (destruct m as [|m]; [done|]); lia|]). lia. }
  specialize (Hall (Z.to_nat a) ltac:(lia)). rewrite Z2Nat.id in Hall by lia. exact Hall.
Qed.

Lemma hex_byte c : bz c = (16 * Z.shiftr (bz c) 4 + Z.land (bz c) 15)%Z.
Proof.
  rewrite Z.shiftr_div_pow2 by done. change 15%Z with (Z.ones 4). rewrite Z.land_ones by done.
  apply Z.div_mod. done.
Qed.

Lemma hex_ranges c : (0 <= Z.shiftr (bz c) 4 < 16)%Z /\ (0 <= Z.land (bz c) 15 < 16)%Z.
Proof.
  pose proof (bz_range c). rewrite Z.shiftr_div_pow2 by done. change 15%Z with (Z.ones 4).
  rewrite Z.land_ones by done. change (2 ^ 4)%Z with 16%Z. split.
  - split; [apply Z.div_pos; lia|apply Z.div_lt_upper_bound; lia].
  - apply Z.mod_pos_bound. lia.
Qed.

(** Instances with different random bytes have different origins. *)
Lemma EncodeToString_inj b1 b2 : EncodeToString b1 = EncodeToString b2 -> b1 = b2.
Proof.
  revert b2. induction b1 as [|c1 b1 IH]; intros [|c2 b2]; [done..|]. cbn. intros [= Hh Hl Hr].
  destruct (hex_ranges c1) as [? ?], (hex_ranges c2) as [? ?].
  apply hex_digit_inj in Hh, Hl; [|done..]. f_equal; [|by apply IH].
  apply bz_inj. rewrite (hex_byte c1), (hex_byte c2). congruence.
Qed.

Lemma EncodeToString_ascii b : ascii_text (EncodeToString b).
Proof.
  unfold ascii_text. induction b as [|c b IH]; [constructor|].
  assert (Hd : forall n, (0 <= n < 16)%Z -> is_ascii (hex_digit n) = true).
  { intros n Hn. assert (Hn' : exists m, (m < 16)%nat /\ n = Z.of_nat m) by (exists (Z.to_nat n); lia).
    destruct Hn' as (m & Hm & ->). do 16 (destruct m as [|m]; [done|]). lia. }
  destruct (hex_ranges c). cbn. constructor; [by apply Hd|]. constructor; [by apply Hd|done].
Qed.

Section Delivery.
Context `{ProtoLaws}.

(** An instance gets the changes of the others as they were published, and never its own. *)
Lemma Publish_receive b b' kind zone name subj data :
  Publish b kind zone name = Some (subj, data) ->
  subj = subject b /\
  receive b' data = if bool_decide (origin b = origin b') then None else Some (mkEvent kind zone name).
Proof.
  unfold Publish, receive. destruct (Marshal _) as [m|] eqn:E; [|done]. intros [= <- <-].
  split; [done|]. by rewrite (Unmarshal_Marshal _ _ E).
Qed.
End Delivery.
