(* ===== verification/Cluster.v ===== *)
(** * Instances that share a database (src/cmd/sharddnsd/main.go, src/internal/events/bus.go)

    Any number of instances in front of one database, each with its caches, a bus, and the
    goroutines that load, invalidate, publish and receive.  The steps are the atomic actions
    of the code, in any interleaving; the network may disconnect an instance, which then
    misses messages, and may lose messages altogether. *)

From Stdlib Require Import ZArith Lia Ascii String.
From stdpp Require Import base list strings gmap relations.
From S2P Require Import Prelude GoStrings Message WireNames Names RData RDataCorrect.
From S2P Require Import HandlerResponses Api Store StoreCorrect.
From S2P Require Import StoreQueries ApiCorrect Events Cache Resolver CachedResolver CachedResolverCorrect CacheConcurrency.

(** ** Invalidation as a program *)

(** The atomic actions of an invalidation, on either cache of an instance. *)
Inductive caction :=
| OnZones (a : action)
| OnNames (a : action).

Definition zpart (l : list caction) : list action :=
  omap (fun a => match a with OnZones a => Some a | OnNames _ => None end) l.
Definition npart (l : list caction) : list action :=
  omap (fun a => match a with OnNames a => Some a | OnZones _ => None end) l.

(** The keys the loop of [Invalidate] deletes. *)
Fixpoint Invalidate_keys (fuel : nat) (zone name : gostring) : list gostring :=
  match fuel with
  | 0 => []
  | S fuel' =>
    names_key zone name ::
    (if bool_decide (name = zone) then []
     else match IndexByte name "."%char with
          | None => []
          | Some i => Invalidate_keys fuel' zone (drop (i + 1) name)
          end)
  end.

Definition Invalidate_actions (zone name : gostring) : list caction :=
  (OnZones <$> Clear_actions) ++
  (OnNames <$> (if bool_decide (name = []) then DeleteGroup_actions zone
                else flat_map Delete_actions (Invalidate_keys (length name + 1) zone name))).

Definition InvalidateAll_actions : list caction := (OnZones <$> Clear_actions) ++ (OnNames <$> Clear_actions).

(** What [notify] does with the caches of its own instance, and the subscriber with those of
    the others. *)
Definition event_actions (ev : ChangeEvent) : list caction :=
  Invalidate_actions (fst (event_change ev)) (snd (event_change ev)).

Lemma zpart_app l1 l2 : zpart (l1 ++ l2) = zpart l1 ++ zpart l2.
Proof. apply omap_app. Qed.
Lemma npart_app l1 l2 : npart (l1 ++ l2) = npart l1 ++ npart l2.
Proof. apply omap_app. Qed.
Lemma zpart_zones l : zpart (OnZones <$> l) = l.
Proof. induction l as [|a l IH]; [done|]. cbn. by f_equal. Qed.
Lemma zpart_names l : zpart (OnNames <$> l) = [].
Proof. by induction l. Qed.
Lemma npart_zones l : npart (OnZones <$> l) = [].
Proof. by induction l. Qed.
Lemma npart_names l : npart (OnNames <$> l) = l.
Proof. induction l as [|a l IH]; [done|]. cbn. by f_equal. Qed.
Create Rewrite HintDb parts.
#[export] Hint Rewrite zpart_app npart_app zpart_zones zpart_names npart_zones npart_names app_nil_l app_nil_r : parts.

Section Programs.
Context `{GoMaps}.

Lemma acts_app {V} l1 l2 (c : Cache V) : acts (l1 ++ l2) c = acts l2 (acts l1 c).
Proof. unfold acts. by rewrite foldl_app. Qed.

Lemma Invalidate_loop_acts fuel zone name ns :
  length name < fuel ->
  Invalidate_loop fuel zone name ns = Ok (acts (flat_map Delete_actions (Invalidate_keys fuel zone name)) ns).
Proof.
  revert name ns. induction fuel as [|fuel IH]; intros name ns Hf; [lia|].
  cbn [Invalidate_loop Invalidate_keys flat_map]. rewrite acts_app, Delete_acts. case_bool_decide as Hz; [done|].
  destruct (IndexByte name "."%char) as [i|] eqn:Hi; [|done]. apply IH.
  apply IndexByte_Some in Hi as (l & r & -> & <- & _). rewrite length_drop, length_app in *. cbn in *. lia.
Qed.

(** Run without interruption, the actions are the methods of the cached resolver. *)
Lemma Invalidate_acts {S} zone name (c : CachedResolver S) :
  let l := Invalidate_actions zone name in
  Invalidate zone name c =
  Ok (set_names (set_zones c (acts (zpart l) (CachedResolver.zones c))) (acts (npart l) (names c))).
Proof.
  cbv zeta. unfold Invalidate_actions, Invalidate. autorewrite with parts. rewrite Clear_acts.
  case_bool_decide; [by rewrite DeleteGroup_acts|]. cbn [names set_zones].
  by rewrite Invalidate_loop_acts by lia.
Qed.

Lemma InvalidateAll_acts {S} (c : CachedResolver S) :
  let l := InvalidateAll_actions in
  InvalidateAll c =
  set_names (set_zones c (acts (zpart l) (CachedResolver.zones c))) (acts (npart l) (names c)).
Proof. cbv zeta. unfold InvalidateAll_actions, InvalidateAll. autorewrite with parts. by rewrite !Clear_acts. Qed.
End Programs.

(** ** Instances *)

(** A goroutine that invalidates, and then publishes if it belongs to a write. *)
Record task := mkTask { todo : list caction; after : option ChangeEvent }.

Record node := mkNode {
  bus : Bus;
  zoneCache : Cache (option Zone);
  zoneLoads : list (load (V := option Zone));
  nameCache : Cache NameSet;
  nameLoads : list (load (V := NameSet));
  tasks : list task;
  (** messages received and not yet handled; published while disconnected and not yet sent *)
  inbox : list bytes;
  outbox : list bytes;
}.

Definition connected (x : node) : bool := Healthy (bus x).

Definition with_zones (x : node) c ls : node :=
  mkNode (bus x) c ls (nameCache x) (nameLoads x) (tasks x) (inbox x) (outbox x).
Definition with_names (x : node) c ls : node :=
  mkNode (bus x) (zoneCache x) (zoneLoads x) c ls (tasks x) (inbox x) (outbox x).
Definition with_tasks (x : node) ts : node :=
  mkNode (bus x) (zoneCache x) (zoneLoads x) (nameCache x) (nameLoads x) ts (inbox x) (outbox x).
Definition with_inbox (x : node) ms : node :=
  mkNode (bus x) (zoneCache x) (zoneLoads x) (nameCache x) (nameLoads x) (tasks x) ms (outbox x).
Definition with_outbox (x : node) ms : node :=
  mkNode (bus x) (zoneCache x) (zoneLoads x) (nameCache x) (nameLoads x) (tasks x) (inbox x) ms.
Definition with_status (x : node) st : node :=
  mkNode (mkBus st (subject (bus x)) (origin (bus x))) (zoneCache x) (zoneLoads x) (nameCache x) (nameLoads x)
    (tasks x) (inbox x) (outbox x).

Definition new_node (b : Bus) (maxEntries ttl : Z) : node :=
  mkNode b (New (option Zone) (Z.quot maxEntries 8 + 64) ttl) [] (New NameSet maxEntries ttl) [] [] [] [].

(** [lost]: events that were published but never reach the other instances. *)
Record cluster := mkCluster { cdb : DB; nodes : list node; lost : list BusEvent }.

Definition set_node (c : cluster) (i : nat) (x : node) : cluster :=
  mkCluster (cdb c) (<[i := x]> (nodes c)) (lost c).

(** NATS hands a message to every instance that is connected and subscribed to its subject,
    the sender included. *)
Definition accept (subj : gostring) (ms : list bytes) (x : node) : node :=
  if connected x && bool_decide (subject (bus x) = subj) then with_inbox x (inbox x ++ ms) else x.

Definition broadcast (subj : gostring) (ms : list bytes) (c : cluster) : cluster :=
  mkCluster (cdb c) (accept subj ms <$> nodes c) (lost c).

Definition lose (be : BusEvent) (c : cluster) : cluster := mkCluster (cdb c) (nodes c) (be :: lost c).

(** The group of a key of the cache of names: its zone. *)
Definition names_group (k : gostring) : gostring :=
  match IndexByte k nul with Some i => take i k | None => k end.

(** The event of a write as [notify] publishes it: a zone event carries no name. *)
Definition announce (ev : ChangeEvent) : ChangeEvent :=
  mkEvent (evKind ev) (fst (event_change ev)) (snd (event_change ev)).

Section Steps.
Context `{GoUnicode} `{Postgres} `{GoMaps} `{Proto} (s : Store).

(** What the caches may hold of a database: the answers of the store. *)
Definition zone_source (d : DB) (q : gostring) (r : option Zone) : Prop := store_zone_of d q r.
Definition name_source (d : DB) (k : gostring) (set : NameSet) : Prop :=
  forall z n, nul ∉ z -> k = names_key z n -> store_names_of s d z n set.

Abbreviation zone_world d x iv := (mkWorld (zoneCache x) (zone_source d) (zoneLoads x) iv).
Abbreviation name_world d x iv := (mkWorld (nameCache x) (name_source d) (nameLoads x) iv).

(** What the instances do by themselves: the goroutines of a write, of the subscriber and of
    the reconnect handler, one action at a time. *)
Inductive internal : cluster -> cluster -> Prop :=
| int_zones c i x t1 a l af t2 :
    nodes c !! i = Some x -> tasks x = t1 ++ mkTask (OnZones a :: l) af :: t2 ->
    (epoch (zoneCache x) + 1 < 2 ^ 64)%Z ->
    internal c (set_node c i
      (with_tasks (with_zones x (act a (zoneCache x)) (zoneLoads x)) (t1 ++ mkTask l af :: t2)))
| int_names c i x t1 a l af t2 :
    nodes c !! i = Some x -> tasks x = t1 ++ mkTask (OnNames a :: l) af :: t2 ->
    (epoch (nameCache x) + 1 < 2 ^ 64)%Z ->
    internal c (set_node c i
      (with_tasks (with_names x (act a (nameCache x)) (nameLoads x)) (t1 ++ mkTask l af :: t2)))
| int_done c i x t1 t2 :
    nodes c !! i = Some x -> tasks x = t1 ++ mkTask [] None :: t2 ->
    internal c (set_node c i (with_tasks x (t1 ++ t2)))
| int_publish c i x t1 ev t2 subj m :
    nodes c !! i = Some x -> tasks x = t1 ++ mkTask [] (Some ev) :: t2 -> connected x = true ->
    Publish (bus x) (evKind ev) (evZone ev) (evName ev) = Some (subj, m) ->
    internal c (broadcast subj [m] (set_node c i (with_tasks x (t1 ++ t2))))
| int_queue c i x t1 ev t2 subj m :
    nodes c !! i = Some x -> tasks x = t1 ++ mkTask [] (Some ev) :: t2 -> connected x = false ->
    Publish (bus x) (evKind ev) (evZone ev) (evName ev) = Some (subj, m) ->
    internal c (set_node c i (with_outbox (with_tasks x (t1 ++ t2)) (outbox x ++ [m])))
| int_deliver c i x m ms :
    nodes c !! i = Some x -> inbox x = m :: ms ->
    internal c (set_node c i (with_tasks (with_inbox x ms)
      (tasks x ++ match receive (bus x) m with Some ev => [mkTask (event_actions ev) None] | None => [] end)))
| int_reconnect c i x :
    nodes c !! i = Some x -> nc (bus x) = RECONNECTING ->
    internal c (broadcast (subject (bus x)) (outbox x) (set_node c i
      (with_status (with_outbox (with_tasks x (tasks x ++ [mkTask InvalidateAll_actions None])) []) CONNECTED))).

(** Everything that can happen: also loads, writes through any instance, and the network. *)
Inductive cstep : cluster -> cluster -> Prop :=
| c_internal c c' : internal c c' -> cstep c c'
| c_zone_load c i x zc zl :
    nodes c !! i = Some x ->
    step (fun _ => []) (zone_world (cdb c) x []) (mkWorld zc (zone_source (cdb c)) zl []) ->
    cstep c (set_node c i (with_zones x zc zl))
| c_name_load c i x zc zl :
    nodes c !! i = Some x ->
    step names_group (name_world (cdb c) x []) (mkWorld zc (name_source (cdb c)) zl []) ->
    cstep c (set_node c i (with_names x zc zl))
| c_write c i x e so ev d' :
    nodes c !! i = Some x -> valid_op so -> run s e so (cdb c) = (Ok tt, d') ->
    event_change ev = change_of so ->
    cstep c (set_node (mkCluster d' (nodes c) (lost c)) i
      (with_tasks x (tasks x ++ [mkTask (event_actions ev) (Some (announce ev))])))
| c_fail c e so r d' :
    valid_op so -> run s e so (cdb c) = (r, d') -> r <> Ok tt -> commit_applied e = false ->
    cstep c (mkCluster d' (nodes c) (lost c))
| c_disconnect c i x ms rest :
    nodes c !! i = Some x -> nc (bus x) = CONNECTED -> inbox x = ms ++ rest ->
    cstep c (set_node c i (with_status (with_inbox x ms) RECONNECTING))
| c_stray c i x m :
    (* anything else on the subject *)
    nodes c !! i = Some x -> cstep c (set_node c i (with_inbox x (inbox x ++ [m])))
| c_drop c i x m1 m m2 :
    (* a slow consumer *)
    nodes c !! i = Some x -> inbox x = m1 ++ m :: m2 ->
    cstep c (mkCluster (cdb c) (<[i := with_inbox x (m1 ++ m2)]> (nodes c)) (omap Unmarshal [m] ++ lost c))
| c_unpublished c i x t1 ev t2 :
    (* an error of [nc.Publish], or a message that never arrived anywhere *)
    nodes c !! i = Some x -> tasks x = t1 ++ mkTask [] (Some ev) :: t2 ->
    cstep c (lose (mkBusEvent (origin (bus x)) ev) (set_node c i (with_tasks x (t1 ++ t2)))).

(** Instances start with empty caches, on one subject, each with its own random bytes, over a
    database that the API has filled. *)
Record setting := mkSetting { sId : bytes; sMaxEntries : Z; sTTL : Z }.

Definition start (subj : gostring) (x : setting) : node :=
  new_node (mkBus CONNECTED subj (EncodeToString (sId x))) (sMaxEntries x) (sTTL x).

Inductive cluster_reaches : cluster -> Prop :=
| cluster_start subj l d :
    api_reachable s d -> NoDup (sId <$> l) -> cluster_reaches (mkCluster d (start subj <$> l) [])
| cluster_step c c' : cluster_reaches c -> cstep c c' -> cluster_reaches c'.

(** Nothing is under way that concerns instance [i]. *)
Definition settled (c : cluster) (x : node) : Prop :=
  nc (bus x) = CONNECTED /\ tasks x = [] /\ inbox x = [] /\ lost c = [] /\
  forall y, y ∈ nodes c -> outbox y = [] /\ forall t, t ∈ tasks y -> after t = None.

(** Nothing is under way anywhere. *)
Definition quiet (c : cluster) : Prop :=
  forall x, x ∈ nodes c -> nc (bus x) = CONNECTED /\ tasks x = [] /\ inbox x = [] /\ outbox x = [].

(** The resolver of an instance between two of its steps. *)
Definition resolver_of (c : cluster) (x : node) (es : nat -> Env) (clk : nat -> Z) : CachedResolver Conn :=
  mkCached (mkConn (cdb c) es 0) (zoneCache x) (nameCache x) clk 0.
End Steps.
