(* ===== verification/ClusterCorrect.v ===== *)
(** * Coherence of the instances

    However loads, writes, invalidations and messages interleave, and whichever instances
    disconnect meanwhile, an entry of a cache is either an answer of the current database or
    covered by an invalidation still under way.  The instances come to rest by themselves,
    and at rest every instance answers from the current database. *)

From Stdlib Require Import ZArith Lia Ascii String.
From stdpp Require Import base list strings gmap relations.
From S2P Require Import Prelude GoStrings Message WireNames Names RData RDataCorrect.
From S2P Require Import Handler HandlerResponses Api Store StoreCorrect.
From S2P Require Import StoreQueries ApiCorrect Events Cache Resolver CachedResolver CachedResolverCorrect CacheConcurrency.
From S2P Require Import Cluster.

(** ** What a write changes is covered by its program *)
Section Coverage.
Context `{GoMaps}.

Lemma Clear_covers group_of k : covers group_of Clear_actions k.
Proof.
  constructor. exists (AClear (shardFor k)). split; [|done].
  apply list_elem_of_fmap_2, elem_of_seq. pose proof (shardFor_lt k). lia.
Qed.

Lemma DeleteGroup_covers group_of k : covers group_of (DeleteGroup_actions (group_of k)) k.
Proof.
  constructor. exists (ADeleteGroup (shardFor k) (group_of k)). split; [|done].
  apply (list_elem_of_fmap_2 (fun i => ADeleteGroup i (group_of k))), elem_of_seq. pose proof (shardFor_lt k). lia.
Qed.

Lemma covers_app_r group_of l1 l2 k : covers group_of l2 k -> covers group_of (l1 ++ l2) k.
Proof. intros Hl. induction l1 as [|a l1 IH]; [done|]. by apply covers_later. Qed.

Lemma covers_app_l group_of l1 l2 k : covers group_of l1 k -> covers group_of (l1 ++ l2) k.
Proof.
  induction 1 as [l k (a & Ha & Hr)|a l k _ IH]; [|by apply covers_later].
  apply covers_bump. exists a. split; [|done]. apply elem_of_app. by left.
Qed.

Lemma Delete_covers group_of keys k : k ∈ keys -> covers group_of (flat_map Delete_actions keys) k.
Proof.
  induction keys as [|k' keys IH]; [by intros ?%not_elem_of_nil|]. intros [->|Hk]%elem_of_cons; cbn [flat_map].
  - apply covers_app_l. constructor. exists (ADelete k'). split; [left|done].
  - by apply covers_app_r, IH.
Qed.

Lemma names_group_key z n : nul ∉ z -> names_group (names_key z n) = z.
Proof.
  intros Hz. unfold names_group, names_key. cbn [app]. rewrite IndexByte_app by done. by rewrite take_app_length.
Qed.

(** The loop reaches every name between a name and the apex. *)
Lemma Invalidate_keys_between fuel zone name x :
  length name < fuel -> at_or_below zone name -> at_or_below x name -> at_or_below zone x ->
  names_key zone x ∈ Invalidate_keys fuel zone name.
Proof.
  revert name. induction fuel as [|fuel IH]; intros name Hf Hzn Hxn Hzx; [lia|]. cbn [Invalidate_keys].
  destruct Hxn as [<-|Hxn]; [left|]. right. case_bool_decide as Hz.
  { subst zone. apply below_length in Hxn. destruct Hzx as [->|Hzx%below_length]; lia. }
  destruct Hzn as [?|Hzn]; [done|].
  destruct (IndexByte name "."%char) as [i|] eqn:Hi.
  - apply IndexByte_Some in Hi as (l & r & -> & <- & Hl). rewrite drop_past. rewrite length_app in Hf. cbn in Hf.
    apply below_step in Hxn, Hzn; [|done..]. apply IH; [lia| | |done].
    + destruct Hzn as [->|?]; [by left|by right].
    + destruct Hxn as [->|?]; [by left|by right].
  - apply IndexByte_None in Hi. by apply below_no_dot in Hxn.
Qed.

Context `{GoUnicode} `{Postgres} (s : Store).

(** A cached set of records stays an answer, or the program of the change removes it. *)
Lemma change_covered zone name d d' k :
  filter (outside zone name) (records d') = filter (outside zone name) (records d) ->
  (name = [] \/ at_or_below zone name) ->
  (forall set, name_source s d k set -> name_source s d' k set) \/
  covers names_group (npart (Invalidate_actions zone name)) k.
Proof.
  intros Hrows Hname. unfold Invalidate_actions. autorewrite with parts. case_bool_decide as Hne.
  - destruct (decide (names_group k = zone)) as [<-|Hg]; [right; apply DeleteGroup_covers|left].
    intros set Hset z n Hz ->. rewrite names_group_key in Hg by done. destruct (Hset z n Hz eq_refl) as [Hl Hab].
    split; [|done]. intros Hb. eapply lookup_answer_transfer; [exact Hrows| |exact (Hl Hb)].
    intros r Hrz _. unfold outside. rewrite bool_decide_eq_true_2 by done. congruence.
  - destruct Hname as [?|Hname]; [done|].
    destruct (decide (k ∈ Invalidate_keys (length name + 1) zone name)) as [Hin|Hin]; [right; by apply Delete_covers|left].
    intros set Hset z n Hz ->. destruct (Hset z n Hz eq_refl) as [Hl Hab].
    split; [|done]. intros Hb. eapply lookup_answer_transfer; [exact Hrows| |exact (Hl Hb)].
    intros r Hrz Hrn. unfold outside. rewrite bool_decide_eq_false_2 by done. intros [Hz1 Hn1].
    subst name. assert (zone = z) as -> by congruence. apply Hin.
    apply Invalidate_keys_between; [lia|done|done|].
    destruct (ancestors_chain (rowName r) z n Hname Hrn) as [->|[?|?]]; [by left|by right|done].
Qed.
End Coverage.

(** ** The invariant *)

Definition after_events (x : node) : list BusEvent :=
  omap (fun t => mkBusEvent (origin (bus x)) <$> after t) (tasks x).

Section Invariant.
Context `{GoUnicodeLaws} `{PostgresLaws} `{GoMapsLaws} `{ProtoLaws} (s : Store).

(** The events an instance has still to send. *)
Definition node_flight (x : node) : list BusEvent := after_events x ++ omap Unmarshal (outbox x).

Definition flight (c : cluster) : list BusEvent := flat_map node_flight (nodes c) ++ lost c.

(** What an instance will do about an event. *)
Definition program (o : gostring) (be : BusEvent) : list caction :=
  if bool_decide (evOrigin be = o) then [] else event_actions (evChange be).

(** The invalidations an instance has still to run, running or on their way. *)
Definition expected (c : cluster) (x : node) : list (list caction) :=
  (todo <$> tasks x) ++ (program (origin (bus x)) <$> flight c ++ omap Unmarshal (inbox x)) ++
  (if connected x then [] else [InvalidateAll_actions]).

(** One program does at least what another does. *)
Definition prog_le (l l' : list caction) : Prop :=
  (forall k, pending (fun _ => []) (zpart l) k -> pending (fun _ => []) (zpart l') k) /\
  (forall k, covers (fun _ => []) (zpart l) k -> covers (fun _ => []) (zpart l') k) /\
  (forall k, pending names_group (npart l) k -> pending names_group (npart l') k) /\
  (forall k, covers names_group (npart l) k -> covers names_group (npart l') k).

Definition le_list (P P' : list (list caction)) : Prop :=
  forall l, l ∈ P -> l = [] \/ exists l', l' ∈ P' /\ prog_le l l'.

Lemma prog_le_refl l : prog_le l l.
Proof. done. Qed.

Lemma prog_le_all l : prog_le l InvalidateAll_actions.
Proof.
  unfold prog_le, InvalidateAll_actions. autorewrite with parts.
  repeat split; intros; auto using covers_pending, Clear_covers.
Qed.

Definition worlds_ok (d : DB) (x : node) (P : list (list caction)) : Prop :=
  world_ok (fun _ => []) (mkWorld (zoneCache x) (zone_source d) (zoneLoads x) (zpart <$> P)) /\
  world_ok names_group (mkWorld (nameCache x) (name_source s d) (nameLoads x) (npart <$> P)).

Lemma part_in (f : list caction -> list action) (Q : list action -> Prop) (P P' : list (list caction)) :
  ~ Q [] -> f [] = [] -> (forall l, l ∈ P -> l = [] \/ exists l', l' ∈ P' /\ (Q (f l) -> Q (f l'))) ->
  forall l, l ∈ f <$> P -> Q l -> exists l', l' ∈ f <$> P' /\ Q l'.
Proof.
  intros Hn Hf Hle ? (l & -> & Hl)%list_elem_of_fmap HQ. destruct (Hle l Hl) as [->|(l' & Hl' & Hq)].
  - by rewrite Hf in HQ.
  - exists (f l'). split; [by apply list_elem_of_fmap_2|auto].
Qed.

Lemma pending_nil group_of k : ~ pending group_of [] k.
Proof. by intros (a & Ha%not_elem_of_nil & _). Qed.

Lemma covers_nil group_of k : ~ covers group_of [] k.
Proof. by inversion 1. Qed.

Lemma worlds_weaken d x P P' : le_list P P' -> worlds_ok d x P -> worlds_ok d x P'.
Proof.
  intros Hle [Hz Hn]. split; (eapply world_ok_weaken; [| |eassumption]); intros l k Hl Hk.
  1, 2: eapply (part_in zpart (fun l => _ l k) P P'); [apply pending_nil || apply covers_nil|done| |done|exact Hk].
  3, 4: eapply (part_in npart (fun l => _ l k) P P'); [apply pending_nil || apply covers_nil|done| |done|exact Hk].
  all: intros l1 Hl1; destruct (Hle l1 Hl1) as [->|(l2 & Hl2 & Hp1 & Hc1 & Hp2 & Hc2)]; [by left|right; exists l2; auto].
Qed.

(** The steps of loads do not look at invalidations. *)
Lemma step_frame {V} group_of (c c' : Cache V) src ls ls' iv :
  step group_of (mkWorld c src ls []) (mkWorld c' src ls' []) ->
  step group_of (mkWorld c src ls iv) (mkWorld c' src ls' iv).
Proof.
  inversion 1; subst; try by constructor.
  all: match goal with Hx : _ ++ _ :: _ = [] |- _ => by destruct (app_cons_not_nil _ _ _ (eq_sym Hx)) end.
Qed.

Lemma worlds_zone_load d x P zc zl :
  step (fun _ => []) (mkWorld (zoneCache x) (zone_source d) (zoneLoads x) []) (mkWorld zc (zone_source d) zl []) ->
  worlds_ok d x P -> worlds_ok d (with_zones x zc zl) P.
Proof. intros Hs [Hz Hn]. split; [|done]. exact (step_ok _ _ _ (step_frame _ _ _ _ _ _ _ Hs) Hz). Qed.

Lemma worlds_name_load d x P nc nl :
  step names_group (mkWorld (nameCache x) (name_source s d) (nameLoads x) []) (mkWorld nc (name_source s d) nl []) ->
  worlds_ok d x P -> worlds_ok d (with_names x nc nl) P.
Proof. intros Hs [Hz Hn]. split; [done|]. exact (step_ok _ _ _ (step_frame _ _ _ _ _ _ _ Hs) Hn). Qed.

Lemma worlds_zone_act d x P1 a l P2 :
  (epoch (zoneCache x) + 1 < 2 ^ 64)%Z -> worlds_ok d x (P1 ++ (OnZones a :: l) :: P2) ->
  worlds_ok d (with_zones x (act a (zoneCache x)) (zoneLoads x)) (P1 ++ l :: P2).
Proof.
  intros He [Hz Hn]. unfold worlds_ok. rewrite !fmap_app, !fmap_cons in *.
  split; [by apply step_act_ok|done].
Qed.

Lemma worlds_name_act d x P1 a l P2 :
  (epoch (nameCache x) + 1 < 2 ^ 64)%Z -> worlds_ok d x (P1 ++ (OnNames a :: l) :: P2) ->
  worlds_ok d (with_names x (act a (nameCache x)) (nameLoads x)) (P1 ++ l :: P2).
Proof.
  intros He [Hz Hn]. unfold worlds_ok. rewrite !fmap_app, !fmap_cons in *.
  split; [done|by apply step_act_ok].
Qed.

(** A commit, with its program on the way. *)
Lemma worlds_commit e so d d' x P :
  run s e so d = (Ok tt, d') -> worlds_ok d x P ->
  worlds_ok d' x (Invalidate_actions (fst (change_of so)) (snd (change_of so)) :: P).
Proof.
  intros Hrun [Hz Hn]. split; rewrite fmap_cons.
  - refine (step_ok _ _ _ (step_commit _ _ _ _ _ _ _ _) Hz). intros k. right. unfold Invalidate_actions. autorewrite with parts. apply Clear_covers.
  - refine (step_ok _ _ _ (step_commit _ _ _ _ _ _ _ _) Hn). intros k. apply change_covered; [exact (run_outside s no_fault e so d d' Hrun)|].
    destruct so; cbn; [by left..|right|right]; apply NormalizeName_in_zone.
Qed.

#[local] Opaque InvalidateAll_actions Invalidate_actions.

Definition clears (x : node) : Prop :=
  connected x = false \/ exists t, t ∈ tasks x /\ todo t = InvalidateAll_actions.

Lemma elem_of_expected c x l :
  l ∈ expected c x <->
  (exists t, t ∈ tasks x /\ todo t = l) \/
  (exists be, (be ∈ flight c \/ be ∈ omap Unmarshal (inbox x)) /\ program (origin (bus x)) be = l) \/
  (connected x = false /\ l = InvalidateAll_actions).
Proof.
  unfold expected. rewrite !elem_of_app, !list_elem_of_fmap. split.
  - intros [(t & -> & Ht)|[(be & -> & Hbe%elem_of_app)|Hl]]; [by left; exists t|by right; left; exists be|].
    right. right. destruct (connected x); [by apply not_elem_of_nil in Hl|]. by apply list_elem_of_singleton in Hl as ->.
  - intros [(t & Ht & <-)|[(be & Hbe & <-)|[-> ->]]]; [by left; exists t|right; left|right; right; left].
    exists be. by rewrite elem_of_app.
Qed.

Lemma clears_expected c x : clears x -> InvalidateAll_actions ∈ expected c x.
Proof. intros [Hc|Ht]; apply elem_of_expected; [by right; right|by left]. Qed.

(** Programs may move on from one place to the next, and a reset stands in for any of them. *)
Lemma expected_le c c' x x' :
  origin (bus x') = origin (bus x) ->
  (forall t, t ∈ tasks x -> todo t = [] \/ exists t', t' ∈ tasks x' /\ todo t' = todo t) ->
  (connected x = false -> clears x') ->
  (forall be, be ∈ flight c \/ be ∈ omap Unmarshal (inbox x) ->
    program (origin (bus x)) be = [] \/ clears x' \/
    be ∈ flight c' \/ be ∈ omap Unmarshal (inbox x') \/
    exists t', t' ∈ tasks x' /\ todo t' = program (origin (bus x)) be) ->
  le_list (expected c x) (expected c' x').
Proof.
  intros Ho Ht Hc Hb l Hl. apply elem_of_expected in Hl as [(t & Hin & <-)|[(be & Hin & <-)|[Hx ->]]].
  - destruct (Ht t Hin) as [?|(t' & Hin' & <-)]; [by left|]. right. exists (todo t'). split; [|done].
    apply elem_of_expected. left. eauto.
  - destruct (Hb be Hin) as [?|[Hcl|Hto]]; [by left|right..].
    + exists InvalidateAll_actions. split; [by apply clears_expected|apply prog_le_all].
    + exists (program (origin (bus x)) be). split; [|done]. apply elem_of_expected. rewrite Ho.
      destruct Hto as [Hf|[Hf|Ht']]; [right; left; exists be; by split; [left|]|right; left; exists be; by split; [right|]|by left].
  - right. exists InvalidateAll_actions. split; [by apply clears_expected, Hc|apply prog_le_all].
Qed.

Definition afters_ok (x : node) : Prop :=
  forall t ev, t ∈ tasks x -> after t = Some ev -> ascii_text (evZone ev) /\ ascii_text (evName ev).

Record node_ok (c : cluster) (x : node) : Prop := {
  n_worlds : worlds_ok (cdb c) x (expected c x);
  n_status : nc (bus x) <> CLOSED;
  n_origin : ascii_text (origin (bus x));
  n_afters : afters_ok x;
}.

Record cluster_ok (c : cluster) : Prop := {
  k_reachable : reachable s (cdb c);
  k_content : content_ok (cdb c);
  k_origins : NoDup ((fun x => origin (bus x)) <$> nodes c);
  k_subject x y : x ∈ nodes c -> y ∈ nodes c -> subject (bus x) = subject (bus y);
  k_nodes x : x ∈ nodes c -> node_ok c x;
}.

Lemma elem_of_flight c be :
  be ∈ flight c <-> (exists y, y ∈ nodes c /\ be ∈ node_flight y) \/ be ∈ lost c.
Proof.
  unfold flight. rewrite elem_of_app, !list_elem_of_In, in_flat_map. setoid_rewrite list_elem_of_In. done.
Qed.

Lemma elem_of_update {A} (l : list A) i x x' y :
  l !! i = Some x -> y ∈ <[i := x']> l -> y = x' \/ exists j, j <> i /\ l !! j = Some y.
Proof.
  intros Hi (j & Hj)%list_elem_of_lookup. destruct (decide (j = i)) as [-> |Hn].
  - rewrite list_lookup_insert_eq in Hj by (by eapply lookup_lt_Some). left. congruence.
  - rewrite list_lookup_insert_ne in Hj by done. right. eauto.
Qed.

Lemma update_elem {A} (l : list A) i x x' : l !! i = Some x -> x' ∈ <[i := x']> l.
Proof. intros Hi%lookup_lt_Some. eapply list_elem_of_lookup_2. by apply list_lookup_insert_eq. Qed.

Lemma update_other {A} (l : list A) i j x x' y : l !! i = Some x -> j <> i -> l !! j = Some y -> y ∈ <[i := x']> l.
Proof. intros _ Hn Hj. eapply list_elem_of_lookup_2. by rewrite list_lookup_insert_ne. Qed.

Lemma subjects_update (l : list node) i x x' :
  (forall y z, y ∈ l -> z ∈ l -> subject (bus y) = subject (bus z)) -> l !! i = Some x ->
  subject (bus x') = subject (bus x) ->
  forall y z, y ∈ <[i := x']> l -> z ∈ <[i := x']> l -> subject (bus y) = subject (bus z).
Proof.
  intros Hs Hi Hx y z Hy Hz. pose proof (list_elem_of_lookup_2 _ _ _ Hi).
  apply (elem_of_update _ _ x) in Hy as [->|(j & _ & Hj%list_elem_of_lookup_2)]; [| |done];
    apply (elem_of_update _ _ x) in Hz as [->|(k & _ & Hk%list_elem_of_lookup_2)]; try done; rewrite ?Hx; by apply Hs.
Qed.

Lemma origins_update (l : list node) i x x' :
  l !! i = Some x -> origin (bus x') = origin (bus x) ->
  (fun x => origin (bus x)) <$> <[i := x']> l = (fun x => origin (bus x)) <$> l.
Proof. intros Hi Hx. rewrite list_fmap_insert, Hx. apply list_insert_id. by rewrite list_lookup_fmap, Hi. Qed.

(** One instance changes, and nothing in flight is forgotten. *)
Lemma ok_update c c' i x x' :
  cluster_ok c -> nodes c !! i = Some x -> cdb c' = cdb c -> nodes c' = <[i := x']> (nodes c) ->
  origin (bus x') = origin (bus x) -> subject (bus x') = subject (bus x) -> nc (bus x') <> CLOSED ->
  afters_ok x' -> worlds_ok (cdb c) x' (expected c' x') -> (forall be, be ∈ flight c -> be ∈ flight c') ->
  cluster_ok c'.
Proof.
  intros [Hr Hcont Ho Hs Hn] Hi Hd Hnodes Horig Hsub Hst Haf Hw Hfl.
  pose proof (list_elem_of_lookup_2 _ _ _ Hi) as Hx. constructor; rewrite ?Hd, ?Hnodes; [done|done| | |].
  - by rewrite (origins_update _ _ x).
  - by eapply subjects_update.
  - intros y Hy. apply (elem_of_update _ _ x) in Hy as [->|(j & _ & Hj%list_elem_of_lookup_2)]; [| |done].
    + constructor; rewrite ?Hd, ?Horig; try done. by apply Hn.
    + destruct (Hn y Hj) as [Hwy Hsy Hoy Hay]. constructor; rewrite ?Hd; try done.
      eapply worlds_weaken; [|exact Hwy]. apply expected_le; [done|by eauto|by left|naive_solver].
Qed.

(** What an instance expects besides its own tasks. *)
Definition coming (c : cluster) (x : node) : list (list caction) :=
  (program (origin (bus x)) <$> flight c ++ omap Unmarshal (inbox x)) ++
  (if connected x then [] else [InvalidateAll_actions]).

Lemma expected_split c x : expected c x = (todo <$> tasks x) ++ coming c x.
Proof. done. Qed.

Lemma coming_le P c c' x x' :
  bus x' = bus x -> inbox x' = inbox x -> (forall be, be ∈ flight c -> be ∈ flight c') ->
  le_list (P ++ coming c x) (P ++ coming c' x').
Proof.
  intros Hb Hi Hf l Hl. right. exists l. split; [|done]. unfold coming, connected in *. rewrite Hb, Hi.
  rewrite !elem_of_app, !list_elem_of_fmap in *. destruct Hl as [?|[(be & -> & Hbe)|?]]; [by left|right; left|by right; right].
  exists be. split; [done|]. apply elem_of_app in Hbe as [?|?]; apply elem_of_app; auto.
Qed.

Lemma coming_le_cons P1 l P2 c c' x x' :
  bus x' = bus x -> inbox x' = inbox x -> (forall be, be ∈ flight c -> be ∈ flight c') ->
  le_list (P1 ++ l :: P2 ++ coming c x) (P1 ++ l :: P2 ++ coming c' x').
Proof.
  intros Hb Hi Hf. rewrite !app_comm_cons, !app_assoc. by apply coming_le.
Qed.

Lemma flight_update c c' i x x' :
  nodes c !! i = Some x -> nodes c' = <[i := x']> (nodes c) ->
  (forall be, be ∈ node_flight x -> be ∈ node_flight x' \/ be ∈ lost c') ->
  (forall be, be ∈ lost c -> be ∈ lost c') -> forall be, be ∈ flight c -> be ∈ flight c'.
Proof.
  intros Hi Hn Hx Hl be Hbe. apply elem_of_flight in Hbe as [(y & Hy & Hbe)|Hbe]; apply elem_of_flight; [|auto].
  apply list_elem_of_lookup in Hy as [j Hj]. rewrite Hn. destruct (decide (j = i)) as [-> |Hji].
  - assert (y = x) as -> by congruence. destruct (Hx be Hbe) as [?|?]; [left|by right].
    exists x'. split; [by eapply update_elem|done].
  - left. exists y. split; [by eapply update_other|done].
Qed.

Lemma task_replaced x x' t1 t t' t2 be :
  bus x' = bus x -> outbox x' = outbox x -> tasks x = t1 ++ t :: t2 -> tasks x' = t1 ++ t' :: t2 -> after t' = after t ->
  be ∈ node_flight x -> be ∈ node_flight x'.
Proof.
  intros Hb Ho Ht Ht' Ha. unfold node_flight, after_events. rewrite Hb, Ho, Ht, Ht', !omap_app. cbn. by rewrite Ha.
Qed.

Lemma task_removed x x' t1 t t2 be :
  bus x' = bus x -> outbox x' = outbox x -> tasks x = t1 ++ t :: t2 -> tasks x' = t1 ++ t2 ->
  be ∈ node_flight x -> be ∈ node_flight x' \/ exists ev, after t = Some ev /\ be = mkBusEvent (origin (bus x)) ev.
Proof.
  intros Hb Ho Ht Ht'. unfold node_flight, after_events. rewrite Hb, Ho, Ht, Ht', !omap_app. cbn.
  rewrite !elem_of_app. destruct (after t) as [ev|]; cbn; [rewrite elem_of_cons|]; naive_solver.
Qed.

Lemma afters_sub x x' :
  (forall t, t ∈ tasks x' -> (exists t', t' ∈ tasks x /\ after t' = after t) \/ after t = None) ->
  afters_ok x -> afters_ok x'.
Proof.
  intros Hs Hx t ev Ht Ha. destruct (Hs t Ht) as [(t' & Ht' & Ha')|?]; [|congruence].
  apply (Hx t'); [done|congruence].
Qed.

Lemma afters_replaced x x' t1 t t' t2 :
  tasks x = t1 ++ t :: t2 -> tasks x' = t1 ++ t' :: t2 -> after t' = after t -> afters_ok x -> afters_ok x'.
Proof.
  intros Ht Ht' Ha. apply afters_sub. rewrite Ht, Ht'. intros u. rewrite elem_of_app, elem_of_cons.
  intros Hu. left. setoid_rewrite elem_of_app. setoid_rewrite elem_of_cons. naive_solver.
Qed.

Lemma afters_removed x x' t1 t t2 :
  tasks x = t1 ++ t :: t2 -> tasks x' = t1 ++ t2 -> afters_ok x -> afters_ok x'.
Proof.
  intros Ht Ht'. apply afters_sub. rewrite Ht, Ht'. intros u. rewrite elem_of_app.
  intros Hu. left. exists u. rewrite elem_of_app, elem_of_cons. naive_solver.
Qed.

(** A message that was as good as lost reaches everyone connected. *)
Lemma accept_inbox subj ms x :
  exists ms', accept subj ms x = with_inbox x ms' /\
    (ms' = inbox x ++ ms \/ ms' = inbox x /\ (connected x = false \/ subject (bus x) <> subj)).
Proof.
  assert (Hid : x = with_inbox x (inbox x)) by (by destruct x).
  unfold accept. destruct (connected x) eqn:Hc; cbn [andb]; [case_bool_decide|].
  - exists (inbox x ++ ms). auto.
  - exists (inbox x). auto.
  - exists (inbox x). auto.
Qed.

Lemma ok_broadcast c subj ms L :
  cluster_ok c -> lost c = omap Unmarshal ms ++ L -> (forall x, x ∈ nodes c -> subject (bus x) = subj) ->
  cluster_ok (broadcast subj ms (mkCluster (cdb c) (nodes c) L)).
Proof.
  intros [Hr Hcont Ho Hs Hn] Hl Hsub.
  assert (Hbus : forall x, bus (accept subj ms x) = bus x).
  { intros x. by destruct (accept_inbox subj ms x) as (? & -> & _). }
  assert (Hfl : forall be, be ∈ flight c -> be ∈ flight (broadcast subj ms (mkCluster (cdb c) (nodes c) L)) \/ be ∈ omap Unmarshal ms).
  { intros be. rewrite !elem_of_flight, Hl, elem_of_app. intros [(y & Hy & Hbe)|[?|?]]; [left|by right|by left; right].
    left. exists (accept subj ms y). split; [by apply list_elem_of_fmap_2|].
    by destruct (accept_inbox subj ms y) as (? & -> & _). }
  constructor; cbn [cdb nodes broadcast]; [done|done| | |].
  - rewrite <- list_fmap_compose. erewrite list_fmap_ext; [exact Ho|]. intros i x _. cbn. by rewrite Hbus.
  - intros ? ? (x & -> & Hx)%list_elem_of_fmap (y & -> & Hy)%list_elem_of_fmap. rewrite !Hbus. by apply Hs.
  - intros ? (x & -> & Hx)%list_elem_of_fmap. destruct (Hn x Hx) as [Hw Hst Hor Haf].
    destruct (accept_inbox subj ms x) as (ms' & E & Hms). rewrite E. constructor; [|done..].
    change (worlds_ok (cdb c) x (expected (broadcast subj ms (mkCluster (cdb c) (nodes c) L)) (with_inbox x ms'))).
    eapply worlds_weaken; [|exact Hw]. apply expected_le; [done|by eauto|by left|].
    intros be [Hbe|Hbe]; (destruct Hms as [->|[-> [Hx'|Hx']]]; [|by right; left; left|by destruct Hx'; apply Hsub]).
    + destruct (Hfl be Hbe) as [?|?]; [by right; right; left|]. do 3 right. left. cbn [inbox with_inbox].
      rewrite omap_app, elem_of_app. by right.
    + do 3 right. left. cbn [inbox with_inbox]. rewrite omap_app, elem_of_app. by left.
Qed.

(** ** Names in events are ASCII *)
Lemma plain_ascii t : Forall (fun c => plain_byte c = true) t -> ascii_text t.
Proof. intros Ht. eapply Forall_impl; [exact Ht|]. by intros c [? _]%plain_byte_facts. Qed.

Lemma valid_ascii n : ValidateName n = None -> ascii_text n.
Proof. intros Hv. by apply plain_ascii, valid_plain. Qed.

Lemma zone_ascii z n : at_or_below z n -> ascii_text n -> ascii_text z.
Proof. intros [-> |[w ->]]; [done|]. unfold ascii_text. rewrite !Forall_app. by intros (_ & _ & ?). Qed.

Lemma update_zones_stored name set zs zs' hit :
  update_zones name set zs = Ok (zs', hit) -> forall z, z ∈ hit -> z ∈ zs'.
Proof.
  revert zs' hit. induction zs as [|z0 zs IH]; intros zs' hit; cbn [update_zones]; [by intros [= <- <-]|].
  case_bool_decide; rewrite go_bind_Ok.
  - intros (z1 & _ & ((zs1 & hit1) & Hu & [= <- <-])%go_bind_Ok) z [->|Hz]%elem_of_cons; [left|right; by eapply IH].
  - intros ((zs1 & hit1) & Hu & [= <- <-]) z Hz. right. by eapply IH.
Qed.

Lemma UpdateZone_stored e z d a d' : UpdateZone e z d = (Ok a, d') -> a ∈ Store.zones d'.
Proof.
  unfold UpdateZone. destruct (autocommit _ _ _) as [y d1] eqn:Ea. intros [= Hy <-].
  apply scanZone_Ok in Hy as ->. apply autocommit_Ok in Ea.
  apply go_bind_Ok in Ea as ((zs & hit) & Hu & Ea). apply go_bind_Ok in Ea as (row & Hr & [= <- <-]).
  destruct hit as [|z1 hit]; [done|]. injection Hr as ->. eapply update_zones_stored; [exact Hu|left].
Qed.

Lemma change_ascii e so d d' :
  content_ok d -> valid_op so -> run s e so d = (Ok tt, d') ->
  ascii_text (fst (change_of so)) /\ ascii_text (snd (change_of so)).
Proof.
  intros Hd Hv Hrun. assert (Hd' : content_ok d').
  { replace d' with (snd (run s e so d)) by (by rewrite Hrun). by apply run_content. }
  assert (Hzone : forall z, z ∈ Store.zones d \/ z ∈ Store.zones d' -> ascii_text (zName z)).
  { destruct Hd as [Hz _], Hd' as [Hz' _]. rewrite Forall_forall in Hz, Hz'.
    intros z [Hin|Hin]; apply valid_ascii; [by apply Hz|by apply Hz']. }
  destruct so as [z|z|n|r|z n t rd]; cbn [run change_of fst snd valid_op] in *.
  - split; [|constructor]. destruct Hv as [Hv _]. rewrite valid_NormalizeZone by done. by apply valid_ascii.
  - split; [|constructor]. apply st_bind_Ok in Hrun as (a & d1 & Hu & [= <-]).
    rewrite <- (UpdateZone_name _ _ _ _ _ Hu). apply Hzone. right. by eapply UpdateZone_stored.
  - split; [|constructor]. unfold DeleteZone, autocommit in Hrun. destruct (fault e 0); [done|].
    case_bool_decide as Hne; [done|]. destruct (filter (fun z => zName z = NormalizeZone n) (Store.zones d)) as [|z l] eqn:E; [done|].
    assert (Hin : z ∈ filter (fun z => zName z = NormalizeZone n) (Store.zones d)) by (rewrite E; left).
    apply list_elem_of_filter in Hin as [<- Hin]. by apply Hzone; left.
  - destruct Hv as [Hv _]. cbn in Hv. apply valid_ascii in Hv. split; [|done].
    eapply zone_ascii; [apply NormalizeName_in_zone|done].
  - apply DeleteRecord_Ok in Hrun as (Hne & _). destruct (filter _ _) as [|r l] eqn:E; [done|].
    assert (Hin : r ∈ r :: l) by left. rewrite <- E in Hin. apply list_elem_of_filter in Hin as [Hm Hin].
    destruct Hd as [_ Hrows]. rewrite Forall_forall in Hrows. destruct (Hrows r Hin) as [Hval _].
    assert (Hn : ascii_text (NormalizeName (NormalizeZone z) n)).
    { destruct Hm as [[[_ <-] _] _]. by apply valid_ascii. }
    split; [|done]. eapply zone_ascii; [apply NormalizeName_in_zone|exact Hn].
Qed.

(** ** Every step keeps the invariant *)
Lemma announce_change ev : event_change (announce ev) = event_change ev.
Proof. unfold announce, event_change. by destruct (evKind ev). Qed.

Lemma program_own o ch : program o (mkBusEvent o ch) = [].
Proof. unfold program. by rewrite bool_decide_eq_true_2. Qed.

Lemma program_other o o' ch : o' <> o -> program o (mkBusEvent o' ch) = event_actions ch.
Proof. intros Ho. unfold program. by rewrite bool_decide_eq_false_2. Qed.

Lemma Publish_event b kind zone name subj m :
  Publish b kind zone name = Some (subj, m) ->
  subj = subject b /\ Unmarshal m = Some (mkBusEvent (origin b) (mkEvent kind zone name)).
Proof.
  unfold Publish. destruct (Marshal _) as [m'|] eqn:E; [|done]. intros [= <- <-].
  split; [done|by apply Unmarshal_Marshal].
Qed.

Lemma int_zones_ok c i x t1 a l af t2 :
  cluster_ok c -> nodes c !! i = Some x -> tasks x = t1 ++ mkTask (OnZones a :: l) af :: t2 ->
  (epoch (zoneCache x) + 1 < 2 ^ 64)%Z ->
  cluster_ok (set_node c i (with_tasks (with_zones x (act a (zoneCache x)) (zoneLoads x)) (t1 ++ mkTask l af :: t2))).
Proof.
  intros Hc Hi Ht He. destruct (k_nodes _ Hc x (list_elem_of_lookup_2 _ _ _ Hi)) as [Hw Hst Ho Ha].
  set (x' := with_tasks _ _). assert (Hf : forall be, be ∈ flight c -> be ∈ flight (set_node c i x')).
  { eapply flight_update; [done..| |done]. intros be Hbe. left. by eapply (task_replaced x x' t1 _ (mkTask l af) t2). }
  eapply (ok_update c _ i x x'); try done; [by eapply (afters_replaced x x' t1 _ (mkTask l af) t2)|].
  rewrite expected_split, Ht, fmap_app, fmap_cons, <- app_assoc in Hw.
  apply (worlds_zone_act _ _ _ _ _ _ He) in Hw. rewrite expected_split.
  eapply worlds_weaken; [|exact Hw]. cbn [tasks x' with_tasks]. rewrite fmap_app, fmap_cons, <- app_assoc. cbn [todo].
  by apply coming_le_cons.
Qed.

Lemma int_names_ok c i x t1 a l af t2 :
  cluster_ok c -> nodes c !! i = Some x -> tasks x = t1 ++ mkTask (OnNames a :: l) af :: t2 ->
  (epoch (nameCache x) + 1 < 2 ^ 64)%Z ->
  cluster_ok (set_node c i (with_tasks (with_names x (act a (nameCache x)) (nameLoads x)) (t1 ++ mkTask l af :: t2))).
Proof.
  intros Hc Hi Ht He. destruct (k_nodes _ Hc x (list_elem_of_lookup_2 _ _ _ Hi)) as [Hw Hst Ho Ha].
  set (x' := with_tasks _ _). assert (Hf : forall be, be ∈ flight c -> be ∈ flight (set_node c i x')).
  { eapply flight_update; [done..| |done]. intros be Hbe. left. by eapply (task_replaced x x' t1 _ (mkTask l af) t2). }
  eapply (ok_update c _ i x x'); try done; [by eapply (afters_replaced x x' t1 _ (mkTask l af) t2)|].
  rewrite expected_split, Ht, fmap_app, fmap_cons, <- app_assoc in Hw.
  apply (worlds_name_act _ _ _ _ _ _ He) in Hw. rewrite expected_split.
  eapply worlds_weaken; [|exact Hw]. cbn [tasks x' with_tasks]. rewrite fmap_app, fmap_cons, <- app_assoc. cbn [todo].
  by apply coming_le_cons.
Qed.

Definition same_caches (x x' : node) : Prop :=
  zoneCache x' = zoneCache x /\ zoneLoads x' = zoneLoads x /\ nameCache x' = nameCache x /\ nameLoads x' = nameLoads x.

(** An instance whose caches stay as they are. *)
Lemma ok_moved c c' i x x' :
  cluster_ok c -> nodes c !! i = Some x -> cdb c' = cdb c -> nodes c' = <[i := x']> (nodes c) -> same_caches x x' ->
  origin (bus x') = origin (bus x) -> subject (bus x') = subject (bus x) -> nc (bus x') <> CLOSED -> afters_ok x' ->
  (forall t, t ∈ tasks x -> todo t = [] \/ exists t', t' ∈ tasks x' /\ todo t' = todo t) ->
  (connected x = false -> clears x') ->
  (forall be, be ∈ omap Unmarshal (inbox x) ->
    program (origin (bus x)) be = [] \/ clears x' \/ be ∈ flight c' \/ be ∈ omap Unmarshal (inbox x') \/
    exists t', t' ∈ tasks x' /\ todo t' = program (origin (bus x)) be) ->
  (forall be, be ∈ flight c -> be ∈ flight c') -> cluster_ok c'.
Proof.
  intros Hc Hi Hd Hn (Hz & Hzl & Hnm & Hnl) Ho Hs Hst Haf Ht Hcl Hin Hfl. eapply (ok_update c c' i x x'); try done.
  destruct (k_nodes _ Hc x (list_elem_of_lookup_2 _ _ _ Hi)) as [Hw _ _ _].
  assert (Hw' : worlds_ok (cdb c) x (expected c' x')).
  { eapply worlds_weaken; [|exact Hw]. apply expected_le; try done. intros be [Hbe|Hbe]; [auto|by apply Hin]. }
  unfold worlds_ok in *. by rewrite Hz, Hzl, Hnm, Hnl.
Qed.

Lemma task_kept x x' t1 t2 t :
  tasks x = t1 ++ t :: t2 -> tasks x' = t1 ++ t2 -> todo t = [] ->
  forall u, u ∈ tasks x -> todo u = [] \/ exists u', u' ∈ tasks x' /\ todo u' = todo u.
Proof.
  intros -> -> Ht u. rewrite elem_of_app, elem_of_cons. intros [?|[-> |?]]; [right|by left|right];
    exists u; (split; [|done]); apply elem_of_app; auto.
Qed.

Lemma tasks_grow x x' ts :
  tasks x' = tasks x ++ ts -> forall u, u ∈ tasks x -> todo u = [] \/ exists u', u' ∈ tasks x' /\ todo u' = todo u.
Proof. intros -> u Hu. right. exists u. split; [|done]. apply elem_of_app. by left. Qed.

Lemma afters_grow x x' ts :
  tasks x' = tasks x ++ ts -> (forall t, t ∈ ts -> after t = None) -> afters_ok x -> afters_ok x'.
Proof.
  intros Ht Hts. apply afters_sub. rewrite Ht. intros t [Hin|Hin]%elem_of_app; [|right; auto]. left. eauto.
Qed.

Lemma flight_grow x x' ts ms be :
  bus x' = bus x -> tasks x' = tasks x ++ ts -> outbox x' = outbox x ++ ms -> be ∈ node_flight x -> be ∈ node_flight x'.
Proof.
  intros Hb Ht Ho. unfold node_flight, after_events. rewrite Hb, Ht, Ho, !omap_app, !elem_of_app. tauto.
Qed.

(** The event of a finished task is as good as lost until it is sent. *)
Lemma ok_lose c i x t1 ev t2 :
  cluster_ok c -> nodes c !! i = Some x -> tasks x = t1 ++ mkTask [] (Some ev) :: t2 ->
  cluster_ok (lose (mkBusEvent (origin (bus x)) ev) (set_node c i (with_tasks x (t1 ++ t2)))).
Proof.
  intros Hc Hi Ht. destruct (k_nodes _ Hc x (list_elem_of_lookup_2 _ _ _ Hi)) as [_ Hst _ Ha].
  eapply (ok_moved c _ i x (with_tasks x (t1 ++ t2))); try done.
  - by eapply afters_removed.
  - by eapply task_kept.
  - by left.
  - auto.
  - eapply flight_update; [done..| |by right]. intros be Hbe.
    destruct (task_removed x (with_tasks x (t1 ++ t2)) t1 _ t2 be eq_refl eq_refl Ht eq_refl Hbe) as [?|(ev' & [= <-] & ->)]; [by left|right; left].
Qed.

Lemma int_publish_ok c i x t1 ev t2 subj m :
  cluster_ok c -> nodes c !! i = Some x -> tasks x = t1 ++ mkTask [] (Some ev) :: t2 ->
  Publish (bus x) (evKind ev) (evZone ev) (evName ev) = Some (subj, m) ->
  cluster_ok (broadcast subj [m] (set_node c i (with_tasks x (t1 ++ t2)))).
Proof.
  intros Hc Hi Ht [-> Hm]%Publish_event. pose proof (ok_lose c i x t1 ev t2 Hc Hi Ht) as Hc1.
  eapply (ok_broadcast _ _ [m] (lost c)) in Hc1; [exact Hc1|by cbn; rewrite Hm; destruct ev|].
  intros y Hy. rewrite (k_subject _ Hc1 y (with_tasks x (t1 ++ t2))); [done|exact Hy|by eapply update_elem].
Qed.

Lemma int_queue_ok c i x t1 ev t2 subj m :
  cluster_ok c -> nodes c !! i = Some x -> tasks x = t1 ++ mkTask [] (Some ev) :: t2 -> connected x = false ->
  Publish (bus x) (evKind ev) (evZone ev) (evName ev) = Some (subj, m) ->
  cluster_ok (set_node c i (with_outbox (with_tasks x (t1 ++ t2)) (outbox x ++ [m]))).
Proof.
  intros Hc Hi Ht Hx [-> Hm]%Publish_event. destruct (k_nodes _ Hc x (list_elem_of_lookup_2 _ _ _ Hi)) as [_ Hst _ Ha].
  eapply (ok_moved c _ i x (with_outbox (with_tasks x (t1 ++ t2)) (outbox x ++ [m]))); try done;
    [by eapply afters_removed|by eapply task_kept|by left|auto|].
  eapply flight_update; [done..| |done]. intros be Hbe. left.
  destruct (task_removed x (with_tasks x (t1 ++ t2)) t1 _ t2 be eq_refl eq_refl Ht eq_refl Hbe) as [Hbe'|(ev' & [= <-] & ->)].
  - by eapply (flight_grow _ _ [] [m]); [..|exact Hbe']; [|cbn; rewrite app_nil_r|].
  - unfold node_flight. apply elem_of_app. right. cbn [outbox with_outbox].
    rewrite omap_app. apply elem_of_app. right. cbn. rewrite Hm. destruct ev. left.
Qed.

Lemma int_deliver_ok c i x m ms :
  cluster_ok c -> nodes c !! i = Some x -> inbox x = m :: ms ->
  cluster_ok (set_node c i (with_tasks (with_inbox x ms)
    (tasks x ++ match receive (bus x) m with Some ev => [mkTask (event_actions ev) None] | None => [] end))).
Proof.
  intros Hc Hi Hin. destruct (k_nodes _ Hc x (list_elem_of_lookup_2 _ _ _ Hi)) as [_ Hst _ Ha].
  set (ts := match receive _ _ with Some _ => _ | None => _ end).
  eapply (ok_moved c _ i x (with_tasks (with_inbox x ms) (tasks x ++ ts))); try done.
  - eapply (afters_grow x _ ts); [done| |done]. intros t. unfold ts. destruct (receive _ _); [|by intros ?%not_elem_of_nil].
    by intros ->%list_elem_of_singleton.
  - by eapply tasks_grow.
  - by left.
  - rewrite Hin. intros be. cbn. unfold ts, receive. destruct (Unmarshal m) as [be'|]; [|tauto].
    intros [-> |?]%elem_of_cons; [|tauto]. unfold program. case_bool_decide; [by left|]. do 4 right.
    eexists. split; [apply elem_of_app; right; left|done].
  - eapply flight_update; [done..| |done]. intros be Hbe. left.
    by eapply (flight_grow x _ ts []); [..|exact Hbe]; [| |cbn; rewrite app_nil_r].
Qed.

Lemma int_reconnect_ok c i x :
  cluster_ok c -> nodes c !! i = Some x ->
  cluster_ok (broadcast (subject (bus x)) (outbox x) (set_node c i
    (with_status (with_outbox (with_tasks x (tasks x ++ [mkTask InvalidateAll_actions None])) []) CONNECTED))).
Proof.
  intros Hc Hi. destruct (k_nodes _ Hc x (list_elem_of_lookup_2 _ _ _ Hi)) as [_ Hst _ Ha]. set (x' := with_status _ _).
  assert (Hc1 : cluster_ok (mkCluster (cdb c) (<[i := x']> (nodes c)) (omap Unmarshal (outbox x) ++ lost c))).
  { assert (Hcl : clears x').
    { right. exists (mkTask InvalidateAll_actions None). split; [|done]. cbn. apply elem_of_app. right. left. }
    eapply (ok_moved c _ i x x'); try done.
    - eapply (afters_grow x x'); [done| |done]. by intros t ->%list_elem_of_singleton.
    - by eapply tasks_grow.
    - auto.
    - eapply flight_update; [done..| |]; [|intros be Hbe; apply elem_of_app; by right].
      intros be. unfold node_flight, after_events. cbn. rewrite omap_app, !elem_of_app. tauto. }
  eapply (ok_broadcast _ (subject (bus x)) (outbox x) (lost c)) in Hc1; [exact Hc1|done|].
  intros y Hy. rewrite (k_subject _ Hc1 y x'); [done|exact Hy|by eapply update_elem].
Qed.

Lemma internal_ok c c' : internal c c' -> cluster_ok c -> cluster_ok c'.
Proof.
  destruct 1 as [c i x t1 a l af t2 Hi Ht He|c i x t1 a l af t2 Hi Ht He|c i x t1 t2 Hi Ht|c i x t1 ev t2 subj m Hi Ht Hx Hp
    |c i x t1 ev t2 subj m Hi Ht Hx Hp|c i x m ms Hi Hin|c i x Hi Hx]; intros Hc.
  - by apply int_zones_ok.
  - by apply int_names_ok.
  - destruct (k_nodes _ Hc x (list_elem_of_lookup_2 _ _ _ Hi)) as [_ Hst _ Ha].
    eapply (ok_moved c _ i x (with_tasks x (t1 ++ t2))); try done; [by eapply afters_removed|by eapply task_kept|by left|auto|].
    eapply flight_update; [done..| |done]. intros be Hbe.
    destruct (task_removed x (with_tasks x (t1 ++ t2)) t1 _ t2 be eq_refl eq_refl Ht eq_refl Hbe) as [?|(ev' & [=] & _)]. by left.
  - by eapply int_publish_ok.
  - by eapply int_queue_ok.
  - by apply int_deliver_ok.
  - by apply int_reconnect_ok.
Qed.

(** A write through one instance. *)
Lemma c_write_ok c i x e so ev d' :
  cluster_ok c -> nodes c !! i = Some x -> valid_op so -> run s e so (cdb c) = (Ok tt, d') ->
  event_change ev = change_of so ->
  cluster_ok (set_node (mkCluster d' (nodes c) (lost c)) i
    (with_tasks x (tasks x ++ [mkTask (event_actions ev) (Some (announce ev))]))).
Proof.
  intros [Hr Hcont Ho Hs Hn] Hi Hv Hrun Hev. set (x' := with_tasks _ _). set (c' := set_node _ _ _).
  assert (Hd' : d' = snd (run s e so (cdb c))) by (by rewrite Hrun).
  assert (Hfl : forall be, be ∈ flight c -> be ∈ flight c').
  { eapply flight_update; [done..| |done]. intros be Hbe. left.
    by eapply (flight_grow x x' _ []); [..|exact Hbe]; [| |cbn; rewrite app_nil_r]. }
  assert (Hmine : mkBusEvent (origin (bus x)) (announce ev) ∈ flight c').
  { apply elem_of_flight. left. exists x'. split; [by eapply update_elem|].
    unfold node_flight, after_events. cbn. rewrite omap_app, !elem_of_app. left. right. left. }
  assert (Hexp : forall y y', event_actions ev ∈ expected c' y' -> worlds_ok (cdb c) y (expected c y) ->
    le_list (expected c y) (expected c' y') -> worlds_ok d' y (expected c' y')).
  { intros y y' Hin Hw Hle. eapply worlds_weaken; [|by eapply worlds_commit]. rewrite <- Hev.
    intros l [-> |Hl]%elem_of_cons; [right; by exists (event_actions ev)|by apply Hle]. }
  pose proof (list_elem_of_lookup_2 _ _ _ Hi) as Hx. constructor; cbn [cdb nodes c' set_node].
  - rewrite Hd'. by apply reachable_step.
  - rewrite Hd'. by apply run_content.
  - by rewrite (origins_update _ _ x).
  - by eapply subjects_update.
  - intros y Hy. apply (elem_of_update _ _ x) in Hy as [->|(j & Hji & Hj)]; [| |done].
    + destruct (Hn x Hx) as [Hw Hst Hor Ha]. constructor; [|done..|].
      * apply (Hexp x x'); [|exact Hw|].
        -- apply elem_of_expected. left. eexists. split; [apply elem_of_app; right; left|done].
        -- apply (expected_le c c' x x'); [done|by eapply tasks_grow|by left|].
           intros be [Hbe|Hbe]; do 2 right; auto.
      * intros t ev' Ht Hat. apply elem_of_app in Ht as [Ht| ->%list_elem_of_singleton]; [by eapply Ha|].
        injection Hat as <-. cbn. rewrite Hev. by eapply change_ascii.
    + assert (Hne : origin (bus x) <> origin (bus y)).
      { intros Heq. apply Hji. eapply (NoDup_lookup _ _ _ (origin (bus x)) Ho); rewrite list_lookup_fmap;
          [rewrite Hj; cbn; by rewrite Heq|by rewrite Hi]. }
      destruct (Hn y (list_elem_of_lookup_2 _ _ _ Hj)) as [Hw Hst Hor Ha]. constructor; [|done..].
      apply Hexp; [|done|apply expected_le; [done|by eauto|by left|intros be [Hbe|Hbe]; do 2 right; auto]].
      apply elem_of_expected. right. left. eexists. split; [left; exact Hmine|]. rewrite program_other by done.
      unfold event_actions. by rewrite announce_change.
Qed.

(** A failed operation leaves the tables as they were. *)
Lemma worlds_same_tables d d' x P : same_tables d d' -> worlds_ok d x P -> worlds_ok d' x P.
Proof.
  intros [Hz Hr] [Hwz Hwn]. apply (worlds_weaken d' x ([] :: P)).
  { intros l [-> |Hl]%elem_of_cons; [by left|right; by exists l]. }
  split; rewrite fmap_cons.
  - refine (step_ok _ _ _ (step_commit _ _ _ _ _ _ _ _) Hwz). intros k. left. intros r.
    unfold zone_source, store_zone_of, deepest_zone. by rewrite Hz.
  - refine (step_ok _ _ _ (step_commit _ _ _ _ _ _ _ _) Hwn). intros k. left. intros set Hs z n Hnul ->.
    specialize (Hs z n Hnul eq_refl). unfold store_names_of, lookup_answer, has_child in *. by rewrite Hr.
Qed.

Lemma c_fail_ok c e so r d' :
  cluster_ok c -> valid_op so -> run s e so (cdb c) = (r, d') -> r <> Ok tt -> commit_applied e = false ->
  cluster_ok (mkCluster d' (nodes c) (lost c)).
Proof.
  intros [Hr Hcont Ho Hs Hn] Hv Hrun Hne Hca.
  assert (Hd : d' = snd (run s e so (cdb c))) by (by rewrite Hrun).
  assert (Hst : same_tables (cdb c) d').
  { rewrite Hd. apply run_atomic; [by apply (reachable_db_ok s)|done|by rewrite Hrun]. }
  constructor; cbn [cdb nodes]; [rewrite Hd; by apply reachable_step|rewrite Hd; by apply run_content|done|done|].
  intros x Hx. destruct (Hn x Hx) as [Hw ? ? ?]. constructor; [|done..]. by apply (worlds_same_tables (cdb c)).
Qed.

(** Messages come and go at an instance. *)
Lemma inbox_ok c c' i x ms st :
  cluster_ok c -> nodes c !! i = Some x -> cdb c' = cdb c -> st <> CLOSED ->
  nodes c' = <[i := with_status (with_inbox x ms) st]> (nodes c) ->
  (connected x = false -> st <> CONNECTED) -> (forall be, be ∈ lost c -> be ∈ lost c') ->
  (forall be, be ∈ omap Unmarshal (inbox x) -> be ∈ omap Unmarshal ms \/ be ∈ lost c' \/ st <> CONNECTED) ->
  cluster_ok c'.
Proof.
  intros Hc Hi Hd Hcl Hn Hst Hl Hin. destruct (k_nodes _ Hc x (list_elem_of_lookup_2 _ _ _ Hi)) as [_ _ _ Ha].
  assert (Hoff : st <> CONNECTED -> clears (with_status (with_inbox x ms) st)).
  { intros Hs. left. unfold connected, Healthy. cbn. by rewrite bool_decide_eq_false_2. }
  eapply (ok_moved c c' i x (with_status (with_inbox x ms) st)); try done; [by eauto|auto| |].
  - intros be Hbe. destruct (Hin be Hbe) as [?|[?|?]]; [|do 2 right; left; apply elem_of_flight; by right|right; left; auto].
    do 3 right. by left.
  - eapply flight_update; [done..| |done]. intros be Hbe. by left.
Qed.

Lemma cstep_ok c c' : cstep s c c' -> cluster_ok c -> cluster_ok c'.
Proof.
  destruct 1 as [c c' Hs|c i x zc zl Hi Hs|c i x zc zl Hi Hs|c i x e so ev d' Hi Hv Hrun Hev|c e so r d' Hv Hrun Hne Hca
    |c i x ms rest Hi Hx Hin|c i x m Hi|c i x m1 m m2 Hi Hin|c i x t1 ev t2 Hi Ht]; intros Hc.
  - by eapply internal_ok.
  - destruct (k_nodes _ Hc x (list_elem_of_lookup_2 _ _ _ Hi)) as [Hw ? ? ?].
    assert (Hf : forall be, be ∈ flight c -> be ∈ flight (set_node c i (with_zones x zc zl))).
    { eapply flight_update; [done..| |done]. intros be Hbe. by left. }
    eapply (ok_update c _ i x); try done. apply (worlds_zone_load _ _ _ _ _ Hs).
    eapply worlds_weaken; [|exact Hw]. by apply (coming_le (todo <$> tasks x)).
  - destruct (k_nodes _ Hc x (list_elem_of_lookup_2 _ _ _ Hi)) as [Hw ? ? ?].
    assert (Hf : forall be, be ∈ flight c -> be ∈ flight (set_node c i (with_names x zc zl))).
    { eapply flight_update; [done..| |done]. intros be Hbe. by left. }
    eapply (ok_update c _ i x); try done. apply (worlds_name_load _ _ _ _ _ Hs).
    eapply worlds_weaken; [|exact Hw]. by apply (coming_le (todo <$> tasks x)).
  - by eapply c_write_ok.
  - by eapply c_fail_ok.
  - eapply (inbox_ok c _ i x ms RECONNECTING); try done. intros be _. by right; right.
  - assert (Hid : with_inbox x (inbox x ++ [m]) = with_status (with_inbox x (inbox x ++ [m])) (nc (bus x))).
    { by destruct x as [[]]. }
    destruct (k_nodes _ Hc x (list_elem_of_lookup_2 _ _ _ Hi)) as [_ Hst _ _]. rewrite Hid.
    eapply (inbox_ok c _ i x); try done; [|intros be Hbe; left; rewrite omap_app, elem_of_app; by left].
    unfold connected, Healthy. by case_bool_decide.
  - assert (Hid : with_inbox x (m1 ++ m2) = with_status (with_inbox x (m1 ++ m2)) (nc (bus x))) by (by destruct x as [[]]).
    destruct (k_nodes _ Hc x (list_elem_of_lookup_2 _ _ _ Hi)) as [_ Hst _ _]. rewrite Hid.
    eapply (inbox_ok c _ i x); try done; [unfold connected, Healthy; by case_bool_decide|..].
    + intros be Hbe. apply elem_of_app. by right.
    + intros be. rewrite Hin. change (m :: m2) with ([m] ++ m2). rewrite !omap_app, !elem_of_app. cbn [lost]. rewrite elem_of_app. tauto.
  - by apply ok_lose.
Qed.

Lemma cluster_reaches_ok c : encoder_total s -> cluster_reaches s c -> cluster_ok c.
Proof.
  intros Henc. induction 1 as [subj l d Hd Hl|c c' _ IH Hs]; [|by eapply cstep_ok].
  apply api_reachable_ok in Hd as [Hr Hcont]; [|done]. constructor; cbn [cdb nodes]; [done|done| | |].
  - rewrite <- list_fmap_compose.
    assert (Ho : (fun x => origin (bus x)) ∘ start subj = EncodeToString ∘ sId) by done. rewrite Ho, list_fmap_compose.
    apply NoDup_fmap_2; [|done]. intros b1 b2. apply EncodeToString_inj.
  - by intros ? ? (x & -> & _)%list_elem_of_fmap (y & -> & _)%list_elem_of_fmap.
  - intros ? (x & -> & Hx)%list_elem_of_fmap. constructor; [|done|apply EncodeToString_ascii|by intros t ev ?%not_elem_of_nil].
    assert (Hw : worlds_ok d (start subj x) []) by (split; apply New_world_ok).
    eapply worlds_weaken; [|exact Hw]. by intros l' ?%not_elem_of_nil.
Qed.

(** ** At rest *)
Lemma settled_expects c x : settled c x -> expected c x = [].
Proof.
  intros (Hst & Ht & Hin & Hl & Hy). unfold expected, connected, Healthy. rewrite Ht, Hin, bool_decide_eq_true_2 by done.
  assert (flight c = []) as ->; [|done]. destruct (flight c) as [|be bes] eqn:E; [done|]. exfalso.
  assert (Hbe : be ∈ flight c) by (rewrite E; left). apply elem_of_flight in Hbe as [(y & Hyc & Hbe)|Hbe].
  - destruct (Hy y Hyc) as [Ho Ha]. unfold node_flight, after_events in Hbe. rewrite Ho, app_nil_r in Hbe.
    apply list_elem_of_omap in Hbe as (t & Hin' & He). by rewrite (Ha t Hin') in He.
  - rewrite Hl in Hbe. by apply not_elem_of_nil in Hbe.
Qed.

(** The caches of an instance nothing is on its way to agree with the database. *)
Lemma settled_agree c x es clk :
  cluster_ok c -> x ∈ nodes c -> settled c x -> (forall n, env_ok (es n) /\ no_fault (es n)) ->
  cached_ok (serves no_fault (cdb c)) (store_zone_of (cdb c)) (store_names_of s (cdb c)) (resolver_of c x es clk).
Proof.
  intros Hc Hx Hs Hes. destruct (k_nodes _ Hc x Hx) as [[Hz Hn] _ _ _]. rewrite (settled_expects c x Hs) in *.
  destruct Hz as [Hzc _ Hze _], Hn as [Hnc _ Hne _]. cbn [cache source invalidations] in *.
  constructor; cbn [next CachedResolver.zones names resolver_of]; [done|done|done| |].
  - intros q e He. destruct (Hze q e He) as [_ [?|(l & Hl%not_elem_of_nil & _)]]; done.
  - intros z n e Hnul He. destruct (Hne _ e He) as [Hg [Hv|(l & Hl%not_elem_of_nil & _)]]; [|done].
    split; [by apply Hv|]. by rewrite Hg, names_group_key.
Qed.


(** ** The code behind the steps *)

(** [notify], the subscriber and the reconnect handler do what their tasks do. *)
Definition run_program {S} (l : list caction) (r : CachedResolver S) : CachedResolver S :=
  set_names (set_zones r (acts (zpart l) (CachedResolver.zones r))) (acts (npart l) (names r)).

Lemma daemon_notify_task {S} (r : CachedResolver S) b ev :
  let a := announce ev in
  daemon_notify (Some r) (Some b) (evKind ev) (evZone ev) (evName ev) =
  Ok (Some (run_program (event_actions ev) r), Publish b (evKind a) (evZone a) (evName a)).
Proof.
  cbv zeta. unfold daemon_notify, event_actions, announce, event_change, run_program.
  destruct (evKind ev); rewrite Invalidate_acts; done.
Qed.

Lemma on_message_task {S} (r : CachedResolver S) b data :
  on_message b data r = Ok (match receive b data with Some ev => run_program (event_actions ev) r | None => r end).
Proof.
  unfold on_message. destruct (receive b data) as [ev|]; [|done].
  by rewrite invalidate_for_change, Invalidate_acts.
Qed.

(** A successful call of the API, followed by [notify], is a write of the cluster. *)
Lemma api_call_step c i x e1 e2 o w' :
  encoder_total s -> nodes c !! i = Some x -> canonical o ->
  api_run s e1 e2 o (Api.mkWorld (cdb c) []) = (Ok tt, w') ->
  exists ev, announced w' = [ev] /\
    cstep s c (set_node (mkCluster (tables w') (nodes c) (lost c)) i
      (with_tasks x (tasks x ++ [mkTask (event_actions ev) (Some (announce ev))]))).
Proof.
  intros Henc Hi Hcan Hr.
  apply api_run_effect in Hr as [[_ [? ?]]|(e & so & _ & Hv & Ht & Hr & ev & Ha & Hch)]; [done| |done].
  exists ev. split; [done|]. apply (c_write s c i x e so ev); [done|done| |by apply Hch].
  rewrite Ht. by apply pair_snd.
Qed.
End Invariant.
