(* ===== verification/ClusterLiveness.v ===== *)
(** * The instances come to rest

    Left alone, the goroutines of all instances finish: every run of their steps is bounded by
    the work that is under way, and as long as there is any, one of them can go on. *)

From Stdlib Require Import ZArith Lia Ascii String.
From stdpp Require Import base list strings gmap relations.
From S2P Require Import Prelude GoStrings Message WireNames Names RData RDataCorrect.
From S2P Require Import Handler HandlerResponses Api Store StoreCorrect.
From S2P Require Import StoreQueries ApiCorrect Events Cache Resolver CachedResolver CachedResolverCorrect CacheConcurrency.
From S2P Require Import Cluster ClusterCorrect.

Section Liveness.
Context `{GoUnicodeLaws} `{PostgresLaws} `{GoMapsLaws} `{ProtoLaws} (s : Store).

(** ** The work under way *)

(** A message costs its handling and the invalidation it starts. *)
Definition event_weight (ev : ChangeEvent) : nat := length (event_actions ev) + 2.

Definition msg_weight (m : bytes) : nat :=
  match Unmarshal m with Some be => event_weight (evChange be) | None => 1 end.

(** [n] instances receive what a task publishes. *)
Definition task_weight (n : nat) (t : task) : nat :=
  length (todo t) + 1 + match after t with Some ev => n * event_weight ev + 1 | None => 0 end.

Definition node_weight (n : nat) (x : node) : nat :=
  sum_list_with (task_weight n) (tasks x) + sum_list_with (fun m => n * msg_weight m + 1) (outbox x) +
  sum_list_with msg_weight (inbox x) + (if connected x then 0 else length InvalidateAll_actions + 2).

Definition weight (c : cluster) : nat := sum_list_with (node_weight (length (nodes c))) (nodes c).

#[local] Opaque InvalidateAll_actions Invalidate_actions event_actions.

Lemma sum_list_update {A} (f : A -> nat) (l : list A) i x x' :
  l !! i = Some x -> sum_list_with f (<[i := x']> l) + f x = sum_list_with f l + f x'.
Proof.
  revert i. induction l as [|y l IH]; intros [|i] Hi; simplify_eq/=; [lia|]. specialize (IH i Hi). lia.
Qed.

Lemma weight_set_node c i x x' :
  nodes c !! i = Some x ->
  weight (set_node c i x') + node_weight (length (nodes c)) x = weight c + node_weight (length (nodes c)) x'.
Proof. intros Hi. unfold weight. cbn. rewrite length_insert. by apply sum_list_update. Qed.

Lemma weight_accept n subj ms x :
  node_weight n (accept subj ms x) <= node_weight n x + sum_list_with msg_weight ms.
Proof.
  destruct (accept_inbox subj ms x) as (ms' & -> & Hms). unfold node_weight. cbn.
  change (connected (with_inbox x ms')) with (connected x).
  destruct Hms as [->|[-> _]]; [rewrite sum_list_with_app|]; lia.
Qed.

Lemma weight_broadcast n subj ms c :
  length (nodes c) = n -> weight (broadcast subj ms c) <= weight c + n * sum_list_with msg_weight ms.
Proof.
  intros <-. unfold weight. cbn. rewrite length_fmap. generalize (length (nodes c)) at 1 2. intros n.
  induction (nodes c) as [|x l IH]; cbn; [lia|]. pose proof (weight_accept n subj ms x). lia.
Qed.

Lemma task_weight_app n t1 t t2 :
  sum_list_with (task_weight n) (t1 ++ t :: t2) = sum_list_with (task_weight n) (t1 ++ t2) + task_weight n t.
Proof. rewrite !sum_list_with_app. cbn. lia. Qed.

Lemma node_weight_remove n x t1 t t2 :
  tasks x = t1 ++ t :: t2 -> node_weight n x = node_weight n (with_tasks x (t1 ++ t2)) + task_weight n t.
Proof.
  intros Ht. unfold node_weight. change (connected (with_tasks x (t1 ++ t2))) with (connected x). cbn.
  rewrite Ht, task_weight_app. lia.
Qed.

Lemma node_weight_grow n x ts :
  node_weight n (with_tasks x (tasks x ++ ts)) = node_weight n x + sum_list_with (task_weight n) ts.
Proof.
  unfold node_weight. change (connected (with_tasks x (tasks x ++ ts))) with (connected x). cbn.
  rewrite sum_list_with_app. lia.
Qed.

Lemma node_weight_outbox n x ms :
  node_weight n (with_outbox x (outbox x ++ ms)) = node_weight n x + sum_list_with (fun m => n * msg_weight m + 1) ms.
Proof.
  unfold node_weight. change (connected (with_outbox x (outbox x ++ ms))) with (connected x). cbn.
  rewrite sum_list_with_app. lia.
Qed.

(** The caches weigh nothing. *)
Lemma node_weight_step n x x' t1 a l af t2 :
  tasks x = t1 ++ mkTask (a :: l) af :: t2 -> tasks x' = t1 ++ mkTask l af :: t2 ->
  bus x' = bus x -> inbox x' = inbox x -> outbox x' = outbox x -> node_weight n x = S (node_weight n x').
Proof.
  intros Ht Ht' Hb Hi Ho. unfold node_weight, connected. rewrite Ht, Ht', Hb, Hi, Ho, !task_weight_app.
  unfold task_weight at 2 4. cbn. lia.
Qed.

Lemma node_weight_reconnect n x :
  nc (bus x) = RECONNECTING ->
  let x' := with_status (with_outbox (with_tasks x (tasks x ++ [mkTask InvalidateAll_actions None])) []) CONNECTED in
  node_weight n x = S (node_weight n x' + sum_list_with (fun m => n * msg_weight m + 1) (outbox x)).
Proof.
  intros Hx x'. unfold node_weight. assert (connected x = false) as -> by (unfold connected, Healthy; by rewrite Hx).
  assert (connected x' = true) as -> by done. subst x'. cbn. rewrite sum_list_with_app. cbn.
  replace (task_weight n (mkTask InvalidateAll_actions None)) with (length InvalidateAll_actions + 1) by (unfold task_weight; cbn; lia). lia.
Qed.

Lemma published_weight b ev subj m :
  Publish b (evKind ev) (evZone ev) (evName ev) = Some (subj, m) -> msg_weight m = event_weight ev.
Proof. intros [_ Hm]%Publish_event. unfold msg_weight. rewrite Hm. by destruct ev. Qed.

Lemma outbox_weight n ms : n * sum_list_with msg_weight ms <= sum_list_with (fun m => n * msg_weight m + 1) ms.
Proof. induction ms as [|m ms IH]; cbn; [lia|]. nia. Qed.

(** Every step takes away from the work. *)
Lemma internal_weight c c' : internal c c' -> weight c' < weight c.
Proof.
  destruct 1 as [c i x t1 a l af t2 Hi Ht He|c i x t1 a l af t2 Hi Ht He|c i x t1 t2 Hi Ht|c i x t1 ev t2 subj m Hi Ht Hx Hp
    |c i x t1 ev t2 subj m Hi Ht Hx Hp|c i x m ms Hi Hin|c i x Hi Hx].
  1, 2: set (x' := with_tasks _ _); pose proof (weight_set_node c i x x' Hi);
    pose proof (node_weight_step (length (nodes c)) x x' t1 _ l af t2 Ht eq_refl eq_refl eq_refl eq_refl); lia.
  all: set (n := length (nodes c)).
  - pose proof (weight_set_node c i x (with_tasks x (t1 ++ t2)) Hi) as Hw. fold n in Hw.
    rewrite (node_weight_remove n x _ _ _ Ht) in Hw. unfold task_weight in Hw. cbn [todo after length] in Hw. lia.
  - pose proof (weight_set_node c i x (with_tasks x (t1 ++ t2)) Hi) as Hw. fold n in Hw.
    rewrite (node_weight_remove n x _ _ _ Ht) in Hw. unfold task_weight in Hw. cbn [todo after length] in Hw.
    pose proof (weight_broadcast n subj [m] (set_node c i (with_tasks x (t1 ++ t2))) (length_insert _ _ _)) as Hb.
    cbn [sum_list_with] in Hb. rewrite (published_weight _ _ _ _ Hp) in Hb. lia.
  - pose proof (weight_set_node c i x (with_outbox (with_tasks x (t1 ++ t2)) (outbox x ++ [m])) Hi) as Hw. fold n in Hw.
    rewrite (node_weight_remove n x _ _ _ Ht) in Hw. unfold task_weight in Hw. cbn [todo after length] in Hw.
    pose proof (node_weight_outbox n (with_tasks x (t1 ++ t2)) [m]) as Ho. cbn [outbox with_tasks sum_list_with] in Ho.
    rewrite (published_weight _ _ _ _ Hp) in Ho. lia.
  - set (ts := match receive _ _ with Some _ => _ | None => _ end).
    pose proof (weight_set_node c i x (with_tasks (with_inbox x ms) (tasks x ++ ts)) Hi) as Hw. fold n in Hw.
    assert (Hx : node_weight n (with_tasks (with_inbox x ms) (tasks x ++ ts)) + msg_weight m = node_weight n x + sum_list_with (task_weight n) ts).
    { pose proof (node_weight_grow n (with_inbox x ms) ts) as Hg. cbn [tasks with_inbox] in Hg. rewrite Hg.
      unfold node_weight. change (connected (with_inbox x ms)) with (connected x). cbn. rewrite Hin. cbn. lia. }
    assert (Hts : sum_list_with (task_weight n) ts < msg_weight m); [|lia].
    unfold ts, receive, msg_weight. destruct (Unmarshal m) as [be|]; cbn; [|lia].
    case_bool_decide; cbn; unfold task_weight, event_weight; cbn; lia.
  - set (x' := with_status _ _). pose proof (weight_set_node c i x x' Hi) as Hw. fold n in Hw.
    pose proof (weight_broadcast n (subject (bus x)) (outbox x) (set_node c i x') (length_insert _ _ _)) as Hb.
    pose proof (outbox_weight n (outbox x)). pose proof (node_weight_reconnect n x Hx) as Hr. cbv zeta in Hr. fold x' in Hr. lia.
Qed.

(** ** No step gets stuck *)

(** Only a disconnected instance keeps messages back. *)
Definition outbox_ok (c : cluster) : Prop := forall x, x ∈ nodes c -> connected x = true -> outbox x = [].

Lemma outbox_update c c' i x x' :
  outbox_ok c -> nodes c !! i = Some x -> nodes c' = <[i := x']> (nodes c) ->
  (connected x' = true -> outbox x = [] \/ connected x = false -> outbox x' = []) -> outbox_ok c'.
Proof.
  intros Hc Hi Hn Hx y. rewrite Hn. intros Hy Hcy.
  apply (elem_of_update _ _ x) in Hy as [->|(j & _ & Hj%list_elem_of_lookup_2)]; [|by apply Hc|done].
  apply Hx; [done|]. destruct (connected x) eqn:E; [left|by right]. eapply Hc; [by eapply list_elem_of_lookup_2|done].
Qed.

Lemma outbox_same c c' i x x' :
  outbox_ok c -> nodes c !! i = Some x -> nodes c' = <[i := x']> (nodes c) ->
  bus x' = bus x -> outbox x' = outbox x -> outbox_ok c'.
Proof.
  intros Hc Hi Hn Hb Ho. apply (outbox_update c c' i x x' Hc Hi Hn). unfold connected. rewrite Hb, Ho.
  intros Ht [?|Hf]; [done|]. by rewrite Ht in Hf.
Qed.

Lemma outbox_broadcast subj ms c : outbox_ok c -> outbox_ok (broadcast subj ms c).
Proof.
  intros Hc ? (x & -> & Hx)%list_elem_of_fmap. destruct (accept_inbox subj ms x) as (ms' & -> & _).
  exact (Hc x Hx).
Qed.

Lemma cstep_outbox c c' : cstep s c c' -> outbox_ok c -> outbox_ok c'.
Proof.
  destruct 1 as [c c' Hs|c i x zc zl Hi Hs|c i x zc zl Hi Hs|c i x e so ev d' Hi Hv Hrun Hev|c e so r d' Hv Hrun Hne Hca
    |c i x ms rest Hi Hx Hin|c i x m Hi|c i x m1 m m2 Hi Hin|c i x t1 ev t2 Hi Ht]; intros Hc.
  - destruct Hs as [c i x t1 a l af t2 Hi Ht He|c i x t1 a l af t2 Hi Ht He|c i x t1 t2 Hi Ht|c i x t1 ev t2 subj m Hi Ht Hx Hp
      |c i x t1 ev t2 subj m Hi Ht Hx Hp|c i x m ms Hi Hin|c i x Hi Hx]; try apply outbox_broadcast.
    5: { eapply outbox_update; try done. intros Hcx. change (connected x = true) in Hcx. congruence. }
    6: { by eapply outbox_update. }
    all: by eapply outbox_same.
  - by eapply outbox_same.
  - by eapply outbox_same.
  - by eapply (outbox_same c _ i x).
  - done.
  - by eapply outbox_update.
  - by eapply outbox_same.
  - by eapply (outbox_same c _ i x).
  - by eapply (outbox_same c _ i x).
Qed.

Lemma cluster_reaches_outbox c : cluster_reaches s c -> outbox_ok c.
Proof.
  induction 1 as [subj l d Hd Hl|c c' _ IH Hs]; [|by eapply cstep_outbox].
  by intros ? (x & -> & _)%list_elem_of_fmap.
Qed.

(** Epochs do not wrap around while the work lasts. *)
Definition room (c : cluster) : Prop :=
  forall x, x ∈ nodes c ->
  (epoch (zoneCache x) + Z.of_nat (weight c) < 2 ^ 64)%Z /\ (epoch (nameCache x) + Z.of_nat (weight c) < 2 ^ 64)%Z.

Lemma act_epoch_le {V} a (c : Cache V) : (0 <= epoch c)%Z -> (epoch (act a c) <= epoch c + 1)%Z.
Proof. intros He. destruct a; cbn; try lia. unfold u64. apply Z.mod_le; lia. Qed.

Lemma internal_room c c' : cluster_ok s c -> internal c c' -> room c -> room c'.
Proof.
  intros Hc Hs Hr. pose proof (internal_weight c c' Hs) as Hw.
  enough (He : forall y, y ∈ nodes c' -> exists x, x ∈ nodes c /\
    (epoch (zoneCache y) <= epoch (zoneCache x) + 1)%Z /\ (epoch (nameCache y) <= epoch (nameCache x) + 1)%Z).
  { intros y Hy. destruct (He y Hy) as (x & Hx & ? & ?). destruct (Hr x Hx). lia. }
  assert (Hupd : forall i x x', nodes c !! i = Some x ->
    (epoch (zoneCache x') <= epoch (zoneCache x) + 1)%Z -> (epoch (nameCache x') <= epoch (nameCache x) + 1)%Z ->
    forall y, y ∈ <[i := x']> (nodes c) -> exists x, x ∈ nodes c /\
    (epoch (zoneCache y) <= epoch (zoneCache x) + 1)%Z /\ (epoch (nameCache y) <= epoch (nameCache x) + 1)%Z).
  { intros i x x' Hi Hz Hn y Hy. apply (elem_of_update _ _ x) in Hy as [->|(j & _ & Hj%list_elem_of_lookup_2)]; [| |done].
    - exists x. split; [by eapply list_elem_of_lookup_2|done].
    - exists y. split; [done|lia]. }
  assert (Hpos : forall i x, nodes c !! i = Some x -> (0 <= epoch (zoneCache x))%Z /\ (0 <= epoch (nameCache x))%Z).
  { intros i x Hi%list_elem_of_lookup_2. destruct (k_nodes _ _ Hc x Hi) as [[[_ ? _ _] [_ ? _ _]] _ _ _]. done. }
  destruct Hs as [c i x t1 a l af t2 Hi Ht He|c i x t1 a l af t2 Hi Ht He|c i x t1 t2 Hi Ht|c i x t1 ev t2 subj m Hi Ht Hx Hp
    |c i x t1 ev t2 subj m Hi Ht Hx Hp|c i x m ms Hi Hin|c i x Hi Hx]; destruct (Hpos i x Hi) as [Hpz Hpn].
  4, 7: intros ? (y' & -> & Hy')%list_elem_of_fmap;
    eapply (Hupd i x _ Hi) in Hy' as (z & Hz & Hz1 & Hz2); [exists z; split; [done|]|cbn; lia..];
    match goal with |- context [accept ?a ?b ?c] => destruct (accept_inbox a b c) as (? & -> & _) end; done.
  all: eapply (Hupd i x _ Hi); cbn; try lia; by apply act_epoch_le.
Qed.

(** As long as there is work, some instance can do it. *)
Lemma progress c : cluster_ok s c -> outbox_ok c -> room c -> (exists c', internal c c') \/ quiet c.
Proof.
  intros Hc Ho Hr.
  assert (Hnode : forall x, x ∈ nodes c ->
    (exists c', internal c c') \/ (nc (bus x) = CONNECTED /\ tasks x = [] /\ inbox x = [] /\ outbox x = [])).
  { intros x Hx. destruct (k_nodes _ _ Hc x Hx) as [_ Hst Hor Haf]. destruct (Hr x Hx) as [Hrz Hrn].
    pose proof Hx as (i & Hi)%list_elem_of_lookup.
    destruct (tasks x) as [|[todo af] ts] eqn:Ht.
    - destruct (inbox x) as [|m ms] eqn:Hin; [|left; eexists; by eapply int_deliver].
      destruct (nc (bus x)) eqn:Hnc; [right|left; eexists; by eapply int_reconnect|done].
      do 3 (split; [done|]). apply Ho; [done|]. unfold connected, Healthy. by rewrite Hnc.
    - left. assert (Hw : 1 <= weight c).
      { pose proof (weight_set_node c i x (with_tasks x ts) Hi) as Hw.
        rewrite (node_weight_remove _ x [] _ ts Ht) in Hw. unfold task_weight in Hw. cbn [app] in Hw. lia. }
      destruct todo as [|[a|a] l].
      + destruct af as [ev|]; [|eexists; by eapply (int_done c i x [])].
        assert (Hasc : ascii_text (evZone ev) /\ ascii_text (evName ev)) by (eapply Haf; [rewrite Ht; left|done]).
        destruct (Marshal_ascii (mkBusEvent (origin (bus x)) (mkEvent (evKind ev) (evZone ev) (evName ev)))) as [m Hm]; [done|apply Hasc..|].
        assert (Hp : Publish (bus x) (evKind ev) (evZone ev) (evName ev) = Some (subject (bus x), m)) by (unfold Publish; by rewrite Hm).
        destruct (connected x) eqn:Hcx; eexists; [by eapply (int_publish c i x [])|by eapply (int_queue c i x [])].
      + eexists. eapply (int_zones c i x []); [done..|lia].
      + eexists. eapply (int_names c i x []); [done..|lia]. }
  unfold quiet. induction (nodes c) as [|x l IH]; [right; by intros x ?%not_elem_of_nil|].
  destruct (Hnode x) as [?|Hx]; [left|by left|]. destruct IH as [?|IH]; [intros y Hy; apply Hnode; by right|by left|].
  right. intros y [-> |Hy]%elem_of_cons; [done|by apply IH].
Qed.

Lemma internal_keeps c c' : internal c c' -> cdb c' = cdb c /\ lost c' = lost c.
Proof. by destruct 1. Qed.

Lemma run_keeps c c' :
  cluster_ok s c -> outbox_ok c -> room c -> rtc internal c c' ->
  cluster_ok s c' /\ outbox_ok c' /\ room c' /\ cdb c' = cdb c /\ lost c' = lost c.
Proof.
  intros Hc Ho Hr. induction 1 as [c|c c1 c' Hs _ IH]; [done|]. destruct (internal_keeps c c1 Hs) as [Hd Hl].
  destruct IH as (? & ? & ? & -> & ->); [by eapply internal_ok|by eapply cstep_outbox; [apply c_internal|]|by eapply internal_room|].
  by rewrite Hd, Hl.
Qed.

Lemma quiet_settled c x : quiet c -> lost c = [] -> x ∈ nodes c -> settled c x.
Proof.
  intros Hq Hl Hx. destruct (Hq x Hx) as (Hn & Ht & Hi & _). do 4 (split; [done|]). intros y Hy.
  destruct (Hq y Hy) as (_ & Hty & _ & Ho). split; [done|]. rewrite Hty. by intros t ?%not_elem_of_nil.
Qed.

Lemma run_bounded n c c' : nsteps internal n c c' -> n + weight c' <= weight c.
Proof. induction 1 as [c|n c c1 c' Hs _ IH]; [lia|]. apply internal_weight in Hs. lia. Qed.

(** C13. The instances come to rest by themselves: with the database left alone, the goroutines of
    all instances together take at most [weight c] more steps, in whatever order they run; as
    long as they are not done, one of them can go on; and when they are done and no message
    was lost, nothing is on its way to any instance (so that, by the coherence theorem, all of
    them answer from the current tables).  [room] says that no 64-bit epoch is about to wrap. *)
Theorem Cluster_settles c :
  encoder_total s -> cluster_reaches s c -> room c ->
  (forall n c', nsteps internal n c c' -> n <= weight c) /\
  (forall c', rtc internal c c' ->
    (exists c'', internal c' c'') \/
    (quiet c' /\ cdb c' = cdb c /\ (lost c = [] -> forall x, x ∈ nodes c' -> settled c' x))).
Proof.
  intros Henc Hc Hr. split; [intros n c' Hn%run_bounded; lia|]. intros c' Hrun.
  destruct (run_keeps c c' (cluster_reaches_ok s c Henc Hc) (cluster_reaches_outbox c Hc) Hr Hrun) as (Hc' & Ho' & Hr' & Hd & Hl).
  destruct (progress c' Hc' Ho' Hr') as [?|Hq]; [by left|right]. split; [done|]. split; [done|].
  intros Hl0 x Hx. apply quiet_settled; [done|by rewrite Hl|done].
Qed.

(** ** One task after the other *)

Lemma set_node_twice c i x y : set_node (set_node c i x) i y = set_node c i y.
Proof. unfold set_node. cbn. by rewrite list_insert_insert_eq. Qed.

(** A task that runs undisturbed does to the caches what its actions do in sequence. *)
Lemma run_task l c i x af ts :
  nodes c !! i = Some x -> tasks x = mkTask l af :: ts ->
  (epoch (zoneCache x) + Z.of_nat (length l) < 2 ^ 64)%Z -> (epoch (nameCache x) + Z.of_nat (length l) < 2 ^ 64)%Z ->
  (0 <= epoch (zoneCache x))%Z -> (0 <= epoch (nameCache x))%Z ->
  rtc internal c (set_node c i (with_tasks
    (with_names (with_zones x (acts (zpart l) (zoneCache x)) (zoneLoads x)) (acts (npart l) (nameCache x)) (nameLoads x))
    (mkTask [] af :: ts))).
Proof.
  revert c x. induction l as [|[a|a] l IH]; intros c x Hi Ht Hz Hn Hpz Hpn; cbn [length] in *.
  - replace (set_node _ _ _) with c; [done|]. destruct c as [d ns L]. unfold set_node. cbn in *. f_equal.
    symmetry. apply list_insert_id. rewrite Hi. f_equal. destruct x. cbn in *. by subst.
  - pose proof (act_epoch_le a (zoneCache x) Hpz). destruct (act_epoch a (zoneCache x) Hpz ltac:(lia)) as [? _].
    eapply rtc_l; [eapply (int_zones c i x []); [done..|lia]|].
    set (x1 := with_tasks (with_zones x _ _) _). set (c1 := set_node c i x1).
    assert (Hi1 : nodes c1 !! i = Some x1) by (apply list_lookup_insert_eq; by eapply lookup_lt_Some).
    specialize (IH c1 x1 Hi1 eq_refl ltac:(cbn; lia) ltac:(cbn; lia) ltac:(cbn; lia) ltac:(cbn; lia)).
    unfold c1 in IH. rewrite set_node_twice in IH. exact IH.
  - pose proof (act_epoch_le a (nameCache x) Hpn). destruct (act_epoch a (nameCache x) Hpn ltac:(lia)) as [? _].
    eapply rtc_l; [eapply (int_names c i x []); [done..|lia]|].
    set (x1 := with_tasks (with_names x _ _) _). set (c1 := set_node c i x1).
    assert (Hi1 : nodes c1 !! i = Some x1) by (apply list_lookup_insert_eq; by eapply lookup_lt_Some).
    specialize (IH c1 x1 Hi1 eq_refl ltac:(cbn; lia) ltac:(cbn; lia) ltac:(cbn; lia) ltac:(cbn; lia)).
    unfold c1 in IH. rewrite set_node_twice in IH. exact IH.
Qed.

Lemma reaches_rtc c c' : cluster_reaches s c -> rtc internal c c' -> cluster_reaches s c'.
Proof. intros Hc. induction 1 as [c|c c1 c' Hs _ IH]; [done|]. apply IH. eapply cluster_step; [done|by apply c_internal]. Qed.
End Liveness.
