(* ===== verification/ClusterRuns.v ===== *)
(** * Two instances at work

    A concrete encoding of events, the theorems on clusters applied to two instances, and what
    happens when an event does not arrive. *)

From Stdlib Require Import ZArith Lia Ascii String.
From stdpp Require Import base list strings gmap relations.
From S2P Require Import Prelude GoStrings Message WireNames Names RData RDataCorrect.
From S2P Require Import Handler HandlerResponses HandlerRuns Api Store StoreCorrect StoreQueries.
From S2P Require Import ApiCorrect ApiRuns Events Cache Resolver CachedResolver CachedResolverCorrect CacheConcurrency.
From S2P Require Import Cluster ClusterCorrect ClusterLiveness.

(** ** An encoding *)
Fixpoint enc_text (t : gostring) : bytes :=
  match t with [] => ["0"%char] | c :: t' => "1"%char :: c :: enc_text t' end.

Fixpoint dec_text (b : bytes) : option (gostring * bytes) :=
  match b with
  | m :: r =>
    if bool_decide (m = "0"%char) then Some ([], r)
    else match r with
         | c :: r' => match dec_text r' with Some (t, r'') => Some (c :: t, r'') | None => None end
         | [] => None
         end
  | [] => None
  end.

Lemma dec_enc t r : dec_text (enc_text t ++ r) = Some (t, r).
Proof. induction t as [|c t IH]; [done|]. cbn. by rewrite IH. Qed.

Definition proto_ref : Proto := {|
  Marshal be :=
    Some (match evKind (evChange be) with KIND_UNSPECIFIED => "u" | KIND_ZONE => "z" | KIND_RECORD => "r" end%char ::
          enc_text (evOrigin be) ++ enc_text (evZone (evChange be)) ++ enc_text (evName (evChange be)) ++ []);
  Unmarshal b :=
    match b with
    | k :: b =>
      match dec_text b with
      | Some (o, b) =>
        match dec_text b with
        | Some (z, b) =>
          match dec_text b with
          | Some (n, _) =>
            Some (mkBusEvent o (mkEvent
              (if bool_decide (k = "u"%char) then KIND_UNSPECIFIED else if bool_decide (k = "z"%char) then KIND_ZONE else KIND_RECORD) z n))
          | None => None
          end
        | None => None
        end
      | None => None
      end
    | [] => None
    end;
|}.

Lemma proto_ref_laws : @ProtoLaws proto_ref.
Proof.
  constructor.
  - intros [o [k z n]] b [= <-]. cbn [Unmarshal proto_ref evKind evZone evName evOrigin evChange].
    rewrite !dec_enc. by destruct k.
  - intros ev _ _ _. by eexists.
Qed.

#[local] Existing Instance unicode_id.
#[local] Existing Instance unicode_id_laws.
#[local] Existing Instance pg_ref.
#[local] Existing Instance pg_ref_laws.
#[local] Existing Instance maps_ref.
#[local] Existing Instance maps_ref_laws.
#[local] Existing Instance proto_ref.
#[local] Existing Instance proto_ref_laws.

(** ** Two instances *)
Definition ref_settings : list setting :=
  [mkSetting (lit "aaaaaaaa") 1000 0; mkSetting (lit "bbbbbbbb") 500 0].

Definition pair_nodes : list node := start (lit "sharddns.changes") <$> ref_settings.
Definition pair_start : cluster := mkCluster api_db pair_nodes [].

Definition node_a : node := start (lit "sharddns.changes") (mkSetting (lit "aaaaaaaa") 1000 0).
Definition node_b : node := start (lit "sharddns.changes") (mkSetting (lit "bbbbbbbb") 500 0).

Lemma pair_start_reached : cluster_reaches ref_store pair_start.
Proof. apply cluster_start; [apply api_db_reachable|]. refine (bool_decide_unpack _ _). vm_compute. exact I. Qed.

Lemma node_b_settled : settled pair_start node_b.
Proof.
  do 4 (split; [done|]). intros y Hy. change (nodes pair_start) with [node_a; node_b] in Hy.
  rewrite !elem_of_cons in Hy. destruct Hy as [-> |[-> |?%not_elem_of_nil]]; [..|done]; (split; [done|]); by intros t ?%not_elem_of_nil.
Qed.


(** A deletion through the first instance. *)
Definition delete_op : op := DeleteRecordOp (lit "example.com") (lit "www.example.com") (lit "A") (lit "192.0.2.1").
Definition delete_event : ChangeEvent := mkEvent KIND_RECORD (lit "example.com") (lit "www.example.com").
Definition deleted_db : DB := snd (run ref_store env0 delete_op api_db).

Definition pair_written : cluster :=
  mkCluster deleted_db [with_tasks node_a [mkTask (event_actions delete_event) (Some delete_event)]; node_b] [].

Lemma delete_runs : run ref_store env0 delete_op api_db = (Ok tt, deleted_db).
Proof. refine (pair_snd (run ref_store env0 delete_op api_db) _ _). vm_compute. reflexivity. Qed.

Lemma pair_written_reached : cluster_reaches ref_store pair_written.
Proof.
  eapply cluster_step; [apply pair_start_reached|].
  exact (c_write ref_store pair_start 0 node_a env0 delete_op delete_event deleted_db eq_refl I delete_runs eq_refl).
Qed.

Lemma pair_written_room : room pair_written.
Proof.
  assert (Hr : forallb (fun x => bool_decide (epoch (zoneCache x) + Z.of_nat (weight pair_written) < 2 ^ 64)%Z &&
    bool_decide (epoch (nameCache x) + Z.of_nat (weight pair_written) < 2 ^ 64)%Z) (nodes pair_written) = true)
    by (vm_compute; reflexivity).
  apply forallb_Forall in Hr. rewrite Forall_forall in Hr. intros x Hx. specialize (Hr x Hx).
  apply andb_true_iff in Hr as [H1%bool_decide_eq_true H2%bool_decide_eq_true]. done.
Qed.

Lemma Cluster_settles_witness :
  (exists c'', internal pair_written c'') \/
  (quiet pair_written /\ cdb pair_written = deleted_db /\ (lost pair_written = [] -> forall x, x ∈ nodes pair_written -> settled pair_written x)).
Proof.
  exact (proj2 (Cluster_settles ref_store pair_written ref_store_total pair_written_reached pair_written_room)
    pair_written (rtc_refl _ _)).
Defined.

(** ** An event that is lost *)
Definition www_key : gostring := names_key (lit "example.com") (lit "www.example.com").

(** What the second instance reads of the name, and its caches with it. *)
Definition www_set : NameSet :=
  match Store.LookupName ref_store env0 (lit "example.com") (lit "www.example.com") api_db with
  | Ok set => set
  | _ => mkNameSet [] false
  end.

Definition warm_cache : Cache NameSet :=
  Set_locked (nameCache node_b) www_key (names_group www_key) www_set (Epoch (nameCache node_b)) 0.

Definition warm_b : node := with_names node_b warm_cache [].

Definition pair_stale : cluster :=
  mkCluster deleted_db
    [with_tasks (with_names (with_zones node_a (acts (zpart (event_actions delete_event)) (zoneCache node_a)) [])
       (acts (npart (event_actions delete_event)) (nameCache node_a)) []) []; warm_b]
    [mkBusEvent (origin (bus node_a)) delete_event].

Lemma www_set_source : name_source ref_store api_db www_key www_set.
Proof.
  intros z n Hz Hk. apply names_key_inj in Hk as [<- <-]; [| |done].
  2: { refine (bool_decide_unpack _ _). vm_compute. exact I. }
  pose proof (store_resolver_spec ref_store no_fault api_db) as Hspec.
  destruct (api_reachable_ok ref_store api_db ref_store_total api_db_reachable) as [Hr Hc].
  specialize (Hspec (reachable_db_ok _ _ Hr) (content_text _ Hc) ref_store_total).
  assert (Hs : serves no_fault api_db (mkConn api_db (fun _ => env0) 0)) by (by split).
  pose proof (LookupName_answers (H := StoreResolver ref_store) (lit "example.com") (lit "www.example.com") _ Hs) as Ha.
  cbn [LookupName StoreResolver fst envs calls db] in Ha. unfold www_set.
  destruct (Store.LookupName ref_store env0 (lit "example.com") (lit "www.example.com") api_db) eqn:E;
    [apply Ha; refine (bool_decide_unpack _ _); vm_compute; exact I|vm_compute in E; discriminate..].
Qed.

Lemma pair_stale_reached : cluster_reaches ref_store pair_stale.
Proof.
  set (load := fun c ls => mkCluster api_db [node_a; with_names node_b c ls] []).
  assert (H1 : cluster_reaches ref_store (load warm_cache [])).
  { eapply cluster_step; [|apply (c_name_load ref_store (load (nameCache node_b) [Fetched www_key (Epoch (nameCache node_b)) www_set])
      1 _ warm_cache [] eq_refl), (step_store names_group (nameCache node_b) _ [] [] [] www_key)].
    eapply cluster_step; [|apply (c_name_load ref_store (load (nameCache node_b) [Started www_key (Epoch (nameCache node_b))])
      1 _ (nameCache node_b) [Fetched www_key (Epoch (nameCache node_b)) www_set] eq_refl),
      (step_fetch names_group (nameCache node_b) _ [] [] [] www_key), www_set_source].
    eapply cluster_step; [apply pair_start_reached|].
    apply (c_name_load ref_store pair_start 1 node_b (nameCache node_b) [Started www_key (Epoch (nameCache node_b))] eq_refl),
      (step_start names_group (nameCache node_b) _ [] [] www_key). }
  set (written := mkCluster deleted_db [with_tasks node_a [mkTask (event_actions delete_event) (Some delete_event)]; warm_b] []).
  assert (H2 : cluster_reaches ref_store written).
  { eapply cluster_step; [exact H1|].
    exact (c_write ref_store (load warm_cache []) 0 node_a env0 delete_op delete_event deleted_db eq_refl I delete_runs eq_refl). }
  pose proof (run_task (event_actions delete_event) written 0 _ (Some delete_event) [] eq_refl eq_refl
    ltac:(vm_compute; done) ltac:(vm_compute; done) ltac:(vm_compute; done) ltac:(vm_compute; done)) as Hrun.
  apply (reaches_rtc ref_store written) in Hrun; [|exact H2].
  eapply cluster_step; [exact Hrun|].
  match type of Hrun with cluster_reaches _ (set_node _ _ ?x1) =>
    exact (c_unpublished ref_store (set_node written 0 x1) 0 x1 [] delete_event [] eq_refl eq_refl) end.
Qed.

(** A change event that does not arrive is made up for by nothing, other than a missed
    connection: [Publish] only logs an error.  Here the first instance deletes one of two
    addresses, its event is lost, and afterwards, with both instances connected and nothing
    left to do, the second one still serves both addresses at any later time. *)
Theorem lost_event_stale :
  cluster_reaches ref_store pair_stale /\ quiet pair_stale /\
  length (filter (at_name (lit "example.com") (lit "www.example.com")) (records (cdb pair_stale))) = 1 /\
  forall now, (now < 2 ^ 63 - 1)%Z ->
  match fst (Get (nameCache warm_b) www_key now) with Some set => length (Records set) = 2 | None => False end.
Proof.
  split; [exact pair_stale_reached|]. split; [|split].
  - intros x Hx. unfold pair_stale in Hx. cbn [nodes] in Hx. rewrite !elem_of_cons in Hx.
    by destruct Hx as [-> |[-> |?%not_elem_of_nil]].
  - vm_compute. reflexivity.
  - intros now Hnow. unfold Get.
    assert (He : exists e, shard_of (nameCache warm_b) www_key !! www_key = Some e /\ (2 ^ 63 - 1 <= expires e)%Z /\ length (Records (value e)) = 2).
    { refine (ex_intro _ (default (mkEntry (mkNameSet [] false) [] 0) (shard_of (nameCache warm_b) www_key !! www_key)) _).
      vm_compute. done. }
    destruct He as (e & -> & Hx & Hl). destruct (Z.ltb_spec now (expires e)); [done|lia].
Qed.
