(* ===== verification/Migrate.v ===== *)
(** * Migration of the schema (src/internal/store/store.go, Migrate)

    Any number of instances that start at the same time against one database.  Each runs
    [Migrate] on a connection of its own; every statement may fail, and a session may be lost
    at any time, which frees its advisory lock. *)

From Stdlib Require Import ZArith Lia Ascii String.
From stdpp Require Import base list strings relations.
From S2P Require Import Prelude.

Inductive migrateError := AcquireFailed | LockFailed | CheckFailed | ApplyFailed.

(** Where an instance is: the next thing it does. *)
Inductive migrate_pc :=
| PAcquire
| PLock
| PCheck
| PApply
| PUnlock (r : go migrateError unit)   (* the deferred pg_advisory_unlock *)
| PRelease (r : go migrateError unit)  (* the deferred conn.Release *)
| PReturned (r : go migrateError unit).

(** The database: the holder of the advisory lock and which of the two tables exist. *)
Record schema_state := mkSchema {
  lockHolder : option nat;
  hasZones : bool;
  hasRecords : bool;
  applied : list nat;   (* the instances whose schema script took effect *)
  pcs : list migrate_pc;
}.

Definition present (s : schema_state) : bool := hasZones s && hasRecords s.

Definition goto (s : schema_state) (i : nat) (pc : migrate_pc) : schema_state :=
  mkSchema (lockHolder s) (hasZones s) (hasRecords s) (applied s) (<[i := pc]> (pcs s)).
Definition set_lock (s : schema_state) (h : option nat) : schema_state :=
  mkSchema h (hasZones s) (hasRecords s) (applied s) (pcs s).
(** The script runs as one transaction; its statements say IF NOT EXISTS. *)
Definition apply_schema (s : schema_state) (i : nat) : schema_state :=
  mkSchema (lockHolder s) true true (i :: applied s) (pcs s).

Definition holding (pc : migrate_pc) : bool :=
  match pc with PCheck | PApply | PUnlock _ => true | _ => false end.

Inductive migrate_step : schema_state -> schema_state -> Prop :=
| g_acquire s i : pcs s !! i = Some PAcquire -> migrate_step s (goto s i PLock)
| g_acquire_fails s i : pcs s !! i = Some PAcquire -> migrate_step s (goto s i (PReturned (Err AcquireFailed)))
| g_lock s i : pcs s !! i = Some PLock -> lockHolder s = None -> migrate_step s (goto (set_lock s (Some i)) i PCheck)
| g_lock_fails s i : pcs s !! i = Some PLock -> migrate_step s (goto s i (PRelease (Err LockFailed)))
| g_check s i :
    pcs s !! i = Some PCheck -> migrate_step s (goto s i (if present s then PUnlock (Ok tt) else PApply))
| g_check_fails s i : pcs s !! i = Some PCheck -> migrate_step s (goto s i (PUnlock (Err CheckFailed)))
| g_apply s i : pcs s !! i = Some PApply -> migrate_step s (goto (apply_schema s i) i (PUnlock (Ok tt)))
| g_apply_fails s i : pcs s !! i = Some PApply -> migrate_step s (goto s i (PUnlock (Err ApplyFailed)))
| g_apply_lost s i :
    (* the script took effect and its answer was lost with the session *)
    pcs s !! i = Some PApply ->
    migrate_step s (goto (set_lock (apply_schema s i) None) i (PRelease (Err ApplyFailed)))
| g_unlock s i r : pcs s !! i = Some (PUnlock r) -> migrate_step s (goto (set_lock s None) i (PRelease r))
| g_session_lost s i pc e :
    (* the statement after that fails *)
    pcs s !! i = Some pc -> pc = PCheck \/ pc = PApply -> migrate_step s (goto (set_lock s None) i (PRelease (Err e)))
| g_release s i r : pcs s !! i = Some (PRelease r) -> migrate_step s (goto s i (PReturned r)).

(** [n] instances start over a database that may have either table. *)
Definition migrate_start (n : nat) (z r : bool) : schema_state := mkSchema None z r [] (replicate n PAcquire).

(** ** The invariant *)
Definition claims_present (pc : migrate_pc) : bool :=
  match pc with PUnlock (Ok _) | PRelease (Ok _) | PReturned (Ok _) => true | _ => false end.

Record schema_ok (z r : bool) (s : schema_state) : Prop := {
  g_holder i pc : pcs s !! i = Some pc -> holding pc = true -> lockHolder s = Some i;
  g_absent i : pcs s !! i = Some PApply -> present s = false;
  g_claims i pc : pcs s !! i = Some pc -> claims_present pc = true -> present s = true;
  g_once : match applied s with
           | [] => hasZones s = z /\ hasRecords s = r
           | [i] => present s = true /\ z && r = false
           | _ => False
           end;
}.

Lemma goto_lookup (l : list migrate_pc) i pc j pc' old :
  l !! i = Some old -> <[i := pc]> l !! j = Some pc' -> (j = i /\ pc' = pc) \/ (j <> i /\ l !! j = Some pc').
Proof.
  intros Hi Hj. destruct (decide (j = i)) as [-> |Hn].
  - rewrite list_lookup_insert_eq in Hj by (by eapply lookup_lt_Some). left. split; [done|congruence].
  - rewrite list_lookup_insert_ne in Hj by done. by right.
Qed.

(** An instance moves on without touching tables or lock. *)
Lemma goto_ok z r s i old pc :
  pcs s !! i = Some old -> (holding pc = true -> holding old = true) -> pc <> PApply ->
  (claims_present pc = true -> present s = true) -> schema_ok z r s -> schema_ok z r (goto s i pc).
Proof.
  intros Hi Hh Hne Hc [Hho Hab Hcl Hon]. constructor; cbn; [..|done].
  - intros j pc' Hj Hp. eapply goto_lookup in Hj as [[-> ->]|[_ Hj]]; [|by eapply Hho|done]. eapply Hho; [done|auto].
  - intros j Hj. eapply goto_lookup in Hj as [[-> Heq]|[_ Hj]]; [congruence|by eapply Hab|done].
  - intros j pc' Hj Hp. eapply goto_lookup in Hj as [[-> ->]|[_ Hj]]; [by apply Hc|by eapply Hcl|done].
Qed.

(** The holder of the lock is the only instance inside. *)
Lemma holder_alone z r s i j pc pc' :
  schema_ok z r s -> pcs s !! i = Some pc -> holding pc = true -> pcs s !! j = Some pc' -> holding pc' = true -> j = i.
Proof. intros Ho Hi Hp Hj Hp'. pose proof (g_holder _ _ _ Ho i pc Hi Hp). pose proof (g_holder _ _ _ Ho j pc' Hj Hp'). congruence. Qed.

(** The holder leaves. *)
Lemma leave_ok z r s i old pc :
  pcs s !! i = Some old -> holding old = true -> holding pc = false ->
  (claims_present pc = true -> present s = true) -> schema_ok z r s -> schema_ok z r (goto (set_lock s None) i pc).
Proof.
  intros Hi Hh Hp Hc Ho. pose proof Ho as [Hho Hab Hcl Hon]. constructor; cbn; [..|done].
  - intros j pc' Hj Hp'. eapply goto_lookup in Hj as [[-> ->]|[Hji Hj]]; [congruence| |done].
    by destruct Hji; eapply holder_alone.
  - intros j Hj. eapply goto_lookup in Hj as [[-> Heq]|[_ Hj]]; [by rewrite <- Heq in Hp|by eapply Hab|done].
  - intros j pc' Hj Hp'. eapply goto_lookup in Hj as [[-> ->]|[_ Hj]]; [by apply Hc|by eapply Hcl|done].
Qed.

(** The schema script. *)
Lemma apply_ok z r s i h pc :
  pcs s !! i = Some PApply -> holding pc = true /\ h = lockHolder s \/ holding pc = false /\ h = None -> pc <> PApply ->
  schema_ok z r s -> schema_ok z r (goto (set_lock (apply_schema s i) h) i pc).
Proof.
  intros Hi Hh Hne Ho. pose proof Ho as [Hho Hab Hcl Hon]. pose proof (Hab i Hi) as Hp. constructor; cbn.
  - intros j pc' Hj Hp'. eapply goto_lookup in Hj as [[-> ->]|[Hji Hj]]; [| |done].
    + destruct Hh as [[_ ->]|[? _]]; [|congruence]. by eapply Hho.
    + by destruct Hji; eapply holder_alone.
  - intros j Hj. eapply goto_lookup in Hj as [[-> Heq]|[Hji Hj]]; [congruence| |done]. by destruct Hji; eapply holder_alone.
  - done.
  - destruct (applied s) as [|k [|]]; [|by destruct Hon; congruence|done]. unfold present in Hp.
    destruct Hon as [<- <-]. done.
Qed.

Lemma migrate_step_ok z r s s' : migrate_step s s' -> schema_ok z r s -> schema_ok z r s'.
Proof.
  destruct 1 as [s i Hi|s i Hi|s i Hi Hl|s i Hi|s i Hi|s i Hi|s i Hi|s i Hi|s i Hi|s i q Hi|s i pc e Hi Hpc|s i q Hi]; intros Ho.
  - by eapply goto_ok.
  - by eapply goto_ok.
  - destruct Ho as [Hho Hab Hcl Hon]. constructor; cbn; [..|done].
    + intros j pc Hj Hp. eapply goto_lookup in Hj as [[-> ->]|[_ Hj]]; [done| |done].
      specialize (Hho j pc Hj Hp). congruence.
    + intros j Hj. eapply goto_lookup in Hj as [[-> ?]|[_ Hj]]; [done|by eapply Hab|done].
    + intros j pc Hj Hp. eapply goto_lookup in Hj as [[-> ->]|[_ Hj]]; [done|by eapply Hcl|done].
  - by eapply goto_ok.
  - destruct (present s) eqn:Hp; [by eapply goto_ok|]. destruct Ho as [Hho Hab Hcl Hon]. constructor; cbn; [..|done].
    + intros j pc Hj Hh. eapply goto_lookup in Hj as [[-> ->]|[_ Hj]]; [by eapply Hho|by eapply Hho|done].
    + done.
    + intros j pc Hj Hh. eapply goto_lookup in Hj as [[-> ->]|[_ Hj]]; [done|by eapply Hcl|done].
  - by eapply goto_ok.
  - apply (apply_ok z r s i (lockHolder s)); [done|by left|done|done].
  - by eapply goto_ok.
  - apply (apply_ok z r s i None); [done|by right|done|done].
  - eapply leave_ok; [done|done|done| |done]. intros Hc. eapply (g_claims _ _ _ Ho i); [done|]. by destruct q.
  - by eapply leave_ok; [done|destruct Hpc as [-> | ->]|done|..].
  - eapply goto_ok; [done|done|done| |done]. intros Hc. eapply (g_claims _ _ _ Ho i); [done|]. by destruct q.
Qed.


