(* ===== verification/Daemon.v ===== *)
(** * The daemon (src/cmd/sharddnsd/main.go, src/internal/store/store.go)

    The command line, the health check and its endpoint, connecting to the database, and
    [run] with the resources it opens and closes.  Outcomes of the network, the database and
    the operating system are parameters. *)

From Stdlib Require Import ZArith Lia Ascii String.
From stdpp Require Import base list strings relations.
From S2P Require Import Prelude GoStrings HostPort GoTime Config Api Events Lifecycle.

(** ** Command line *)
Inductive command := PrintVersion | RunHealthcheck | RunDaemon.

Definition main_command (args : list gostring) : command :=
  match args with
  | _ :: a :: _ =>
    if bool_decide (a ∈ [lit "-version"; lit "--version"]) then PrintVersion
    else if bool_decide (a ∈ [lit "-healthcheck"; lit "--healthcheck"]) then RunHealthcheck
    else RunDaemon
  | _ => RunDaemon
  end.

(** ** Health *)
Definition StatusOK : Z := 200.
Definition StatusServiceUnavailable : Z := 503.

Definition healthz : Z * gostring := (StatusOK, lit "ok" ++ [zb 10]).

(** The /readyz endpoint; [ping] is whether the database answers. *)
Definition readyz (ping : bool) (bus : option Bus) : Z * gostring :=
  if negb ping then (StatusServiceUnavailable, lit "database unavailable" ++ [zb 10])
  else
    match bus with
    | Some b =>
      if negb (Healthy b) then (StatusServiceUnavailable, lit "nats unavailable" ++ [zb 10])
      else (StatusOK, lit "ok" ++ [zb 10])
    | None => (StatusOK, lit "ok" ++ [zb 10])
    end.

(** [get] is an HTTP request: the status of the response, if there is one. *)
Definition healthcheck (environ : gostring -> option gostring) (get : gostring -> option Z) : Z :=
  let addr := Getenv environ (lit "API_ADDR") in
  let addr := if bool_decide (addr = []) then lit ":9053" else addr in
  match SplitHostPort addr with
  | Ok (host, port) =>
    let host := if bool_decide (host ∈ [[]; lit "0.0.0.0"; lit "::"]) then lit "127.0.0.1" else host in
    match get (lit "http://" ++ JoinHostPort host port ++ lit "/readyz") with
    | None => 1
    | Some status => if negb (status =? StatusOK)%Z then 1 else 0
    end
  | _ => 1
  end.

(** ** Logging *)
Inductive Level := LevelDebug | LevelInfo | LevelWarn | LevelError.

Definition newLogger `{GoUnicode} (level : gostring) : Level :=
  let level := ToLower level in
  if bool_decide (level = lit "debug") then LevelDebug
  else if bool_decide (level ∈ [lit "warn"; lit "warning"]) then LevelWarn
  else if bool_decide (level = lit "error") then LevelError
  else LevelInfo.

(** ** Connecting to the database *)
Inductive openError := ParseURL | CreatePool | PingFailed.

(** What one attempt meets: the URL parses, the pool can be created, the server answers. *)
Record attempt := mkAttempt { parses : bool; creates : bool; pings : bool }.

(** [Open] over the number of open pools; the result is the MaxConns of the pool.
    [urlConns] is the one that the URL asks for, or the default. *)
Definition Open (a : attempt) (urlConns maxConns : Z) : st nat openError Z := fun pools =>
  if negb (parses a) then (Err ParseURL, pools)
  else
    let conns := if (0 <? maxConns)%Z then maxConns else urlConns in
    if negb (creates a) then (Err CreatePool, pools)
    else if negb (pings a) then (Err PingFailed, pools) (* created and closed again *)
    else (Ok conns, S pools).

Definition Close (pools : nat) : nat := pred pools.

Inductive connectError := OpenErr (e : openError) | CtxErr.

(** The loop of [connectStore]: [left] attempts are left, [k] is the number of the next one;
    [cancelled k] is whether the context ends in the second after attempt [k]. *)
Fixpoint connect_loop (left k : nat) (attempts : nat -> attempt) (cancelled : nat -> bool) (urlConns maxConns : Z)
    (lastErr : option openError) : st nat connectError Z := fun pools =>
  match left with
  | 0 => (match lastErr with Some e => Err (OpenErr e) | None => Panic end, pools)
  | S left' =>
    match Open (attempts k) urlConns maxConns pools with
    | (Err e, pools) =>
      if cancelled k then (Err CtxErr, pools)
      else connect_loop left' (S k) attempts cancelled urlConns maxConns (Some e) pools
    | (Ok c, pools) => (Ok c, pools)
    | (Panic, pools) => (Panic, pools)
    | (NoFuel, pools) => (NoFuel, pools)
    end
  end.

Definition connectStore (cfg : Config) (attempts : nat -> attempt) (cancelled : nat -> bool) (urlConns : Z)
    : st nat connectError Z :=
  connect_loop 30 1 attempts cancelled urlConns (i32 (DBMaxConns cfg)) None.

(** ** Serving and shutting down *)
Inductive runError :=
| ConfigErr (e : configError) | ConnectErr (e : connectError) | MigrateErr | BusErr (e : busError) | SubscribeErr
| DNSListenErr (e : listenError) | APIListenErr | ServeErr.

(** Where [run] is after its go statements; the error is [runErr]. *)
Inductive run_pc := DSelect | DShutdown (e : option runError) | DWait (e : option runError) | DReturned (e : option runError).

(** The DNS server with its context, the API server, and [run] itself. *)
Record daemon := mkDaemon {
  dns : server;
  apiServing : bool;             (* the goroutine of [httpSrv.Serve] *)
  apiLn : bool;                  (* its listener is open *)
  inShutdown : bool;             (* [Shutdown] has been called *)
  errCh : list runError;
  runpc : run_pc;
}.

Definition daemon_start (workers : nat) : daemon := mkDaemon (serve workers) true true false [] DSelect.

(** [stop], or a signal. *)
Definition cancel (s : server) : server :=
  mkServer true (sock s) (main s) (reader s) (acceptor s) (queue s) (queueClosed s) (pcs s) (conns s)
    (panicked s) (enqueued s) (started s) (finished s).

Inductive dinner : daemon -> daemon -> Prop :=
| d_dns s s' a l i q p : inner s s' -> dinner (mkDaemon s a l i q p) (mkDaemon s' a l i q p)
| d_done s a l i q : ctxDone s = true -> dinner (mkDaemon s a l i q DSelect) (mkDaemon s a l i q (DShutdown None))
| d_error s a l i e q : dinner (mkDaemon s a l i (e :: q) DSelect) (mkDaemon (cancel s) a l i q (DShutdown (Some e)))
| d_shutdown s a l i q e : dinner (mkDaemon s a l i q (DShutdown e)) (mkDaemon s a false true q (DWait e))
| d_api_closed s l q p : dinner (mkDaemon s true l true q p) (mkDaemon s false false true q p)
| d_wait s l i q e :
    main s = MReturned -> dinner (mkDaemon s false l i q (DWait e)) (mkDaemon s false l i q (DReturned e)).

(** With what comes from outside: signals, traffic, and a failure of the API listener. *)
Inductive dstep : daemon -> daemon -> Prop :=
| d_inner d d' : dinner d d' -> dstep d d'
| d_outside s s' a l i q p : serve_step s s' -> dstep (mkDaemon s a l i q p) (mkDaemon s' a l i q p)
| d_api_fails s l q p : dstep (mkDaemon s true l false q p) (mkDaemon s false false false (q ++ [ServeErr]) p).

(** ** run *)

(** What is open. *)
Record resources := mkRes { pools : nat; buses : nat; dnsSockets : sockets; apiListener : bool }.

(** What [run] meets on its way; [served] is the state in which serving ended. *)
Record outcome := mkOutcome {
  o_attempts : nat -> attempt; o_cancelled : nat -> bool; o_urlConns : Z;
  o_migrates : bool; o_id : option bytes; o_dials : bool; o_subscribes : bool;
  o_resolves : bool; o_udp : bool; o_tcp : bool; o_api : bool; served : daemon;
}.

Section Run.
Context `{GoUnicode} (NumCPU : Z) (environ : gostring -> option gostring) (o : outcome).

Abbreviation M A := (st resources runError A).

(** A deferred call runs whatever the rest returns. *)
Definition deferring {A} (close : resources -> resources) (c : M A) : M A := fun s =>
  let (r, s) := c s in (r, close s).

Definition connect (cfg : Config) : M Z := fun s =>
  let (r, n) := connectStore cfg (o_attempts o) (o_cancelled o) (o_urlConns o) (pools s) in
  (go_wrap ConnectErr r, mkRes n (buses s) (dnsSockets s) (apiListener s)).

Definition close_store (s : resources) : resources := mkRes (Close (pools s)) (buses s) (dnsSockets s) (apiListener s).

Definition check (ok : bool) (e : runError) : M unit := st_ret (if ok then Ok tt else Err e).

Definition connect_bus (cfg : Config) : M Bus := fun s =>
  match Connect (o_id o) (o_dials o) (NATSSubject cfg) with
  | Ok b => (Ok b, mkRes (pools s) (S (buses s)) (dnsSockets s) (apiListener s))
  | Err e => (Err (BusErr e), s)
  | Panic => (Panic, s)
  | NoFuel => (NoFuel, s)
  end.

Definition close_bus (s : resources) : resources := mkRes (pools s) (pred (buses s)) (dnsSockets s) (apiListener s).

Definition listen_dns : M unit := fun s =>
  let (r, k) := Listen (o_resolves o) (o_udp o) (o_tcp o) (dnsSockets s) in
  (go_wrap DNSListenErr r, mkRes (pools s) (buses s) k (apiListener s)).

Definition listen_api : M unit := fun s =>
  if o_api o then (Ok tt, mkRes (pools s) (buses s) (dnsSockets s) true) else (Err APIListenErr, s).

(** Both servers, until [run] is back from [wg.Wait]. *)
Definition serve_both : M unit := fun s =>
  match runpc (served o) with
  | DReturned e =>
    (match e with None => Ok tt | Some e => Err e end, mkRes (pools s) (buses s) (sock (dns (served o))) (apiLn (served o)))
  | _ => (NoFuel, s)
  end.

Definition listen_and_serve : M unit :=
  do! _ := listen_dns in
  do! _ := listen_api in
  serve_both.

Definition run : M unit :=
  do! cfg := st_ret (go_wrap ConfigErr (Load NumCPU environ)) in
  do! _ := connect cfg in
  deferring close_store (
    do! _ := check (o_migrates o) MigrateErr in
    if bool_decide (NATSURL cfg <> []) then
      do! _ := connect_bus cfg in
      deferring close_bus (
        do! _ := (if CacheEnabled cfg then check (o_subscribes o) SubscribeErr else st_ret (Ok tt)) in
        listen_and_serve)
    else listen_and_serve).
End Run.
