(* ===== verification/DaemonCorrect.v ===== *)
(** * Correctness of the daemon

    What connecting to the database does, that the daemon shuts down and leaves nothing open,
    and when its exit code is 0. *)

From Stdlib Require Import ZArith Lia Ascii String.
From stdpp Require Import base list strings relations.
From S2P Require Import Prelude GoStrings HostPort GoTime Config Names Api Events Lifecycle LifecycleCorrect Daemon.

(** ** Connecting *)
Definition connects (a : attempt) : bool := parses a && creates a && pings a.

Lemma Open_spec a u m n :
  if connects a then Open a u m n = (Ok (if (0 <? m)%Z then m else u), S n)
  else exists e, Open a u m n = (Err e, n).
Proof.
  unfold connects, Open. destruct (parses a), (creates a), (pings a); cbn; by try eexists.
Qed.

(** The first attempt in the range that succeeds, with no cancellation before it. *)
Definition connects_at (attempts : nat -> attempt) (cancelled : nat -> bool) (first k : nat) : Prop :=
  connects (attempts k) = true /\
  forall j, first <= j < k -> connects (attempts j) = false /\ cancelled j = false.

Lemma connect_loop_spec left k attempts cancelled u m last n :
  (left = 0 -> last <> None) ->
  (exists j, k <= j < k + left /\ connects_at attempts cancelled k j /\
    connect_loop left k attempts cancelled u m last n = (Ok (if (0 <? m)%Z then m else u), S n)) \/
  ((forall j, k <= j < k + left -> ~ connects_at attempts cancelled k j) /\
    exists e, connect_loop left k attempts cancelled u m last n = (Err e, n)).
Proof.
  revert k last. induction left as [|left IH]; intros k last Hl.
  { right. split; [lia|]. destruct last; [by eexists|]. by destruct (Hl eq_refl). }
  cbn. pose proof (Open_spec (attempts k) u m n) as Ho. destruct (connects (attempts k)) eqn:Hc.
  { left. exists k. rewrite Ho. split; [lia|]. split; [|done]. split; [done|]. lia. }
  destruct Ho as [e ->]. destruct (cancelled k) eqn:Hx.
  { right. split; [|by eexists]. intros j Hj [Hcj Hbefore]. destruct (decide (j = k)) as [-> |]; [congruence|].
    destruct (Hbefore k ltac:(lia)). congruence. }
  assert (Hshift : forall j, S k <= j -> connects_at attempts cancelled k j <-> connects_at attempts cancelled (S k) j).
  { intros j Hj. split; intros [Hcj Hb]; (split; [done|]); intros i Hi; [apply Hb; lia|].
    destruct (decide (i = k)) as [-> |]; [done|apply Hb; lia]. }
  destruct (IH (S k) (Some e) ltac:(done)) as [(j & Hj & Hat & Heq)|[Hnone He]].
  - left. exists j. split; [lia|]. split; [|done]. by apply Hshift; [lia|].
  - right. split; [|done]. intros j Hj Hat. destruct (decide (j = k)) as [-> |]; [destruct Hat; congruence|].
    apply (Hnone j); [lia|]. by apply Hshift; [lia|].
Qed.

(** ** Shutdown *)
Record daemon_ok (d : daemon) : Prop := {
  k_serve : serve_ok (dns d);
  k_ctx : runpc d <> DSelect -> ctxDone (dns d) = true;
  k_errs : length (errCh d) + (if apiServing d then 1 else 0) <= 1;
  k_ln : apiServing d = false -> apiLn d = false;
  k_shut : inShutdown d = true <-> exists e, runpc d = DWait e \/ runpc d = DReturned e;
  k_end : forall e, runpc d = DReturned e -> main (dns d) = MReturned /\ apiServing d = false;
}.

Lemma daemon_start_ok w : daemon_ok (daemon_start w).
Proof. constructor; cbn; try done. - apply serve_start_ok. - split; [done|]. by intros (e & [?|?]). Qed.

Lemma cancel_ok s : serve_ok s -> serve_ok (cancel s).
Proof. intros Ho. exact (serve_step_ok s (cancel s) (s_cancel s) Ho). Qed.

Lemma serve_step_ctx s s' : serve_step s s' -> ctxDone s = true -> ctxDone s' = true.
Proof.
  destruct 1 as [s s' Hs| | | | | |]; try done; cbn; [by rewrite (inner_ctx _ _ Hs)|..]; intros Hd.
  - by rewrite Hd.
  - by case_bool_decide.
  - by rewrite Hd.
Qed.

(** Once [Serve] has returned it stays so. *)
Lemma serve_step_returned s s' : serve_step s s' -> serve_ok s -> main s = MReturned -> main s' = MReturned.
Proof.
  destruct 1 as [s s' Hs| | | | | |]; intros Ho Hm; try done; cbn.
  - destruct Hs; cbn in *; congruence.
  - by destruct (ctxDone s).
  - by case_bool_decide.
  - by destruct (ctxDone s).
Qed.

Lemma dstep_ok d d' : dstep d d' -> daemon_ok d -> daemon_ok d'.
Proof.
  assert (Hout : forall s s' a l i q p, serve_step s s' -> daemon_ok (mkDaemon s a l i q p) -> daemon_ok (mkDaemon s' a l i q p)).
  { intros s s' a l i q p Hs [Ks Kc Ke Kl Ku Kn]. cbn in *. constructor; cbn; try done.
    - by eapply serve_step_ok.
    - intros Hp. eapply serve_step_ctx; [done|by apply Kc].
    - intros e He. destruct (Kn e He). split; [by eapply serve_step_returned|done]. }
  destruct 1 as [d d' Hd|s s' a l i q p Hs|s l q p]; [|by apply Hout|].
  2: { intros [Ks Kc Ke Kl Ku Kn]. cbn in *. constructor; cbn; try done.
    - rewrite length_app. cbn. lia.
    - intros e He. by destruct (Kn e He). }
  destruct Hd as [s s' a l i q p Hs|s a l i q Hc|s a l i e q|s a l i q e|s l q p|s l i q e Hm];
    [by apply Hout, s_inner|..]; intros [Ks Kc Ke Kl Ku Kn]; cbn in *; constructor; cbn; try done.
  - rewrite Ku. split; intros (e & [?|?]); done.
  - by apply cancel_ok.
  - lia.
  - rewrite Ku. split; intros (e' & [?|?]); done.
  - intros _. by apply Kc.
  - split; [|done]. intros _. exists e. by left.
  - lia.
  - intros e He. by destruct (Kn e He).
  - intros _. by apply Kc.
  - rewrite Ku. split; intros _; exists e; [by right|by left].
Qed.

Lemma daemon_reach_ok w d : rtc dstep (daemon_start w) d -> daemon_ok d.
Proof.
  intros Hr. pose proof (daemon_start_ok w) as Ho. revert Ho. generalize (daemon_start w) Hr. clear.
  induction 1 as [|d1 d2 d3 Hs _ IH]; [done|]. intros Ho. by eapply IH, dstep_ok.
Qed.

Definition pc_work (p : run_pc) : nat := match p with DSelect => 3 | DShutdown _ => 2 | DWait _ => 1 | DReturned _ => 0 end.
Definition daemon_work (d : daemon) : nat := work (dns d) + (if apiServing d then 1 else 0) + pc_work (runpc d).

Lemma dinner_work d d' : daemon_ok d -> dinner d d' -> daemon_work d' < daemon_work d.
Proof.
  intros Ho. destruct 1; unfold daemon_work; cbn; try (change (work (cancel s)) with (work s)); try lia.
  pose proof (inner_work s s' (k_serve _ Ho) ltac:(done)). lia.
Qed.

Lemma daemon_progress d :
  daemon_ok d -> ctxDone (dns d) = true \/ errCh d <> [] \/ runpc d <> DSelect ->
  (exists e, runpc d = DReturned e) \/ exists d', dinner d d'.
Proof.
  destruct d as [s a l i q p]. intros [Ks Kc Ke Kl Ku Kn] Hgo. cbn in *.
  destruct p as [|e|e|e]; [right..|left; by eexists].
  - destruct q as [|e q]; [|eexists; apply d_error]. eexists. apply d_done. naive_solver.
  - eexists. apply d_shutdown.
  - assert (i = true) as -> by (apply Ku; exists e; by left).
    destruct a; [eexists; apply d_api_closed|].
    destruct (serve_progress s Ks (Kc ltac:(done))) as [Hm|[s' Hs]]; eexists; [by apply d_wait|by apply d_dns].
Qed.

Lemma dinner_going d d' :
  dinner d d' -> ctxDone (dns d) = true \/ errCh d <> [] \/ runpc d <> DSelect ->
  ctxDone (dns d') = true \/ errCh d' <> [] \/ runpc d' <> DSelect.
Proof. destruct 1; cbn; try tauto. - by rewrite (inner_ctx s s') by done. - right. by right. - right. by right. Qed.

(** C15. The daemon ends: after a signal, or after the API server has failed, the goroutines of
    the daemon together take at most [daemon_work d] more steps in whatever order they run,
    and until [run] has returned one of them can go on. *)
Theorem Daemon_returns w d :
  rtc dstep (daemon_start w) d -> ctxDone (dns d) = true \/ errCh d <> [] ->
  (forall n d', nsteps dinner n d d' -> n <= daemon_work d) /\
  (forall d', rtc dinner d d' -> (exists e, runpc d' = DReturned e) \/ exists d'', dinner d' d'').
Proof.
  intros Ho%daemon_reach_ok Hgo. split.
  - intros n d' Hn. clear Hgo. assert (Hle : n + daemon_work d' <= daemon_work d); [|lia].
    induction Hn as [d|n d d1 d' Hs _ IH]; [lia|]. pose proof (dinner_work d d1 Ho Hs).
    specialize (IH (dstep_ok _ _ (d_inner _ _ Hs) Ho)). lia.
  - assert (Hg : ctxDone (dns d) = true \/ errCh d <> [] \/ runpc d <> DSelect) by tauto. clear Hgo.
    intros d' Hr. induction Hr as [d|d d1 d' Hs _ IH]; [by apply daemon_progress|].
    apply IH; [by eapply dstep_ok, Ho; apply d_inner|by eapply dinner_going].
Qed.

(** What is open and what has ended when [run] is back from [wg.Wait]. *)
Lemma Daemon_ended w d e :
  rtc dstep (daemon_start w) d -> runpc d = DReturned e ->
  sock (dns d) = mkSockets false false /\ apiLn d = false /\ apiServing d = false /\
  Forall (fun p => p = WDone) (pcs (dns d)) /\ conns (dns d) = [] /\ panicked (dns d) = false.
Proof.
  intros [[Oca Ou Ot Ord Ocl Oex Owk Ocs Oso Opa Oqu Osl Off Obu] Kc Ke Kl Ku Kn]%daemon_reach_ok He.
  destruct (Kn e He) as [Hm Ha]. rewrite Hm in *. cbn in *.
  pose proof (Ou ltac:(lia)). pose proof (Ot ltac:(lia)).
  split; [destruct (sock (dns d)); cbn in *; by subst|]. split; [by apply Kl|]. split; [done|].
  split; [by apply Owk; lia|]. split; [by apply Ocs; lia|done].
Qed.

(** ** run *)
Section Run.
Context `{GoUnicode} (NumCPU : Z) (environ : gostring -> option gostring) (o : outcome).

Abbreviation closed := (mkSockets false false).

(** Serving ended in a state that the daemon can reach. *)
Definition ends (cfg : Config) : Prop :=
  exists e, rtc dstep (daemon_start (Z.to_nat (Workers cfg))) (served o) /\ runpc (served o) = DReturned e.

(** Every listener opens, and no server fails. *)
Definition serves : Prop :=
  o_resolves o = true /\ o_udp o = true /\ o_tcp o = true /\ o_api o = true /\ runpc (served o) = DReturned None.

Definition bus_up (cfg : Config) : Prop :=
  NATSURL cfg <> [] -> o_id o <> None /\ o_dials o = true /\ (CacheEnabled cfg = true -> o_subscribes o = true).

(** Pools and connections as given, nothing listening, except for the one case. *)
Definition released (n m : nat) (P : Prop) (c : go runError unit * resources) : Prop :=
  returns (fst c) /\ (fst c = Ok tt <-> P) /\ pools (snd c) = n /\ buses (snd c) = m /\ apiListener (snd c) = false /\
  (dnsSockets (snd c) = closed \/ fst c = Err APIListenErr).

Lemma listen_and_serve_spec cfg n m :
  ends cfg -> released n m serves (listen_and_serve o (mkRes n m closed false)).
Proof.
  intros (e & Hr & He). destruct (Daemon_ended _ _ _ Hr He) as (Hs & Hl & _).
  unfold released, serves, listen_and_serve, listen_dns, listen_api, serve_both, st_bind, Listen. cbn. rewrite He.
  destruct (o_resolves o); cbn; [|naive_solver]. destruct (o_udp o); cbn; [|naive_solver].
  destruct (o_tcp o); cbn; [|naive_solver]. destruct (o_api o); cbn; [|naive_solver].
  rewrite Hs, Hl. destruct e; naive_solver.
Qed.

Lemma deferring_released n m n' m' P close c s :
  released n m P (c s) ->
  (forall s, pools s = n -> buses s = m -> pools (close s) = n' /\ buses (close s) = m' /\
    apiListener (close s) = apiListener s /\ dnsSockets (close s) = dnsSockets s) ->
  released n' m' P (deferring close c s).
Proof.
  unfold released, deferring. destruct (c s) as [r s']. cbn. intros (? & ? & Hn & Hm & Ha & Hd) Hc.
  destruct (Hc s' Hn Hm) as (-> & -> & -> & ->). done.
Qed.

Lemma released_iff n m P Q c : released n m P c -> (P <-> Q) -> released n m Q c.
Proof. unfold released. intros (? & HP & ?) HQ. rewrite HP, HQ. done. Qed.

Lemma released_err n m P e : ~ P -> released n m P (Err e, mkRes n m closed false).
Proof. unfold released. cbn. intros HP. split; [done|]. split; [by split|]. naive_solver. Qed.

Lemma bus_spec cfg n :
  ends cfg ->
  released n 0 (bus_up cfg /\ serves)
    ((if bool_decide (NATSURL cfg <> []) then
        do! _ := connect_bus o cfg in
        deferring close_bus (
          do! _ := (if CacheEnabled cfg then check (o_subscribes o) SubscribeErr else st_ret (Ok tt)) in
          listen_and_serve o)
      else listen_and_serve o) (mkRes n 0 closed false)).
Proof.
  intros He. unfold bus_up. case_bool_decide as Hu.
  2: { eapply released_iff; [by eapply listen_and_serve_spec|]. tauto. }
  unfold st_bind at 1, connect_bus, Connect. destruct (o_id o) as [id|]; [|apply released_err; naive_solver].
  destruct (o_dials o); [|apply released_err; naive_solver]. cbn [pools buses dnsSockets apiListener].
  eapply (deferring_released n 1); [|intros s Hn Hm; unfold close_bus; cbn; by rewrite Hm].
  pose proof (listen_and_serve_spec cfg n 1 He) as Hl. unfold st_bind, check, st_ret.
  destruct (CacheEnabled cfg) eqn:Hc; [destruct (o_subscribes o) eqn:Hs|].
  - eapply released_iff; [done|]. naive_solver.
  - apply released_err. naive_solver.
  - eapply released_iff; [done|]. naive_solver.
Qed.

End Run.

(** ** Concrete runs *)

(** The database answers at the second attempt, and a signal ends the daemon. *)
Definition up : attempt := mkAttempt true true true.
Definition down : attempt := mkAttempt true true false.

Definition signalled : daemon := mkDaemon (cancel (serve 16)) true true false [] DSelect.

Lemma signalled_reached : rtc dstep (daemon_start 16) signalled.
Proof. eapply rtc_l; [|apply rtc_refl]. apply d_outside, s_cancel. Qed.

Lemma Daemon_returns_witness : exists d, dinner signalled d.
Proof.
  destruct (proj2 (Daemon_returns 16 signalled signalled_reached (or_introl eq_refl)) signalled (rtc_refl _ _)) as [[e He]|Hd];
    [discriminate He|exact Hd].
Defined.

Definition daemon_env : gostring -> option gostring :=
  env_of [(lit "DATABASE_URL", lit "postgres://db"); (lit "WORKERS", lit "1")].

Definition daemon_ended : daemon := mkDaemon returned false false true [] (DReturned None).

Lemma daemon_ended_reached : rtc dstep (daemon_start 1) daemon_ended.
Proof.
  assert (Hlift : forall s s', rtc serve_step s s' -> rtc dstep (mkDaemon s true true false [] DSelect) (mkDaemon s' true true false [] DSelect)).
  { induction 1 as [|s s1 s' Hs _ IH]; [done|]. eapply rtc_l; [by apply d_outside|done]. }
  etrans; [apply (Hlift _ _ shutdown_reached)|].
  eapply rtc_l; [by apply d_inner, d_done|]. eapply rtc_l; [apply d_inner, d_shutdown|].
  eapply rtc_l; [apply d_inner, d_api_closed|]. eapply rtc_l; [by apply d_inner, d_wait|]. apply rtc_refl.
Qed.

Definition daemon_outcome : outcome :=
  mkOutcome (fun k => if decide (k = 1) then down else up) (fun _ => false) 4 true None false false true true true true daemon_ended.

#[local] Existing Instance unicode_id.



(** An order of DB_MAX_CONNS beyond 32 bits is truncated: here 2^32 + 1 connections are one. *)
Lemma db_max_conns_truncated :
  fst (connectStore (mkConfig [] [] [] [] (2 ^ 32 + 1) 1 [] false 0 1 [] []) (fun _ => up) (fun _ => false) 4 0) = Ok 1%Z.
Proof. vm_compute. reflexivity. Qed.
