(* ===== verification/Connect.v ===== *)
(** * Remote calls (src/api/sharddns/v1/sharddnsv1connect/sharddns.connect.go)

    The generated client and handler of the DNSManager service, the routes of the API server
    (src/cmd/sharddnsd/main.go, newAPIServer) and the bearer token of the command-line client.
    The encoding of messages is a parameter.  The model covers what decides where a call goes and
    whether it is let in: URLs, paths, the Authorization header. *)

From Stdlib Require Import ZArith Lia Ascii String.
From stdpp Require Import base list strings.
From S2P Require Import Prelude GoStrings HostPort Config Message Names RData Store Api Events Daemon.

(** ** The service *)
Inductive procedure :=
| DNSManagerCreateZone | DNSManagerGetZone | DNSManagerUpdateZone | DNSManagerDeleteZone | DNSManagerListZones
| DNSManagerCreateRecord | DNSManagerDeleteRecord | DNSManagerListRecords | DNSManagerGetRecords.

#[export] Instance procedure_eq_dec : EqDecision procedure.
Proof. solve_decision. Defined.

Definition DNSManagerName : gostring := lit "sharddns.v1.DNSManager".

(** The constants DNSManager...Procedure. *)
Definition Procedure (p : procedure) : gostring :=
  match p with
  | DNSManagerCreateZone => lit "/sharddns.v1.DNSManager/CreateZone"
  | DNSManagerGetZone => lit "/sharddns.v1.DNSManager/GetZone"
  | DNSManagerUpdateZone => lit "/sharddns.v1.DNSManager/UpdateZone"
  | DNSManagerDeleteZone => lit "/sharddns.v1.DNSManager/DeleteZone"
  | DNSManagerListZones => lit "/sharddns.v1.DNSManager/ListZones"
  | DNSManagerCreateRecord => lit "/sharddns.v1.DNSManager/CreateRecord"
  | DNSManagerDeleteRecord => lit "/sharddns.v1.DNSManager/DeleteRecord"
  | DNSManagerListRecords => lit "/sharddns.v1.DNSManager/ListRecords"
  | DNSManagerGetRecords => lit "/sharddns.v1.DNSManager/GetRecords"
  end.

Record ListRecordsRequest := mkListRecordsRequest { lrZone : gostring; lrPageSize : Z; lrPageToken : gostring }.
Record GetRecordsRequest := mkGetRecordsRequest { grZone : gostring; grName : gostring; grType : gostring }.

Definition Request (p : procedure) : Type :=
  match p with
  | DNSManagerCreateZone | DNSManagerUpdateZone => ZoneRequest
  | DNSManagerGetZone | DNSManagerDeleteZone => gostring
  | DNSManagerListZones => Z * gostring
  | DNSManagerCreateRecord => CreateRecordRequest
  | DNSManagerDeleteRecord => DeleteRecordRequest
  | DNSManagerListRecords => ListRecordsRequest
  | DNSManagerGetRecords => GetRecordsRequest
  end.

Definition Response (p : procedure) : Type :=
  match p with
  | DNSManagerCreateZone | DNSManagerGetZone | DNSManagerUpdateZone => ZoneMsg
  | DNSManagerDeleteZone | DNSManagerDeleteRecord => unit
  | DNSManagerListZones => list ZoneMsg * gostring
  | DNSManagerCreateRecord => RecordMsg
  | DNSManagerListRecords => list RecordMsg * gostring
  | DNSManagerGetRecords => list RecordMsg
  end.

(** DNSManagerHandler and DNSManagerClient: one function per procedure. *)
Definition DNSManager (W : Type) : Type := forall p, Request p -> st W Code (Response p).

(** [api.Service] implements it. *)
Definition Service `{GoUnicode} `{Postgres} (s : Store) (e1 e2 : Env) : DNSManager world := fun p =>
  match p return Request p -> st world Code (Response p) with
  | DNSManagerCreateZone => api_CreateZone e1
  | DNSManagerGetZone => api_GetZone e1
  | DNSManagerUpdateZone => api_UpdateZone e1 e2
  | DNSManagerDeleteZone => api_DeleteZone e1
  | DNSManagerListZones => fun m => api_ListZones e1 (fst m) (snd m)
  | DNSManagerCreateRecord => api_CreateRecord s e1
  | DNSManagerDeleteRecord => api_DeleteRecord e1
  | DNSManagerListRecords => fun m => api_ListRecords s e1 e2 (lrZone m) (lrPageSize m) (lrPageToken m)
  | DNSManagerGetRecords => fun m => api_GetRecords s e1 (grZone m) (grName m) (grType m)
  end.

Definition UnimplementedDNSManagerHandler {W} : DNSManager W := fun _ _ => st_ret (Err CodeUnimplemented).

(** ** HTTP *)

(** A bearer token travels in a header, whose value may not contain control characters, and
    loses the blanks at both ends. *)
Definition isLWS (b : ascii) : bool := bool_decide (b ∈ [" "%char; zb 9]).
Definition isCTL (b : ascii) : bool := ((bz b <? 32) || (bz b =? 127))%Z.
Definition ValidHeaderFieldValue (v : gostring) : bool := forallb (fun b => negb (isCTL b) || isLWS b) v.

Fixpoint trim_left (f : ascii -> bool) (s : gostring) : gostring :=
  match s with
  | [] => []
  | c :: r => if f c then trim_left f r else s
  end.
Definition trim_right (f : ascii -> bool) (s : gostring) : gostring := rev (trim_left f (rev s)).
Definition TrimRight (s : gostring) (c : ascii) : gostring := trim_right (fun b => bool_decide (b = c)) s.

Record httpRequest := mkRequest { reqPath : gostring; Authorization : gostring; reqBody : bytes }.

(** A response of the RPC protocol, or of another handler. *)
Inductive httpResponse := Failure (c : Code) | Success (body : bytes) | Plain (status : Z) (body : bytes).

Definition StatusNotFound : Z := 404.
Definition NotFound : httpResponse := Plain StatusNotFound (lit "404 page not found" ++ [zb 10]).

(** The protobuf encoding of the messages, the code of a message that cannot be decoded, and the
    code the client makes of a response from outside the protocol. *)
Class Codec := {
  encode_request : forall p, Request p -> bytes;
  decode_request : forall p, bytes -> option (Request p);
  encode_response : forall p, Response p -> bytes;
  decode_response : forall p, bytes -> option (Response p);
  decode_failed : Code;
  foreign_response : Z -> Code;
}.
Class CodecLaws `{Codec} : Prop := {
  decode_encode_request p m : decode_request p (encode_request p m) = Some m;
  decode_encode_response p m : decode_response p (encode_response p m) = Some m;
  foreign_not_found : foreign_response StatusNotFound = CodeUnimplemented;
}.

Section Http.
Context `{Codec} {W : Type}.

(** [connect.NewUnaryHandler]: decode, run the interceptor and the method, encode. *)
Definition NewUnaryHandler (svc : DNSManager W) (token : gostring) (p : procedure) (r : httpRequest)
    : st W Code httpResponse :=
  match decode_request p (reqBody r) with
  | None => st_ret (Ok (Failure decode_failed))
  | Some m => fun w =>
    match guarded token (Authorization r) (svc p m) w with
    | (Ok a, w) => (Ok (Success (encode_response p a)), w)
    | (Err c, w) => (Ok (Failure c), w)
    | (Panic, w) => (Panic, w)
    | (NoFuel, w) => (NoFuel, w)
    end
  end.

(** The switch over [r.URL.Path], in its order. *)
Definition procedures : list procedure :=
  [DNSManagerCreateZone; DNSManagerGetZone; DNSManagerUpdateZone; DNSManagerDeleteZone; DNSManagerListZones;
   DNSManagerCreateRecord; DNSManagerDeleteRecord; DNSManagerListRecords; DNSManagerGetRecords].

Definition NewDNSManagerHandler (svc : DNSManager W) (token : gostring) : gostring * (httpRequest -> st W Code httpResponse) :=
  (lit "/sharddns.v1.DNSManager/", fun r =>
    match List.find (fun p => bool_decide (reqPath r = Procedure p)) procedures with
    | Some p => NewUnaryHandler svc token p r
    | None => st_ret (Ok NotFound)
    end).

(** [newAPIServer]: the patterns of the mux.  None is a prefix of another. *)
Inductive route := RService | RReflectionV1 | RReflectionV1Alpha | RHealthz | RReadyz.

Definition patterns : list (gostring * route) :=
  [(lit "/sharddns.v1.DNSManager/", RService);
   (lit "/grpc.reflection.v1.ServerReflection/", RReflectionV1);
   (lit "/grpc.reflection.v1alpha.ServerReflection/", RReflectionV1Alpha);
   (lit "/healthz", RHealthz); (lit "/readyz", RReadyz)].

(** A pattern that ends in a slash stands for all paths below it. *)
Definition matches (pattern path : gostring) : bool :=
  if HasSuffix pattern (lit "/") then HasPrefix path pattern else bool_decide (path = pattern).

Definition mux (path : gostring) : option route :=
  snd <$> List.find (fun pr => matches (fst pr) path) patterns.

(** What the server does with a request: [ping] is whether the database answers, [reflect] the
    third-party reflection handlers. *)
Definition api_server (svc : DNSManager W) (token : gostring) (ping : bool) (bus : option Bus)
    (reflect : route -> httpRequest -> httpResponse) (r : httpRequest) : st W Code httpResponse :=
  match mux (reqPath r) with
  | Some RService => snd (NewDNSManagerHandler svc token) r
  | Some RHealthz => st_ret (Ok (Plain (fst healthz) (snd healthz)))
  | Some RReadyz => st_ret (Ok (Plain (fst (readyz ping bus)) (snd (readyz ping bus))))
  | Some ref => st_ret (Ok (reflect ref r))
  | None => st_ret (Ok NotFound)
  end.

(** ** The client *)

(** Scheme, host and path of a URL without query, fragment and escapes. *)
Definition split_url (url : gostring) : option (gostring * gostring * gostring) :=
  match IndexByte url ":"%char with
  | None => None
  | Some i =>
    if HasPrefix (drop i url) (lit "://") then
      let rest := drop (i + 3) url in
      match IndexByte rest "/"%char with
      | Some j => Some (take i url, take j rest, drop j rest)
      | None => Some (take i url, rest, lit "/")
      end
    else None
  end.

(** [NewDNSManagerClient]: the URL of a procedure. *)
Definition client_url (baseURL : gostring) (p : procedure) : gostring := TrimRight baseURL "/"%char ++ Procedure p.

(** The interceptor [bearer] of the command-line client; without a token it is not used. *)
Definition bearer (token : gostring) : gostring := if bool_decide (token <> []) then lit "Bearer " ++ token else [].

(** A call of one of the client's methods: [net] is the server that answers at a host, if one does. *)
Definition CallUnary (net : gostring -> option (httpRequest -> st W Code httpResponse)) (url token : gostring)
    (p : procedure) (m : Request p) : st W Code (Response p) :=
  match split_url url with
  | None => st_ret (Err CodeUnavailable)
  | Some (_, host, path) =>
    match net host with
    | None => st_ret (Err CodeUnavailable)
    | Some server =>
      if negb (ValidHeaderFieldValue (bearer token)) then st_ret (Err CodeUnavailable)
      else
        let header := trim_right isLWS (trim_left isLWS (bearer token)) in
        do! r := server (mkRequest path header (encode_request p m)) in
        st_ret (match r with
          | Plain status _ => Err (foreign_response status)
          | Failure c => Err c
          | Success body => match decode_response p body with Some a => Ok a | None => Err decode_failed end
          end)
    end
  end.

Definition NewDNSManagerClient (net : gostring -> option (httpRequest -> st W Code httpResponse))
    (baseURL token : gostring) : DNSManager W := fun p m => CallUnary net (client_url baseURL p) token p m.
End Http.

(** ** Correctness *)
Lemma trim_left_id f s : (forall c r, s = c :: r -> f c = false) -> trim_left f s = s.
Proof. destruct s as [|c r]; [done|]. cbn. intros Hf. by rewrite (Hf c r). Qed.

Lemma trim_left_app f l r : Forall (fun c => f c = true) l -> trim_left f (l ++ r) = trim_left f r.
Proof. induction 1 as [|c l Hc _ IH]; [done|]. cbn. by rewrite Hc. Qed.

Lemma trim_right_app f l r :
  Forall (fun c => f c = true) r -> (forall l' c, l = l' ++ [c] -> f c = false) -> trim_right f (l ++ r) = l.
Proof.
  intros Hr Hl. unfold trim_right. rewrite rev_app_distr, trim_left_app.
  - rewrite trim_left_id; [apply rev_involutive|]. intros c s Hs. apply (Hl (rev s)).
    rewrite <- (rev_involutive l), Hs. done.
  - by apply List.Forall_rev.
Qed.

Lemma graphic_header c : graphic c = true -> isCTL c = false /\ isLWS c = false.
Proof.
  unfold graphic, isCTL, isLWS. intros [H1%Z.leb_le H2%Z.leb_le]%andb_true_iff. split.
  - apply orb_false_iff. split; [apply Z.ltb_ge; lia|apply Z.eqb_neq; lia].
  - apply bool_decide_eq_false_2. intros [-> |[-> |[]%elem_of_nil]%elem_of_cons]%elem_of_cons; vm_compute in H1; by apply H1.
Qed.

(** A token of printable characters arrives as it was sent. *)
Lemma bearer_sent token :
  Forall (fun c => graphic c = true) token ->
  ValidHeaderFieldValue (bearer token) = true /\ trim_right isLWS (trim_left isLWS (bearer token)) = bearer token.
Proof.
  intros Ht. unfold bearer. case_bool_decide as Hne; [|done]. split.
  - unfold ValidHeaderFieldValue. rewrite forallb_app. cbn. apply forallb_forall. intros c Hc%list_elem_of_In.
    rewrite Forall_forall in Ht. destruct (graphic_header c (Ht c Hc)) as [-> _]. done.
  - rewrite (trim_left_id isLWS) by by intros c r [= <- <-].
    rewrite <- (app_nil_r (lit "Bearer " ++ token)) at 1. apply trim_right_app; [done|].
    intros l c Hl. destruct (exists_last Hne) as (t' & c' & ->). rewrite app_assoc in Hl.
    apply app_inj_tail in Hl as [_ <-]. rewrite Forall_app, Forall_singleton in Ht.
    by apply graphic_header, (proj2 Ht).
Qed.

Lemma split_url_path scheme host path :
  ":"%char ∉ scheme -> "/"%char ∉ host ->
  split_url (scheme ++ lit "://" ++ host ++ "/"%char :: path) = Some (scheme, host, "/"%char :: path).
Proof.
  intros Hs Hh. unfold split_url. change (lit "://") with (":"%char :: lit "//"). cbn [app].
  rewrite IndexByte_app by done. rewrite drop_app_length.
  replace (HasPrefix _ _) with true by (unfold HasPrefix; by rewrite bool_decide_eq_true_2).
  replace (drop (length scheme + 3) _) with (host ++ "/"%char :: path).
  - rewrite IndexByte_app by done. by rewrite take_app_length, take_app_length, drop_app_length.
  - rewrite <- drop_drop. by rewrite drop_app_length.
Qed.

Lemma Procedure_slash p : exists q, Procedure p = "/"%char :: q.
Proof. destruct p; by eexists. Qed.

(** The URL of a procedure, whatever number of slashes the base URL ends with. *)
Lemma client_url_split scheme host n p :
  ":"%char ∉ scheme -> "/"%char ∉ host -> host <> [] ->
  split_url (client_url (scheme ++ lit "://" ++ host ++ replicate n "/"%char) p) = Some (scheme, host, Procedure p).
Proof.
  intros Hs Hh Hne. unfold client_url, TrimRight. rewrite !app_assoc, trim_right_app.
  - destruct (Procedure_slash p) as [q ->]. rewrite <- !app_assoc. by apply split_url_path.
  - apply Forall_replicate. by apply bool_decide_eq_true_2.
  - intros l c Hl. destruct (exists_last Hne) as (h & b & ->). rewrite app_assoc in Hl.
    apply app_inj_tail in Hl as [_ <-]. apply bool_decide_eq_false_2. intros ->. apply Hh.
    rewrite elem_of_app. right. left.
Qed.

(** The paths of the service go to the service, and each to its own method. *)
Lemma mux_Procedure p : mux (Procedure p) = Some RService.
Proof. by destruct p. Qed.

Lemma find_Procedure p : List.find (fun p' => bool_decide (Procedure p = Procedure p')) procedures = Some p.
Proof. by destruct p. Qed.

(** A remote call is a local one: through the client, the URL, the routes of the server, the
    switch of the generated handler and the interceptors, a call of any procedure has the
    result and the effect of the method of that name, guarded by the server's token against
    the one of the client. *)
Lemma Rpc_call `{CodecLaws} {W} (svc : DNSManager W) net scheme host n serverToken clientToken ping bus reflect p m :
  ":"%char ∉ scheme -> "/"%char ∉ host -> host <> [] -> Forall (fun c => graphic c = true) clientToken ->
  net host = Some (api_server svc serverToken ping bus reflect) ->
  forall w,
  NewDNSManagerClient net (scheme ++ lit "://" ++ host ++ replicate n "/"%char) clientToken p m w =
  guarded serverToken (bearer clientToken) (svc p m) w.
Proof.
  intros Hs Hh Hne Ht Hnet w. destruct (bearer_sent clientToken Ht) as [Hv Htrim].
  unfold NewDNSManagerClient, CallUnary. rewrite client_url_split, Hnet, Hv, Htrim by done. cbn [negb].
  unfold st_bind, api_server. cbn [reqPath]. rewrite mux_Procedure. cbn [NewDNSManagerHandler snd reqPath].
  rewrite find_Procedure. unfold NewUnaryHandler. cbn [reqBody Authorization]. rewrite decode_encode_request.
  destruct (guarded serverToken (bearer clientToken) (svc p m) w) as [[a|c| |] w'] eqn:E; [|done|done..].
  unfold st_ret. by rewrite decode_encode_response.
Qed.

(** ** The health check *)
Section Health.
Context `{Codec} {W : Type}.

(** The status of a plain response to a GET request. *)
Definition http_get (net : gostring -> option (httpRequest -> st W Code httpResponse)) (w : W) (url : gostring) : option Z :=
  match split_url url with
  | None => None
  | Some (_, host, path) =>
    match net host with
    | None => None
    | Some server => match fst (server (mkRequest path [] []) w) with Ok (Plain status _) => Some status | _ => None end
    end
  end.

(** C34. The health check succeeds exactly if the daemon that was configured by the same
    environment, and answers at its API address, is ready: its database answers, and its bus
    is connected if it has one.  A wildcard address is asked on the loopback interface. *)
Theorem healthcheck_ready `{GoUnicode} NumCPU environ cfg host port net svc token ping bus reflect w :
  Load NumCPU environ = Ok cfg -> SplitHostPort (APIAddr cfg) = Ok (host, port) ->
  let target := JoinHostPort (if bool_decide (host ∈ [[]; lit "0.0.0.0"; lit "::"]) then lit "127.0.0.1" else host) port in
  "/"%char ∉ target -> net target = Some (api_server svc token ping bus reflect) ->
  healthcheck environ (http_get net w) = 0%Z <->
    ping = true /\ forall b, bus = Some b -> nc b = CONNECTED.
Proof.
  intros Hl Hsplit target Hslash Hnet. unfold healthcheck. cbv zeta.
  rewrite <- getenv_Getenv, <- (Load_APIAddr _ _ _ Hl), Hsplit. fold target.
  assert (http_get net w (lit "http://" ++ target ++ lit "/readyz") = Some (fst (readyz ping bus))) as ->.
  { unfold http_get. change (lit "http://") with (lit "http" ++ lit "://"). rewrite <- app_assoc.
    change (lit "/readyz") with ("/"%char :: lit "readyz"). rewrite split_url_path, Hnet; [done| |done].
    by apply (bool_decide_unpack _). }
  clear. unfold readyz, Healthy, StatusOK.
  destruct ping; cbn; [|split; [done|by intros [? _]]]. destruct bus as [b|]; cbn; [|by split].
  case_bool_decide as Hb; cbn.
  - split; [|done]. intros _. split; [done|]. by intros ? [= <-].
  - split; [done|]. intros [_ Hall]. by destruct Hb; apply Hall.
Qed.
End Health.
