(* ===== verification/Cli.v ===== *)
(** * The command-line client (src/cmd/sharddns/main.go)

    A command is a sequence of calls of a DNSManager.  The output is the list of zones or
    records that a command prints; the layout of the table is not modelled.  Dying ends the
    program with the exit code of [exit_code]. *)

From Stdlib Require Import ZArith Lia Ascii String.
From stdpp Require Import base list strings.
From S2P Require Import Prelude GoStrings GoFlag Config Store Api Connect.

(** ** Results *)
Inductive output :=
| PrintUsage | PrintVersion
| PrintZones (zones : list ZoneMsg)
| PrintRecords (records : list RecordMsg)
| DeletedZone (name : gostring)
| DeletedRecord (zone name rtype rdata : gostring).

(** Why the program ends early: bad arguments, no arguments, bad flags, or a failed call. *)
Inductive exit := BadArguments | NoArguments | FlagHelp | BadFlag | CallFailed (c : Code).

Definition exit_code (x : exit) : Z :=
  match x with
  | BadArguments | CallFailed _ => 1
  | NoArguments | BadFlag => 2
  | FlagHelp => 0
  end.

(** ** Zone flags *)
Record zoneFlags := mkFlags { fNs : gostring; fEmail : gostring; fRefresh : Z; fRetry : Z; fExpire : Z; fTtl : Z }.

Definition no_flags : zoneFlags := mkFlags [] [] 0 0 0 0.

Definition put_int (f : Z -> zoneFlags -> zoneFlags) : option (gostring -> zoneFlags -> option zoneFlags) :=
  Some (fun v z => (fun n => f n z) <$> ParseInt0 v).

Definition set_flag (name : gostring) : option (gostring -> zoneFlags -> option zoneFlags) :=
  if bool_decide (name = lit "ns") then
    Some (fun v z => Some (mkFlags v (fEmail z) (fRefresh z) (fRetry z) (fExpire z) (fTtl z)))
  else if bool_decide (name = lit "email") then
    Some (fun v z => Some (mkFlags (fNs z) v (fRefresh z) (fRetry z) (fExpire z) (fTtl z)))
  else if bool_decide (name = lit "refresh") then
    put_int (fun n z => mkFlags (fNs z) (fEmail z) n (fRetry z) (fExpire z) (fTtl z))
  else if bool_decide (name = lit "retry") then
    put_int (fun n z => mkFlags (fNs z) (fEmail z) (fRefresh z) n (fExpire z) (fTtl z))
  else if bool_decide (name = lit "expire") then
    put_int (fun n z => mkFlags (fNs z) (fEmail z) (fRefresh z) (fRetry z) n (fTtl z))
  else if bool_decide (name = lit "ttl") then
    put_int (fun n z => mkFlags (fNs z) (fEmail z) (fRefresh z) (fRetry z) (fExpire z) n)
  else None.

Definition zone_request (name : gostring) (f : zoneFlags) : ZoneRequest :=
  mkZoneRequest name (fNs f) (fEmail f) (i32 (fRefresh f)) (i32 (fRetry f)) (i32 (fExpire f)) (i32 (fTtl f)).

Section Commands.
Context {W : Type} (client : DNSManager W).

Abbreviation M A := (st W exit A).

Definition rpc (p : procedure) (m : Request p) : M (Response p) := fun w =>
  let (r, w) := client p m w in (go_wrap CallFailed r, w).

Definition die {A} : M A := st_ret (Err BadArguments).

(** The loops that ask for page after page. *)
Fixpoint list_zones (fuel : nat) (token : gostring) (zones : list ZoneMsg) : M (list ZoneMsg) :=
  match fuel with
  | 0 => st_ret NoFuel
  | S fuel' =>
    do! resp := rpc DNSManagerListZones (500%Z, token) in
    let zones := zones ++ fst resp in
    if bool_decide (snd resp = []) then st_ret (Ok zones) else list_zones fuel' (snd resp) zones
  end.

Fixpoint list_records (fuel : nat) (zone token : gostring) (records : list RecordMsg) : M (list RecordMsg) :=
  match fuel with
  | 0 => st_ret NoFuel
  | S fuel' =>
    do! resp := rpc DNSManagerListRecords (mkListRecordsRequest zone 1000 token) in
    let records := records ++ fst resp in
    if bool_decide (snd resp = []) then st_ret (Ok records) else list_records fuel' zone (snd resp) records
  end.

Definition zoneWrite (op name : gostring) (args : list gostring) : M output :=
  match Parse set_flag args no_flags with
  | Err ErrHelp => st_ret (Err FlagHelp)
  | Err ErrFlag => st_ret (Err BadFlag)
  | Panic => st_ret Panic
  | NoFuel => st_ret NoFuel
  | Ok f =>
    do! z := (if bool_decide (op = lit "create") then rpc DNSManagerCreateZone (zone_request name f)
              else rpc DNSManagerUpdateZone (zone_request name f)) in
    st_ret (Ok (PrintZones [z]))
  end.

Definition zone (fuel : nat) (args : list gostring) : M output :=
  match args with
  | [] => die
  | cmd :: args =>
    if bool_decide (cmd ∈ [lit "create"; lit "update"]) then
      match args with name :: args => zoneWrite cmd name args | [] => die end
    else if bool_decide (cmd = lit "list") then
      do! zones := list_zones fuel [] [] in
      st_ret (Ok (PrintZones zones))
    else if bool_decide (cmd = lit "get") then
      match args with
      | name :: _ =>
        do! z := rpc DNSManagerGetZone name in
        st_ret (Ok (PrintZones [z]))
      | [] => die
      end
    else if bool_decide (cmd ∈ [lit "delete"; lit "del"; lit "rm"]) then
      match args with
      | name :: _ =>
        do! _ := rpc DNSManagerDeleteZone name in
        st_ret (Ok (DeletedZone name))
      | [] => die
      end
    else die
  end.

Definition record (fuel : nat) (args : list gostring) : M output :=
  match args with
  | [] => die
  | cmd :: args =>
    if bool_decide (cmd ∈ [lit "add"; lit "create"]) then
      match args with
      | zone :: name :: rtype :: ttl :: ((_ :: _) as rdata) =>
        match Atoi ttl with
        | None => die
        | Some ttl =>
          do! r := rpc DNSManagerCreateRecord (mkCreateRecordRequest zone name rtype (i32 ttl) (Join rdata (lit " "))) in
          st_ret (Ok (PrintRecords [r]))
        end
      | _ => die
      end
    else if bool_decide (cmd = lit "list") then
      match args with
      | zone :: _ =>
        do! records := list_records fuel zone [] [] in
        st_ret (Ok (PrintRecords records))
      | [] => die
      end
    else if bool_decide (cmd = lit "get") then
      match args with
      | zone :: name :: rtype :: _ =>
        do! records := rpc DNSManagerGetRecords (mkGetRecordsRequest zone name rtype) in
        st_ret (Ok (PrintRecords records))
      | _ => die
      end
    else if bool_decide (cmd ∈ [lit "delete"; lit "del"; lit "rm"]) then
      match args with
      | zone :: name :: rtype :: ((_ :: _) as words) =>
        let rdata := Join words (lit " ") in
        do! _ := rpc DNSManagerDeleteRecord (mkDeleteRecordRequest zone name rtype rdata) in
        st_ret (Ok (DeletedRecord zone name rtype rdata))
      | _ => die
      end
    else die
  end.
End Commands.

(** ** main *)
Inductive parsed := ParsedUsage | ParsedDie | Parsed (addr token : gostring) (args : list gostring).

(** The loop over the arguments: global flags may stand anywhere. *)
Fixpoint parse_global (argv : list gostring) (addr token : gostring) (args : list gostring) : parsed :=
  match argv with
  | [] => Parsed addr token args
  | a :: rest =>
    if bool_decide (a ∈ [lit "--addr"; lit "-addr"]) then
      match rest with [] => ParsedDie | v :: rest => parse_global rest v token args end
    else if bool_decide (a ∈ [lit "--token"; lit "-token"]) then
      match rest with [] => ParsedDie | v :: rest => parse_global rest addr v args end
    else if bool_decide (a ∈ [lit "--help"; lit "-h"; lit "help"]) then ParsedUsage
    else parse_global rest addr token (args ++ [a])
  end.

(** strings.Contains *)
Fixpoint Contains (s sub : gostring) : bool :=
  HasPrefix s sub || match s with [] => false | _ :: s' => Contains s' sub end.

Definition envOr (environ : gostring -> option gostring) (k def : gostring) : gostring :=
  let v := Getenv environ k in if bool_decide (v <> []) then v else def.

Definition dial_addr (addr : gostring) : gostring :=
  if negb (Contains addr (lit "://")) then lit "http://" ++ addr else addr.

Section Main.
Context `{Codec} {W : Type} (net : gostring -> option (httpRequest -> st W Code httpResponse)).
Context (environ : gostring -> option gostring).

(** [argv] is without the name of the program. *)
Definition main (fuel : nat) (argv : list gostring) : st W exit output :=
  let addr := envOr environ (lit "SHARDDNS_ADDR") (lit "http://localhost:9053") in
  let token := Getenv environ (lit "SHARDDNS_TOKEN") in
  match parse_global argv addr token [] with
  | ParsedUsage => st_ret (Ok PrintUsage)
  | ParsedDie => st_ret (Err BadArguments)
  | Parsed addr token args =>
    match args with
    | [] => st_ret (Err NoArguments)
    | cmd :: args =>
      if bool_decide (cmd = lit "version") then st_ret (Ok PrintVersion)
      else
        let client := NewDNSManagerClient net (dial_addr addr) token in
        if bool_decide (cmd = lit "zone") then zone client fuel args
        else if bool_decide (cmd = lit "record") then record client fuel args
        else st_ret (Err BadArguments)
    end
  end.
End Main.
