(* ===== verification/CliCorrect.v ===== *)
(** * Correctness of the command-line client

    The commands of the client, carried out by an API server over the network: without the
    token nothing is read or changed, lists are complete, and what was added is found. *)

From Stdlib Require Import ZArith Lia Ascii String.
From stdpp Require Import base list strings.
From S2P Require Import Prelude GoStrings GoFlag Config Message Names RData RDataCorrect Store StoreCorrect StoreQueries Api ApiCorrect.
From S2P Require Import Events Daemon Connect Cli.

(** ** Commands depend on their client only through its calls *)
Definition same_client {W} (c1 c2 : DNSManager W) : Prop := forall p m w, c1 p m w = c2 p m w.

Lemma st_bind_ext {S E A B} (c1 c2 : st S E A) (k1 k2 : A -> st S E B) s :
  c1 s = c2 s -> (forall a s, k1 a s = k2 a s) -> st_bind c1 k1 s = st_bind c2 k2 s.
Proof. unfold st_bind. intros ->. destruct (c2 s) as [[]]; auto. Qed.

Section Ext.
Context {W : Type} (c1 c2 : DNSManager W) (Heq : same_client c1 c2).

Lemma list_zones_ext fuel token acc w : list_zones c1 fuel token acc w = list_zones c2 fuel token acc w.
Proof.
  revert token acc w. induction fuel as [|fuel IH]; intros token acc w; [done|].
  apply st_bind_ext; [unfold rpc; by rewrite Heq|]. intros a s. by case_bool_decide.
Qed.

Lemma list_records_ext fuel z token acc w : list_records c1 fuel z token acc w = list_records c2 fuel z token acc w.
Proof.
  revert token acc w. induction fuel as [|fuel IH]; intros token acc w; [done|].
  apply st_bind_ext; [unfold rpc; by rewrite Heq|]. intros a s. by case_bool_decide.
Qed.

Lemma zone_ext fuel args w : Cli.zone c1 fuel args w = Cli.zone c2 fuel args w.
Proof.
  destruct args as [|cmd args]; [done|]. cbn. repeat case_bool_decide; destruct args; try done;
    unfold zoneWrite; repeat case_match; try done; apply st_bind_ext; try done; first [apply list_zones_ext | unfold rpc; by rewrite Heq].
Qed.

Lemma record_ext fuel args w : record c1 fuel args w = record c2 fuel args w.
Proof.
  destruct args as [|cmd args]; [done|]. cbn. repeat case_match; try done;
    (apply st_bind_ext; [|done]); first [apply list_records_ext | unfold rpc; by rewrite Heq].
Qed.
End Ext.

(** ** The commands *)
Section Equations.
Context {W : Type} (c : DNSManager W) (fuel : nat).

Lemma zone_list rest :
  Cli.zone c fuel (lit "list" :: rest) = (do! zones := list_zones c fuel [] [] in st_ret (Ok (PrintZones zones))).
Proof. reflexivity. Qed.

Lemma record_list z rest :
  record c fuel (lit "list" :: z :: rest) = (do! records := list_records c fuel z [] [] in st_ret (Ok (PrintRecords records))).
Proof. reflexivity. Qed.

Lemma record_get z name rtype rest :
  record c fuel (lit "get" :: z :: name :: rtype :: rest) =
  (do! records := rpc c DNSManagerGetRecords (mkGetRecordsRequest z name rtype) in st_ret (Ok (PrintRecords records))).
Proof. reflexivity. Qed.

Lemma record_add z name rtype ttl n word words :
  Atoi ttl = Some n ->
  record c fuel (lit "add" :: z :: name :: rtype :: ttl :: word :: words) =
  (do! r := rpc c DNSManagerCreateRecord (mkCreateRecordRequest z name rtype (i32 n) (Join (word :: words) (lit " "))) in
   st_ret (Ok (PrintRecords [r]))).
Proof. intros Ht. unfold record. rewrite Ht. reflexivity. Qed.

Lemma zone_create name args f :
  Parse set_flag args no_flags = Ok f ->
  Cli.zone c fuel (lit "create" :: name :: args) =
  (do! z := rpc c DNSManagerCreateZone (zone_request name f) in st_ret (Ok (PrintZones [z]))).
Proof. intros Hp. unfold Cli.zone, zoneWrite. rewrite Hp. reflexivity. Qed.
End Equations.

(** ** A server to talk to *)
Section Remote.
Context `{GoUnicodeLaws} `{PostgresLaws} `{CodecLaws}.
Context (s : Store) (e1 e2 : Env) (net : gostring -> option (httpRequest -> st world Code httpResponse)).
Context (environ : gostring -> option gostring) (serverToken : gostring).

(** An API server with the token answers at the address. *)
Definition serves_at (addr : gostring) : Prop :=
  exists scheme host n ping bus reflect,
    addr = scheme ++ lit "://" ++ host ++ replicate n "/"%char /\
    (":"%char ∉ scheme) /\ ("/"%char ∉ host) /\ host <> [] /\
    net host = Some (api_server (Service s e1 e2) serverToken ping bus reflect).

(** What the arguments and the environment of the client come to. *)
Definition invoked (argv : list gostring) (token : gostring) (args : list gostring) : Prop :=
  exists addr,
    parse_global argv (envOr environ (lit "SHARDDNS_ADDR") (lit "http://localhost:9053"))
      (Getenv environ (lit "SHARDDNS_TOKEN")) [] = Parsed addr token args /\
    serves_at (dial_addr addr) /\ Forall (fun c => graphic c = true) token.

(** The service as the client meets it. *)
Definition guarded_service (token : gostring) : DNSManager world := fun p m =>
  guarded serverToken (bearer token) (Service s e1 e2 p m).

Lemma client_local addr token :
  serves_at addr -> Forall (fun c => graphic c = true) token ->
  same_client (NewDNSManagerClient net addr token) (guarded_service token).
Proof.
  intros (scheme & host & n & ping & bus & reflect & -> & Hs & Hh & Hne & Hnet) Ht p m w. by eapply Rpc_call.
Qed.

Lemma main_invoked argv token cmd args fuel w :
  invoked argv token (cmd :: args) ->
  main net environ fuel argv w =
  (if bool_decide (cmd = lit "version") then (Ok PrintVersion, w)
   else if bool_decide (cmd = lit "zone") then Cli.zone (guarded_service token) fuel args w
   else if bool_decide (cmd = lit "record") then record (guarded_service token) fuel args w
   else (Err BadArguments, w)).
Proof.
  intros (addr & Hp & Hat & Ht). unfold main. rewrite Hp. pose proof (client_local _ token Hat Ht) as Hc.
  repeat case_bool_decide; [done|by apply zone_ext|by apply record_ext|done].
Qed.

(** *** Without the token *)
Lemma guarded_refused token p m w :
  serverToken <> [] -> token <> serverToken -> guarded_service token p m w = (Err CodeUnauthenticated, w).
Proof.
  intros Hs Ht. unfold guarded_service, guarded. rewrite bool_decide_eq_true_2 by done.
  unfold authorize. rewrite bool_decide_eq_false_2; [done|]. unfold bearer.
  case_bool_decide; [|done]. intros Heq. by simplify_list_eq.
Qed.

(** The state is as before, and the program has ended early. *)
Definition refused {A} (w : world) (c : go exit A * world) : Prop := snd c = w /\ exists x, fst c = Err x.

Ltac refuse := first
  [ split; [reflexivity|by eexists]
  | unfold st_bind, rpc; rewrite guarded_refused by done; split; [reflexivity|by eexists] ].

Lemma zone_refused token fuel args w :
  serverToken <> [] -> token <> serverToken -> refused w (Cli.zone (guarded_service token) (S fuel) args w).
Proof.
  intros Hs Ht. destruct args as [|cmd args]; [refuse|]. unfold Cli.zone, zoneWrite. cbn [list_zones].
  repeat case_match; try refuse; match goal with E : Parse ?f ?a ?z = _ |- _ => pose proof (Parse_returns f a z) as Hr; by rewrite E in Hr end.
Qed.

Lemma record_refused token fuel args w :
  serverToken <> [] -> token <> serverToken -> refused w (record (guarded_service token) (S fuel) args w).
Proof.
  intros Hs Ht. destruct args as [|cmd args]; [refuse|]. unfold record. cbn [list_records].
  repeat case_match; refuse.
Qed.

(** C18. A client without the server's token is refused: whatever the command, it prints neither
    zones nor records, and changes and announces nothing. *)
Theorem Cli_refused argv token args fuel w :
  invoked argv token args -> serverToken <> [] -> token <> serverToken -> 0 < fuel ->
  snd (main net environ fuel argv w) = w /\
  (fst (main net environ fuel argv w) = Ok PrintVersion \/ exists x, fst (main net environ fuel argv w) = Err x).
Proof.
  intros Hi Hs Ht Hf. destruct fuel as [|fuel]; [lia|]. destruct args as [|cmd args].
  { destruct Hi as (addr & Hp & _). unfold main. rewrite Hp. split; [done|]. right. by eexists. }
  rewrite (main_invoked _ _ _ _ _ _ Hi). repeat case_bool_decide.
  - split; [done|]. by left.
  - destruct (zone_refused token fuel args w Hs Ht). auto.
  - destruct (record_refused token fuel args w Hs Ht). auto.
  - split; [done|]. right. by eexists.
Qed.

(** *** With the token *)
Lemma guarded_accepted token p m w :
  serverToken = [] \/ token = serverToken -> guarded_service token p m w = Service s e1 e2 p m w.
Proof.
  unfold guarded_service, guarded. case_bool_decide as Hs; [|done]. intros [? | ->]; [done|].
  unfold authorize, bearer. rewrite (bool_decide_eq_true_2 (serverToken <> [])) by done. by rewrite bool_decide_eq_true_2.
Qed.

Lemma follow_more {A} f1 f2 (lp : gostring -> go storeError (list A * gostring)) token all :
  follow f1 lp token = Ok all -> f1 <= f2 -> follow f2 lp token = Ok all.
Proof.
  revert f2 token all. induction f1 as [|f1 IH]; intros [|f2] token all; cbn [follow]; try done; [lia|].
  intros Hf Hle. destruct (lp token) as [[rows next]| | |]; cbn [go_bind] in *; try done. case_bool_decide; [done|].
  destruct (follow f1 lp next) as [more| | |] eqn:E; try done. by rewrite (IH f2 next more E) by lia.
Qed.

Lemma list_zones_follow fuel after acc w all :
  follow fuel (fun after => ListZones e1 500 after (tables w)) after = Ok all ->
  list_zones (Service s e1 e2) fuel after acc w = (Ok (acc ++ (zoneToProto <$> all)), w).
Proof.
  revert after acc all. induction fuel as [|fuel IH]; intros after acc all; cbn [follow list_zones]; [done|].
  unfold st_bind, rpc. cbn [Service fst snd]. unfold api_ListZones, st_bind, read. change (pageSize 500) with 500%Z.
  destruct (ListZones e1 500 after (tables w)) as [[rows next]| | |]; cbn [go_bind go_wrap]; try done.
  cbn [st_ret go_wrap fst snd]. case_bool_decide; [by intros [= <-]|].
  destruct (follow fuel _ next) as [more| | |] eqn:E; cbn [go_bind]; try done. intros [= <-].
  rewrite (IH next _ more E), fmap_app. by rewrite app_assoc.
Qed.

Lemma list_records_follow fuel z zr after acc w all :
  z <> [] -> GetZone e1 z (tables w) = Ok zr ->
  follow fuel (fun after => ListRecords s e2 z 1000 after (tables w)) after = Ok all ->
  list_records (Service s e1 e2) fuel z after acc w = (Ok (acc ++ (recordToProto <$> all)), w).
Proof.
  intros Hz Hg. revert after acc all. induction fuel as [|fuel IH]; intros after acc all; cbn [follow list_records]; [done|].
  unfold st_bind, rpc. cbn [Service lrZone lrPageSize lrPageToken]. unfold api_ListRecords.
  rewrite bool_decide_eq_false_2 by done. unfold st_bind, read. rewrite Hg. cbn [go_wrap]. change (pageSize 1000) with 1000%Z.
  destruct (ListRecords s e2 z 1000 after (tables w)) as [[rows next]| | |]; cbn [go_bind go_wrap]; try done.
  cbn [st_ret go_wrap fst snd]. case_bool_decide; [by intros [= <-]|].
  destruct (follow fuel _ next) as [more| | |] eqn:E; cbn [go_bind]; try done. intros [= <-].
  rewrite (IH next _ more E), fmap_app. by rewrite app_assoc.
Qed.

Lemma main_zone argv token fuel args w :
  invoked argv token (lit "zone" :: args) -> serverToken = [] \/ token = serverToken ->
  main net environ fuel argv w = Cli.zone (Service s e1 e2) fuel args w.
Proof. intros Hi Ht. rewrite (main_invoked _ _ _ _ _ _ Hi). apply zone_ext. intros p m w'. by apply guarded_accepted. Qed.

Lemma main_record argv token fuel args w :
  invoked argv token (lit "record" :: args) -> serverToken = [] \/ token = serverToken ->
  main net environ fuel argv w = record (Service s e1 e2) fuel args w.
Proof. intros Hi Ht. rewrite (main_invoked _ _ _ _ _ _ Hi). apply record_ext. intros p m w'. by apply guarded_accepted. Qed.

(** C19. The lists are complete: with the token, [zone list] prints every zone of the store exactly
    once, in the order of their names, and [record list] every record of the zone, in the
    order of their ids, however many pages that takes; and they change nothing. *)
Theorem Cli_lists_complete argv token args fuel w :
  invoked argv token args -> serverToken = [] \/ token = serverToken ->
  no_fault e1 -> no_fault e2 -> encoder_total s -> db_ok (tables w) ->
  (forall rest, args = lit "zone" :: lit "list" :: rest -> length (zones (tables w)) < fuel ->
    main net environ fuel argv w = (Ok (PrintZones (zoneToProto <$> order_by name_lt (zones (tables w)))), w)) /\
  (forall z zr rest, args = lit "record" :: lit "list" :: z :: rest -> z <> [] -> GetZone e1 z (tables w) = Ok zr ->
    let rows := order_by id_lt (zone_rows (NormalizeZone z) (tables w)) in length rows < fuel ->
    main net environ fuel argv w = (Ok (PrintRecords (recordToProto <$> (scan s <$> rows))), w)).
Proof.
  intros Hi Ht He1 He2 Henc Hd. split.
  - intros rest -> Hf. rewrite (main_zone _ _ _ _ _ Hi Ht), zone_list. unfold st_bind. erewrite list_zones_follow; [done|]. eapply follow_more; [|exact Hf].
    by apply (ListZones_complete e1 500); [..|lia].
  - intros z zr rest -> Hz Hg rows Hf. rewrite (main_record _ _ _ _ _ Hi Ht), record_list. unfold st_bind.
    erewrite list_records_follow; [done..|]. eapply follow_more; [|exact Hf].
    by apply (ListRecords_complete s e2 z 1000); [..|lia].
Qed.
End Remote.

(** ** Adding and getting *)
Section AddGet.
Context `{GoUnicodeLaws} `{PostgresLaws} (s : Store).

(** A record the API has created is a row of the set that was asked for. *)
Lemma api_CreateRecord_stored e m w msg w' :
  encoder_total s -> api_CreateRecord s e m w = (Ok msg, w') ->
  let zone := NormalizeZone (crZone m) in
  exists row, row ∈ records (tables w') /\
    in_rrset zone (NormalizeName zone (crName m)) (NormalizeType (crType m)) row /\
    rowTTL row = (if (crTtl m =? 0)%Z then defaultTTL else crTtl m) /\ msg = recordToProto (scan s row).
Proof.
  intros Henc. unfold api_CreateRecord. cbv zeta. destruct (_ || _ || _); [done|].
  case_bool_decide as Hsoa; [done|]. destruct (SupportedType _) eqn:Hsup; cbn [negb]; [|done].
  destruct (ValidateName _) eqn:Hv; [done|]. destruct (BuildRData _ _) as [wire|x| |] eqn:Hb; try done.
  set (ttl := if (crTtl m =? 0)%Z then _ else _). destruct (_ || _) eqn:Ht; [done|].
  set (rec := mkRecord _ _ _ _ _ _ _ _ _). unfold st_bind, call.
  destruct (CreateRecord s e rec (tables w)) as [[out| | |] d] eqn:Hc; cbn; try done. intros [= <- <-]. cbn [tables].
  apply CreateRecord_row in Hc as (row & Hin & Hm & Httl & Hscan). exists row. split; [done|].
  pose proof (NormalizeName_in_zone (NormalizeZone (crZone m)) (crName m)) as Hz.
  cbn [rec rZone rName rType rTTL] in Hm, Httl.
  rewrite (valid_zone _ _ Hv Hz), (valid_NormalizeName _ _ Hv Hz), (supported_type _ Hsup) in Hm.
  split; [by destruct Hm|]. split; [done|]. unfold scan. by rewrite Hscan.
Qed.

Lemma api_GetRecords_all e z name rtype w :
  no_fault e -> encoder_total s ->
  let zone := NormalizeZone z in
  exists rs, api_GetRecords s e z name rtype w = (Ok rs, w) /\
    forall row, row ∈ records (tables w) -> in_rrset zone (NormalizeName zone name) (NormalizeType rtype) row ->
      recordToProto (scan s row) ∈ rs.
Proof.
  intros He Henc zone. unfold api_GetRecords, st_bind, read, GetRecords. cbv zeta. fold zone.
  rewrite stmt_no_fault by done. cbn [go_wrap go_bind]. unfold collectRecords. rewrite stmt_no_fault by done.
  cbn [go_wrap go_bind]. rewrite scanRecords_scan by done. cbn [go_wrap]. eexists. split; [done|].
  intros row Hr Hin. apply list_elem_of_fmap_2, list_elem_of_fmap_2. rewrite order_by_perm, list_elem_of_filter. done.
Qed.
End AddGet.

Lemma scan_TTL s row : encoder_total s -> rTTL (scan s row) = rowTTL row.
Proof.
  intros Henc. unfold scan. destruct (scanRecord_total s row Henc) as [r Hr]. unfold record_of in Hr. rewrite Hr.
  unfold scanRecord in Hr. repeat case_match; by simplify_eq.
Qed.

Lemma i32_small n : (0 <= n < 2 ^ 31)%Z -> i32 n = n.
Proof. intros Hn. unfold i32. rewrite Z.mod_small by lia. lia. Qed.

Section Commands.
Context `{GoUnicodeLaws} `{PostgresLaws} `{CodecLaws} (s : Store).

(** C17. What was added is found: when [record add] succeeds with a TTL of 32 bits, it prints one
    record, with that TTL or 300 for 0, and a later [record get] of the same zone, name and
    type, by any client of any server over the same tables, prints this record, too. *)
Theorem Cli_add_get e1 e2 net environ token tok argv e3 e4 net' environ' token' tok' argv'
    z name rtype ttl n word words rest fuel w out w' :
  invoked s e1 e2 net environ token argv tok (lit "record" :: lit "add" :: z :: name :: rtype :: ttl :: word :: words) ->
  token = [] \/ tok = token -> Atoi ttl = Some n -> (0 <= n < 2 ^ 31)%Z ->
  main net environ fuel argv w = (Ok out, w') ->
  invoked s e3 e4 net' environ' token' argv' tok' (lit "record" :: lit "get" :: z :: name :: rtype :: rest) ->
  token' = [] \/ tok' = token' -> no_fault e3 -> encoder_total s ->
  exists r rs, out = PrintRecords [r] /\ rmTtl r = (if (n =? 0)%Z then 300%Z else n) /\
    main net' environ' fuel argv' w' = (Ok (PrintRecords rs), w') /\ r ∈ rs.
Proof.
  intros Hi Ht Hn Hr Hm Hi' Ht' He Henc. rewrite (main_record _ _ _ _ _ _ _ _ _ _ _ Hi Ht) in Hm.
  rewrite (record_add _ _ _ _ _ _ _ _ _ Hn), i32_small in Hm by done. unfold st_bind, rpc in Hm. cbn [Service] in Hm.
  destruct (api_CreateRecord s e1 _ w) as [[r| | |] w1] eqn:Hc; cbn in Hm; try done. injection Hm as <- <-.
  apply api_CreateRecord_stored in Hc as (row & Hin & Hset & Httl & ->); [|done]. cbn [crZone crName crType crTtl] in *.
  destruct (api_GetRecords_all s e3 z name rtype w1 He Henc) as (rs & Hg & Hall).
  exists (recordToProto (scan s row)), rs. split; [done|]. split; [cbn; by rewrite scan_TTL, Httl|].
  split; [|by apply Hall].
  rewrite (main_record _ _ _ _ _ _ _ _ _ _ _ Hi' Ht'), record_get. unfold st_bind, rpc. cbn [Service grZone grName grType].
  by rewrite Hg.
Qed.

(** The flags of [zone create], in either spelling. *)
Definition zone_flags (joined : bool) (f : zoneFlags) : list gostring :=
  flat_map render_flag
    [(joined, (lit "ns", fNs f)); (joined, (lit "email", fEmail f));
     (joined, (lit "refresh", FormatInt (fRefresh f))); (joined, (lit "retry", FormatInt (fRetry f)));
     (joined, (lit "expire", FormatInt (fExpire f))); (joined, (lit "ttl", FormatInt (fTtl f)))].

(** What the flags of [zone create] say is what the API is asked for, as long as the numbers
    fit into 32 bits. *)
Theorem Cli_zone_create e1 e2 net environ token tok argv name joined f fuel w :
  invoked s e1 e2 net environ token argv tok (lit "zone" :: lit "create" :: name :: zone_flags joined f) ->
  token = [] \/ tok = token -> Forall (fun n => (0 <= n < 2 ^ 31)%Z) [fRefresh f; fRetry f; fExpire f; fTtl f] ->
  main net environ fuel argv w =
  let (r, w') := api_CreateZone e1
    (mkZoneRequest name (fNs f) (fEmail f) (fRefresh f) (fRetry f) (fExpire f) (fTtl f)) w in
  (let! z := go_wrap CallFailed r in Ok (PrintZones [z]), w').
Proof.
  intros Hi Ht Hf. rewrite !Forall_cons in Hf. destruct Hf as (Ha & Hb & Hc & Hd & _).
  rewrite (main_zone _ _ _ _ _ _ _ _ _ _ _ Hi Ht), (zone_create _ _ _ _ f).
  - unfold st_bind, rpc. cbn [Service]. unfold zone_request. rewrite !i32_small by done.
    by destruct (api_CreateZone e1 _ w) as [[]].
  - apply Parse_render.
    + repeat (constructor; [split; [done|]; by apply (bool_decide_unpack _)|]). constructor.
    + destruct f as [ns email a b c d]. cbn [fRefresh fRetry fExpire fTtl] in *.
      lazy -[ParseInt0 FormatInt]. rewrite !ParseInt0_FormatInt by lia. done.
Qed.
End Commands.
