(* ===== verification/CliRuns.v ===== *)
(** * Concrete runs of remote calls, of the health check and of the command-line client *)

From Stdlib Require Import ZArith Lia Ascii String.
From stdpp Require Import base list strings countable.
From S2P Require Import Prelude GoStrings GoFlag HostPort Config Message Names RData RDataCorrect Store StoreCorrect StoreQueries.
From S2P Require Import Api ApiCorrect ApiRuns Events Daemon DaemonCorrect Connect Cli CliCorrect.

(** ** An encoding of the messages *)
Fixpoint pos_bytes (p : positive) : bytes :=
  match p with
  | xH => []
  | xO p => "0"%char :: pos_bytes p
  | xI p => "1"%char :: pos_bytes p
  end.

Fixpoint bytes_pos (b : bytes) : positive :=
  match b with
  | [] => xH
  | c :: b => if Ascii.eqb c "1"%char then xI (bytes_pos b) else xO (bytes_pos b)
  end.

Lemma bytes_pos_bytes p : bytes_pos (pos_bytes p) = p.
Proof. induction p as [p IH|p IH|]; cbn; by rewrite ?IH. Qed.

#[local] Instance ascii_countable_ref : Countable ascii := inj_countable' N_of_ascii ascii_of_N ascii_N_embedding.

#[local] Instance ZoneMsg_eq_dec : EqDecision ZoneMsg.
Proof. solve_decision. Defined.
#[local] Instance RecordMsg_eq_dec : EqDecision RecordMsg.
Proof. solve_decision. Defined.
#[local] Instance ZoneRequest_eq_dec : EqDecision ZoneRequest.
Proof. solve_decision. Defined.
#[local] Instance CreateRecordRequest_eq_dec : EqDecision CreateRecordRequest.
Proof. solve_decision. Defined.
#[local] Instance DeleteRecordRequest_eq_dec : EqDecision DeleteRecordRequest.
Proof. solve_decision. Defined.
#[local] Instance ListRecordsRequest_eq_dec : EqDecision ListRecordsRequest.
Proof. solve_decision. Defined.
#[local] Instance GetRecordsRequest_eq_dec : EqDecision GetRecordsRequest.
Proof. solve_decision. Defined.

#[local] Instance ZoneMsg_countable : Countable ZoneMsg.
Proof.
  refine (inj_countable'
    (fun m => (zmName m, zmPrimaryNs m, zmAdminEmail m, zmSerial m, zmRefresh m, zmRetry m, zmExpire m, zmMinimumTtl m, zmCreatedAt m, zmUpdatedAt m))
    (fun '(a, b, c, d, e, f, g, h, i, j) => mkZoneMsg a b c d e f g h i j) _). by intros [].
Defined.
#[local] Instance RecordMsg_countable : Countable RecordMsg.
Proof.
  refine (inj_countable' (fun m => (rmZone m, rmName m, rmType m, rmTtl m, rmRdata m, rmCreatedAt m))
    (fun '(a, b, c, d, e, f) => mkRecordMsg a b c d e f) _). by intros [].
Defined.
#[local] Instance ZoneRequest_countable : Countable ZoneRequest.
Proof.
  refine (inj_countable' (fun m => (qzName m, qzPrimaryNs m, qzAdminEmail m, qzRefresh m, qzRetry m, qzExpire m, qzMinimumTtl m))
    (fun '(a, b, c, d, e, f, g) => mkZoneRequest a b c d e f g) _). by intros [].
Defined.
#[local] Instance CreateRecordRequest_countable : Countable CreateRecordRequest.
Proof.
  refine (inj_countable' (fun m => (crZone m, crName m, crType m, crTtl m, crRdata m))
    (fun '(a, b, c, d, e) => mkCreateRecordRequest a b c d e) _). by intros [].
Defined.
#[local] Instance DeleteRecordRequest_countable : Countable DeleteRecordRequest.
Proof.
  refine (inj_countable' (fun m => (drZone m, drName m, drType m, drRdata m))
    (fun '(a, b, c, d) => mkDeleteRecordRequest a b c d) _). by intros [].
Defined.
#[local] Instance ListRecordsRequest_countable : Countable ListRecordsRequest.
Proof.
  refine (inj_countable' (fun m => (lrZone m, lrPageSize m, lrPageToken m)) (fun '(a, b, c) => mkListRecordsRequest a b c) _). by intros [].
Defined.
#[local] Instance GetRecordsRequest_countable : Countable GetRecordsRequest.
Proof.
  refine (inj_countable' (fun m => (grZone m, grName m, grType m)) (fun '(a, b, c) => mkGetRecordsRequest a b c) _). by intros [].
Defined.

#[local] Instance Request_eq_dec p : EqDecision (Request p).
Proof. destruct p; cbn; apply _. Defined.
#[local] Instance Response_eq_dec p : EqDecision (Response p).
Proof. destruct p; cbn; apply _. Defined.
#[local] Instance Request_countable p : Countable (Request p).
Proof. destruct p; cbn; apply _. Defined.
#[local] Instance Response_countable p : Countable (Response p).
Proof. destruct p; cbn; apply _. Defined.

Definition codec_ref : Codec :=
  Build_Codec (fun p m => pos_bytes (countable.encode m)) (fun p b => countable.decode (bytes_pos b))
    (fun p m => pos_bytes (countable.encode m)) (fun p b => countable.decode (bytes_pos b))
    CodeInvalidArgument (fun _ => CodeUnimplemented).

Lemma codec_ref_laws : @CodecLaws codec_ref.
Proof. constructor; cbn; intros; rewrite ?bytes_pos_bytes; by rewrite ?decode_encode. Qed.

#[local] Existing Instance unicode_id.
#[local] Existing Instance unicode_id_laws.
#[local] Existing Instance pg_ref.
#[local] Existing Instance pg_ref_laws.
#[local] Existing Instance codec_ref.
#[local] Existing Instance codec_ref_laws.

(** ** One server, on localhost *)
Definition no_reflection : route -> httpRequest -> httpResponse := fun _ _ => NotFound.

Definition api_net (token : gostring) (host : gostring) : option (httpRequest -> st world Code httpResponse) :=
  if bool_decide (host = lit "localhost:9053") then
    Some (api_server (Service ref_store env0 env0) token true None no_reflection)
  else None.

(** The environment of a client that has the token, and of one that has another. *)
Definition client_env (token : gostring) : gostring -> option gostring := env_of [(lit "SHARDDNS_TOKEN", token)].

Lemma localhost_serves token : serves_at ref_store env0 env0 (api_net token) token (lit "http://localhost:9053").
Proof.
  exists (lit "http"), (lit "localhost:9053"), 0, true, None, no_reflection.
  split; [reflexivity|]. split; [by apply (bool_decide_unpack _)|]. split; [by apply (bool_decide_unpack _)|].
  split; [done|]. reflexivity.
Qed.

Definition list_zones_argv : list gostring := [lit "zone"; lit "list"].
Definition api_world : world := mkWorld api_db [].

Lemma listed token tok :
  Forall (fun c => graphic c = true) tok ->
  invoked ref_store env0 env0 (api_net token) (client_env tok) token list_zones_argv tok list_zones_argv.
Proof.
  intros Ht. exists (lit "http://localhost:9053"). split; [reflexivity|]. split; [|done]. apply localhost_serves.
Qed.

Lemma Cli_refused_witness :
  snd (main (api_net (lit "secret")) (client_env (lit "guess")) 1 list_zones_argv api_world) = api_world.
Proof.
  refine (proj1 (Cli_refused ref_store env0 env0 (api_net (lit "secret")) (client_env (lit "guess")) (lit "secret")
    list_zones_argv (lit "guess") list_zones_argv 1 api_world _ _ _ _)).
  - apply listed. repeat (constructor; [reflexivity|]). constructor.
  - discriminate.
  - discriminate.
  - lia.
Defined.

Lemma api_db_ok : db_ok api_db.
Proof. apply (reachable_db_ok ref_store). apply (api_reachable_ok ref_store _ ref_store_total api_db_reachable). Qed.

Lemma Cli_lists_complete_witness :
  main (api_net (lit "secret")) (client_env (lit "secret")) 2 list_zones_argv api_world =
  (Ok (PrintZones (zoneToProto <$> order_by name_lt (zones api_db))), api_world).
Proof.
  refine (proj1 (Cli_lists_complete ref_store env0 env0 (api_net (lit "secret")) (client_env (lit "secret")) (lit "secret")
    list_zones_argv (lit "secret") list_zones_argv 2 api_world _ _ _ _ _ _) [] _ _).
  - apply listed. repeat (constructor; [reflexivity|]). constructor.
  - right. reflexivity.
  - exact (proj2 env0_ok).
  - exact (proj2 env0_ok).
  - exact ref_store_total.
  - exact api_db_ok.
  - reflexivity.
  - vm_compute. lia.
Defined.

(** [record add] and [record get] of a TXT record given as two words. *)
Definition add_argv (ttl : gostring) : list gostring :=
  [lit "record"; lit "add"; lit "example.com"; lit "note"; lit "txt"; ttl; lit "hello"; lit "world"].
Definition get_argv : list gostring := [lit "record"; lit "get"; lit "example.com"; lit "note"; lit "txt"].

Lemma invoked_here token argv :
  Forall (fun c => graphic c = true) token ->
  parse_global argv (lit "http://localhost:9053") token [] = Parsed (lit "http://localhost:9053") token argv ->
  invoked ref_store env0 env0 (api_net token) (client_env token) token argv token argv.
Proof.
  intros Ht Hp. exists (lit "http://localhost:9053"). split; [exact Hp|]. split; [|exact Ht]. apply localhost_serves.
Qed.

Lemma secret_graphic : Forall (fun c => graphic c = true) (lit "secret").
Proof. repeat (constructor; [reflexivity|]). constructor. Qed.

Abbreviation added ttl := (main (api_net (lit "secret")) (client_env (lit "secret")) 1 (add_argv ttl) api_world).

Definition note_msg : RecordMsg :=
  mkRecordMsg (lit "example.com") (lit "note.example.com") (lit "TXT") 60 (lit "hello world") 1000000.

Lemma added_prints : fst (added (lit "60")) = Ok (PrintRecords [note_msg]).
Proof. vm_compute. reflexivity. Qed.

Lemma Cli_add_get_witness :
  exists r rs, PrintRecords [note_msg] = PrintRecords [r] /\ rmTtl r = 60%Z /\
    main (api_net (lit "secret")) (client_env (lit "secret")) 1 get_argv (snd (added (lit "60"))) =
    (Ok (PrintRecords rs), snd (added (lit "60"))) /\ r ∈ rs.
Proof.
  refine (Cli_add_get ref_store env0 env0 (api_net (lit "secret")) (client_env (lit "secret")) (lit "secret") (lit "secret") (add_argv (lit "60"))
    env0 env0 (api_net (lit "secret")) (client_env (lit "secret")) (lit "secret") (lit "secret") get_argv
    (lit "example.com") (lit "note") (lit "txt") (lit "60") 60 (lit "hello") [lit "world"] [] 1 api_world
    (PrintRecords [note_msg]) (snd (added (lit "60"))) _ _ _ _ _ _ _ _ _).
  - apply invoked_here; [exact secret_graphic|reflexivity].
  - right. reflexivity.
  - reflexivity.
  - lia.
  - refine (pair_snd _ _ _). exact added_prints.
  - apply invoked_here; [exact secret_graphic|reflexivity].
  - right. reflexivity.
  - exact (proj2 env0_ok).
  - exact ref_store_total.
Defined.

(** A TTL beyond 32 bits is cut down to another one, without an error. *)
Lemma ttl_truncated : fst (added (lit "4294967356")) = Ok (PrintRecords [note_msg]).
Proof. vm_compute. reflexivity. Qed.

(** A record whose name is help cannot be added: the client prints its usage, and exits with 0. *)
Lemma help_name :
  main (api_net (lit "secret")) (client_env (lit "secret")) 1
    [lit "record"; lit "add"; lit "example.com"; lit "help"; lit "A"; lit "60"; lit "192.0.2.3"] api_world =
  (Ok PrintUsage, api_world).
Proof. vm_compute. reflexivity. Qed.

(** [zone create] with its flags. *)
Definition org_flags : zoneFlags := mkFlags (lit "ns.example.org.") (lit "admin@example.org") 7200 600 86400 120.
Definition create_argv : list gostring := lit "zone" :: lit "create" :: lit "example.org" :: zone_flags true org_flags.

Lemma Cli_zone_create_witness :
  main (api_net (lit "secret")) (client_env (lit "secret")) 1 create_argv api_world =
  (let (r, w') := api_CreateZone env0
    (mkZoneRequest (lit "example.org") (fNs org_flags) (fEmail org_flags) (fRefresh org_flags) (fRetry org_flags)
      (fExpire org_flags) (fTtl org_flags)) api_world in
  (let! z := go_wrap CallFailed r in Ok (PrintZones [z]), w')).
Proof.
  pose proof (Cli_zone_create ref_store env0 env0 (api_net (lit "secret")) (client_env (lit "secret")) (lit "secret") (lit "secret")
    create_argv (lit "example.org") true org_flags 1 api_world) as Hcreate.
  apply Hcreate; clear Hcreate.
  - apply invoked_here; [exact secret_graphic|reflexivity].
  - right. reflexivity.
  - repeat (constructor; [cbn; lia|]). constructor.
Defined.

(** The health check of the daemon, which listens on all addresses. *)
Definition ready_net (host : gostring) : option (httpRequest -> st world Code httpResponse) :=
  if bool_decide (host = lit "127.0.0.1:9053") then
    Some (api_server (Service ref_store env0 env0) (lit "secret") true None no_reflection)
  else None.

Lemma healthcheck_ready_witness : healthcheck daemon_env (http_get ready_net api_world) = 0%Z.
Proof.
  refine (proj2 (healthcheck_ready 4 daemon_env _ [] (lit "9053") ready_net (Service ref_store env0 env0) (lit "secret")
    true None no_reflection api_world _ _ _ _) _).
  - vm_compute. reflexivity.
  - reflexivity.
  - by apply (bool_decide_unpack _).
  - reflexivity.
  - split; [reflexivity|]. intros b Hb. discriminate Hb.
Defined.
